(* ===== verification/_CoqProject ===== *)
-Q . S2P
Prelude.v
Interleave.v
Float64.v
GoStrings.v
Json.v
Effects.v
Rapl.v
Instrumentation.v
Segments.v
Freezer.v
EnergyState.v
Paths.v
Archives.v
Packing.v
Addresses.v
Channel.v
Monitor.v
Payload.v
Recording.v
Executor.v
RunHandler.v
Progress.v
Threshold.v
Licence.v
Sequence.v
Launcher.v
InitHandler.v
Container.v
CommandLine.v
WaitOnce.v
Lock.v
Debug.v
Overlap.v
Serial.v
Collisions.v
Diagnostic.v
