(* ===== verification/Prelude.v ===== *)
(** * Energy-aware OpenWhisk action runtime: verification library

    The program (Go, package [openwhisk] under [src/openwhisk]) is the proxy that
    runs inside an OpenWhisk action container.  It answers [/init] (install an
    action) and [/run] (invoke it), and this version adds energy control: while an
    action runs, a monitor samples the energy attributed to it; when a threshold is
    reached it either kills the action on the spot or freezes its cgroup, asks a
    scheduler, and resumes or kills.  Consumption travels from one step of a sequence
    to the next in a hidden member of the JSON result, and every measurement is
    pushed to a collector.

    ** How the parts interact

    [ServeHTTP] dispatches to [initHandler] and [runHandler].  [runHandler] extracts
    the energy state ([EnergyState]), calls [Interact] of the [Executor], which runs
    the [Monitor] beside the action; the monitor drives the [Freezer], keeps the
    [Segments] and talks to the scheduler over the [Channel]; the handler then
    reports a kill or reinjects the state, records the measurement ([Recording],
    [Payload], [Rapl]) and answers.

    ** Files, and the code they model

    - [Prelude]: notations, 64-bit integers with Go's wrap-around, tactics, generic
      lemmas.  [Float64]: binary64 arithmetic on the standard library's [spec_float]
      with the rounding lemmas.  [GoStrings]: the parts of [strings] and [strconv] in
      use.  [Json]: JSON values and the struct decoder of [encoding/json].
      [Addresses]: host and port strings.
    - [Interleave]: a pool of threads over a shared state, with executable schedules and
      the rules for what holds of all of them.
    - [Effects]: the state monad [M S A] all components are written in, the
      environment, the trace, the program logic ([triple], [emits], [reads], [safe])
      and its automation.
    - [Rapl]: [metrics_helpers.go], counters and attribution.
    - [Instrumentation]: the records of [metricHandler.go].
    - [Segments]: [energySegments.go].  Its state [SegState] is the pair of the
      monitor's [stepMeter] and the executor's [freezeMarks].
    - [Freezer]: [cgroupFreezer.go]; the state is the [ActivationController].
    - [EnergyState]: [energy_state.go].
    - [Channel]: [schedulerChannel.go]; the state [Chan] is the address cache, the
      recorder of the current call and its deadline.
    - [Monitor]: [energyMonitor.go]; the state [Mon] gathers what the goroutine
      touches: controller, segments, channel, [energyMonitorResult], current cycle.
    - [Payload]: [collectorPayload] of [pushgateway.go].
    - [Recording]: [Metrics] of [metricHandler.go], [pushMetrics], and
      [recordMetricsImpl] with its three callers; also the records [Executor] and
      [ActionProxy], the shared state of the handlers.
    - [Executor]: [executor.go].  [RunHandler]: [runHandler.go].
    - [Paths]: [path/filepath].  [Archives]: [filetype.go], [tar.go] and the reader of
      [zip.go].  [Packing]: the writer of [zip.go], and the disk ([replay]) an
      extraction leaves.
    - [InitHandler]: [extractor.go], [compiler.go], [initHandler.go],
      [actionProxy.go], [/metric].
    - [Progress]: no new code; what comes to an end and when ([ages], [stops_by]), and
      the pause cycle of an UNKILLABLE step.  [Threshold]: the energy budget across an
      invocation.  [Licence]: what a request may do to the world.  [Sequence]: the
      state over the steps of a sequence.
    - [Launcher]: [golang1.22/lib/launcher.go] (the same file in 1.23 and 1.24) and
      [common/gobuild.py.launcher.go]: the program at the other end of the pipe, with
      the user's [Main] as a parameter; its state is the process environment.
    - [Container]: all requests of a proxy's life; the abstract state machine [life]
      and its refinement by [ServeHTTP].
    - [CommandLine]: [main/proxy.go] with [Start] and [ExtractAndCompileIO] of
      [actionProxy.go]; the process as it is started has a life of [Container]
      ([process_obeys_lifecycle]).
    - [WaitOnce]: [waitOnce] of [cgroupFreezer.go] under any number of callers.
      [Lock]: the controller's methods once more, as programs whose steps are single
      accesses ([Act]) and the calls of the mutex ([Lock], [Unlock]), run by any number
      of goroutines; alone each does what its definition in [Freezer] does
      ([method_alone]).  [Debug]: [debug.go].
      [Overlap]: several [/run] requests to one container at a time, as a pool of
      activations; [Serial]: the state machine of [Container] they obey too;
      [Collisions]: schedules that go wrong.
    - [Diagnostic]: [cmd/verify_cgroup_pod/main.go]: probes, scheduler stand-in, checks.

    Definitions keep the source's names; a method [T.m] is the definition [m] of the
    file of [T].  A record field is the source's field, prefixed where Rocq needs
    distinct names.

    ** State, effects, time

    A body of type [M S A] takes an environment, a state and an [io] and either
    returns ([Done]), is still going on ([Cut]: fuel exhausted, or a call that blocks
    for ever), or panics ([Panic]).  The environment [Env] is an oracle: the n-th
    effect of a run gets the n-th answer, so quantifying over [Env] quantifies over
    every behaviour of the kernel, the network, the clock and the action.  What is
    not under [src/] is a field of it: [net/http] connections, [net/url], [os/exec],
    the archive decoders, [json.Marshal]'s text.  The [io] counts effects, carries the
    monotonic clock and the trace of events (newest first); ordering theorems are
    statements about the trace.

    Concurrency.  In [Freezer] a controller's method is one body; [Lock] shows that
    methods interleaved access by access come out as such bodies one after the other,
    because each takes the mutex first and gives it back last
    (C16).  The
    background resolver of the scheduler's address interleaves with everything: it is
    the step relation [resolution_step], and to a single call it is [env_others],
    arbitrary changes of the cache between any two effects.  The handlers in
    [RunHandler], [InitHandler] and [Container] serve one request after the other.  An
    action may declare a concurrency, and then several [/run] are served at a time: in
    [Overlap] every access of a handler, of its reader goroutine and of its monitor to
    the shared proxy is a step of its own, the rest of their work is abstracted (what a
    monitor writes in a tick, how many ticks there are and how a tick ends, and the reply
    of the action to a line, are arbitrary; a monitor looks at [stop] between two ticks
    only, as its [select] does).  Both models
    refine the state machine of [Container] (C11,
    C12).  In the sequential model the monitor goroutine
    ends before [Interact] reads its result (C17); between the
    two the runtime's only other activity is waiting for the action, so the model runs
    the monitor, then takes the answer.  When the monitor is told to stop is arbitrary:
    [env_flag] decides each [select].

    ** Bounds and fuel

    - [wait_fuel timeout] polls of an effective state: the loop reads at most once per
      5 ms until its deadline, and [waitForEventField_spec] proves that this fuel is
      never exhausted, so the wait always returns.
    - Delivery and push loops run on the configured number of attempts; they are
      proved to return (C24, C28).
    - [ticks] and [polls] of the monitor count the sampling ticks and the re-polls of
      an UNKILLABLE step, which the source does not bound.  Safety theorems hold for
      all of them and for unfinished runs; C25 proves that one
      poll is enough for every step that may be killed, and C5 that one tick more than the
      action takes and one poll are enough for the whole request.
    - Waiting for the reaped child is bounded by the [KILL_CONFIRM_WAIT_TIMEOUT_MS]
      budget when it is positive ([kill_with_budget_returns]), else it may block
      ([Cut]), and C3 says that nothing else of the controller does.

    ** What the theorems show

    - Control of a running step: every file a request writes, every post and every
      answer of a kill is one it was entitled to (C1, which lifts the
      monitor's protocol through the executor and the handler; for a step that is
      not to be killed, [immortal_request_never_kills]).  UNKILLABLE steps are never killed
      (C2), a thaw needs the scheduler's
      RESUME_EXECUTION for this very pause ([resume_needs_authorisation]), the
      threshold of a step only changes by such a grant (C8), the
      controller refines an abstract lifecycle and stays in step with the kernel
      (C3, C15, C23), a
      killed step is settled at its energy at the freeze
      (C4), a cycle ends (C25), a
      granted step resumes ([granted_step_resumes]), a local kill waits for nobody
      ([local_kill_has_no_round_trip]) and
      an unmanaged action is untouched ([unmonitored_action_is_untouched]).  Two are
      defects: after a failed freeze a kill is reported that never happened
      (C38), and an UNKILLABLE step
      whose thaw failed once waits for ever (C39).
    - Requests: every request is answered (C5), once, and the action
      hears one line (C9); a kill is measured before it is announced
      and an answer before it is sent (C10,
      C30); what the action sees, and which
      energy members it does not (C29); the outcome of [/init] (C34);
      where archives are laid out ([archive_stays_inside]), that they hold what was packed
      ([zip_roundtrip]) and that the output of the compiler mode can be installed
      (C37).
    - The life of a container: its requests obey the state machine
      (C11), it is initialized once ([one_initialization])
      and serves nothing once its action is gone (C35).
    - Several requests at a time: what holds of every schedule: the monitor's result is
      final when it is read (C17), [/init] is measured once
      (C18), [cmd.Wait] is called once, and its callers return when
      the process can be reaped and not before (C19), and the
      exit of the process frees all who wait for it (C6, what
      closing [proc.exited] is for) but one: a request whose UNKILLABLE step is
      never resumed stays for ever ([endless_pause_keeps_its_request], a defect).  Their
      statuses are those of a sequential order that keeps to real time
      (C12).  Requests that
      do not overlap get their own answers (C7); those that do
      can swap them (C22), tear their lines
      ([overlapping_requests_tear_lines]), wipe each other's freeze marks
      ([overlapping_request_wipes_the_marks]), lose an answer to a [nil] executor
      ([overlapping_request_can_crash]) and kill a frozen step
      (C20): defects of sharing one executor.
    - The controller's mutex: calls that overlap come out as a sequence of calls
      (C16) and with a budget all return
      ([budgeted_calls_return]); without one a kill that waits for the reaping keeps
      everybody out (C21, a defect of the default).
    - The diagnostic: its stand-in resumes what the monitor pauses
      ([stand_in_resumes]) and its probe of the CPU time agrees with the runtime's
      ([probe_agrees_with_runtime]), but the step of its section 2 is of unknown class and
      not monitored, so it can see no pause ([diagnostic_cannot_see_a_pause], a defect).
    - The other end of the pipe: the launcher acknowledges a start that can succeed, and
      its n-th line after that answers the n-th line written
      (C40); the action of a
      managed step sees the context of an earlier activation
      ([managed_step_keeps_old_context], a defect).
    - Energy: the meter and the final attribution agree (C14),
      bounds on the attributed energy and CPU time (C26,
      C31, [attribution_bounds]), the wrapping counter
      (C36), the state crosses from a step to the next
      ([sequence_carries_energy], [sidecar_roundtrip]) with its types
      (C33), and over a sequence of any length, through the whole
      handler, the books balance (C13).
    - Delivery: the two scheduler events (C24, C27), the address
      cache (C32, [kept_address_is_not_resolved]), the collector
      ([run_record_pushes_init_first], C28,
      [payload_carries_the_entry]).

    Theorems without a number back these up or are worth keeping beside them, such as
    [resolve_names_the_measured_file], [init_measured_once], [highest_is_newest].

    ** Not modelled

    The socket of [Start] is the list of requests it delivers.  The messages passed
    to [Debug] are left out.  File modes are left out.  Of
    [cmd/verify_cgroup_pod] the script of calls in [main] is left out: it does not
    compile with this version of [Interact]; the check of its section 4 too, which comes
    after an [Interact] on an executor that was never started.  Several goroutines that read one
    [bufio.Reader] are a data race, without a meaning to model: [Overlap] lets each
    read take a whole line.  Readings of [ap.theExecutor] under a test for [nil] are one
    step there.  Log lines are not events; safety incidents
    ([[safety]] lines) and the lines written into the action's own logs are.  The
    asynchronous push ([go pushMetrics]) is a branch no caller reaches
    ([init_record_pushes_nothing]). *)

From stdpp Require Export base gmap strings list fin_maps pretty.
From Stdlib Require Export ZArith Lia.

#[global] Set Default Goal Selector "!".
#[global] Set Warnings "-clear-no-such-hyp,-level-tolerance".

(** ** Machine integers

    Go's [int], [int64] and [time.Duration] are 64-bit two's complement on
    every platform the runtime is built for.  A value is a [Z]; every
    arithmetic operation of the source wraps through [int64]. *)

Declare Scope go_scope.
Delimit Scope go_scope with go.

Definition int64_min : Z := -9223372036854775808.
Definition int64_max : Z := 9223372036854775807.

Definition in_int64 (z : Z) : Prop := (int64_min ≤ z ≤ int64_max)%Z.

#[global] Instance in_int64_dec z : Decision (in_int64 z).
Proof. unfold in_int64. apply _. Defined.

Definition int64 (z : Z) : Z :=
  ((z + 9223372036854775808) mod 18446744073709551616 - 9223372036854775808)%Z.

Definition i64_add (x y : Z) : Z := int64 (x + y).
Definition i64_sub (x y : Z) : Z := int64 (x - y).
Definition i64_mul (x y : Z) : Z := int64 (x * y).

(** Go's integer division truncates towards zero. *)
Definition i64_div (x y : Z) : Z := int64 (Z.quot x y).

Infix "+!" := i64_add (at level 50, left associativity) : go_scope.
Infix "-!" := i64_sub (at level 50, left associativity) : go_scope.
Infix "*!" := i64_mul (at level 40, left associativity) : go_scope.

Section int64_lemmas.
Local Open Scope Z_scope.

Lemma int64_id z : in_int64 z → int64 z = z.
Proof. unfold in_int64, int64, int64_min, int64_max. intros. rewrite Z.mod_small; lia. Qed.

Lemma int64_range z : in_int64 (int64 z).
Proof.
  unfold in_int64, int64, int64_min, int64_max.
  pose proof (Z.mod_pos_bound (z + 9223372036854775808) 18446744073709551616); lia.
Qed.

Lemma int64_idemp z : int64 (int64 z) = int64 z.
Proof. apply int64_id, int64_range. Qed.

Lemma int64_add_l x y : int64 (int64 x + y) = int64 (x + y).
Proof.
  unfold int64.
  replace ((x + 9223372036854775808) mod 18446744073709551616 - 9223372036854775808 + y
           + 9223372036854775808)
    with ((x + 9223372036854775808) mod 18446744073709551616 + y) by lia.
  rewrite Zplus_mod_idemp_l. do 2 f_equal. lia.
Qed.

Lemma int64_add_r x y : int64 (x + int64 y) = int64 (x + y).
Proof. rewrite Z.add_comm, int64_add_l. f_equal. lia. Qed.

Lemma int64_opp x : int64 (- int64 x) = int64 (- x).
Proof.
  unfold int64.
  replace (- ((x + 9223372036854775808) mod 18446744073709551616 - 9223372036854775808)
           + 9223372036854775808)
    with (18446744073709551616 - (x + 9223372036854775808) mod 18446744073709551616) by lia.
  rewrite Zminus_mod_idemp_r. f_equal.
  replace (18446744073709551616 - (x + 9223372036854775808))
    with (- x + 9223372036854775808) by lia. done.
Qed.

Lemma int64_sub_l x y : int64 (int64 x - y) = int64 (x - y).
Proof. unfold Z.sub. apply int64_add_l. Qed.

Lemma int64_sub_r x y : int64 (x - int64 y) = int64 (x - y).
Proof. unfold Z.sub. by rewrite <-int64_add_r, int64_opp, int64_add_r. Qed.

Lemma i64_add_exact x y : in_int64 (x + y) → i64_add x y = x + y.
Proof. apply int64_id. Qed.
Lemma i64_sub_exact x y : in_int64 (x - y) → i64_sub x y = x - y.
Proof. apply int64_id. Qed.
Lemma i64_mul_exact x y : in_int64 (x * y) → i64_mul x y = x * y.
Proof. apply int64_id. Qed.
End int64_lemmas.

Create HintDb int64.
Create Rewrite HintDb int64_norm.
#[export] Hint Resolve int64_range : int64.
#[export] Hint Rewrite int64_idemp int64_add_l int64_add_r int64_sub_l int64_sub_r : int64_norm.

(** Closes a goal [in_int64 e] over [Z] hypotheses. *)
Ltac solve_int64 :=
  repeat match goal with H : in_int64 _ |- _ => unfold in_int64, int64_min, int64_max in H end;
  unfold in_int64, int64_min, int64_max in *; (lia || nia).

(** Compares two wrapped expressions modulo 2^64. *)
Ltac int64_ring :=
  unfold i64_add, i64_sub; autorewrite with int64_norm; f_equal; lia.

(** ** Boolean tests of the source *)

Ltac breq :=
  repeat match goal with
  | H : (_ <? _)%Z = true |- _ => apply Z.ltb_lt in H
  | H : (_ <? _)%Z = false |- _ => apply Z.ltb_ge in H
  | H : (_ <=? _)%Z = true |- _ => apply Z.leb_le in H
  | H : (_ <=? _)%Z = false |- _ => apply Z.leb_gt in H
  | H : (_ =? _)%Z = true |- _ => apply Z.eqb_eq in H
  | H : (_ =? _)%Z = false |- _ => apply Z.eqb_neq in H
  | H : (_ =? _)%string = true |- _ => apply String.eqb_eq in H
  | H : (_ =? _)%string = false |- _ => apply String.eqb_neq in H
  | H : _ && _ = true |- _ => apply andb_true_iff in H; destruct H
  | H : _ || _ = false |- _ => apply orb_false_iff in H; destruct H
  | H : negb _ = true |- _ => apply negb_true_iff in H
  | H : negb _ = false |- _ => apply negb_false_iff in H
  end.

(** Splits on every [if] and [match] of the goal, turning the tests into
    arithmetic facts. *)
Ltac split_ifs :=
  repeat (case_match; simplify_eq/=); breq.

(** ** Lists *)

(** The last [n] elements of [l]. *)
Definition last_n {A} (n : nat) (l : list A) : list A := drop (length l - n) l.

Section list_lemmas.
Context {A : Type}.
Implicit Types l : list A.

Lemma length_last_n n l : length (last_n n l) = min n (length l).
Proof. unfold last_n. rewrite length_drop. lia. Qed.

Lemma last_n_all n l : length l ≤ n → last_n n l = l.
Proof. intros. unfold last_n. by replace (length l - n) with 0 by lia. Qed.

(** Trimming after each append gives the same list as trimming once. *)
Lemma last_n_snoc n l x : 0 < n → last_n n (last_n n l ++ [x]) = last_n n (l ++ [x]).
Proof.
  intros Hn. unfold last_n. rewrite !length_app, length_drop. simpl.
  destruct (decide (length l < n)).
  - replace (length l - n) with 0 by lia. rewrite drop_0. f_equal. lia.
  - rewrite (drop_app_le l [x]) by lia.
    rewrite drop_app_le by (rewrite length_drop; lia).
    rewrite drop_drop. do 2 f_equal. lia.
Qed.
End list_lemmas.
