(* ===== verification/Interleave.v ===== *)
(** * Goroutines that share a state

    A pool of threads over a shared state: at each step the world moves, or one
    thread makes one of its moves.  Moves are executable, so a schedule can be run;
    what holds of every schedule is proved thread by thread ([pool_each]) or with a
    measure ([pool_ends]). *)

From S2P Require Import Prelude.

(** Who moves, and which of its moves. *)
Inductive choice := World (n : nat) | Thread (i n : nat).

Section pool.
Context {S T : Type} (world : S → list S) (moves : S → T → list (S * T)).
Implicit Types (s : S) (t u : T) (l : list T) (x y : S * list T).

Inductive pstep : relation (S * list T) :=
  | ps_world s s' l : s' ∈ world s → pstep (s, l) (s', l)
  | ps_thread s s' l i t t' :
      l !! i = Some t → (s', t') ∈ moves s t → pstep (s, l) (s', <[i := t']> l).

(** ** Schedules *)

Definition fire (c : choice) x : option (S * list T) :=
  match c with
  | World n => (λ s', (s', x.2)) <$> world x.1 !! n
  | Thread i n => t ← x.2 !! i; r ← moves x.1 t !! n; Some (r.1, <[i := r.2]> x.2)
  end.

Fixpoint runs (cs : list choice) x : option (S * list T) :=
  match cs with
  | [] => Some x
  | c :: cs => y ← fire c x; runs cs y
  end.

Lemma fire_pstep c x y : fire c x = Some y → pstep x y.
Proof.
  destruct x as [s l], c as [n|i n]; simpl.
  - intros (s' & Hs & ->)%fmap_Some. apply ps_world. by eapply list_elem_of_lookup_2.
  - intros (t & Ht & (r & Hr & [= <-])%bind_Some)%bind_Some. destruct r as [s' t'].
    eapply ps_thread; [exact Ht|]. by eapply list_elem_of_lookup_2.
Qed.

Lemma runs_rtc cs x y : runs cs x = Some y → rtc pstep x y.
Proof.
  revert x. induction cs as [|c cs IH]; simpl; intros x; [by intros [= ->]|].
  intros (z & Hz & Hr)%bind_Some. eapply rtc_l; [by eapply fire_pstep|by apply IH].
Qed.

(** ** Invariants *)

Lemma pool_invariant (I : S * list T → Prop) x y :
  (∀ x y, I x → pstep x y → I y) → rtc pstep x y → I x → I y.
Proof. intros Hs. induction 1; eauto. Qed.

Lemma length_pstep x y : pstep x y → length y.2 = length x.2.
Proof. by destruct 1; simpl; rewrite ?length_insert. Qed.

(** What a step does to the threads: all but one stay as they are. *)
Lemma pstep_threads x y :
  pstep x y → y.2 = x.2 ∨ ∃ i t t', x.2 !! i = Some t ∧ (y.1, t') ∈ moves x.1 t ∧ y.2 = <[i := t']> x.2.
Proof. destruct 1 as [|s s' l i t t']; [by left|]. right. by exists i, t, t'. Qed.

(** [J] of the shared state and [P] of each thread, stable under the steps of the
    others. *)
Lemma pool_each (J : S → Prop) (P : S → T → Prop) :
  (∀ s s', J s → s' ∈ world s → J s' ∧ ∀ u, P s u → P s' u) →
  (∀ s t s' t', J s → P s t → (s', t') ∈ moves s t → J s' ∧ P s' t' ∧ ∀ u, P s u → P s' u) →
  ∀ x y, rtc pstep x y → J x.1 → Forall (P x.1) x.2 → J y.1 ∧ Forall (P y.1) y.2.
Proof.
  intros Hw Hm x y Hr HJ HP. apply (pool_invariant (λ x, J x.1 ∧ Forall (P x.1) x.2)) with (x := x); [|done|done].
  clear x y Hr HJ HP. intros x y [HJ HP] Hs. destruct Hs as [s s' l Hs|s s' l i t t' Hi Ht]; simpl in *.
  - destruct (Hw s s' HJ Hs) as [? Hu]. split; [done|]. eapply Forall_impl; [exact HP|]. auto.
  - assert (Hp : P s t) by (by eapply Forall_lookup_1). destruct (Hm s t s' t' HJ Hp Ht) as (? & ? & Hu).
    split; [done|]. apply Forall_insert; [|done]. eapply Forall_impl; [exact HP|]. auto.
Qed.

(** ** Termination *)

Section measure.
Context (J : S → Prop) (P : T → Prop) (rank_world : S → nat) (rank : T → nat).

Definition total x : nat := (rank_world x.1 + sum_list_with rank x.2)%nat.

Lemma sum_insert l i t t' :
  l !! i = Some t → (sum_list_with rank (<[i := t']> l) + rank t = sum_list_with rank l + rank t')%nat.
Proof.
  revert i. induction l as [|u l IH]; intros [|i] Hi; simpl in *; [done|done| |].
  - injection Hi as ->. lia.
  - specialize (IH i Hi). lia.
Qed.

Lemma pool_ends :
  (∀ s s', J s → s' ∈ world s → J s' ∧ (rank_world s' < rank_world s)%nat) →
  (∀ s t s' t', J s → P t → (s', t') ∈ moves s t →
     J s' ∧ P t' ∧ (rank_world s' + rank t' < rank_world s + rank t)%nat) →
  ∀ x, J x.1 → Forall P x.2 → Acc (flip pstep) x.
Proof.
  intros Hw Hm x. remember (total x) as n eqn:Hn. revert x Hn.
  induction (lt_wf n) as [n _ IH]. intros x -> HJ HP. constructor. intros y Hy. unfold flip in Hy.
  assert (J y.1 ∧ Forall P y.2 ∧ (total y < total x)%nat) as (HJ' & HP' & Hlt); [|by eapply IH].
  destruct Hy as [s s' l Hs|s s' l i t t' Hi Ht]; unfold total; simpl in *.
  - destruct (Hw s s' HJ Hs). split; [done|]. split; [done|lia].
  - destruct (Hm s t s' t' HJ (Forall_lookup_1 _ _ _ _ HP Hi) Ht) as (? & ? & ?). pose proof (sum_insert l i t t' Hi).
    split; [done|]. split; [by apply Forall_insert|lia].
Qed.
End measure.

(** When the world does not move, it is enough that each move takes its thread down a
    well-founded relation. *)
Section descent.
Context (R : relation T) (Hw : ∀ s, world s = []) (Hm : ∀ s t s' t', (s', t') ∈ moves s t → R t' t).

Lemma pool_descends x : Forall (Acc R) x.2 → Acc (flip pstep) x.
Proof.
  destruct x as [s l]. simpl. intros Hl. cut (Acc (λ l' l, ∃ i t t', l !! i = Some t ∧ R t' t ∧ l' = <[i := t']> l) l).
  { clear Hl. intros H. revert s. induction H as [l _ IH]. intros s. constructor. intros y Hy. unfold flip in Hy.
    inversion Hy as [? s' ? Hs|? s' ? i t t' Hi Ht]; subst; [rewrite Hw in Hs; by apply elem_of_nil in Hs|].
    apply IH. exists i, t, t'. split; [done|]. split; [by eapply Hm|done]. }
  induction Hl as [|t l Ht _ IHl]; [constructor; intros l' ([|i] & ? & ? & [=] & _)|].
  revert l IHl. induction Ht as [t Ht IHt]. intros l Hl. induction Hl as [l Hl IHl].
  constructor. intros l' (i & u & u' & Hi & Hu & ->). destruct i as [|i]; simpl in *.
  - injection Hi as ->. by apply (IHt u' Hu), Acc_intro.
  - apply IHl. by exists i, u, u'.
Qed.
End descent.
End pool.

Arguments runs_rtc {S T world moves} _ _ _ _.
