(* ===== verification/Float64.v ===== *)
(** * IEEE-754 binary64

    The source computes energies in Go's [float64].  A [float64] is a value of
    the standard library's [spec_float] at precision 53 and exponent bound
    1024; every arithmetic operation is the correctly rounded one
    (round-to-nearest, ties to even).  The rounding lemmas the energy
    components rely on are proved here from the definitions: a rounded result
    never exceeds a representable upper bound, and conversion of integers below
    2^53 is exact. *)

From S2P Require Import Prelude.
From Corelib Require Export SpecFloat.

Local Open Scope Z_scope.

Abbreviation f64 := spec_float.

#[global] Instance f64_eq_dec : EqDecision f64.
Proof. solve_decision. Defined.

(** ** Conversions and operations *)

(** [float64(z)] for an integer [z]. *)
Definition f64_of_Z (z : Z) : f64 := binary_normalize 53 1024 z 0 false.

Definition f64_add : f64 → f64 → f64 := SFadd 53 1024.
Definition f64_sub : f64 → f64 → f64 := SFsub 53 1024.
Definition f64_mul : f64 → f64 → f64 := SFmul 53 1024.
Definition f64_div : f64 → f64 → f64 := SFdiv 53 1024.
Definition f64_ltb : f64 → f64 → bool := SFltb.
Definition f64_leb : f64 → f64 → bool := SFleb.
Definition f64_gtb (x y : f64) : bool := SFltb y x.
Definition f64_geb (x y : f64) : bool := SFleb y x.
Definition f64_eqb : f64 → f64 → bool := SFeqb.

Definition f64_is_finite (x : f64) : bool :=
  match x with S754_zero _ | S754_finite _ _ _ => true | _ => false end.

(** Integer part, towards zero; [None] for an infinity or a NaN. *)
Definition f64_trunc (x : f64) : option Z :=
  match x with
  | S754_zero _ => Some 0
  | S754_finite s m e =>
      let a := if 0 <=? e then Zpos m * 2 ^ e else Zpos m / 2 ^ (- e) in
      Some (if s then - a else a)
  | _ => None
  end.

(** [int64(x)].  Out of range the language leaves the result to the
    implementation; this is the one of amd64, the platform the runtime is
    deployed on (the "integer indefinite" value). *)
Definition f64_to_int64 (x : f64) : Z :=
  match f64_trunc x with
  | Some z => if decide (in_int64 z) then z else int64_min
  | None => int64_min
  end.

Definition f64_zero : f64 := S754_zero false.
Definition f64_one : f64 := S754_finite false 4503599627370496 (-52).

(** The literal [1e6]. *)
Definition f64_1e6 : f64 := f64_of_Z 1000000.

Infix "⊕" := f64_add (at level 50, left associativity) : go_scope.
Infix "⊖" := f64_sub (at level 50, left associativity) : go_scope.
Infix "⊗" := f64_mul (at level 40, left associativity) : go_scope.
Infix "⊘" := f64_div (at level 40, left associativity) : go_scope.

(** Correctly rounded decimal [(-1)^s * m * 10^e], as [strconv.ParseFloat]
    computes it. *)
Definition f64_of_decimal (s : bool) (m : N) (e : Z) : f64 :=
  match m with
  | N0 => S754_zero s
  | Npos p =>
      if 0 <=? e then
        let r := binary_normalize 53 1024 (Zpos p * 10 ^ e) 0 false in
        if s then SFopp r else r
      else
        let '(mz, ez, lz) := SFdiv_core_binary 53 1024 (Zpos p) 0 (10 ^ (- e)) 0 in
        binary_round_aux 53 1024 s mz ez lz
  end.

(** ** Well-formed values *)

(** Mantissas of finite results fit in 53 bits. *)
Definition f64_wf (x : f64) : Prop :=
  match x with S754_finite _ m _ => Zpos m < 2 ^ 53 | _ => True end.

Definition f64_sign (x : f64) : option bool :=
  match x with
  | S754_zero s | S754_infinity s | S754_finite s _ _ => Some s
  | S754_nan => None
  end.

(** ** Digits and shifts *)

Lemma digits2_pos_bounds m :
  2 ^ (Zpos (digits2_pos m) - 1) ≤ Zpos m < 2 ^ Zpos (digits2_pos m).
Proof.
  induction m as [m IH|m IH|]; simpl digits2_pos; [| |by vm_compute; split].
  all: rewrite Pos2Z.inj_succ; replace (Z.succ (Zpos (digits2_pos m)) - 1)
         with (Z.succ (Zpos (digits2_pos m) - 1)) by lia.
  all: rewrite !Z.pow_succ_r by lia; lia.
Qed.

Lemma digits2_le m k : 0 ≤ k → Zpos m < 2 ^ k → Zpos (digits2_pos m) ≤ k.
Proof.
  intros Hk Hm. pose proof (digits2_pos_bounds m) as [Hl _].
  destruct (decide (Zpos (digits2_pos m) ≤ k)) as [|Hn]; [done|].
  assert (2 ^ k ≤ 2 ^ (Zpos (digits2_pos m) - 1)) by (apply Z.pow_le_mono_r; lia). lia.
Qed.

Lemma iter_pos_nat {A} (f : A → A) p x : iter_pos f p x = Nat.iter (Pos.to_nat p) f x.
Proof.
  revert x. induction p as [p IH|p IH|]; intros x; cbn [iter_pos]; [| |done].
  - rewrite !IH, <-Nat.iter_succ_r, <-Nat.iter_add.
    do 2 f_equal. lia.
  - rewrite !IH, <-Nat.iter_add. f_equal. lia.
Qed.

(** A record that is [m] shifted right [n] times keeps the quotient, and its
    two sticky bits say whether the remainder is zero. *)
Definition shr_of (m : Z) (n : nat) (r : shr_record) : Prop :=
  shr_m r = m / 2 ^ Z.of_nat n ∧
  (shr_r r || shr_s r = false ↔ m mod 2 ^ Z.of_nat n = 0).

Lemma shr_1_of m n r : 0 ≤ m → shr_of m n r → shr_of m (S n) (shr_1 r).
Proof.
  intros Hm [Hq Hr]. unfold shr_of. rewrite Nat2Z.inj_succ, Z.pow_succ_r by lia.
  assert (Hp : 0 < 2 ^ Z.of_nat n) by (apply Z.pow_pos_nonneg; lia).
  rewrite (Z.mul_comm 2), <-Z.div_div by lia.
  rewrite (Z.rem_mul_r m (2 ^ Z.of_nat n) 2) by lia.
  rewrite <-Hq.
  assert (0 ≤ m / 2 ^ Z.of_nat n) by (apply Z.div_pos; lia).
  pose proof (Z.mod_pos_bound m (2 ^ Z.of_nat n) Hp).
  destruct r as [[|[q|q|]|q] rr rs]; simpl in *; [| | | |lia].
  - change (0 / 2) with 0; change (0 mod 2) with 0. rewrite Z.mul_0_r, Z.add_0_r, <-Hr.
    by destruct rr, rs.
  - replace (Z.pos q~1 / 2) with (Z.pos q) by (apply (Z.div_unique_pos _ _ _ 1); lia).
    replace (Z.pos q~1 mod 2) with 1 by (apply (Z.mod_unique_pos _ _ (Z.pos q)); lia).
    split; [done|]. split; [by destruct rr, rs|intros; nia].
  - replace (Z.pos q~0 / 2) with (Z.pos q) by (apply (Z.div_unique_pos _ _ _ 0); lia).
    replace (Z.pos q~0 mod 2) with 0 by (apply (Z.mod_unique_pos _ _ (Z.pos q)); lia).
    rewrite Z.mul_0_r, Z.add_0_r, <-Hr. by destruct rr, rs.
  - change (1 / 2) with 0; change (1 mod 2) with 1.
    split; [done|]. split; [by destruct rr, rs|intros; nia].
Qed.

Lemma shr_iter_of m n : 0 ≤ m → shr_of m n (Nat.iter n shr_1 (Build_shr_record m false false)).
Proof.
  intros Hm. induction n as [|n IH]; simpl.
  - unfold shr_of. simpl. rewrite Z.div_1_r, Z.mod_1_r. done.
  - by apply shr_1_of.
Qed.

(** Rounding a shifted record stays between the quotient and any integer that
    bounds the exact value from above. *)
Lemma round_shifted_bounds m n r N :
  0 ≤ m → shr_of m n r → m ≤ N * 2 ^ Z.of_nat n →
  m / 2 ^ Z.of_nat n ≤ round_nearest_even (shr_m r) (loc_of_shr_record r) ≤ N.
Proof.
  intros Hm [Hq Hr] HN.
  assert (Hp : 0 < 2 ^ Z.of_nat n) by (apply Z.pow_pos_nonneg; lia).
  pose proof (Z.div_mod m (2 ^ Z.of_nat n)) as Hdm.
  pose proof (Z.mod_pos_bound m _ Hp).
  assert (Hup : m / 2 ^ Z.of_nat n ≤ N) by nia.
  assert (Hup' : m mod 2 ^ Z.of_nat n ≠ 0 → m / 2 ^ Z.of_nat n + 1 ≤ N) by (intros; nia).
  destruct r as [q rr rs]; simpl in *. subst q.
  destruct rr, rs; simpl in *; try case_match;
    try (assert (m mod 2 ^ Z.of_nat n ≠ 0) by (intros ?; intuition congruence)); intuition lia.
Qed.

(** ** Rounding *)

Abbreviation fexp64 := (fexp 53 1024).

Lemma fexp64_eq e : fexp64 e = Z.max (e - 53) (-1074).
Proof. reflexivity. Qed.

Lemma shr_nat r e n :
  shr r e n = (Nat.iter (Z.to_nat n) shr_1 r, e + Z.of_nat (Z.to_nat n)).
Proof.
  destruct n as [|p|p]; simpl.
  - f_equal; lia.
  - rewrite iter_pos_nat. f_equal; lia.
  - f_equal; lia.
Qed.

Lemma shr_exact m e n :
  shr (shr_record_of_loc m loc_Exact) e n =
  (Nat.iter (Z.to_nat n) shr_1 (Build_shr_record m false false), e + Z.of_nat (Z.to_nat n)).
Proof. apply shr_nat. Qed.

(** A mantissa and exponent in the format's canonical form. *)
Definition canonical64 (m : positive) (e : Z) : Prop :=
  fexp64 (Zpos (digits2_pos m) + e) = e ∧ e ≤ 971.

Lemma round_canonical s m e :
  canonical64 m e → binary_round_aux 53 1024 s (Zpos m) e loc_Exact = S754_finite s m e.
Proof.
  intros [Hc He]. unfold binary_round_aux, shr_fexp. simpl Zdigits2.
  rewrite Hc, Z.sub_diag. simpl. rewrite Hc, Z.sub_diag. simpl.
  change (1024 - 53) with 971. by rewrite (proj2 (Z.leb_le e 971)).
Qed.

Lemma digits_scaled_le m e m1 e1 :
  e ≤ e1 → Zpos m ≤ Zpos m1 * 2 ^ (e1 - e) →
  Zpos (digits2_pos m) + e ≤ Zpos (digits2_pos m1) + e1.
Proof.
  intros He Hm.
  enough (Zpos (digits2_pos m) ≤ Zpos (digits2_pos m1) + (e1 - e)) by lia.
  apply digits2_le; [lia|]. rewrite Z.pow_add_r by lia.
  pose proof (digits2_pos_bounds m1). assert (0 < 2 ^ (e1 - e)) by (apply Z.pow_pos_nonneg; lia).
  nia.
Qed.

Lemma pow2_split a b : 0 ≤ a → 0 ≤ b → 2 ^ (a + b) = 2 ^ a * 2 ^ b.
Proof. intros. by apply Z.pow_add_r. Qed.

(** First stage of the rounding: the rounded mantissa stays below a canonical
    upper bound, and its exponent does not exceed the bound's. *)
Lemma round_stage1 m e m1 e1 :
  e ≤ e1 → canonical64 m1 e1 → Zpos m ≤ Zpos m1 * 2 ^ (e1 - e) →
  let k := Z.to_nat (fexp64 (Zpos (digits2_pos m) + e) - e) in
  let r := Nat.iter k shr_1 (Build_shr_record (Zpos m) false false) in
  let m' := round_nearest_even (shr_m r) (loc_of_shr_record r) in
  e + Z.of_nat k ≤ e1 ∧ 0 ≤ m' ≤ Zpos m1 * 2 ^ (e1 - (e + Z.of_nat k)).
Proof.
  intros He [Hc _] Hm k r m'.
  assert (Hk : e + Z.of_nat k ≤ e1).
  { pose proof (digits_scaled_le m e m1 e1 He Hm). subst k. rewrite fexp64_eq in *. lia. }
  split; [done|].
  pose proof (round_shifted_bounds (Zpos m) k r (Zpos m1 * 2 ^ (e1 - (e + Z.of_nat k)))) as Hb.
  assert (0 ≤ Zpos m / 2 ^ Z.of_nat k) by (apply Z.div_pos; [lia|apply Z.pow_pos_nonneg; lia]).
  enough (Zpos m / 2 ^ Z.of_nat k ≤ m' ≤ Zpos m1 * 2 ^ (e1 - (e + Z.of_nat k))) by lia.
  apply Hb; [lia|apply shr_iter_of; lia|].
  rewrite <-Z.mul_assoc, <-pow2_split by lia.
  by replace (e1 - (e + Z.of_nat k) + Z.of_nat k) with (e1 - e) by lia.
Qed.

(** Correct rounding never exceeds a representable bound (and so never
    overflows below one). *)
Lemma round_le s m e m1 e1 :
  e ≤ e1 → canonical64 m1 e1 → Zpos m ≤ Zpos m1 * 2 ^ (e1 - e) →
  match binary_round_aux 53 1024 s (Zpos m) e loc_Exact with
  | S754_zero s' => s' = s
  | S754_finite s' m' e' => s' = s ∧ e' ≤ e1 ∧ Zpos m' ≤ Zpos m1 * 2 ^ (e1 - e')
  | _ => False
  end.
Proof.
  intros He Hcan Hm. pose proof (round_stage1 m e m1 e1 He Hcan Hm) as Hs1.
  cbv zeta in Hs1.
  unfold binary_round_aux, shr_fexp. simpl Zdigits2. rewrite shr_exact.
  set (k := Z.to_nat (fexp64 (Zpos (digits2_pos m) + e) - e)) in *.
  set (r := Nat.iter k shr_1 _) in *. set (m' := round_nearest_even _ _) in *.
  set (e' := e + Z.of_nat k) in *. destruct Hs1 as [He' Hm'].
  rewrite shr_exact. set (k2 := Z.to_nat (fexp64 (Zdigits2 m' + e') - e')).
  destruct (shr_iter_of m' k2) as [Hq _]; [lia|]. rewrite Hq.
  destruct m' as [|p'|p'] eqn:Em'; [by rewrite Z.div_0_l by (apply Z.pow_nonzero; lia)| |lia].
  assert (Hk2 : e' + Z.of_nat k2 ≤ e1).
  { pose proof (digits_scaled_le p' e' m1 e1 He' ltac:(lia)). destruct Hcan as [Hc _].
    subst k2. rewrite fexp64_eq in *. simpl Zdigits2. lia. }
  assert (Hp2 : 0 < 2 ^ Z.of_nat k2) by (apply Z.pow_pos_nonneg; lia).
  assert (Hle : Zpos p' / 2 ^ Z.of_nat k2 ≤ Zpos m1 * 2 ^ (e1 - (e' + Z.of_nat k2))).
  { apply Z.div_le_upper_bound; [lia|].
    replace (e1 - e') with (Z.of_nat k2 + (e1 - (e' + Z.of_nat k2))) in Hm' by lia.
    rewrite pow2_split in Hm' by lia. lia. }
  assert (0 ≤ Zpos p' / 2 ^ Z.of_nat k2) by (apply Z.div_pos; lia).
  destruct (Zpos p' / 2 ^ Z.of_nat k2) as [|q|q]; [done| |lia].
  destruct Hcan as [_ H971].
  rewrite (proj2 (Z.leb_le _ _)); [done|]. lia.
Qed.

(** Results carry the given sign and a mantissa of at most 53 bits. *)
Lemma round_wf s m e l :
  0 ≤ m →
  f64_wf (binary_round_aux 53 1024 s m e l) ∧
  f64_sign (binary_round_aux 53 1024 s m e l) = Some s.
Proof.
  intros Hm. unfold binary_round_aux, shr_fexp. rewrite shr_nat.
  set (k := Z.to_nat _). set (r := Nat.iter k shr_1 _).
  set (m' := round_nearest_even _ _).
  assert (Hr : 0 ≤ shr_m r).
  { subst r. clear -Hm.
    assert (H0 : 0 ≤ shr_m (shr_record_of_loc m l)) by (by destruct l as [|[]]).
    induction k as [|k IH]; simpl; [done|].
    by destruct (Nat.iter k shr_1 _) as [[|[]|[]] ? ?]. }
  assert (Hm' : 0 ≤ m') by (subst m'; unfold round_nearest_even; repeat case_match; lia).
  rewrite shr_exact. set (e' := e + Z.of_nat k).
  set (k2 := Z.to_nat _).
  destruct (shr_iter_of m' k2 Hm') as [Hq _]. rewrite Hq.
  assert (Hp2 : 0 < 2 ^ Z.of_nat k2) by (apply Z.pow_pos_nonneg; lia).
  destruct m' as [|p'|p'] eqn:Em'; [by rewrite Z.div_0_l by lia| |lia].
  assert (Hlt : Zpos p' / 2 ^ Z.of_nat k2 < 2 ^ 53).
  { apply Z.div_lt_upper_bound; [lia|]. rewrite Z.mul_comm, <-pow2_split by lia.
    pose proof (digits2_pos_bounds p') as [_ Hd]. eapply Z.lt_le_trans; [exact Hd|].
    apply Z.pow_le_mono_r; [lia|]. subst k2. simpl Zdigits2. rewrite fexp64_eq. lia. }
  assert (0 ≤ Zpos p' / 2 ^ Z.of_nat k2) by (apply Z.div_pos; lia).
  destruct (Zpos p' / 2 ^ Z.of_nat k2) as [|q|q]; [done| |lia].
  by case_match.
Qed.

(** ** Exactness of integer conversion *)

Lemma pos_iter_xO m q : Zpos (Pos.iter xO m q) = Zpos m * 2 ^ Zpos q.
Proof.
  induction q as [|q IH] using Pos.peano_ind; [simpl; lia|].
  rewrite Pos.iter_succ, Pos2Z.inj_succ, Z.pow_succ_r by lia.
  rewrite Pos2Z.inj_xO, IH. lia.
Qed.

Lemma digits2_exact m k : 0 < k → 2 ^ (k - 1) ≤ Zpos m < 2 ^ k → Zpos (digits2_pos m) = k.
Proof.
  intros Hk [Hl Hu]. pose proof (digits2_pos_bounds m) as [Hl' Hu'].
  pose proof (digits2_le m k ltac:(lia) Hu).
  assert (k - 1 < Zpos (digits2_pos m)); [|lia].
  apply (Z.pow_lt_mono_r_iff 2); lia.
Qed.

(** Below 2^53 the conversion keeps the integer, as a canonical value. *)
Lemma f64_of_Z_exact d :
  0 < d < 2 ^ 53 →
  ∃ m e, f64_of_Z d = S754_finite false m e ∧ canonical64 m e ∧ e ≤ 0 ∧ Zpos m = d * 2 ^ (- e).
Proof.
  intros [Hpos Hlt]. destruct d as [|p|p]; [lia| |lia].
  pose proof (digits2_pos_bounds p) as [Hl Hu].
  pose proof (digits2_le p 53 ltac:(lia) Hlt) as Hd.
  unfold f64_of_Z, binary_normalize, binary_round, shl_align.
  rewrite fexp64_eq, Z.max_l by lia.
  set (k := Zpos (digits2_pos p)) in *.
  destruct (k + 0 - 53 - 0) as [|q|q] eqn:Ek.
  - exists p, 0. rewrite Z.mul_1_r. split; [|split; [|done]].
    + apply round_canonical. split; [|lia]. rewrite fexp64_eq. lia.
    + split; [|lia]. rewrite fexp64_eq. lia.
  - lia.
  - assert (Hm : Zpos (Pos.iter xO p q) = Zpos p * 2 ^ (53 - k)).
    { rewrite pos_iter_xO. do 2 f_equal. lia. }
    assert (Hc : canonical64 (Pos.iter xO p q) (k + 0 - 53)).
    { split; [|lia]. rewrite (digits2_exact _ 53); [rewrite fexp64_eq; lia|lia|].
      assert (0 < 2 ^ (53 - k)) by (apply Z.pow_pos_nonneg; lia).
      assert (2 ^ (k - 1) * 2 ^ (53 - k) = 2 ^ 52) by (rewrite <-pow2_split by lia; f_equal; lia).
      assert (2 ^ k * 2 ^ (53 - k) = 2 ^ 53) by (rewrite <-pow2_split by lia; f_equal; lia).
      rewrite Hm. nia. }
    eexists _, _. split; [by apply round_canonical|]. split; [done|]. split; [lia|].
    rewrite Hm. do 2 f_equal. lia.
Qed.

Lemma f64_of_Z_trunc d : 0 ≤ d < 2 ^ 53 → f64_trunc (f64_of_Z d) = Some d.
Proof.
  intros Hd. destruct (decide (d = 0)) as [->|]; [done|].
  destruct (f64_of_Z_exact d) as (m & e & -> & _ & He & Hm); [lia|]. simpl. f_equal.
  case_match; breq.
  - assert (e = 0) as -> by lia. lia.
  - rewrite Hm, Z.div_mul; [done|apply Z.pow_nonzero; lia].
Qed.

(** ** Ratios *)

(** A usable ratio: non-negative, at most 1. *)
Definition unit_ratio (r : f64) : Prop :=
  f64_wf r ∧ f64_sign r = Some false ∧ f64_gtb r f64_one = false ∧ f64_is_finite r = true.

Lemma unit_ratio_one : unit_ratio f64_one.
Proof. done. Qed.

Lemma unit_ratio_bound m e :
  unit_ratio (S754_finite false m e) → e ≤ 0 ∧ Zpos m ≤ 2 ^ (- e).
Proof.
  intros (Hwf & _ & Hle & _). simpl in Hwf.
  unfold f64_gtb, f64_one, SFltb, SFcompare in Hle.
  destruct (Z.compare_spec (-52) e) as [<-|Hc|Hc]; [|done|].
  - split; [lia|]. change (Pos.compare_cont Eq 4503599627370496 m) with
      (Pos.compare 4503599627370496 m) in Hle.
    change (2 ^ (- (-52))) with 4503599627370496.
    assert (Hn : Pos.compare 4503599627370496 m ≠ Lt).
    { intros E. rewrite E in Hle. discriminate Hle. }
    apply Pos.le_nlt in Hn. exact Hn.
  - split; [lia|]. assert (2 ^ 53 ≤ 2 ^ (- e)) by (apply Z.pow_le_mono_r; lia). lia.
Qed.

(** Weighting an exactly represented amount by a ratio and truncating stays
    between zero and the amount. *)
Lemma f64_weight_bounds d r :
  0 < d < 2 ^ 53 → unit_ratio r →
  ∃ z, f64_trunc (f64_mul (f64_of_Z d) r) = Some z ∧ 0 ≤ z ≤ d.
Proof.
  intros Hd Hr. destruct (f64_of_Z_exact d Hd) as (m1 & e1 & -> & Hcan & He1 & Hm1).
  pose proof Hr as (Hwf & Hs & Hle & Hfin).
  destruct r as [s|s| |s m2 e2]; simplify_eq/=.
  - exists 0. split; [done|lia].
  - destruct (unit_ratio_bound m2 e2 Hr) as [He2 Hm2].
    pose proof (round_le false (m1 * m2) (e1 + e2) m1 e1 ltac:(lia) Hcan) as Hrnd.
    replace (e1 - (e1 + e2)) with (- e2) in Hrnd by lia.
    specialize (Hrnd ltac:(rewrite Pos2Z.inj_mul; apply Z.mul_le_mono_nonneg_l; lia)).
    unfold f64_mul, SFmul. simpl xorb. rewrite Pos2Z.inj_mul in *.
    change (Z.pos m1 * Z.pos m2) with (Z.pos (m1 * m2)) in *.
    destruct (binary_round_aux 53 1024 false (Zpos (m1 * m2)) (e1 + e2) loc_Exact)
      as [s|s| |s m' e']; try done; [exists 0; split; [done|lia]|].
    destruct Hrnd as (-> & He' & Hm'). simpl. eexists. split; [done|].
    rewrite Hm1, <-Z.mul_assoc, <-pow2_split in Hm' by lia.
    replace (- e1 + (e1 - e')) with (- e') in Hm' by lia.
    assert (0 < 2 ^ (- e')) by (apply Z.pow_pos_nonneg; lia).
    case_match; breq.
    + assert (e' = 0) as -> by lia. change (2 ^ 0) with 1. change (2 ^ (- 0)) with 1 in Hm'. lia.
    + split; [apply Z.div_pos; lia|]. apply Z.div_le_upper_bound; lia.
Qed.

Lemma div_core_nonneg m1 e1 m2 e2 :
  0 ≤ (SFdiv_core_binary 53 1024 (Zpos m1) e1 (Zpos m2) e2).1.1.
Proof.
  unfold SFdiv_core_binary.
  match goal with |- context [Z.div_eucl ?x ?y] => set (n := x) end.
  assert (Hn : 0 ≤ n).
  { subst n. destruct (e1 - e2 - _) as [|s|s] eqn:E; [done| |done].
    by apply Z.shiftl_nonneg. }
  pose proof (Z.div_pos n (Zpos m2) Hn ltac:(lia)) as Hq.
  unfold Z.div in Hq. by destruct (Z.div_eucl n (Zpos m2)).
Qed.

(** The quotient of two positive exactly represented integers is a
    non-negative value with a 53-bit mantissa. *)
Lemma f64_div_pos a b :
  0 < a < 2 ^ 53 → 0 < b < 2 ^ 53 →
  f64_wf (f64_div (f64_of_Z a) (f64_of_Z b)) ∧
  f64_sign (f64_div (f64_of_Z a) (f64_of_Z b)) = Some false.
Proof.
  intros Ha Hb.
  destruct (f64_of_Z_exact a Ha) as (m1 & e1 & -> & _).
  destruct (f64_of_Z_exact b Hb) as (m2 & e2 & -> & _).
  unfold f64_div, SFdiv. pose proof (div_core_nonneg m1 e1 m2 e2) as Hq.
  destruct (SFdiv_core_binary _ _ _ _ _ _) as [[mz ez] lz].
  by apply round_wf.
Qed.

(** ** Checks against known binary64 values *)

Example f64_tenth : f64_of_decimal false 1 (-1) = S754_finite false 7205759403792794 (-56).
Proof. reflexivity. Qed.

Example f64_0_1_plus_0_2 :
  f64_add (f64_of_decimal false 1 (-1)) (f64_of_decimal false 2 (-1)) =
  f64_of_decimal false 30000000000000004 (-17).
Proof. reflexivity. Qed.

Example f64_third_of_300 :
  f64_to_int64 (f64_mul (f64_of_Z 300000000) (f64_div (f64_of_Z 1) (f64_of_Z 3))) = 100000000.
Proof. reflexivity. Qed.

(** ** Well-formedness of conversions *)

Lemma f64_wf_opp x : f64_wf x → f64_wf (SFopp x).
Proof. by destruct x. Qed.

Lemma binary_round_wf s p e : f64_wf (binary_round 53 1024 s p e).
Proof. unfold binary_round. destruct (shl_align _ _ _). apply round_wf. lia. Qed.

Lemma binary_normalize_wf m e s : f64_wf (binary_normalize 53 1024 m e s).
Proof. destruct m; [done|apply binary_round_wf..]. Qed.

Lemma f64_of_decimal_wf s m e : f64_wf (f64_of_decimal s m e).
Proof.
  unfold f64_of_decimal. destruct m as [|p]; [done|]. case_match.
  - destruct s; [apply f64_wf_opp|]; apply binary_normalize_wf.
  - assert (Hp : 0 < 10 ^ (- e)) by (apply Z.pow_pos_nonneg; breq; lia).
    destruct (10 ^ (- e)) as [|q|q] eqn:Eq; [done| |done].
    pose proof (div_core_nonneg p 0 q 0).
    destruct (SFdiv_core_binary _ _ _ _ _ _) as [[mz ez] lz]. by apply round_wf.
Qed.

Lemma SFcompare_antisym_pos m1 e1 m2 e2 :
  SFcompare (S754_finite false m2 e2) (S754_finite false m1 e1) =
  option_map CompOpp (SFcompare (S754_finite false m1 e1) (S754_finite false m2 e2)).
Proof.
  simpl. rewrite (Z.compare_antisym e1 e2). destruct (e1 ?= e2); simpl; [|done..].
  f_equal. symmetry. apply Pos.compare_cont_antisym.
Qed.

(** A parsed proportion in (0, 1] is a usable ratio. *)
Lemma unit_ratio_intro x :
  f64_wf x → f64_gtb x f64_zero = true → f64_leb x f64_one = true → unit_ratio x.
Proof.
  intros Hwf Hgt Hle. destruct x as [[]|[]| |[] m e]; try discriminate.
  split; [exact Hwf|]. split; [reflexivity|]. split; [|reflexivity].
  unfold f64_leb, f64_gtb, SFleb, SFltb in *. unfold f64_one in *.
  rewrite SFcompare_antisym_pos.
  destruct (SFcompare (S754_finite false m e) _) as [[]|];
    [reflexivity|reflexivity|discriminate Hle|discriminate Hle].
Qed.
