(* ===== verification/GoStrings.v ===== *)
(** * The parts of Go's [strings] and [strconv] the runtime uses

    A Go string is a byte string, modelled by [string] (a list of 8-bit
    characters).  White space is the ASCII white space of [unicode.IsSpace]:
    the texts split here ([/proc] and cgroup files, environment variables) are
    ASCII. *)

From S2P Require Import Prelude Float64.
From Stdlib Require Export Ascii.

Local Open Scope string_scope.

Definition newline : ascii := "010".
Definition nl : string := String newline "".

Definition is_space (a : ascii) : bool :=
  match a with
  | "009" | "010" | "011" | "012" | "013" | " " => true
  | _ => false
  end%char.

(** [s[:n]] *)
Fixpoint str_take (n : nat) (s : string) : string :=
  match n, s with
  | S n', String a r => String a (str_take n' r)
  | _, _ => ""
  end.

(** [s[n:]] *)
Fixpoint str_drop (n : nat) (s : string) : string :=
  match n, s with
  | O, _ => s
  | S n', String _ r => str_drop n' r
  | S _, EmptyString => ""
  end.

Definition has_prefix (s p : string) : bool := String.prefix p s.

Definition trim_prefix (s p : string) : string :=
  if has_prefix s p then str_drop (String.length p) s else s.

Fixpoint str_contains (s sub : string) : bool :=
  has_prefix s sub ||
  match s with EmptyString => false | String _ r => str_contains r sub end.

(** [strings.Split(s, c)] for a one-character separator. *)
Fixpoint str_split (c : ascii) (s : string) : list string :=
  match s with
  | EmptyString => [""]
  | String a r =>
      if (a =? c)%char then "" :: str_split c r
      else match str_split c r with
           | h :: t => String a h :: t
           | [] => [String a ""]
           end
  end.

(** [strings.SplitN(s, c, n)]: at most [n] parts, the last one unsplit. *)
Fixpoint str_splitn (n : nat) (c : ascii) (s : string) : list string :=
  match n with
  | O => []
  | S O => [s]
  | S n' =>
      (fix go (pre : string → string) (s : string) : list string :=
         match s with
         | EmptyString => [pre ""]
         | String a r => if (a =? c)%char then pre "" :: str_splitn n' c r
                         else go (fun t => pre (String a t)) r
         end) (fun t => t) s
  end.

(** [strings.Join(l, c)] *)
Fixpoint str_join (c : ascii) (l : list string) : string :=
  match l with
  | [] => ""
  | [s] => s
  | s :: l' => s ++ String c (str_join c l')
  end.

(** Splits around every white space character. *)
Fixpoint split_space (s : string) : list string :=
  match s with
  | EmptyString => [""]
  | String a r =>
      if is_space a then "" :: split_space r
      else match split_space r with
           | h :: t => String a h :: t
           | [] => [String a ""]
           end
  end.

(** [strings.Fields(s)]: the maximal runs without white space. *)
Definition fields (s : string) : list string :=
  List.filter (fun w => negb (w =? "")) (split_space s).

Fixpoint trim_left (s : string) : string :=
  match s with
  | String a r => if is_space a then trim_left r else s
  | EmptyString => ""
  end.

Fixpoint trim_right_if (p : ascii → bool) (s : string) : string :=
  match s with
  | EmptyString => ""
  | String a r =>
      match trim_right_if p r with
      | EmptyString => if p a then "" else String a ""
      | r' => String a r'
      end
  end.

(** [strings.TrimSpace(s)] *)
Definition trim_space (s : string) : string := trim_right_if is_space (trim_left s).

(** [strings.LastIndex(s, c)] for a one-character string: -1 when absent. *)
Fixpoint last_index (c : ascii) (s : string) : Z :=
  match s with
  | EmptyString => -1
  | String a r =>
      let i := last_index c r in
      if (0 <=? i)%Z then i + 1
      else if (a =? c)%char then 0 else -1
  end.

(** ** Decimal integers *)

Definition digit_val (a : ascii) : option Z :=
  let n := Z.of_nat (nat_of_ascii a) in
  if (48 <=? n)%Z && (n <=? 57)%Z then Some (n - 48)%Z else None.

Fixpoint parse_digits (acc : Z) (s : string) : option Z :=
  match s with
  | EmptyString => Some acc
  | String a r =>
      match digit_val a with
      | Some d => parse_digits (acc * 10 + d)%Z r
      | None => None
      end
  end.

Definition parse_unsigned (s : string) : option Z :=
  match s with EmptyString => None | _ => parse_digits 0 s end.

(** [strconv.ParseInt(s, 10, 64)] (and [strconv.Atoi] on a 64-bit platform):
    [None] for a syntax or range error. *)
Definition parse_int (s : string) : option Z :=
  let r := match s with
           | String "+" r => parse_unsigned r
           | String "-" r => option_map Z.opp (parse_unsigned r)
           | _ => parse_unsigned s
           end in
  match r with
  | Some z => if decide (in_int64 z) then Some z else None
  | None => None
  end.

Definition atoi : string → option Z := parse_int.

(** ** [strconv.ParseFloat(s, 64)] *)

Definition lower (a : ascii) : ascii :=
  let n := nat_of_ascii a in
  if (65 <=? n)%nat && (n <=? 90)%nat then ascii_of_nat (n + 32) else a.

Fixpoint lower_string (s : string) : string :=
  match s with EmptyString => "" | String a r => String (lower a) (lower_string r) end.

Definition hex_val (a : ascii) : option Z :=
  match digit_val a with
  | Some d => Some d
  | None => let n := Z.of_nat (nat_of_ascii (lower a)) in
            if (97 <=? n)%Z && (n <=? 102)%Z then Some (n - 87)%Z else None
  end.

(** Underscores may only stand between digits (a base prefix counts as one):
    [prev] is the class of the previous character. *)
Inductive uclass := UStart | UDigit | UUnderscore | UOther.

Fixpoint underscores_ok (hex : bool) (prev : uclass) (s : string) : bool :=
  match s with
  | EmptyString => match prev with UUnderscore => false | _ => true end
  | String a r =>
      if bool_decide (is_Some (if hex then hex_val a else digit_val a))
      then underscores_ok hex UDigit r
      else if (a =? "_")%char
      then match prev with UDigit => underscores_ok hex UUnderscore r | _ => false end
      else match prev with UUnderscore => false | _ => underscores_ok hex UOther r end
  end.

Fixpoint strip_underscores (s : string) : string :=
  match s with
  | EmptyString => ""
  | String a r => if (a =? "_")%char then strip_underscores r else String a (strip_underscores r)
  end.

(** Reads digits and at most one point: mantissa, digits after the point,
    whether a digit was seen, rest. *)
Fixpoint scan_mantissa (hex dot seen : bool) (m fr : Z) (s : string) : Z * Z * bool * string :=
  match s with
  | EmptyString => (m, fr, seen, s)
  | String a r =>
      match (if hex then hex_val a else digit_val a) with
      | Some d => scan_mantissa hex dot true ((if hex then 16 else 10) * m + d)%Z
                    (if dot then fr + 1 else fr)%Z r
      | None => if (a =? ".")%char && negb dot then scan_mantissa hex true seen m fr r
                else (m, fr, seen, s)
      end
  end.

(** Exponent digits; values past 10000 saturate, as in the library. *)
Fixpoint scan_exponent (acc : Z) (s : string) : option Z :=
  match s with
  | EmptyString => Some acc
  | String a r => match digit_val a with
                  | Some d => scan_exponent (if (acc <? 10000)%Z then acc * 10 + d else acc)%Z r
                  | None => None
                  end
  end.

Definition parse_exponent (s : string) : option Z :=
  match s with
  | EmptyString => None
  | String "+" EmptyString | String "-" EmptyString => None
  | String "+" r => scan_exponent 0 r
  | String "-" r => option_map Z.opp (scan_exponent 0 r)
  | _ => scan_exponent 0 s
  end.

Definition parse_float_body (neg : bool) (s : string) : option f64 :=
  let '(hex, body) := match s with
                      | String "0" (String x (String a r)) =>
                          if (lower x =? "x")%char then (true, String a r) else (false, s)
                      | _ => (false, s)
                      end in
  if negb (underscores_ok hex (if hex then UDigit else UStart) body) then None else
  let '(m, fr, seen, rest) := scan_mantissa hex false false 0 0 (strip_underscores body) in
  if negb seen then None else
  let expo := match rest with
              | EmptyString => if hex then None else Some 0%Z
              | String x r => if (lower x =? (if hex then "p" else "e"))%char
                              then parse_exponent r else None
              end in
  match expo with
  | None => None
  | Some e =>
      let v := if hex then
                 let r := binary_normalize 53 1024 m (e - 4 * fr) false in
                 if neg then SFopp r else r
               else f64_of_decimal neg (Z.to_N m) (e - fr) in
      (* out of range is an error *)
      if f64_is_finite v then Some v else None
  end.

Definition parse_float (s : string) : option f64 :=
  let '(neg, r) := match s with
                   | String "+" r => (false, r)
                   | String "-" r => (true, r)
                   | _ => (false, s)
                   end in
  let l := lower_string r in
  if (l =? "inf") || (l =? "infinity") then Some (S754_infinity neg)
  else if lower_string s =? "nan" then Some S754_nan
  else parse_float_body neg r.

Example parse_float_ex :
  parse_float "0.9" = Some (f64_of_decimal false 9 (-1)) ∧
  parse_float "0x1p-1" = parse_float ".5" ∧ parse_float "1_0e-1" = Some f64_one ∧
  parse_float "1e" = None ∧ parse_float "_1" = None ∧ parse_float "1e400" = None.
Proof. by vm_compute. Qed.

(** ** [path/filepath] *)

(** One element of a path, pushed on the reversed list of the elements kept. *)
Definition clean_elem (rooted : bool) (kept : list string) (e : string) : list string :=
  if (e =? "")%string || (e =? ".")%string then kept
  else if (e =? "..")%string then
    match kept with
    | top :: rest => if (top =? "..")%string then ".."%string :: kept else rest
    | [] => if rooted then [] else [".."%string]
    end
  else e :: kept.

Definition clean_path (p : string) : string :=
  let rooted := has_prefix p "/" in
  let body := str_join "/" (rev (foldl (clean_elem rooted) [] (str_split "/" p))) in
  if rooted then "/" +:+ body else if (body =? "")%string then "." else body.

(** [filepath.Join] *)
Definition path_join (elems : list string) : string :=
  match List.filter (λ e, negb (e =? "")%string) elems with
  | [] => ""
  | l => clean_path (str_join "/" l)
  end.

Example path_join_ex : path_join ["/sys/fs/cgroup"; "/kube/../pod//x/."; "ow-activations"]%string
  = "/sys/fs/cgroup/pod/x/ow-activations"%string.
Proof. reflexivity. Qed.

(** ** Lemmas *)

Lemma str_app_nil s : "" +:+ s = s.
Proof. reflexivity. Qed.
Lemma str_app_cons a p s : String a p +:+ s = String a (p +:+ s).
Proof. reflexivity. Qed.

Lemma split_nonempty c s : str_split c s ≠ [].
Proof. destruct s as [|a r]; simpl; [done|]. case_match; [done|]. by case_match. Qed.

Lemma join_split c s : str_join c (str_split c s) = s.
Proof.
  induction s as [|a r IH]; [done|]. simpl.
  pose proof (split_nonempty c r) as Hne.
  destruct (str_split c r) as [|h t]; [done|].
  destruct (Ascii.eqb_spec a c) as [->|Hac].
  - simpl in *. rewrite str_app_nil. by f_equal.
  - destruct t; simpl in *; rewrite ?str_app_cons; by f_equal.
Qed.

Fixpoint str_all (p : ascii → bool) (s : string) : bool :=
  match s with EmptyString => true | String a r => p a && str_all p r end.

Lemma split_no_sep c s : Forall (λ w, str_all (λ a, negb (a =? c)%char) w = true) (str_split c s).
Proof.
  induction s as [|a r IH]; simpl; [by repeat constructor|].
  destruct (Ascii.eqb_spec a c) as [->|Hac]; [by constructor|].
  destruct (str_split c r) as [|h t].
  - repeat constructor. simpl. by rewrite (proj2 (Ascii.eqb_neq a c)).
  - inversion_clear IH. constructor; [|done]. simpl.
    by rewrite (proj2 (Ascii.eqb_neq a c)).
Qed.

Lemma last_index_ge c s : (-1 ≤ last_index c s)%Z.
Proof. induction s as [|a r IH]; simpl; [lia|]. repeat case_match; lia. Qed.

(** What follows the last separator str_contains none. *)
Lemma after_last_no_sep c s :
  str_all (λ a, negb (a =? c)%char) (str_drop (Z.to_nat (last_index c s + 1)) s) = true.
Proof.
  induction s as [|a r IH]; [done|]. simpl.
  pose proof (last_index_ge c r).
  destruct (Z.leb_spec 0 (last_index c r)) as [Hi|Hi].
  - replace (Z.to_nat (last_index c r + 1 + 1)) with (S (Z.to_nat (last_index c r + 1))) by lia.
    done.
  - replace (last_index c r) with (-1)%Z in IH by lia.
    destruct (Ascii.eqb_spec a c) as [->|Hac]; [done|]. simpl in *.
    by rewrite (proj2 (Ascii.eqb_neq a c)), IH.
Qed.

Lemma last_index_none c s :
  str_all (λ a, negb (a =? c)%char) s = true ↔ last_index c s = (-1)%Z.
Proof.
  induction s as [|a r IH]; [done|]. simpl. pose proof (last_index_ge c r).
  destruct (Ascii.eqb_spec a c) as [->|Hac]; simpl.
  - split; [done|]. destruct (Z.leb_spec 0 (last_index c r)); lia.
  - rewrite IH. destruct (Z.leb_spec 0 (last_index c r)); lia.
Qed.

(** The text up to and including the last separator, followed by the rest. *)
Lemma after_last_suffix c s :
  ∃ pre, s = pre ++ str_drop (Z.to_nat (last_index c s + 1)) s.
Proof.
  generalize (Z.to_nat (last_index c s + 1)). intros n. revert n.
  induction s as [|a r IH]; intros [|n]; simpl; try by exists "".
  destruct (IH n) as [pre Hpre]. exists (String a pre). rewrite str_app_cons. by f_equal.
Qed.

(** Appending a separator-free name after a separator and taking what follows
    the last separator gives the name back. *)
Lemma last_index_app c p s :
  str_all (λ a, negb (a =? c)%char) s = true →
  last_index c (p ++ String c s) = Z.of_nat (String.length p).
Proof.
  intros Hs. induction p as [|a p IH].
  - rewrite str_app_nil. simpl. rewrite (proj1 (last_index_none c s) Hs). simpl.
    by rewrite Ascii.eqb_refl.
  - rewrite str_app_cons. simpl. rewrite IH. rewrite (proj2 (Z.leb_le _ _)) by lia. lia.
Qed.

Lemma str_drop_app p a s : str_drop (S (String.length p)) (p +:+ String a s) = s.
Proof. induction p as [|b p IH]; [done|]. rewrite str_app_cons. exact IH. Qed.

Example fields_ex : fields " usage_usec   42  " = ["usage_usec"; "42"].
Proof. reflexivity. Qed.
Example splitn_ex : str_splitn 3 ":" "7:cpuacct:/a:b" = ["7"; "cpuacct"; "/a:b"].
Proof. reflexivity. Qed.
Example parse_int_ex : parse_int "-12" = Some (-12)%Z ∧ parse_int "9223372036854775808" = None
  ∧ parse_int "1_000" = None.
Proof. by vm_compute. Qed.

Lemma parse_float_wf s v : parse_float s = Some v → f64_wf v.
Proof.
  unfold parse_float. destruct (match s with String _ _ => _ | _ => _ end) as [neg r].
  repeat (case_match; [by intros; simplify_eq|]).
  unfold parse_float_body. intros H'. revert H'.
  destruct (match r with String _ _ => _ | _ => _ end) as [hex body].
  destruct (negb _); [done|]. destruct (scan_mantissa _ _ _ _ _ _) as [[[m fr] seen] rest].
  destruct (negb seen); [done|]. destruct (match rest with String _ _ => _ | _ => _ end); [|done].
  case_match; [|done]. intros ?; simplify_eq.
  destruct hex; [|apply f64_of_decimal_wf].
  destruct neg; [apply f64_wf_opp|]; apply binary_normalize_wf.
Qed.
