(* ===== verification/Json.v ===== *)
(** * JSON values and the struct decoder of [encoding/json]

    Values are the abstract syntax after the text has been parsed.  Numbers
    are [float64], as everywhere the source decodes into [interface{}];
    [JInt] is a number an integer field was written to.  An object holds each
    name once, as the Go maps it stands for.  The
    struct decoder follows the rules the runtime depends on: exact field names
    first, case-insensitive names otherwise, [null] leaves a field unchanged,
    and a type mismatch makes the whole call fail. *)

From S2P Require Import Prelude Float64 GoStrings.

Local Open Scope string_scope.

#[warnings="-register-all"]
Inductive json :=
  | JNull
  | JBool (b : bool)
  | JNum (x : f64)
  | JInt (z : Z)                      (** written from an integer field *)
  | JStr (s : string)
  | JArr (l : list json)
  | JObj (m : list (string * json)).

(** A [map[string]interface{}]. *)
Abbreviation gomap := (gmap string json).

(** Members of an object literal, later duplicates winning. *)
Definition members_map (l : list (string * json)) : gomap :=
  foldl (λ m kv, <[kv.1 := kv.2]> m) ∅ l.

(** [json.Marshal] writes the keys of a map in increasing byte order. *)
Fixpoint insert_member (kv : string * json) (l : list (string * json)) :=
  match l with
  | [] => [kv]
  | kv' :: l' => if String.leb kv.1 kv'.1 then kv :: l else kv' :: insert_member kv l'
  end.

Definition sorted_members (m : gomap) : list (string * json) :=
  foldr insert_member [] (map_to_list m).

Definition json_of_map (m : gomap) : json := JObj (sorted_members m).

(** [json.Marshal] refuses infinities and NaN. *)
Fixpoint json_encodable (j : json) : bool :=
  match j with
  | JNum x => f64_is_finite x
  | JArr l => forallb json_encodable l
  | JObj m => forallb (λ kv, json_encodable kv.2) m
  | _ => true
  end.

(** What [json.Unmarshal] puts into an [interface{}]: its numbers are finite
    [float64]s. *)
Fixpoint parsed (j : json) : bool :=
  match j with
  | JNum x => f64_is_finite x
  | JInt _ => false
  | JArr l => forallb parsed l
  | JObj m => forallb (λ kv, parsed kv.2) m
  | _ => true
  end.

Definition parsed_map (m : gomap) : Prop := map_Forall (λ _ j, parsed j = true) m.

(** ** Numbers as integers

    A number reaches an integer field through its decimal text: the shortest
    decimal that reads back as the same [float64], in positional notation
    below 1e21 and in exponent notation (which an integer field refuses)
    above. *)

Definition round_to_digits (z k : Z) : Z :=
  (let p := 10 ^ k in
   let q := z / p in
   let r := z mod p in
   let up := if 2 * r <? p then 0 else if 2 * r =? p then (if Z.even q then 0 else 1) else 1 in
   (q + up) * p)%Z.

Fixpoint digits10 (fuel : nat) (z : Z) : Z :=
  match fuel with
  | O => 0%Z
  | S n => (if z <=? 0 then 0 else 1 + digits10 n (z / 10))%Z
  end.

Fixpoint shortest_from (fuel : nat) (z k : Z) : Z :=
  match fuel with
  | O => z
  | S n =>
      if (k <=? 0)%Z then z
      else let q := round_to_digits z k in
           if bool_decide (f64_of_Z q = f64_of_Z z) then q else shortest_from n z (k - 1)%Z
  end.

(** Decimal value of the shortest text of the integral [float64] of
    magnitude [z]. *)
Definition shortest_int (z : Z) : Z := shortest_from 25 z (digits10 25 z - 1)%Z.

(** The integer an [int64] field receives; [None] is a decoding error. *)
Definition json_int64 (x : f64) : option Z :=
  match x with
  | S754_zero _ => Some 0%Z
  | S754_finite s m e =>
      let integral := (0 <=? e)%Z || (Zpos m mod 2 ^ (- e) =? 0)%Z in
      let a := if (0 <=? e)%Z then (Zpos m * 2 ^ e)%Z else (Zpos m / 2 ^ (- e))%Z in
      if integral && (a <? 1000000000000000000000)%Z then
        let d := shortest_int a in
        let z := if s then (- d)%Z else d in
        if decide (in_int64 z) then Some z else None
      else None
  | _ => None
  end.

(** ** Field names *)

(** Case folding of a member name.  The Kelvin sign and the long s are the
    only non-ASCII letters that fold to ASCII ones. *)
Fixpoint fold_name (s : string) : string :=
  match s with
  | String "226" (String "132" (String "170" r)) => String "k" (fold_name r)
  | String "197" (String "191" r) => String "s" (fold_name r)
  | String a r => String (lower a) (fold_name r)
  | EmptyString => EmptyString
  end.

(** ** Struct decoding *)

Record field (T : Type) := Field {
  fld_name : string;
  fld_set : json → T → option T;   (** [None]: type mismatch *)
}.
Arguments Field {T} _ _.
Arguments fld_name {T} _.
Arguments fld_set {T} _ _ _.

Section decode.
Context {T : Type} (fs : list (field T)).

Definition find_field (k : string) : option (field T) :=
  match List.find (λ f, fld_name f =? k) fs with
  | Some f => Some f
  | None => List.find (λ f, fold_name (fld_name f) =? fold_name k) fs
  end.

(** A member that does not fit its field is remembered and decoding goes on;
    the call reports the error at the end, so the value is discarded. *)
Definition decode_member (acc : option T) (kv : string * json) : option T :=
  match acc with
  | None => None
  | Some t => match find_field kv.1 with
              | Some f => fld_set f kv.2 t
              | None => Some t
              end
  end.

Definition decode_struct (j : json) (zero : T) : option T :=
  match j with
  | JObj l => foldl decode_member (Some zero) l
  | JNull => Some zero
  | _ => None
  end.

Lemma decode_members_none l : foldl decode_member None l = None.
Proof. by induction l. Qed.
End decode.

Section field_kinds.
Context {T : Type}.

Definition str_field (n : string) (set : string → T → T) : field T :=
  Field n (λ j t, match j with
                  | JStr s => Some (set s t)
                  | JNull => Some t
                  | _ => None
                  end).

Definition f64_field (n : string) (set : f64 → T → T) : field T :=
  Field n (λ j t, match j with
                  | JNum x => Some (set x t)
                  | JInt z => Some (set (f64_of_Z z) t)
                  | JNull => Some t
                  | _ => None
                  end).

Definition bool_field (n : string) (set : bool → T → T) : field T :=
  Field n (λ j t, match j with
                  | JBool b => Some (set b t)
                  | JNull => Some t
                  | _ => None
                  end).

Definition int64_field (n : string) (set : Z → T → T) : field T :=
  Field n (λ j t, match j with
                  | JNum x => match json_int64 x with
                              | Some z => Some (set z t)
                              | None => None
                              end
                  | JInt z => if decide (in_int64 z) then Some (set z t) else None
                  | JNull => Some t
                  | _ => None
                  end).

(** A [map[string]string] field: members are added to the map already
    there, [null] makes the map nil. *)
Definition add_str_member (acc : option (gmap string string)) (kv : string * json) :=
  match acc with
  | None => None
  | Some m => match kv.2 with
              | JStr s => Some (<[kv.1 := s]> m)
              | JNull => Some (<[kv.1 := ""]> m)
              | _ => None
              end
  end.

Definition strmap_field (n : string) (get : T → option (gmap string string))
    (set : option (gmap string string) → T → T) : field T :=
  Field n (λ j t, match j with
                  | JObj l =>
                      match foldl add_str_member (Some (default ∅ (get t))) l with
                      | Some m => Some (set (Some m) t)
                      | None => None
                      end
                  | JNull => Some (set None t)
                  | _ => None
                  end).
End field_kinds.

(** The generic object [map[string]string] is written from. *)
Definition json_of_strmap (m : option (gmap string string)) : json :=
  match m with
  | None => JNull
  | Some m => json_of_map (JStr <$> m)
  end.

Example json_int64_ex :
  json_int64 (f64_of_Z 2500) = Some 2500%Z ∧
  json_int64 (f64_of_decimal false 25 (-1)) = None ∧
  json_int64 (f64_of_Z 9007199254740993) = Some 9007199254740992%Z ∧
  json_int64 (f64_of_Z (2 ^ 63)) = None.
Proof. by vm_compute. Qed.

(** ** Lemmas *)

Lemma elem_of_insert_member kv kv' l : kv ∈ insert_member kv' l ↔ kv = kv' ∨ kv ∈ l.
Proof.
  induction l as [|x l IH]; simpl; [by rewrite elem_of_cons|].
  case_match; rewrite ?elem_of_cons, ?IH; tauto.
Qed.

Lemma elem_of_sorted_members k v m : (k, v) ∈ sorted_members m ↔ m !! k = Some v.
Proof.
  unfold sorted_members. rewrite <-elem_of_map_to_list.
  induction (map_to_list m) as [|x l IH]; simpl; [done|].
  rewrite elem_of_insert_member, IH, elem_of_cons. done.
Qed.

Lemma sorted_members_perm m : sorted_members m ≡ₚ map_to_list m.
Proof.
  unfold sorted_members. induction (map_to_list m) as [|x l IH]; simpl; [done|].
  assert (Hi : ∀ kv l, insert_member kv l ≡ₚ kv :: l).
  { clear. intros kv l. induction l as [|y l IH]; simpl; [done|].
    case_match; [done|]. rewrite IH. apply Permutation_swap. }
  by rewrite Hi, IH.
Qed.

(** Adding members one by one, names all different. *)
Lemma foldl_insert_spec {A} (l : list (string * A)) (m0 : gmap string A) k v :
  NoDup l.*1 →
  (foldl (λ m kv, <[kv.1 := kv.2]> m) m0 l) !! k = Some v ↔
  (k, v) ∈ l ∨ (k ∉ l.*1 ∧ m0 !! k = Some v).
Proof.
  revert m0. induction l as [|[k' v'] l IH]; intros m0 Hnd; simpl; [set_solver|].
  apply NoDup_cons in Hnd as [Hk Hnd]. rewrite IH by done. simpl in *.
  destruct (decide (k = k')) as [->|Hne].
  - rewrite lookup_insert_eq. split; [set_solver|].
    intros [[Heq|Hin]%elem_of_cons|[Hn _]]; [simplify_eq; auto| |set_solver].
    exfalso. apply Hk. apply list_elem_of_fmap. by exists (k', v).
  - rewrite lookup_insert_ne by done. set_solver.
Qed.

Lemma members_map_spec l k v : NoDup l.*1 → members_map l !! k = Some v ↔ (k, v) ∈ l.
Proof. intros Hnd. unfold members_map. rewrite foldl_insert_spec by done. set_solver. Qed.

Lemma sorted_members_nodup m : NoDup (sorted_members m).*1.
Proof. rewrite sorted_members_perm. apply NoDup_fst_map_to_list. Qed.

(** Writing a map and reading it back. *)
Lemma members_sorted_members m : members_map (sorted_members m) = m.
Proof.
  apply map_eq. intros k. apply option_eq. intros v.
  rewrite members_map_spec by apply sorted_members_nodup. apply elem_of_sorted_members.
Qed.

Definition json_str (j : json) : string := match j with JStr s => s | _ => "" end.

Lemma add_str_members_spec (l : list (string * json)) m0 :
  (∀ k j, (k, j) ∈ l → ∃ s, j = JStr s) →
  foldl add_str_member (Some m0) l =
  Some (foldl (λ m kv, <[kv.1 := kv.2]> m) m0 ((λ kv, (kv.1, json_str kv.2)) <$> l)).
Proof.
  revert m0. induction l as [|[k j] l IH]; intros m0 Hl; simpl; [done|].
  destruct (Hl k j) as [v ->]; [set_solver|]. apply IH. set_solver.
Qed.

(** A [map[string]string] survives the wire. *)
Lemma strmap_roundtrip (m : gmap string string) :
  foldl add_str_member (Some ∅) (sorted_members (JStr <$> m)) = Some m.
Proof.
  set (l := sorted_members (JStr <$> m)).
  assert (Hl : ∀ k j, (k, j) ∈ l ↔ ∃ v, j = JStr v ∧ m !! k = Some v).
  { intros k j. unfold l. rewrite elem_of_sorted_members, lookup_fmap_Some. naive_solver. }
  rewrite add_str_members_spec by naive_solver. f_equal.
  apply map_eq. intros k. apply option_eq. intros v. rewrite foldl_insert_spec.
  - rewrite lookup_empty, list_elem_of_fmap. split.
    + intros [([k' j] & ? & Hin)|[_ ?]]; [|done]. apply Hl in Hin. naive_solver.
    + intros Hv. left. exists (k, JStr v). split; [done|]. apply Hl. eauto.
  - rewrite <-list_fmap_compose. apply (sorted_members_nodup (JStr <$> m)).
Qed.

(** ** Integers on the wire *)

Local Open Scope Z_scope.

Lemma round_to_digits_bounds z k :
  0 ≤ k → 10 ^ k ≤ z → 0 ≤ round_to_digits z k ≤ 2 * z.
Proof.
  intros Hk Hz. assert (0 < 10 ^ k) by (apply Z.pow_pos_nonneg; lia).
  pose proof (Z.div_mod z (10 ^ k) ltac:(lia)). pose proof (Z.mod_pos_bound z (10 ^ k) ltac:(lia)).
  assert (0 ≤ z / 10 ^ k) by (apply Z.div_pos; lia).
  unfold round_to_digits. repeat case_match; nia.
Qed.

Lemma f64_of_Z_inj a b :
  0 ≤ a < 2 ^ 53 → 0 ≤ b < 2 ^ 53 → f64_of_Z a = f64_of_Z b → a = b.
Proof.
  intros Ha Hb Heq. pose proof (f64_of_Z_trunc a Ha) as H. rewrite Heq, f64_of_Z_trunc in H by done.
  congruence.
Qed.

Lemma shortest_from_exact fuel z k :
  0 ≤ z < 2 ^ 49 → (0 < k → 10 ^ k ≤ z) → shortest_from fuel z k = z.
Proof.
  intros Hz. revert k. induction fuel as [|fuel IH]; intros k Hk; [done|]. cbn [shortest_from].
  destruct (Z.leb_spec k 0); [done|]. specialize (Hk ltac:(lia)).
  pose proof (round_to_digits_bounds z k ltac:(lia) Hk).
  case_bool_decide as Hq; [apply f64_of_Z_inj in Hq; lia|].
  apply IH. intros. transitivity (10 ^ k); [apply Z.pow_le_mono_r; lia|done].
Qed.

Lemma digits10_bound fuel z : 0 < z → 10 ^ (digits10 fuel z - 1) ≤ z.
Proof.
  revert z. induction fuel as [|fuel IH]; intros z Hz; cbn [digits10]; [simpl; lia|].
  rewrite (proj2 (Z.leb_gt _ _)) by lia. replace (1 + digits10 fuel (z / 10) - 1) with (digits10 fuel (z / 10)) by lia.
  destruct (decide (0 < z / 10)) as [Hd|Hd].
  - specialize (IH _ Hd). pose proof (Z.mul_div_le z 10 ltac:(lia)).
    destruct (decide (digits10 fuel (z / 10) ≤ 0)); [|].
    + destruct (decide (digits10 fuel (z / 10) = 0)) as [->|]; [simpl; lia|].
      rewrite Z.pow_neg_r by lia. lia.
    + replace (digits10 fuel (z / 10)) with (Z.succ (digits10 fuel (z / 10) - 1)) by lia.
      rewrite Z.pow_succ_r by lia. lia.
  - assert (digits10 fuel (z / 10) = 0) as ->; [|simpl; lia].
    destruct fuel; simpl; [done|]. by rewrite (proj2 (Z.leb_le _ _)) by lia.
Qed.

(** An integer small enough for [float64] survives the wire. *)
Lemma json_int64_exact z : 0 ≤ z < 2 ^ 49 → json_int64 (f64_of_Z z) = Some z.
Proof.
  intros Hz. destruct (decide (z = 0)) as [->|]; [done|].
  destruct (f64_of_Z_exact z) as (m & e & -> & _ & He & Hm); [lia|]. unfold json_int64.
  assert (Hp : 0 < 2 ^ (- e)) by (apply Z.pow_pos_nonneg; lia).
  assert (Ha : (if 0 <=? e then Zpos m * 2 ^ e else Zpos m / 2 ^ (- e)) = z).
  { rewrite Hm. case_match; breq.
    - replace e with 0 by lia. simpl. lia.
    - by rewrite Z.div_mul by lia. }
  rewrite Ha. assert (Hi : (Zpos m mod 2 ^ (- e) =? 0) = true).
  { apply Z.eqb_eq. rewrite Hm. by apply Z.mod_mul; lia. }
  rewrite Hi, orb_true_r. rewrite (proj2 (Z.ltb_lt _ _)) by lia. simpl.
  unfold shortest_int. rewrite shortest_from_exact; [|done|intros; apply digits10_bound; lia].
  by rewrite decide_True by solve_int64.
Qed.

(** ** Types *)

Lemma members_forall (P : string → json → Prop) l :
  (∀ k j, (k, j) ∈ l → P k j) → map_Forall P (members_map l).
Proof.
  unfold members_map. assert (H0 : map_Forall P ∅) by apply map_Forall_empty. revert H0.
  generalize (∅ : gomap). induction l as [|[k j] l IH]; intros m Hm Hl; [done|]. simpl. apply IH; [|set_solver].
  apply map_Forall_insert_2; [apply Hl; by left|done].
Qed.

Lemma parsed_members l : parsed (JObj l) = true → parsed_map (members_map l).
Proof.
  intros Hl. apply members_forall. intros k j Hin. cbn [parsed] in Hl. rewrite forallb_forall in Hl.
  by apply (Hl (k, j)), list_elem_of_In.
Qed.

Lemma parsed_json_of_map m : parsed_map m → parsed (json_of_map m) = true.
Proof.
  intros Hm. apply forallb_forall. intros [k j] Hin.
  apply list_elem_of_In, elem_of_sorted_members in Hin. by apply (Hm k).
Qed.

(** A field that keeps a property of the struct, whatever JSON text it is given. *)
Definition types {T} (P : T → Prop) (f : field T) : Prop :=
  ∀ j t t', parsed j = true → P t → fld_set f j t = Some t' → P t'.

Lemma decode_struct_types {T} (P : T → Prop) fs j (zero t : T) :
  Forall (types P) fs → parsed j = true → P zero → decode_struct fs j zero = Some t → P t.
Proof.
  intros Hfs Hj Hz. destruct j as [| | | | | |l]; simpl; try done; [by intros [= <-]|].
  cbn [parsed] in Hj. assert (Hl : ∀ kv, kv ∈ l → parsed kv.2 = true).
  { rewrite forallb_forall in Hj. intros kv Hin. by apply Hj, list_elem_of_In. }
  clear Hj. revert zero Hz. induction l as [|kv l IH]; intros z Hz; simpl; [by intros [= <-]|].
  assert (Hff : ∀ f, find_field fs kv.1 = Some f → types P f).
  { intros f Hf. rewrite Forall_forall in Hfs. apply Hfs, list_elem_of_In. unfold find_field in Hf.
    destruct (List.find _ fs) eqn:H1 in Hf; simplify_eq; by eapply find_some. }
  destruct (find_field fs kv.1) as [f|]; [|apply IH; [set_solver|done]].
  destruct (fld_set f kv.2 z) as [z'|] eqn:Hs; [|by rewrite decode_members_none].
  apply IH; [set_solver|]. eapply Hff; [done| |exact Hz|exact Hs]. apply Hl. by left.
Qed.

Section types.
Context {T : Type} (P : T → Prop) (n : string).

Lemma str_field_types set : (∀ x t, P t → P (set x t)) → types P (str_field n set).
Proof. intros H j t t' _ Ht. destruct j; simpl; intros; simplify_eq; auto. Qed.
Lemma bool_field_types set : (∀ x t, P t → P (set x t)) → types P (bool_field n set).
Proof. intros H j t t' _ Ht. destruct j; simpl; intros; simplify_eq; auto. Qed.
Lemma f64_field_types set : (∀ x t, f64_is_finite x = true → P t → P (set x t)) → types P (f64_field n set).
Proof. intros H j t t' Hj Ht. destruct j; simpl; intros; simplify_eq; auto. Qed.
Lemma strmap_field_types get set : (∀ x t, P t → P (set x t)) → types P (strmap_field n get set).
Proof. intros H j t t' _ Ht. destruct j; simpl; repeat case_match; intros; simplify_eq; auto. Qed.

Lemma json_int64_in x z : json_int64 x = Some z → in_int64 z.
Proof.
  destruct x; simpl; try done; [intros [= <-]; by apply (bool_decide_unpack _)|].
  repeat case_match; intros; by simplify_eq.
Qed.

Lemma int64_field_types set : (∀ x t, in_int64 x → P t → P (set x t)) → types P (int64_field n set).
Proof.
  intros H j t t' Hj Ht. destruct j; simpl; try done; [by intros [= <-]|].
  destruct (json_int64 x) eqn:Hx; [|done]. intros [= <-]. apply H; [by eapply json_int64_in|done].
Qed.
End types.

Create HintDb fields discriminated.
#[export] Hint Resolve str_field_types bool_field_types f64_field_types strmap_field_types int64_field_types : fields.

(** ** Structs with [omitempty] *)

Definition omit_int (k : string) (z : Z) : list (string * json) :=
  if z =? 0 then [] else [(k, JInt z)].
Definition omit_f64 (k : string) (x : f64) : list (string * json) :=
  if f64_eqb x f64_zero then [] else [(k, JNum x)].
Definition omit_str (k s : string) : list (string * json) :=
  if String.eqb s "" then [] else [(k, JStr s)].
Definition omit_bool (k : string) (b : bool) : list (string * json) :=
  if b then [(k, JBool b)] else [].
Definition omit_ptr {A} (f : A → json) (k : string) (p : option A) : list (string * json) :=
  match p with Some x => [(k, f x)] | None => [] end.

(** Reading members by name, absent ones as the zero value. *)
Fixpoint member (k : string) (l : list (string * json)) : option json :=
  match l with
  | [] => None
  | (k', j) :: l => if String.eqb k' k then Some j else member k l
  end.

Definition members (j : json) : list (string * json) :=
  match j with JObj l => l | _ => [] end.

Definition get_int (k : string) (l : list (string * json)) : Z :=
  match member k l with Some (JInt z) => z | _ => 0 end.
Definition get_f64 (k : string) (l : list (string * json)) : f64 :=
  match member k l with Some (JNum x) => x | _ => f64_zero end.
Definition get_str (k : string) (l : list (string * json)) : string :=
  match member k l with Some (JStr s) => s | _ => "" end.
Definition get_bool (k : string) (l : list (string * json)) : bool :=
  match member k l with Some (JBool b) => b | _ => false end.

(** [k] is not a name of [l]. *)
Definition skips (k : string) (l : list (string * json)) : Prop := Forall (λ kv, kv.1 ≠ k) l.

Section omit.
Implicit Types (k : string) (l : list (string * json)).

Lemma member_skip k l l' : skips k l → member k (l ++ l') = member k l'.
Proof.
  induction 1 as [|[k' j] l Hk _ IH]; [done|]. simpl in *.
  by rewrite (proj2 (String.eqb_neq k' k)).
Qed.

Lemma skips_int k k' z : k' ≠ k → skips k (omit_int k' z).
Proof. intros. unfold omit_int. case_match; by repeat constructor. Qed.
Lemma skips_f64 k k' x : k' ≠ k → skips k (omit_f64 k' x).
Proof. intros. unfold omit_f64. case_match; by repeat constructor. Qed.
Lemma skips_str k k' s : k' ≠ k → skips k (omit_str k' s).
Proof. intros. unfold omit_str. case_match; by repeat constructor. Qed.
Lemma skips_bool k k' b : k' ≠ k → skips k (omit_bool k' b).
Proof. intros. destruct b; by repeat constructor. Qed.
Lemma skips_ptr {A} (f : A → json) k k' p : k' ≠ k → skips k (omit_ptr f k' p).
Proof. intros. destruct p; by repeat constructor. Qed.

Lemma get_int_omit k z l : skips k l → get_int k (omit_int k z ++ l) = z.
Proof.
  intros Hl. unfold get_int, omit_int. destruct (Z.eqb_spec z 0) as [->|].
  - simpl. by rewrite <-(app_nil_r l), member_skip.
  - simpl. by rewrite String.eqb_refl.
Qed.
Lemma get_str_omit k s l : skips k l → get_str k (omit_str k s ++ l) = s.
Proof.
  intros Hl. unfold get_str, omit_str. destruct (String.eqb_spec s "") as [->|].
  - simpl. by rewrite <-(app_nil_r l), member_skip.
  - simpl. by rewrite String.eqb_refl.
Qed.
Lemma get_bool_omit k b l : skips k l → get_bool k (omit_bool k b ++ l) = b.
Proof.
  intros Hl. unfold get_bool, omit_bool. destruct b; simpl.
  - by rewrite String.eqb_refl.
  - by rewrite <-(app_nil_r l), member_skip.
Qed.
(** A negative zero is omitted too, and reads back as zero. *)
Lemma get_f64_omit k x l : skips k l → x ≠ S754_zero true → get_f64 k (omit_f64 k x ++ l) = x.
Proof.
  intros Hl Hx. unfold get_f64, omit_f64. destruct (f64_eqb x f64_zero) eqn:He; simpl.
  - rewrite <-(app_nil_r l), member_skip by done. by destruct x as [[]|[]| |[]].
  - by rewrite String.eqb_refl.
Qed.
Lemma member_omit_ptr {A} (f : A → json) k p l :
  skips k l → member k (omit_ptr f k p ++ l) = f <$> p.
Proof.
  intros Hl. destruct p; simpl; [by rewrite String.eqb_refl|].
  by rewrite <-(app_nil_r l), member_skip.
Qed.
End omit.
