(* ===== verification/Effects.v ===== *)
(** * Effects: the operating system, the network and time

    Every component is written in one state-passing monad.  The environment
    (kernel files, HTTP peers, the resolver, the clock) is an arbitrary oracle
    indexed by the number of effects performed so far, so a theorem quantified
    over [Env] covers every behaviour of the outside world.  Each effect
    appends to a trace; theorems about ordering and about what the runtime
    never does are statements about that trace. *)

From S2P Require Import Prelude Float64 GoStrings Json.

Local Open Scope Z_scope.

(** ** Errors *)

Inductive goerr :=
  | EMsg (msg : string)                         (** [errors.New], [fmt.Errorf] *)
  | EWrap (ctx : string) (e : goerr)            (** [fmt.Errorf("ctx: %w", e)] *)
  | EDeadline                                   (** [context.DeadlineExceeded] *)
  | ENet (timeout : bool) (msg : string)        (** a [net.Error] *)
  | EWaitTimeout (field want got : string).     (** [waitForEventField] gave up *)

(** [isTimeout] looks through wrapping, as [errors.Is] and [errors.As] do. *)
Fixpoint is_timeout (e : goerr) : bool :=
  match e with
  | EDeadline => true
  | ENet t _ => t
  | EWrap _ e => is_timeout e
  | _ => false
  end.

(** ** HTTP *)

Inductive http_body :=
  | BodyJson (j : json)         (** parsed *)
  | BodyInvalid (e : goerr).    (** not JSON, or the read failed *)

Inductive http_result :=
  | HttpErr (e : goerr)
  | HttpResp (status : Z) (body : http_body).

(** ** Archives, as [archive/zip] and [archive/tar] present them *)

Record zip_entry := {
  ze_name : string;
  ze_dir : bool;
  ze_link : bool;
  ze_open : option goerr;        (** the entry cannot be opened *)
  ze_data : string + goerr
}.

Inductive tar_type := TypeDir | TypeReg | TypeOther.

Record tar_entry := {
  te_name : string;
  te_type : tar_type;
  te_data : string + goerr
}.

(** What [filepath.Walk] finds, the entries of a directory in its order; a file or a
    link that cannot be read, a directory that cannot be listed, a name that has
    disappeared. *)
#[warnings="-register-all"]
Inductive node :=
  | NFile (data : string + goerr)
  | NLink (target : string + goerr)
  | NDir (entries : list (string * node))
  | NUnlisted (err : goerr)
  | NGone (err : goerr)
  | NOther.

(** ** Observable events, newest first in a trace *)

Inductive event :=
  | EvRead (path : string)
  | EvWrite (path data : string)
  | EvSyscall (op arg : string)
  | EvSleep (ns : Z)
  | EvReap
  | EvLookup (host : string)
  | EvDial (addr : string)
  | EvPost (url : string) (body : json) (answer : http_result)   (** one call of an HTTP client *)
  | EvSafety (name severity : string)
  | EvStdin (line : http_body)                  (** one line to the action *)
  | EvGuard (stream : string)                   (** the end marker in the action's logs *)
  | EvLogLine (stream line : string)            (** a line of the proxy in the action's logs *)
  | EvRespond (status : Z) (body : json).

(** ** The outside world *)

Record Env := {
  env_getenv : string → string;                      (** unset reads as [""] *)
  env_const : string → string + goerr;               (** files that never change: sysfs constants, [/proc/stat]'s CPU list *)
  env_read : nat → string → string + goerr;          (** [os.ReadFile] *)
  env_write : nat → string → string → option goerr;  (** [os.WriteFile] *)
  env_syscall : nat → string → string → option goerr;
  env_elapsed : nat → N;                             (** ns spent by the effect *)
  env_wall : nat → Z;                                (** wall clock, [UnixNano] *)
  env_pid : nat → Z;                                 (** the pid the kernel gives a new process *)
  env_reap : nat → option N;                         (** ns until the child is reaped; [None]: never *)
  env_exit : option goerr;                           (** what [cmd.Wait] reports of the child *)
  env_rand : nat → option string;                    (** [crypto/rand], in hexadecimal *)
  env_conn_reused : nat → bool;                      (** a pooled connection served the request *)
  env_lookup : nat → string → list string + goerr;
  env_dial : nat → string → option goerr;
  env_http : nat → string → json → http_result;
  env_urlparse : string → option (string * string * string);
                                                     (** [url.Parse]: scheme, host name and port *)
  env_url : string → option goerr;                   (** [http.NewRequest] refuses the URL *)
  env_others : nat → (string * string * bool) → (string * string * bool);
                                                     (** what other goroutines did to the scheduler's address *)
  env_flag : nat → bool;                             (** the scheduler's choice in a [select] *)
  env_action : nat → option http_body;               (** the action's answer; [None]: it exited *)
  env_environ : list string;                         (** [os.Environ] *)
  env_json_text : json → string;                     (** [json.Marshal] *)
  env_self : Z;                                      (** [os.Getpid] *)
  env_debugging : bool;                              (** the [Debugging] flag *)
  env_goos : string;                                 (** [runtime.GOOS] *)
  env_zip : string → option (list zip_entry);        (** [zip.NewReader] *)
  env_zip_bytes : list zip_entry → string;           (** what [zip.Writer] writes *)
  env_tree : nat → string → node;                    (** what is on the disk *)
  env_targz : string → (list tar_entry * option goerr) + goerr;
                                                     (** [gzip.NewReader], the headers [tar.Reader.Next] gives
                                                         and the error, if any, that ends them *)
  env_readdir : nat → string → list string + goerr;
  env_compile : nat → list string → list string → string * option goerr
                                                     (** command line and environment of the compiler to its
                                                         output and exit status *)
}.

Record io := IO {
  io_step : nat;             (** effects performed *)
  io_clock : Z;              (** monotonic clock, ns *)
  io_trace : list event
}.

Definition io_start : io := IO 0 0 [].

(** [Cut] is the prefix of an execution that is still going on: the fuel of a
    loop ran out, or a call blocks for ever. *)
Inductive outcome (S A : Type) :=
  | Done (a : A) (s : S) (w : io)
  | Cut (s : S) (w : io)
  | Panic (msg : string) (s : S) (w : io).
Arguments Done {S A} _ _ _.
Arguments Cut {S A} _ _.
Arguments Panic {S A} _ _ _.

Definition out_io {S A} (o : outcome S A) : io :=
  match o with Done _ _ w | Cut _ w | Panic _ _ w => w end.
Definition out_st {S A} (o : outcome S A) : S :=
  match o with Done _ s _ | Cut s _ | Panic _ s _ => s end.
Definition out_val {S A} (o : outcome S A) : option A :=
  match o with Done a _ _ => Some a | _ => None end.

Definition M (S A : Type) : Type := Env → S → io → outcome S A.

#[global] Instance M_ret S : MRet (M S) := λ A a _ s w, Done a s w.
#[global] Instance M_bind S : MBind (M S) := λ A B k m env s w,
  match m env s w with
  | Done a s' w' => k a env s' w'
  | Cut s' w' => Cut s' w'
  | Panic msg s' w' => Panic msg s' w'
  end.

(** ** Primitives *)

Definition get {S} : M S S := λ _ s w, Done s s w.
Definition gets {S A} (f : S → A) : M S A := λ _ s w, Done (f s) s w.
Definition modify {S} (f : S → S) : M S () := λ _ s w, Done tt (f s) w.
Definition blocked {S A} : M S A := λ _ s w, Cut s w.
Definition panic {S A} (msg : string) : M S A := λ _ s w, Panic msg s w.

Definition advance (env : Env) (extra : Z) (ev : list event) (w : io) : io :=
  IO (S (io_step w)) (io_clock w + extra + Z.of_N (env_elapsed env (io_step w)))
     (ev ++ io_trace w).

Definition effect {S A} (f : Env → nat → A) (ev : list event) : M S A :=
  λ env s w, Done (f env (io_step w)) s (advance env 0 ev w).

Definition asks {S A} (f : Env → A) : M S A := λ env s w, Done (f env) s w.
Definition getenv {S} (name : string) : M S string :=
  λ env s w, Done (env_getenv env name) s w.
Definition read_file {S} (path : string) : M S (string + goerr) :=
  effect (λ env i, env_read env i path) [EvRead path].
Definition write_file {S} (path data : string) : M S (option goerr) :=
  effect (λ env i, env_write env i path data) [EvWrite path data].
Definition syscall {S} (op arg : string) : M S (option goerr) :=
  effect (λ env i, env_syscall env i op arg) [EvSyscall op arg].
Definition safety {S} (name severity : string) : M S () :=
  effect (λ _ _, tt) [EvSafety name severity].
Definition now_wall {S} : M S Z := effect env_wall [].
Definition now_mono {S} : M S Z := λ _ s w, Done (io_clock w) s w.
(** [time.Sleep] returns at once for a non-positive duration. *)
Definition sleep {S} (ns : Z) : M S () :=
  λ env s w, Done tt s (advance env (Z.max 0 ns) [EvSleep ns] w).
Definition flag {S} : M S bool := effect env_flag [].

(** ** Working on a part of the state *)

Record lens (S T : Type) := Lens {
  view : S → T;
  put : T → S → S;
  view_put : ∀ t s, view (put t s) = t;
  put_view : ∀ s, put (view s) s = s
}.
Arguments Lens {S T} _ _ _ _.
Arguments view {S T} _ _.
Arguments put {S T} _ _ _.

Definition zoom {S T A} (l : lens S T) (m : M T A) : M S A := λ env s w,
  match m env (view l s) w with
  | Done a t w' => Done a (put l t s) w'
  | Cut t w' => Cut (put l t s) w'
  | Panic msg t w' => Panic msg (put l t s) w'
  end.

Program Definition lens_comp {S T U} (l1 : lens S T) (l2 : lens T U) : lens S U :=
  Lens (λ s, view l2 (view l1 s)) (λ u s, put l1 (put l2 u (view l1 s)) s) _ _.
Next Obligation. intros. simpl. by rewrite !view_put. Qed.
Next Obligation. intros. simpl. by rewrite !put_view. Qed.

(** ** Program logic

    [triple P φ m Q R]: started in a state satisfying [P], [m] only emits
    events satisfying [φ]; if it returns, the result and state satisfy [Q]; if
    it is cut short or panics, the state satisfies [R]. *)

Definition triple {S A} (P : S → Prop) (φ : event → Prop) (m : M S A)
    (Q : A → S → Prop) (R : S → Prop) : Prop :=
  ∀ env s w, P s →
    (∃ new, io_trace (out_io (m env s w)) = new ++ io_trace w ∧ Forall φ new) ∧
    match m env s w with
    | Done a s' _ => Q a s'
    | Cut s' _ | Panic _ s' _ => R s'
    end.

(** [emits φ m]: whatever happens, [m] only emits events satisfying [φ]. *)
Definition emits {S A} (φ : event → Prop) (m : M S A) : Prop :=
  triple (λ _, True) φ m (λ _ _, True) (λ _, True).

Section rules.
Context {S : Type}.
Implicit Types (P R : S → Prop) (φ : event → Prop).

Lemma triple_ret {A} P φ (a : A) (Q : A → S → Prop) R :
  (∀ s, P s → Q a s) → triple P φ (mret a) Q R.
Proof. intros H env s w Hs. split; [by exists []|]. by apply H. Qed.

Lemma triple_bind {A B} P φ (m : M S A) (k : A → M S B) Q Q' R :
  triple P φ m Q R → (∀ a, triple (Q a) φ (k a) Q' R) → triple P φ (m ≫= k) Q' R.
Proof.
  intros Hm Hk env s w Hs. destruct (Hm env s w Hs) as [(n1 & Ht1 & Hf1) Hq].
  unfold mbind, M_bind. destruct (m env s w) as [a s' w'|s' w'|msg s' w']; simpl in *;
    try (split; [by exists n1|done]).
  destruct (Hk a env s' w' Hq) as [(n2 & Ht2 & Hf2) Hq2].
  split; [|done]. exists (n2 ++ n1). rewrite Ht2, Ht1, app_assoc.
  split; [done|]. by apply Forall_app.
Qed.

Lemma triple_weaken {A} P P' φ (φ' : event → Prop) (m : M S A) Q Q' R R' :
  triple P φ m Q R → (∀ s, P' s → P s) → (∀ e, φ e → φ' e) →
  (∀ a s, Q a s → Q' a s) → (∀ s, R s → R' s) → triple P' φ' m Q' R'.
Proof.
  intros Hm HP Hφ HQ HR env s w Hs.
  destruct (Hm env s w (HP s Hs)) as [(n & Ht & Hf) Hq].
  split; [exists n; split; [done|by eapply Forall_impl]|].
  destruct (m env s w); eauto.
Qed.

Lemma triple_pure {A} (p : Prop) P φ (m : M S A) Q R :
  (p → triple P φ m Q R) → triple (λ s, p ∧ P s) φ m Q R.
Proof. intros H env s w [Hp Hs]. by apply H. Qed.

Lemma triple_get P φ R : triple P φ get (λ a s, a = s ∧ P s) R.
Proof. intros env s w Hs. split; [by exists []|done]. Qed.

Lemma triple_gets {A} (f : S → A) P φ R : triple P φ (gets f) (λ a s, a = f s ∧ P s) R.
Proof. intros env s w Hs. split; [by exists []|done]. Qed.

Lemma triple_modify (f : S → S) P φ (Q : S → Prop) R :
  (∀ s, P s → Q (f s)) → triple P φ (modify f) (λ _, Q) R.
Proof. intros H env s w Hs. split; [by exists []|by apply H]. Qed.

Lemma triple_effect {A} P φ (f : Env → nat → A) ev R :
  Forall φ ev → triple P φ (effect f ev) (λ _, P) R.
Proof. intros H env s w Hs. split; [by exists ev|done]. Qed.

Lemma triple_getenv P φ n R : triple P φ (getenv n) (λ _, P) R.
Proof. intros env s w Hs. split; [by exists []|done]. Qed.

Lemma triple_asks {A} (f : Env → A) P φ R : triple P φ (asks f) (λ _, P) R.
Proof. intros env s w Hs. split; [by exists []|done]. Qed.

Lemma triple_now_mono P φ R : triple P φ now_mono (λ _, P) R.
Proof. intros env s w Hs. split; [by exists []|done]. Qed.

Lemma triple_sleep P φ ns R : φ (EvSleep ns) → triple P φ (sleep ns) (λ _, P) R.
Proof. intros H env s w Hs. split; [exists [EvSleep ns]; by split; [|constructor]|done]. Qed.

Lemma triple_blocked {A} P φ (Q : A → S → Prop) R :
  (∀ s, P s → R s) → triple P φ blocked Q R.
Proof. intros H env s w Hs. split; [by exists []|by apply H]. Qed.

Lemma triple_panic {A} P φ msg (Q : A → S → Prop) R :
  (∀ s, P s → R s) → triple P φ (panic msg) Q R.
Proof. intros H env s w Hs. split; [by exists []|by apply H]. Qed.

Lemma triple_zoom {T A} (l : lens S T) (p : T → Prop) φ (m : M T A) q r :
  triple p φ m q r →
  triple (λ s, p (view l s)) φ (zoom l m) (λ a s, q a (view l s)) (λ s, r (view l s)).
Proof.
  intros Hm env s w Hs. destruct (Hm env (view l s) w Hs) as [Ht Hq].
  unfold zoom. destruct (m env (view l s) w); simpl in *; by rewrite ?view_put.
Qed.

(** *** Rules for [emits] *)

Lemma emits_ret {A} φ (a : A) : emits φ (mret a : M S A).
Proof. by apply triple_ret. Qed.

Lemma emits_bind {A B} φ (m : M S A) (k : A → M S B) :
  emits φ m → (∀ a, emits φ (k a)) → emits φ (m ≫= k).
Proof. intros Hm Hk. eapply triple_bind; [exact Hm|]. exact Hk. Qed.

Lemma emits_get φ : emits φ (get : M S S).
Proof. intros env s w _. split; [by exists []|done]. Qed.
Lemma emits_gets {A} φ (f : S → A) : emits φ (gets f).
Proof. intros env s w _. split; [by exists []|done]. Qed.
Lemma emits_modify φ (f : S → S) : emits φ (modify f).
Proof. by apply triple_modify. Qed.
Lemma emits_effect {A} φ (f : Env → nat → A) ev : Forall φ ev → emits φ (effect f ev : M S A).
Proof. intros H. by apply triple_effect with (P := λ _, True). Qed.
Lemma emits_getenv φ n : emits φ (getenv n : M S string).
Proof. by apply triple_getenv with (P := λ _, True). Qed.
Lemma emits_asks {A} φ (f : Env → A) : emits φ (asks f : M S A).
Proof. by apply triple_asks with (P := λ _, True). Qed.
Lemma emits_now_mono φ : emits φ (now_mono : M S Z).
Proof. by apply triple_now_mono with (P := λ _, True). Qed.
Lemma emits_sleep φ ns : φ (EvSleep ns) → emits φ (sleep ns : M S ()).
Proof. intros H. by apply triple_sleep with (P := λ _, True). Qed.
Lemma emits_blocked {A} φ : emits φ (blocked : M S A).
Proof. by apply triple_blocked. Qed.
Lemma emits_panic {A} φ msg : emits φ (panic msg : M S A).
Proof. by apply triple_panic. Qed.
Lemma emits_zoom {T A} (l : lens S T) φ (m : M T A) : emits φ m → emits φ (zoom l m).
Proof. exact (triple_zoom l _ _ _ _ _). Qed.
Lemma emits_weaken {A} φ (φ' : event → Prop) (m : M S A) :
  emits φ m → (∀ e, φ e → φ' e) → emits φ' m.
Proof. intros H Hφ. eapply triple_weaken; [exact H|done..]. Qed.

(** What [emits] says of the final trace. *)
Lemma emits_trace {A} φ (m : M S A) env s w :
  emits φ m → Forall φ (io_trace w) → Forall φ (io_trace (out_io (m env s w))).
Proof.
  intros H Hw. destruct (H env s w I) as [(n & -> & Hn) _]. by apply Forall_app.
Qed.
End rules.

Create HintDb emits.
#[export] Hint Resolve emits_ret emits_get emits_gets emits_modify emits_getenv emits_asks emits_now_mono
  emits_blocked emits_panic : emits.

(** Walks through a body, splitting its tests; [φ] is decided on each event by
    [tac]. *)
Ltac emits_step tac :=
  progress intros ||
  lazymatch goal with
  | |- emits _ (_ ≫= _) => apply emits_bind
  | |- emits _ (effect _ _) =>
      apply emits_effect; repeat (apply Forall_cons; split); [tac..|apply Forall_nil; done]
  | |- emits _ (sleep _) => apply emits_sleep; tac
  | |- emits _ (match _ with _ => _ end) => case_match
  | |- emits _ (zoom _ _) => apply emits_zoom
  | |- emits _ _ => solve [auto with emits nocore]
  end.

Ltac solve_emits tac := repeat emits_step tac.

(** ** Bodies that only look at the world

    [reads m]: [m] always returns and leaves the state as it found it. *)

Definition reads {S A} (m : M S A) : Prop :=
  ∀ env s w, ∃ a w', m env s w = Done a s w'.

Section reads.
Context {S : Type}.

Lemma reads_ret {A} (a : A) : reads (mret a : M S A).
Proof. intros env s w. by exists a, w. Qed.
Lemma reads_bind {A B} (m : M S A) (k : A → M S B) :
  reads m → (∀ a, reads (k a)) → reads (m ≫= k).
Proof.
  intros Hm Hk env s w. destruct (Hm env s w) as (a & w' & Ha).
  unfold mbind, M_bind. rewrite Ha. apply Hk.
Qed.
Lemma reads_get : reads (get : M S S).
Proof. intros env s w. by exists s, w. Qed.
Lemma reads_gets {A} (f : S → A) : reads (gets f).
Proof. intros env s w. by exists (f s), w. Qed.
Lemma reads_asks {A} (f : Env → A) : reads (asks f : M S A).
Proof. intros env s w. by exists (f env), w. Qed.
Lemma reads_getenv n : reads (getenv n : M S string).
Proof. intros env s w. by exists (env_getenv env n), w. Qed.
Lemma reads_effect {A} (f : Env → nat → A) ev : reads (effect f ev : M S A).
Proof. intros env s w. by eexists _, _. Qed.
Lemma reads_now_mono : reads (now_mono : M S Z).
Proof. intros env s w. by eexists _, _. Qed.
Lemma reads_sleep ns : reads (sleep ns : M S ()).
Proof. intros env s w. by eexists _, _. Qed.

(** A read-only body is invisible to what follows, but for time and trace. *)
Lemma bind_reads {A B} (m : M S A) (k : A → M S B) env s w :
  reads m → ∃ a w', m env s w = Done a s w' ∧ (m ≫= k) env s w = k a env s w'.
Proof.
  intros Hm. destruct (Hm env s w) as (a & w' & Ha). exists a, w'.
  split; [done|]. unfold mbind, M_bind. by rewrite Ha.
Qed.
End reads.

Create HintDb reads.
#[export] Hint Resolve reads_ret reads_get reads_gets reads_asks reads_getenv reads_effect
  reads_now_mono reads_sleep : reads.

Ltac solve_reads :=
  repeat (progress intros ||
    lazymatch goal with
    | |- reads (_ ≫= _) => apply reads_bind
    | |- reads (match _ with _ => _ end) => case_match
    | |- reads _ => solve [auto with reads nocore]
    end).

#[export] Hint Extern 1 (reads (read_file _)) => unfold read_file : reads.
#[export] Hint Extern 1 (reads (write_file _ _)) => unfold write_file : reads.
#[export] Hint Extern 1 (reads (syscall _ _)) => unfold syscall : reads.
#[export] Hint Extern 1 (reads (safety _ _)) => unfold safety : reads.
#[export] Hint Extern 1 (reads now_wall) => unfold now_wall : reads.

(** Performs the first, read-only, body of a bind of the goal. *)
Tactic Notation "bind_step" "as" simple_intropattern(p) :=
  match goal with
  | |- context [ (?m ≫= ?k) ?env ?s ?w ] =>
      let H := fresh in
      destruct (bind_reads m k env s w) as (p & ? & _ & H);
      [solve_reads | rewrite H; clear H]
  end.

(** ** Bodies that use up the environment

    [ages m]: the count of effects never goes back, so a fact about all answers
    from the n-th on stays true. *)

Definition ages {S A} (m : M S A) : Prop :=
  ∀ env s w, (io_step w ≤ io_step (out_io (m env s w)))%nat.

Section ages.
Context {S : Type}.

Lemma ages_bind {A B} (m : M S A) (k : A → M S B) : ages m → (∀ a, ages (k a)) → ages (m ≫= k).
Proof.
  intros Hm Hk env s w. specialize (Hm env s w). unfold mbind, M_bind.
  destruct (m env s w) as [a s' w'| |]; [|done..]. specialize (Hk a env s' w'). simpl in Hm. lia.
Qed.
Lemma ages_ret {A} (a : A) : ages (mret a : M S A).
Proof. by intros env s w. Qed.
Lemma ages_get : ages (get : M S S).
Proof. by intros env s w. Qed.
Lemma ages_gets {A} (f : S → A) : ages (gets f).
Proof. by intros env s w. Qed.
Lemma ages_modify (f : S → S) : ages (modify f).
Proof. by intros env s w. Qed.
Lemma ages_asks {A} (f : Env → A) : ages (asks f : M S A).
Proof. by intros env s w. Qed.
Lemma ages_getenv n : ages (getenv n : M S string).
Proof. by intros env s w. Qed.
Lemma ages_now_mono : ages (now_mono : M S Z).
Proof. by intros env s w. Qed.
Lemma ages_blocked {A} : ages (blocked : M S A).
Proof. by intros env s w. Qed.
Lemma ages_panic {A} msg : ages (panic msg : M S A).
Proof. by intros env s w. Qed.
Lemma ages_effect {A} (f : Env → nat → A) ev : ages (effect f ev : M S A).
Proof. intros env s w. simpl. lia. Qed.
Lemma ages_sleep ns : ages (sleep ns : M S ()).
Proof. intros env s w. simpl. lia. Qed.
Lemma ages_zoom {T A} (l : lens S T) (m : M T A) : ages m → ages (zoom l m).
Proof. intros Hm env s w. specialize (Hm env (view l s) w). unfold zoom. by destruct (m env _ w). Qed.
End ages.

Create HintDb ages.
#[export] Hint Resolve ages_ret ages_get ages_gets ages_modify ages_asks ages_getenv ages_now_mono
  ages_blocked ages_panic ages_effect ages_sleep : ages.

Ltac solve_ages :=
  repeat (progress intros ||
    lazymatch goal with
    | |- ages (_ ≫= _) => apply ages_bind
    | |- ages (zoom _ _) => apply ages_zoom
    | |- ages (match _ with _ => _ end) => case_match
    | |- ages _ => solve [auto with ages nocore]
    end).

(** ** Running a body symbolically *)

Section run.
Context {S : Type}.
Implicit Types (env : Env) (s : S) (w : io).

Lemma run_ret {A} (a : A) env s w : (mret a : M S A) env s w = Done a s w.
Proof. done. Qed.
Lemma run_get {B} (k : S → M S B) env s w : (get ≫= k) env s w = k s env s w.
Proof. done. Qed.
Lemma run_gets {A B} (f : S → A) (k : A → M S B) env s w : (gets f ≫= k) env s w = k (f s) env s w.
Proof. done. Qed.
Lemma run_modify {B} f (k : () → M S B) env s w : (modify f ≫= k) env s w = k tt env (f s) w.
Proof. done. Qed.
Lemma run_asks {A B} (f : Env → A) (k : A → M S B) env s w :
  (asks f ≫= k) env s w = k (f env) env s w.
Proof. done. Qed.
Lemma run_getenv {B} n (k : string → M S B) env s w :
  (getenv n ≫= k) env s w = k (env_getenv env n) env s w.
Proof. done. Qed.
Lemma run_bind_ret {A B} (a : A) (k : A → M S B) env s w : ((mret a : M S A) ≫= k) env s w = k a env s w.
Proof. done. Qed.
Lemma run_effect {A B} (f : Env → nat → A) ev (k : A → M S B) env s w :
  (effect f ev ≫= k) env s w = k (f env (io_step w)) env s (advance env 0 ev w).
Proof. done. Qed.
Lemma run_sleep {B} ns (k : () → M S B) env s w :
  (sleep ns ≫= k) env s w = k tt env s (advance env (Z.max 0 ns) [EvSleep ns] w).
Proof. done. Qed.
Lemma run_now_mono {B} (k : Z → M S B) env s w :
  (now_mono ≫= k) env s w = k (io_clock w) env s w.
Proof. done. Qed.
Lemma run_done {A B} (m : M S A) (k : A → M S B) env s w a s' w' :
  m env s w = Done a s' w' → (m ≫= k) env s w = k a env s' w'.
Proof. unfold mbind, M_bind. by intros ->. Qed.
Lemma run_cut {A B} (m : M S A) (k : A → M S B) env s w s' w' :
  m env s w = Cut s' w' → (m ≫= k) env s w = Cut s' w'.
Proof. unfold mbind, M_bind. by intros ->. Qed.
Lemma run_assoc {A B C} (m : M S A) (k : A → M S B) (l : B → M S C) env s w :
  ((m ≫= k) ≫= l) env s w = (m ≫= λ a, k a ≫= l) env s w.
Proof. unfold mbind, M_bind. by destruct (m env s w). Qed.
End run.

Create Rewrite HintDb run.
#[export] Hint Rewrite @run_get @run_gets @run_modify @run_asks @run_getenv @run_bind_ret @run_effect
  @run_sleep @run_now_mono @run_assoc @run_ret : run.
Ltac run := repeat (autorewrite with run; simpl).

(** ** Bodies that keep an invariant

    [keeps I φ m]: from a state satisfying [I], [m] returns, in a state
    satisfying [I], and has only emitted events satisfying [φ]. *)

Definition keeps {S A} (I : S → Prop) (φ : event → Prop) (m : M S A) : Prop :=
  triple I φ m (λ _, I) (λ _, False).

Lemma keeps_run {S A} (I : S → Prop) φ (m : M S A) env s w :
  keeps I φ m → I s →
  ∃ a s' w' new, m env s w = Done a s' w' ∧ I s' ∧ io_trace w' = new ++ io_trace w ∧ Forall φ new.
Proof.
  intros Hm Hs. destruct (Hm env s w Hs) as [(new & Ht & Hf) Hq].
  destruct (m env s w) as [a s' w'|s' w'|msg s' w']; [|done..].
  by exists a, s', w', new.
Qed.

Section keeps.
Context {S : Type} (I : S → Prop) (φ : event → Prop).

Lemma keeps_ret {A} (a : A) : keeps I φ (mret a : M S A).
Proof. by apply triple_ret. Qed.
Lemma keeps_bind {A B} (m : M S A) (k : A → M S B) :
  keeps I φ m → (∀ a, keeps I φ (k a)) → keeps I φ (m ≫= k).
Proof. apply triple_bind. Qed.
Lemma keeps_get : keeps I φ (get : M S S).
Proof. intros env s w Hs. split; [by exists []|done]. Qed.
Lemma keeps_gets {A} (f : S → A) : keeps I φ (gets f).
Proof. intros env s w Hs. split; [by exists []|done]. Qed.
Lemma keeps_modify (f : S → S) : (∀ s, I s → I (f s)) → keeps I φ (modify f).
Proof. apply triple_modify. Qed.
Lemma keeps_effect {A} (f : Env → nat → A) ev : Forall φ ev → keeps I φ (effect f ev : M S A).
Proof. apply triple_effect. Qed.
Lemma keeps_getenv n : keeps I φ (getenv n : M S string).
Proof. apply triple_getenv. Qed.
Lemma keeps_asks {A} (f : Env → A) : keeps I φ (asks f : M S A).
Proof. apply triple_asks. Qed.
Lemma keeps_now_mono : keeps I φ (now_mono : M S Z).
Proof. apply triple_now_mono. Qed.
Lemma keeps_sleep ns : φ (EvSleep ns) → keeps I φ (sleep ns : M S ()).
Proof. apply triple_sleep. Qed.
Lemma keeps_weaken {A} (φ' : event → Prop) (m : M S A) :
  keeps I φ' m → (∀ e, φ' e → φ e) → keeps I φ m.
Proof. intros H Hφ. eapply triple_weaken; [exact H|done..]. Qed.
End keeps.

Create HintDb keeps.
#[export] Hint Resolve keeps_ret keeps_get keeps_gets keeps_getenv keeps_asks keeps_now_mono : keeps.

Ltac keeps_step tac :=
  progress intros ||
  lazymatch goal with
  | |- keeps _ _ (_ ≫= _) => apply keeps_bind
  | |- keeps _ _ (effect _ _) =>
      apply keeps_effect; repeat (apply Forall_cons; split); [tac..|apply Forall_nil; done]
  | |- keeps _ _ (sleep _) => apply keeps_sleep; tac
  | |- keeps _ _ (modify _) => apply keeps_modify
  | |- keeps _ _ (match _ with _ => _ end) => case_match
  | |- keeps _ _ _ => solve [auto with keeps nocore]
  end.
Ltac solve_keeps tac := repeat keeps_step tac.

(** ** Bodies that keep an invariant, whether they return or not *)

Definition safe {S A} (I : S → Prop) (φ : event → Prop) (m : M S A) : Prop :=
  triple I φ m (λ _, I) I.

Section safe.
Context {S : Type} (I : S → Prop) (φ : event → Prop).

Lemma safe_ret {A} (a : A) : safe I φ (mret a : M S A).
Proof. by apply triple_ret. Qed.
Lemma safe_bind {A B} (m : M S A) (k : A → M S B) :
  safe I φ m → (∀ a, safe I φ (k a)) → safe I φ (m ≫= k).
Proof. apply triple_bind. Qed.
Lemma safe_get : safe I φ (get : M S S).
Proof. intros env s w Hs. split; [by exists []|done]. Qed.
Lemma safe_gets {A} (f : S → A) : safe I φ (gets f).
Proof. intros env s w Hs. split; [by exists []|done]. Qed.
Lemma safe_modify (f : S → S) : (∀ s, I s → I (f s)) → safe I φ (modify f).
Proof. apply triple_modify. Qed.
Lemma safe_effect {A} (f : Env → nat → A) ev : Forall φ ev → safe I φ (effect f ev : M S A).
Proof. apply triple_effect. Qed.
Lemma safe_getenv n : safe I φ (getenv n : M S string).
Proof. apply triple_getenv. Qed.
Lemma safe_asks {A} (f : Env → A) : safe I φ (asks f : M S A).
Proof. apply triple_asks. Qed.
Lemma safe_panic {A} msg : safe I φ (panic msg : M S A).
Proof. by apply triple_panic. Qed.

(** Bodies that only look at the world keep everything. *)
Lemma safe_reads {A} (m : M S A) : reads m → emits φ m → safe I φ m.
Proof.
  intros Hr He env s w Hs. destruct (He env s w Logic.I) as [Ht _]. split; [done|].
  destruct (Hr env s w) as (a & w' & ->). done.
Qed.
End safe.

Create HintDb safe.
#[export] Hint Resolve safe_ret safe_get safe_gets safe_getenv safe_asks safe_panic : safe.

Ltac safe_step tac :=
  progress intros ||
  lazymatch goal with
  | |- safe _ _ (_ ≫= _) => apply safe_bind
  | |- safe _ _ (effect _ _) =>
      apply safe_effect; repeat (apply Forall_cons; split); [tac..|apply Forall_nil; done]
  | |- safe _ _ (modify _) => apply safe_modify
  | |- safe _ _ (match _ with _ => _ end) => case_match
  | |- safe _ _ _ => solve [auto with safe nocore]
  end.
Ltac solve_safe tac := repeat safe_step tac.

(** ** Sample worlds

    Concrete environments for the examples: fixed variables and files, writes and
    answers given by a function, one nanosecond per effect. *)

Definition assoc (k : string) (l : list (string * string)) : option string :=
  snd <$> List.find (λ kv, (kv.1 =? k)%string) l.

Definition sample_zip : list zip_entry :=
  [{| ze_name := "lib/"; ze_dir := true; ze_link := false; ze_open := None; ze_data := inl "" |};
   {| ze_name := "lib/util.go"; ze_dir := false; ze_link := false; ze_open := None; ze_data := inl "package util" |};
   {| ze_name := "exec"; ze_dir := false; ze_link := true; ze_open := None; ze_data := inl "lib/util.go" |}]%string.

Definition sample_tar : list tar_entry :=
  [{| te_name := "lib"; te_type := TypeDir; te_data := inl "" |};
   {| te_name := "lib/util.go"; te_type := TypeReg; te_data := inl "package util" |}]%string.

Definition sample_env_flags (vars files : list (string * string)) (write : string → option goerr)
    (http : json → http_result) (flags : nat → bool) (action : option http_body) : Env :=
  let file path := match assoc path files with Some d => inl d | None => inr (EMsg "ENOENT") end in
  {| env_getenv := λ n, default "" (assoc n vars); env_const := file; env_read := λ _, file;
     env_write := λ _ f _, write f; env_syscall := λ _ _ _, None; env_elapsed := λ _, 1%N;
     env_wall := λ i, 1000000000 * Z.of_nat i; env_pid := λ _, 42; env_reap := λ _, Some 5%N;
     env_exit := None; env_rand := λ _, Some "00ff"; env_conn_reused := λ _, false;
     env_lookup := λ _ _, inl ["10.0.0.1"]; env_dial := λ _ _, None; env_http := λ _ _, http;
     env_urlparse := λ _, Some ("http", "scheduler", "5000"); env_url := λ _, None; env_others := λ _ a, a;
     env_flag := flags; env_action := λ _, action; env_environ := [];
     env_json_text := λ _, ""; env_self := 7; env_debugging := false; env_goos := "linux";
     env_zip := λ src, if src =? "PK" then Some sample_zip else None;
     env_zip_bytes := λ _, "PK" +:+ String "003" (String "004" ""); env_tree := λ _ _, NGone (EMsg "ENOENT");
     env_targz := λ src, if src =? "GZ" then inl (sample_tar, None) else inr (EMsg "gzip: invalid header");
     env_readdir := λ _ _, inl ["1"; "README"]; env_compile := λ _ _ _, (EmptyString, None) |}%string.

(** Every [select] takes the same branch. *)
Definition sample_env vars files write http (stop : bool) action : Env :=
  sample_env_flags vars files write http (λ _, stop) action.

(** The same world with other files, another HTTP connection, another disk. *)
Definition with_world (read : nat → string → string + goerr) (reused : bool) (tree : node)
    (zip : option (list zip_entry)) (env : Env) : Env :=
  {| env_getenv := env_getenv env; env_const := env_const env; env_read := read;
     env_write := env_write env; env_syscall := env_syscall env; env_elapsed := env_elapsed env;
     env_wall := env_wall env; env_pid := env_pid env; env_reap := env_reap env; env_exit := env_exit env;
     env_rand := env_rand env; env_conn_reused := λ _, reused; env_lookup := env_lookup env;
     env_dial := env_dial env; env_http := env_http env; env_urlparse := env_urlparse env;
     env_url := env_url env; env_others := env_others env; env_flag := env_flag env;
     env_action := env_action env; env_environ := env_environ env; env_json_text := env_json_text env;
     env_self := env_self env; env_debugging := env_debugging env; env_goos := env_goos env;
     env_zip := λ _, zip; env_zip_bytes := env_zip_bytes env; env_tree := λ _ _, tree;
     env_targz := env_targz env; env_readdir := env_readdir env; env_compile := env_compile env |}.

(** The same world around a process with other variables and flags. *)
Definition with_process (getenv : string → string) (environ : list string) (debugging : bool) (env : Env) : Env :=
  {| env_getenv := getenv; env_const := env_const env; env_read := env_read env;
     env_write := env_write env; env_syscall := env_syscall env; env_elapsed := env_elapsed env;
     env_wall := env_wall env; env_pid := env_pid env; env_reap := env_reap env; env_exit := env_exit env;
     env_rand := env_rand env; env_conn_reused := env_conn_reused env; env_lookup := env_lookup env;
     env_dial := env_dial env; env_http := env_http env; env_urlparse := env_urlparse env;
     env_url := env_url env; env_others := env_others env; env_flag := env_flag env;
     env_action := env_action env; env_environ := environ; env_json_text := env_json_text env;
     env_self := env_self env; env_debugging := debugging; env_goos := env_goos env;
     env_zip := env_zip env; env_zip_bytes := env_zip_bytes env; env_tree := env_tree env;
     env_targz := env_targz env; env_readdir := env_readdir env; env_compile := env_compile env |}.
