(* ===== verification/Rapl.v ===== *)
(** * Energy counter, CPU counters and the attribution formula
    ([openwhisk/metrics_helpers.go])

    [readEnergy] reads the RAPL counter of the socket, [readProcessTicks] the
    CPU time of the container's cgroup; [attributionDetail] shares the socket's
    energy in proportion to the CPU time.  The size of the counter, the core
    mask and the CPU list are constants of the machine ([env_const]). *)

From S2P Require Import Prelude Float64 GoStrings Json Effects.

Local Open Scope Z_scope.
Local Open Scope go_scope.

Record CPUSnapshot := {
  ProcessTicks : Z;   (** CPU time of the container, µs *)
  WallNs : Z          (** wall clock, ns *)
}.

Definition zero_snapshot : CPUSnapshot := {| ProcessTicks := 0; WallNs := 0 |}.

(** ** The RAPL counter *)

Definition raplPath (env : Env) : string :=
  let p := env_getenv env "RAPL_PATH" in
  if (p =? "")%string then "/sys/class/powercap/intel-rapl/intel-rapl:0/energy_uj" else p.

Definition readEnergy {S} : M S (Z + goerr) :=
  raplPath' ← getenv "RAPL_PATH";
  let path := if (raplPath' =? "")%string
              then "/sys/class/powercap/intel-rapl/intel-rapl:0/energy_uj" else raplPath' in
  dat ← read_file path;
  mret (match dat with
        | inl d => match parse_int (trim_space d) with
                   | Some z => inl z
                   | None => inr (EMsg "strconv.ParseInt")
                   end
        | inr e => inr e
        end).

(** A path without a slash makes the slice expression of the source panic; it
    is read as the empty directory here. *)
Definition raplMaxDir (env : Env) : string :=
  str_take (Z.to_nat (last_index "/" (raplPath env))) (raplPath env).

Definition readRAPLMax (env : Env) : Z :=
  match env_const env (raplMaxDir env +:+ "/max_energy_range_uj") with
  | inr _ => 4294967296
  | inl dat => match parse_int (trim_space dat) with
               | Some v => if v <=? 0 then 4294967296 else v
               | None => 4294967296
               end
  end.

Definition raplOverflowProximityThreshold (env : Env) : f64 :=
  let default := f64_of_decimal false 9 (-1) in
  let v := env_getenv env "RAPL_OVERFLOW_PROXIMITY_THRESHOLD" in
  if (v =? "")%string then default
  else match parse_float v with
       | Some parsed => if f64_gtb parsed f64_zero && f64_leb parsed f64_one
                        then parsed else default
       | None => default
       end.

(** Consumption between two readings, in µJ: a reading below its predecessor
    is a register overflow only if the predecessor was near the top. *)
Definition deltaRAPLUJ (env : Env) (start end_ : Z) : Z :=
  if start <=? end_ then end_ -! start
  else
    let max := readRAPLMax env in
    let threshold := f64_to_int64 (f64_of_Z max ⊗ raplOverflowProximityThreshold env) in
    if threshold <=? start then (max -! start) +! end_
    else 0.

(** ** CPU time *)

(** utime + stime out of a [/proc/*/stat] line. *)
Definition readStatTicks (s : string) : Z + goerr :=
  let closeParen := last_index ")" s in
  if closeParen <? 0 then inr (EMsg "unexpected stat format")
  else
    let fs := fields (str_drop (Z.to_nat (closeParen + 1)) s) in
    if (length fs <? 13)%nat then inr (EMsg "not enough fields")
    else match parse_int (nth 11 fs ""%string), parse_int (nth 12 fs ""%string) with
         | Some utime, Some stime => inl (utime +! stime)
         | _, _ => inr (EMsg "strconv.ParseInt")
         end.

(** The first [usage_usec] line with a value decides. *)
Fixpoint usage_usec (path : string) (lines : list string) : Z + goerr :=
  match lines with
  | [] => inr (EMsg ("usage_usec not found in " +:+ path))
  | line :: rest =>
      if negb (has_prefix line "usage_usec ") then usage_usec path rest
      else let fs := fields line in
           if (length fs <? 2)%nat then usage_usec path rest
           else match parse_int (nth 1 fs ""%string) with
                | Some z => inl z
                | None => inr (EMsg "strconv.ParseInt")
                end
  end.

Definition readCgroupV2CPUUsec {S} (path : string) : M S (Z + goerr) :=
  dat ← read_file path;
  mret (match dat with
        | inl d => usage_usec path (str_split newline d)
        | inr e => inr e
        end).

(** cgroups v2: the first [0::/...] line whose [cpu.stat] can be read. *)
Fixpoint ticks_v2 {S} (lines : list string) : M S (option Z) :=
  match lines with
  | [] => mret None
  | line :: rest =>
      if negb (has_prefix line "0::/") then ticks_v2 rest
      else
        let slice := trim_space (trim_prefix line "0::/") in
        usec ← readCgroupV2CPUUsec ("/sys/fs/cgroup/" +:+ slice +:+ "/cpu.stat");
        match usec with
        | inl u => mret (Some u)
        | inr _ => ticks_v2 rest
        end
  end.

(** cgroups v1: [cpuacct.usage], in ns. *)
Fixpoint ticks_v1 {S} (lines : list string) : M S (option Z) :=
  match lines with
  | [] => mret None
  | line :: rest =>
      match str_splitn 3 ":" line with
      | [_; ctrl; path] =>
          if negb (ctrl =? "cpuacct")%string && negb (str_contains ctrl "cpuacct")
          then ticks_v1 rest
          else
            dat ← read_file ("/sys/fs/cgroup/cpuacct/" +:+ trim_space path +:+ "/cpuacct.usage");
            match dat with
            | inr _ => ticks_v1 rest
            | inl d => match parse_int (trim_space d) with
                       | Some ns => mret (Some (i64_div ns 1000))
                       | None => ticks_v1 rest
                       end
            end
      | _ => ticks_v1 rest
      end
  end.

Definition readProcessTicks {S} (pid : Z) : M S (Z + goerr) :=
  if pid <=? 0 then mret (inr (EMsg ("invalid pid " +:+ pretty pid)))
  else
    cgroupData ← read_file ("/proc/" +:+ pretty pid +:+ "/cgroup");
    match cgroupData with
    | inr e => mret (inr (EWrap ("read cgroup for pid " +:+ pretty pid) e))
    | inl d =>
        let lines := str_split newline d in
        v2 ← ticks_v2 lines;
        match v2 with
        | Some usec => mret (inl usec)
        | None =>
            v1 ← ticks_v1 lines;
            mret (match v1 with
                  | Some us => inl us
                  | None => inr (EMsg ("no cgroup cpu usage found for pid " +:+ pretty pid))
                  end)
        end
    end.

(** The diagnostic twin of [readProcessTicks]: which file it would read. *)
Fixpoint path_v2 {S} (lines : list string) : M S (option string) :=
  match lines with
  | [] => mret None
  | line :: rest =>
      if negb (has_prefix line "0::/") then path_v2 rest
      else
        let slice := trim_space (trim_prefix line "0::/") in
        let cpuStatPath := "/sys/fs/cgroup/" +:+ slice +:+ "/cpu.stat" in
        usec ← readCgroupV2CPUUsec cpuStatPath;
        match usec with
        | inl _ => mret (Some cpuStatPath)
        | inr _ => path_v2 rest
        end
  end.

Fixpoint path_v1 {S} (lines : list string) : M S (option string) :=
  match lines with
  | [] => mret None
  | line :: rest =>
      match str_splitn 3 ":" line with
      | [_; ctrl; path] =>
          if negb (ctrl =? "cpuacct")%string && negb (str_contains ctrl "cpuacct")
          then path_v1 rest
          else
            let cpuacctPath := "/sys/fs/cgroup/cpuacct/" +:+ trim_space path +:+ "/cpuacct.usage" in
            dat ← read_file cpuacctPath;
            match dat with
            | inr _ => path_v1 rest
            | inl _ => mret (Some cpuacctPath)
            end
      | _ => path_v1 rest
      end
  end.

Definition ResolveCgroupCPUStatPath {S} (pid : Z) : M S (string + goerr) :=
  if pid <=? 0 then mret (inr (EMsg ("invalid pid " +:+ pretty pid)))
  else
    cgroupData ← read_file ("/proc/" +:+ pretty pid +:+ "/cgroup");
    match cgroupData with
    | inr e => mret (inr (EWrap ("read cgroup for pid " +:+ pretty pid) e))
    | inl d =>
        let lines := str_split newline d in
        v2 ← path_v2 lines;
        match v2 with
        | Some path => mret (inl path)
        | None =>
            v1 ← path_v1 lines;
            mret (match v1 with
                  | Some path => inl path
                  | None => inr (EMsg ("no cgroup cpu usage file found for pid " +:+ pretty pid))
                  end)
        end
    end.

(** A failed read leaves the CPU time at zero. *)
Definition readCPUSnapshot {S} (pid : Z) : M S CPUSnapshot :=
  wall ← now_wall;
  ticks ← readProcessTicks pid;
  mret {| ProcessTicks := match ticks with inl t => t | inr _ => 0 end; WallNs := wall |}.

Definition readCPUSnapshotFromCgroup {S} (cgroupPath : string) : M S CPUSnapshot :=
  wall ← now_wall;
  if (cgroupPath =? "")%string then mret {| ProcessTicks := 0; WallNs := wall |}
  else
    usec ← readCgroupV2CPUUsec (cgroupPath +:+ "/cpu.stat");
    mret {| ProcessTicks := match usec with inl u => u | inr _ => 0 end; WallNs := wall |}.

(** ** Cores *)

Definition mask_part (cores : gset Z) (part : string) : gset Z :=
  match str_split "-" (trim_space part) with
  | [b] => match atoi b with
           | Some id => {[id]} ∪ cores
           | None => cores
           end
  | [b1; b2] => match atoi b1, atoi b2 with
                | Some lo, Some hi => list_to_set (seqZ lo (hi - lo + 1)) ∪ cores
                | _, _ => cores
                end
  | _ => cores
  end.

(** ["26-51,78-103"] as a set of cores. *)
Definition parseCoreMask (mask : string) : gset Z :=
  if (mask =? "")%string then ∅ else foldl mask_part ∅ (str_split "," mask).

Definition countCores (mask : string) : Z :=
  if (mask =? "")%string then 0 else Z.of_nat (size (parseCoreMask mask)).

Definition is_cpu_line (line : string) : bool :=
  has_prefix line "cpu" && negb (has_prefix line "cpu ").

Definition countAllCores (env : Env) : Z :=
  match env_const env "/proc/stat" with
  | inr _ => 1
  | inl d => let n := Z.of_nat (length (List.filter is_cpu_line (str_split newline d))) in
             if n =? 0 then 1 else n
  end.

Definition raplCores (env : Env) : Z :=
  let nbCores := countCores (env_getenv env "RAPL_CORES") in
  if nbCores <=? 0 then countAllCores env else nbCores.

(** ** Attribution *)

Record AttributionBreakdown := {
  AttributedUJ : Z;
  DeltaProcessUsec : Z;
  CapacityUsec : Z;
  CPURatio : f64
}.

Definition zero_breakdown : AttributionBreakdown :=
  {| AttributedUJ := 0; DeltaProcessUsec := 0; CapacityUsec := 0; CPURatio := f64_zero |}.

(** [cpuRatio], clamped at 1. *)
Definition cpu_ratio (deltaProcessUsec capacityUsec : Z) : f64 :=
  let r := f64_of_Z deltaProcessUsec ⊘ f64_of_Z capacityUsec in
  if f64_gtb r f64_one then f64_one else r.

Definition attributionDetail (env : Env) (energyStart energyEnd : Z)
    (snapStart snapEnd : CPUSnapshot) : AttributionBreakdown :=
  let deltaRAPL := deltaRAPLUJ env energyStart energyEnd in
  if deltaRAPL <=? 0 then zero_breakdown else
  let deltaProcessUsec := ProcessTicks snapEnd -! ProcessTicks snapStart in
  if deltaProcessUsec <=? 0 then zero_breakdown else
  let durationUsec := i64_div (WallNs snapEnd -! WallNs snapStart) 1000 in
  if durationUsec <=? 0 then zero_breakdown else
  let capacityUsec := durationUsec *! raplCores env in
  let cpuRatio := cpu_ratio deltaProcessUsec capacityUsec in
  {| AttributedUJ := f64_to_int64 (f64_of_Z deltaRAPL ⊗ cpuRatio);
     DeltaProcessUsec := deltaProcessUsec;
     CapacityUsec := capacityUsec;
     CPURatio := cpuRatio |}.

Definition attributedEnergyUJ (env : Env) (energyStart energyEnd : Z)
    (snapStart snapEnd : CPUSnapshot) : Z :=
  AttributedUJ (attributionDetail env energyStart energyEnd snapStart snapEnd).

(** ** The counter *)

Lemma threshold_unit env : unit_ratio (raplOverflowProximityThreshold env).
Proof.
  unfold raplOverflowProximityThreshold. case_match; [done|].
  destruct (parse_float _) as [p|] eqn:Hp; [|done].
  case_match; [|done]. breq. apply unit_ratio_intro; [|done..].
  by eapply parse_float_wf.
Qed.

Lemma readRAPLMax_pos env : 0 < readRAPLMax env.
Proof. unfold readRAPLMax. repeat case_match; breq; lia. Qed.

(** The overflow threshold of the machine. *)
Definition overflow_threshold (env : Env) : Z :=
  f64_to_int64 (f64_of_Z (readRAPLMax env) ⊗ raplOverflowProximityThreshold env).

Lemma overflow_threshold_range env :
  readRAPLMax env < 2 ^ 53 → 0 ≤ overflow_threshold env ≤ readRAPLMax env.
Proof.
  intros Hmax. pose proof (readRAPLMax_pos env).
  destruct (f64_weight_bounds (readRAPLMax env) _ ltac:(lia) (threshold_unit env)) as (z & Hz & ?).
  unfold overflow_threshold, f64_to_int64. rewrite Hz.
  rewrite decide_True; [done|]. solve_int64.
Qed.

Lemma deltaRAPLUJ_unfold env start end_ :
  deltaRAPLUJ env start end_ =
  if start <=? end_ then end_ -! start
  else if overflow_threshold env <=? start
       then (readRAPLMax env -! start) +! end_ else 0.
Proof. reflexivity. Qed.

(** C36: a counter that wraps at its maximum is followed exactly, as long as less
    than the proximity margin is consumed between two readings. *)
Theorem delta_tracks_wrapping_counter env start consumed :
  readRAPLMax env < 2 ^ 53 →
  0 ≤ start ≤ readRAPLMax env →
  0 ≤ consumed < readRAPLMax env →
  consumed ≤ readRAPLMax env - overflow_threshold env →
  deltaRAPLUJ env start
    (if start + consumed <=? readRAPLMax env then start + consumed
     else start + consumed - readRAPLMax env) = consumed.
Proof.
  intros Hmax Hs Hc Hm. pose proof (overflow_threshold_range env Hmax) as Ht.
  rewrite deltaRAPLUJ_unfold.
  destruct (Z.leb_spec (start + consumed) (readRAPLMax env)).
  - rewrite (proj2 (Z.leb_le _ _)) by lia. rewrite i64_sub_exact; [lia|solve_int64].
  - destruct (Z.leb_spec start (start + consumed - readRAPLMax env)) as [Hw|Hw]; [lia|].
    rewrite (proj2 (Z.leb_le _ _)) by lia.
    rewrite i64_sub_exact by solve_int64. rewrite i64_add_exact; [lia|solve_int64].
Qed.

(** A reading that falls back from below the proximity threshold is noise, never a
    wrap-around of the whole register. *)
Theorem delta_backward_noise_is_zero env start end_ :
  end_ < start → start < overflow_threshold env → deltaRAPLUJ env start end_ = 0.
Proof.
  intros. rewrite deltaRAPLUJ_unfold.
  rewrite (proj2 (Z.leb_gt _ _)) by lia. by rewrite (proj2 (Z.leb_gt _ _)) by lia.
Qed.

Lemma delta_range env start end_ :
  readRAPLMax env < 2 ^ 53 →
  0 ≤ start ≤ readRAPLMax env → 0 ≤ end_ ≤ readRAPLMax env →
  0 ≤ deltaRAPLUJ env start end_ ≤ readRAPLMax env.
Proof.
  intros. rewrite deltaRAPLUJ_unfold.
  destruct (Z.leb_spec start end_); [rewrite i64_sub_exact by solve_int64; lia|].
  case_match; [|lia].
  rewrite i64_sub_exact by solve_int64. rewrite i64_add_exact by solve_int64. lia.
Qed.

(** ** The attribution formula *)

Lemma cpu_ratio_unit dp cap :
  0 < dp < 2 ^ 53 → 0 < cap < 2 ^ 53 → unit_ratio (cpu_ratio dp cap).
Proof.
  intros Hdp Hcap. unfold cpu_ratio.
  destruct (f64_div_pos dp cap Hdp Hcap) as [Hwf Hsign].
  case_match eqn:Hgt; [apply unit_ratio_one|].
  split; [done|]. split; [done|]. split; [done|].
  by destruct (f64_of_Z dp ⊘ f64_of_Z cap) as [[]|[]| |].
Qed.

(** Inputs of a measurement that no machine counter can overflow: the
    conversions to [float64] are exact. *)
Definition measurable (env : Env) (eS eE : Z) (sS sE : CPUSnapshot) : Prop :=
  deltaRAPLUJ env eS eE < 2 ^ 53 ∧
  in_int64 (ProcessTicks sE - ProcessTicks sS) ∧
  ProcessTicks sE - ProcessTicks sS < 2 ^ 53 ∧
  in_int64 (WallNs sE - WallNs sS) ∧
  0 < raplCores env ∧
  Z.quot (WallNs sE - WallNs sS) 1000 * raplCores env < 2 ^ 53.

#[global] Instance measurable_dec env eS eE sS sE : Decision (measurable env eS eE sS sE).
Proof. unfold measurable. apply _. Defined.

Lemma quot_int64 z : in_int64 z → in_int64 (Z.quot z 1000).
Proof.
  intros Hz. pose proof (Z.quot_rem' z 1000). pose proof (Z.rem_bound_abs z 1000 ltac:(lia)).
  pose proof (Z.abs_spec (Z.rem z 1000)). solve_int64.
Qed.

(** Bounds of one segment. *)
Lemma attribution_detail_bounds env eS eE sS sE :
  measurable env eS eE sS sE →
  let d := attributionDetail env eS eE sS sE in
  0 ≤ AttributedUJ d ≤ Z.max 0 (deltaRAPLUJ env eS eE) ∧
  unit_ratio (CPURatio d) ∧ 0 ≤ DeltaProcessUsec d ∧ 0 ≤ CapacityUsec d.
Proof.
  intros (Hd & Hp & Hp' & Hw & Hc & Hcap) d. subst d. unfold attributionDetail.
  destruct (Z.leb_spec (deltaRAPLUJ env eS eE) 0); [by simpl; repeat split; try lia|].
  rewrite i64_sub_exact by done.
  destruct (Z.leb_spec (ProcessTicks sE - ProcessTicks sS) 0); [by simpl; repeat split; try lia|].
  rewrite i64_sub_exact by done. unfold i64_div.
  assert (Hq : in_int64 (Z.quot (WallNs sE - WallNs sS) 1000)) by (by apply quot_int64).
  rewrite int64_id by done.
  destruct (Z.leb_spec (Z.quot (WallNs sE - WallNs sS) 1000) 0); [by simpl; repeat split; try lia|].
  assert (0 < Z.quot (WallNs sE - WallNs sS) 1000 * raplCores env) by (apply Z.mul_pos_pos; lia).
  rewrite i64_mul_exact by solve_int64. cbn [AttributedUJ CPURatio DeltaProcessUsec CapacityUsec].
  assert (Hr : unit_ratio (cpu_ratio (ProcessTicks sE - ProcessTicks sS)
            (Z.quot (WallNs sE - WallNs sS) 1000 * raplCores env))) by (apply cpu_ratio_unit; [lia|]; lia).
  destruct (f64_weight_bounds (deltaRAPLUJ env eS eE) _ ltac:(lia) Hr) as (z & Hz & Hzb).
  unfold f64_to_int64. rewrite Hz, decide_True by solve_int64.
  split; [lia|]. split; [done|]. lia.
Qed.

(** The energy attributed to a container lies between nothing and what the socket
    consumed between the two readings, its CPU ratio lies between 0 and 1, and its
    CPU time and capacity are not negative, as long as no counter overflows.
    (Proved as [attribution_detail_bounds], which the bounds over several segments
    build on.) *)
Theorem attribution_bounds env eS eE sS sE :
  measurable env eS eE sS sE →
  let d := attributionDetail env eS eE sS sE in
  0 ≤ AttributedUJ d ≤ Z.max 0 (deltaRAPLUJ env eS eE) ∧
  unit_ratio (CPURatio d) ∧ 0 ≤ DeltaProcessUsec d ∧ 0 ≤ CapacityUsec d.
Proof. exact (attribution_detail_bounds env eS eE sS sE). Qed.

(** ** The diagnostic agrees with the measurement *)

Section resolve.
Context {S : Type} (env : Env) (file : string → string + goerr).
Context (Hfile : ∀ i path, env_read env i path = file path).

(** The CPU time a [cpu.stat] holds. *)
Definition cpu_stat (path : string) (us : Z) : Prop :=
  ∃ d, file path = inl d ∧ usage_usec path (str_split newline d) = inl us.

(** The CPU time a [cpuacct.usage] holds, if it can be parsed. *)
Definition cpuacct (path : string) (us : option Z) : Prop :=
  ∃ d, file path = inl d ∧ us = (λ ns, i64_div ns 1000) <$> parse_int (trim_space d).

Lemma read_file_is path (s : S) w : ∃ w', read_file path env s w = Done (file path) s w'.
Proof. unfold read_file, effect. rewrite Hfile. by eexists. Qed.

Lemma v2_agree lines (s : S) w w' :
  ∃ r t w1 w2, path_v2 lines env s w = Done r s w1 ∧ ticks_v2 lines env s w' = Done t s w2 ∧
    match r, t with Some path, Some us => cpu_stat path us | None, None => True | _, _ => False end.
Proof.
  revert w w'. induction lines as [|line lines IH]; intros w w'; cbn [path_v2 ticks_v2]; [by eexists None, None, _, _|].
  case_match; [apply IH|]. unfold readCgroupV2CPUUsec. rewrite !run_assoc.
  set (path := "/sys/fs/cgroup/" +:+ _).
  destruct (read_file_is path s w) as (w1 & H1), (read_file_is path s w') as (w2 & H2).
  rewrite (run_done _ _ _ _ _ _ _ _ H1), (run_done _ _ _ _ _ _ _ _ H2). unfold mbind, M_bind. simpl.
  destruct (file path) as [d|e] eqn:Hd; [|apply IH].
  destruct (usage_usec path (str_split newline d)) as [us|] eqn:Hu; [|apply IH].
  eexists (Some path), (Some us), _, _. split; [done|]. split; [done|]. by exists d.
Qed.

Lemma v1_agree lines (s : S) w w' :
  ∃ r t w1 w2, path_v1 lines env s w = Done r s w1 ∧ ticks_v1 lines env s w' = Done t s w2 ∧
    match r with
    | Some path => ∃ us, cpuacct path us ∧ (is_Some us → t = us)
    | None => t = None
    end.
Proof.
  revert w w'. induction lines as [|line lines IH]; intros w w'; cbn [path_v1 ticks_v1]; [by eexists None, None, _, _|].
  destruct (str_splitn 3 ":" line) as [|x [|ctrl [|path [|]]]]; try apply IH. case_match; [apply IH|].
  set (p := "/sys/fs/cgroup/cpuacct/" +:+ _).
  destruct (read_file_is p s w) as (w1 & H1), (read_file_is p s w') as (w2 & H2).
  rewrite (run_done _ _ _ _ _ _ _ _ H1), (run_done _ _ _ _ _ _ _ _ H2).
  destruct (file p) as [d|e] eqn:Hd; [|apply IH].
  destruct (parse_int (trim_space d)) as [ns|] eqn:Hn.
  - eexists (Some p), (Some _), _, _. split; [done|]. split; [done|].
    eexists. split; [exists d; split; [done|reflexivity]|]. by rewrite Hn.
  - destruct (IH w2 w2) as (_ & t & _ & w4 & _ & Ht & _). eexists (Some p), t, _, w4. split; [done|].
    split; [done|]. eexists. split; [exists d; split; [done|reflexivity]|]. rewrite Hn. by intros [].
Qed.

(** The diagnostic names the file the measurement reads: over files that stay as
    they are, both fail together; a [cpu.stat] it names holds the CPU time that is
    measured; a [cpuacct.usage] it names holds it too, provided its content is a
    number (otherwise the measurement goes on to the next line, the diagnostic
    does not). *)
Theorem resolve_names_the_measured_file pid (s : S) w w' :
  ∃ r t w1 w2, ResolveCgroupCPUStatPath pid env s w = Done r s w1 ∧
    readProcessTicks pid env s w' = Done t s w2 ∧
    match r with
    | inl path => (∃ us, cpu_stat path us ∧ t = inl us) ∨
                  (∃ us, cpuacct path us ∧ ∀ z, us = Some z → t = inl z)
    | inr _ => ∃ e, t = inr e
    end.
Proof.
  unfold ResolveCgroupCPUStatPath, readProcessTicks.
  destruct (pid <=? 0); [eexists (inr _), (inr _), _, _; split; [done|]; split; [done|]; by eexists|].
  set (cg := "/proc/" +:+ _).
  destruct (read_file_is cg s w) as (w1 & H1), (read_file_is cg s w') as (w2 & H2).
  rewrite (run_done _ _ _ _ _ _ _ _ H1), (run_done _ _ _ _ _ _ _ _ H2).
  destruct (file cg) as [d|e]; [|eexists (inr _), (inr _), _, _; split; [done|]; split; [done|]; by eexists].
  destruct (v2_agree (str_split newline d) s w1 w2) as (r & t & w3 & w4 & H3 & H4 & Hrt).
  rewrite (run_done _ _ _ _ _ _ _ _ H3), (run_done _ _ _ _ _ _ _ _ H4).
  destruct r as [path|], t as [us|]; [|done|done|].
  { eexists (inl path), (inl us), _, _. split; [done|]. split; [done|]. left. by exists us. }
  destruct (v1_agree (str_split newline d) s w3 w4) as (r & t & w5 & w6 & H5 & H6 & Hrt').
  rewrite (run_done _ _ _ _ _ _ _ _ H5), (run_done _ _ _ _ _ _ _ _ H6).
  destruct r as [path|]; [|subst t; eexists (inr _), (inr _), _, _; split; [done|]; split; [done|]; by eexists].
  destruct Hrt' as (us & Hus & Ht). eexists (inl path), _, _, _. split; [done|]. split; [reflexivity|].
  right. exists us. split; [done|]. intros z ->. by rewrite Ht.
Qed.
End resolve.

(** ** A sample machine *)

(** A counter that wraps at 1000000 µJ, two cores. *)
Definition sample_machine : Env :=
  sample_env [("RAPL_PATH", "/r/energy_uj"); ("RAPL_CORES", "0-1")]
    [("/r/max_energy_range_uj", "1000000")] (λ _, None) (λ _, HttpErr EDeadline) true None.

Lemma delta_tracks_wrapping_counter_witness :
  deltaRAPLUJ sample_machine 950000
    (if 950000 + 80000 <=? readRAPLMax sample_machine then 950000 + 80000
     else 950000 + 80000 - readRAPLMax sample_machine) = 80000.
Proof.
  apply (delta_tracks_wrapping_counter sample_machine 950000 80000);
    apply (bool_decide_unpack _); vm_compute; reflexivity.
Defined.

Lemma attribution_bounds_witness :
  let d := attributionDetail sample_machine 1000 5000
             {| ProcessTicks := 0; WallNs := 0 |} {| ProcessTicks := 500; WallNs := 1000000 |} in
  0 ≤ AttributedUJ d ≤ Z.max 0 (deltaRAPLUJ sample_machine 1000 5000) ∧
  unit_ratio (CPURatio d) ∧ 0 ≤ DeltaProcessUsec d ∧ 0 ≤ CapacityUsec d.
Proof.
  apply (attribution_bounds sample_machine 1000 5000); apply (bool_decide_unpack _); vm_compute; reflexivity.
Defined.

(** A container on cgroups v1. *)
Definition v1_files (usage : string) : list (string * string) :=
  [("/proc/7/cgroup", "4:cpu,cpuacct:/a" +:+ nl +:+ "3:cpuacct:/b");
   ("/sys/fs/cgroup/cpuacct//a/cpuacct.usage", usage); ("/sys/fs/cgroup/cpuacct//b/cpuacct.usage", "9000")]%string.

Definition v1_machine (usage : string) : Env :=
  sample_env [] (v1_files usage) (λ _, None) (λ _, HttpErr EDeadline) true None.

(** Over a file that is no number the two part ways. *)
Example resolve_drifts :
  out_val (ResolveCgroupCPUStatPath 7 (v1_machine "none") () io_start) =
    Some (inl "/sys/fs/cgroup/cpuacct//a/cpuacct.usage"%string) ∧
  out_val (readProcessTicks 7 (v1_machine "none") () io_start) = Some (inl 9).
Proof. split; vm_compute; reflexivity. Qed.

Lemma resolve_names_the_measured_file_witness :
  (∃ w1, ResolveCgroupCPUStatPath 7 (v1_machine "5000") () io_start =
    Done (inl "/sys/fs/cgroup/cpuacct//a/cpuacct.usage"%string) () w1) ∧
  ∃ r t w1 w2, ResolveCgroupCPUStatPath 7 (v1_machine "5000") () io_start = Done r () w1 ∧
    readProcessTicks 7 (v1_machine "5000") () io_start = Done t () w2 ∧
    match r with
    | inl path => (∃ us, cpu_stat (env_const (v1_machine "5000")) path us ∧ t = inl us) ∨
                  (∃ us, cpuacct (env_const (v1_machine "5000")) path us ∧ ∀ z, us = Some z → t = inl z)
    | inr _ => ∃ e, t = inr e
    end.
Proof.
  split; [eexists; vm_compute; reflexivity|].
  exact (resolve_names_the_measured_file (v1_machine "5000") (env_const (v1_machine "5000"))
    (λ _ _, eq_refl) 7 () io_start io_start).
Defined.
