(* ===== verification/Instrumentation.v ===== *)
(** * Measurement records ([openwhisk/metricHandler.go])

    The per-cycle and per-invocation instrumentation that travels from the
    monitor to the collector. *)

From S2P Require Import Prelude Float64 GoStrings Json Effects Rapl.

Record PauseCycle := {
  cyc_PauseID : string;
  cyc_ThresholdDetectedAt : f64;
  cyc_EnergyAtThresholdJ : f64;
  cyc_FreezeRequestedAt : f64;
  cyc_FreezeEffectiveAt : f64;
  cyc_EnergyAtEffectiveFreezeJ : f64;
  cyc_ExecutionThresholdJ : f64;
  cyc_CommandRoundtripNs : Z;
  cyc_ConnReused : bool;
  cyc_ConnSetupNs : Z;
  cyc_ChannelTraced : bool;
  cyc_ChannelDNSNs : Z;
  cyc_ChannelConnectNs : Z;
  cyc_ChannelCachedAddr : bool;
  cyc_ChannelFailure : string;
  cyc_ResumeRequestedAt : f64;
  cyc_ResumeEffectiveAt : f64;
  cyc_EnergyAtResumeEffectiveJ : f64;
  cyc_CPUUsecWhileFrozen : option Z;
  cyc_Outcome : string
}.

Record Lifecycle := {
  lc_MonitorSamples : Z;
  lc_MonitorBusyNs : Z;
  lc_SidecarExtractNs : Z;
  lc_SidecarInjectNs : Z;
  lc_SidecarStateBytes : Z;
  lc_KillRequestedAt : f64;
  lc_ProcessStoppedAt : f64;
  lc_KillCause : string;
  lc_Cycles : list PauseCycle
}.

Definition zero_lifecycle : Lifecycle :=
  {| lc_MonitorSamples := 0; lc_MonitorBusyNs := 0; lc_SidecarExtractNs := 0;
     lc_SidecarInjectNs := 0; lc_SidecarStateBytes := 0; lc_KillRequestedAt := f64_zero;
     lc_ProcessStoppedAt := f64_zero; lc_KillCause := ""; lc_Cycles := [] |}.

(** Seconds since the epoch as written in the records:
    [float64(t.UnixNano()) / 1e9]. *)
Definition unix_seconds (ns : Z) : f64 := f64_div (f64_of_Z ns) (f64_of_Z 1000000000).

Record RunMeta := {
  meta_TraceID : string;
  meta_PodName : string;
  meta_ActivationID : string;
  meta_ExecutionPhase : string;
  meta_Lifecycle : option Lifecycle
}.

Record Entry := {
  en_Start : Z;
  en_End : Z;
  en_EnergyStart : Z;
  en_EnergyEnd : Z;
  en_EnergyAttributed : Z;
  en_CPUProcessUsec : Z;
  en_CPUCapacityUsec : Z;
  en_CPURatio : f64;
  en_TraceID : string;
  en_PodName : string;
  en_ActivationID : string;
  en_ExecutionPhase : string;
  en_Lifecycle : option Lifecycle
}.
