(* ===== verification/Segments.v ===== *)
(** * Energy by execution segments ([openwhisk/energySegments.go])

    An effective freeze closes the running segment, an effective resume opens
    the next one, and nothing is attributed in between.  Two computations share
    the segments: the monitor's running meter ([stepMeter]) and the final
    measurement over the freeze marks ([segmentedAttribution]).  The main
    theorem of this file is that they always agree. *)

From S2P Require Import Prelude Float64 GoStrings Json Effects Rapl Instrumentation.

Local Open Scope Z_scope.
Local Open Scope go_scope.

Record freezeMark := {
  FreezeEnergyUJ : Z;
  FreezeCPU : CPUSnapshot;
  Resumed : bool;
  ResumeEnergyUJ : Z;
  ResumeCPU : CPUSnapshot
}.

(** ** Marks of the current invocation *)

(** Rewrites the last element. *)
Fixpoint alter_last {A} (f : A → A) (l : list A) : list A :=
  match l with
  | [] => []
  | [x] => [f x]
  | x :: l' => x :: alter_last f l'
  end.

Definition reset (_ : list freezeMark) : list freezeMark := [].
Definition snapshot (marks : list freezeMark) : list freezeMark := marks.

Definition noteFreeze (energyUJ : Z) (cpu : CPUSnapshot) (marks : list freezeMark) :=
  marks ++ [{| FreezeEnergyUJ := energyUJ; FreezeCPU := cpu; Resumed := false;
               ResumeEnergyUJ := 0; ResumeCPU := zero_snapshot |}].

Definition noteResume (energyUJ : Z) (cpu : CPUSnapshot) : list freezeMark → list freezeMark :=
  alter_last (λ m, if Resumed m then m
    else {| FreezeEnergyUJ := FreezeEnergyUJ m; FreezeCPU := FreezeCPU m; Resumed := true;
            ResumeEnergyUJ := energyUJ; ResumeCPU := cpu |}).

Definition set_ticks (t : Z) (c : CPUSnapshot) : CPUSnapshot :=
  {| ProcessTicks := t; WallNs := WallNs c |}.

Definition refineFreezeCPU (cpuTicks : Z) : list freezeMark → list freezeMark :=
  alter_last (λ m, if negb (Resumed m) && (ProcessTicks (FreezeCPU m) <? cpuTicks)
    then {| FreezeEnergyUJ := FreezeEnergyUJ m; FreezeCPU := set_ticks cpuTicks (FreezeCPU m);
            Resumed := Resumed m; ResumeEnergyUJ := ResumeEnergyUJ m; ResumeCPU := ResumeCPU m |}
    else m).

(** ** Final measurement *)

Definition add_breakdown (total d : AttributionBreakdown) : AttributionBreakdown :=
  {| AttributedUJ := AttributedUJ total +! AttributedUJ d;
     DeltaProcessUsec := DeltaProcessUsec total +! DeltaProcessUsec d;
     CapacityUsec := CapacityUsec total +! CapacityUsec d;
     CPURatio := CPURatio total |}.

(** The loop over the marks; a mark without a resume ends it. *)
Fixpoint add_segments (env : Env) (total : AttributionBreakdown) (curEnergy : Z)
    (curCPU : CPUSnapshot) (energyEnd : Z) (snapEnd : CPUSnapshot) (marks : list freezeMark) :
    AttributionBreakdown :=
  match marks with
  | [] => add_breakdown total (attributionDetail env curEnergy energyEnd curCPU snapEnd)
  | m :: rest =>
      let total := add_breakdown total
                     (attributionDetail env curEnergy (FreezeEnergyUJ m) curCPU (FreezeCPU m)) in
      if negb (Resumed m) then total
      else add_segments env total (ResumeEnergyUJ m) (ResumeCPU m) energyEnd snapEnd rest
  end.

Definition segmentedAttribution (env : Env) (energyStart energyEnd : Z)
    (snapStart snapEnd : CPUSnapshot) (marks : list freezeMark) : AttributionBreakdown :=
  match marks with
  | [] => attributionDetail env energyStart energyEnd snapStart snapEnd
  | _ =>
      let total := add_segments env zero_breakdown energyStart snapStart energyEnd snapEnd marks in
      if 0 <? CapacityUsec total then
        let r := f64_of_Z (DeltaProcessUsec total) ⊘ f64_of_Z (CapacityUsec total) in
        {| AttributedUJ := AttributedUJ total; DeltaProcessUsec := DeltaProcessUsec total;
           CapacityUsec := CapacityUsec total;
           CPURatio := if f64_gtb r f64_one then f64_one else r |}
      else total
  end.

(** ** The monitor's meter *)

Record stepMeter := {
  closedUJ : Z;
  segEnergy : Z;
  segCPU : CPUSnapshot;
  frozen : bool;
  frozenEnergy : Z;
  frozenCPU : CPUSnapshot;
  lastSegEnergy : Z;
  lastSegCPU : CPUSnapshot;
  lastSegUJ : Z
}.

Definition newStepMeter (energyStart : Z) (cpuStart : CPUSnapshot) : stepMeter :=
  {| closedUJ := 0; segEnergy := energyStart; segCPU := cpuStart; frozen := false;
     frozenEnergy := 0; frozenCPU := zero_snapshot; lastSegEnergy := 0;
     lastSegCPU := zero_snapshot; lastSegUJ := 0 |}.

Definition closedJ (m : stepMeter) : f64 := f64_of_Z (closedUJ m) ⊘ f64_1e6.

Definition stepJ (env : Env) (m : stepMeter) (energyNow : Z) (cpuNow : CPUSnapshot) : f64 :=
  if frozen m then closedJ m
  else f64_of_Z (closedUJ m +! attributedEnergyUJ env (segEnergy m) energyNow (segCPU m) cpuNow)
         ⊘ f64_1e6.

Definition closeAt (env : Env) (energyUJ : Z) (cpu : CPUSnapshot) (m : stepMeter) : stepMeter :=
  let uj := attributedEnergyUJ env (segEnergy m) energyUJ (segCPU m) cpu in
  {| closedUJ := closedUJ m +! uj; segEnergy := segEnergy m; segCPU := segCPU m;
     frozen := true; frozenEnergy := energyUJ; frozenCPU := cpu;
     lastSegEnergy := segEnergy m; lastSegCPU := segCPU m; lastSegUJ := uj |}.

(** Late CPU time of a frozen step goes to the segment the freeze closed;
    returns the µs added. *)
Definition refineFrozenCPU (env : Env) (cpuTicks : Z) (m : stepMeter) : Z * stepMeter :=
  if negb (frozen m) || (cpuTicks <=? ProcessTicks (frozenCPU m)) then (0, m)
  else
    let late := cpuTicks -! ProcessTicks (frozenCPU m) in
    let cpu := set_ticks cpuTicks (frozenCPU m) in
    let refined := attributedEnergyUJ env (lastSegEnergy m) (frozenEnergy m) (lastSegCPU m) cpu in
    (late, {| closedUJ := closedUJ m +! (refined -! lastSegUJ m); segEnergy := segEnergy m;
              segCPU := segCPU m; frozen := frozen m; frozenEnergy := frozenEnergy m;
              frozenCPU := cpu; lastSegEnergy := lastSegEnergy m; lastSegCPU := lastSegCPU m;
              lastSegUJ := refined |}).

Definition openAt (energyUJ : Z) (cpu : CPUSnapshot) (m : stepMeter) : stepMeter :=
  {| closedUJ := closedUJ m; segEnergy := energyUJ; segCPU := cpu; frozen := false;
     frozenEnergy := frozenEnergy m; frozenCPU := frozenCPU m; lastSegEnergy := lastSegEnergy m;
     lastSegCPU := lastSegCPU m; lastSegUJ := lastSegUJ m |}.

(** ** The monitor's operations on the segments

    [path] is the activation's cgroup and [pid] its process: both are fixed
    while a step runs. *)

Record SegState := {
  sg_meter : stepMeter;
  sg_marks : list freezeMark
}.

Definition set_seg (m : stepMeter) (l : list freezeMark) (s : SegState) : SegState :=
  {| sg_meter := m; sg_marks := l |}.

Section executor.
Context {S : Type}.

Definition cpuSnapshot (path : string) (pid : Z) : M S CPUSnapshot :=
  if negb (path =? "")%string then readCPUSnapshotFromCgroup path else readCPUSnapshot pid.

(** Energy and CPU time at the same instant; the energy reads as 0 on error. *)
Definition segmentSnapshot (path : string) (pid : Z) : M S (Z * CPUSnapshot * option goerr) :=
  energy ← readEnergy;
  cpu ← cpuSnapshot path pid;
  mret (match energy with
        | inl e => (e, cpu, None)
        | inr err => (0, cpu, Some err)
        end).
End executor.

Definition logSegmentMarkMissing {S} : M S () := safety "ENERGY_SEGMENT_MARK_MISSING" "".

Definition refineFrozenSegment (path : string) (pid : Z) : M SegState (Z * bool) :=
  st ← get;
  if negb (frozen (sg_meter st)) then mret (0, false)
  else
    cpu ← cpuSnapshot path pid;
    r ← asks (λ env, refineFrozenCPU env (ProcessTicks cpu) (sg_meter st));
    modify (set_seg r.2 (refineFreezeCPU (ProcessTicks cpu) (sg_marks st)));;
    mret (r.1, true).

Definition closeSegmentAtFreeze (path : string) (pid : Z) : M SegState bool :=
  snap ← segmentSnapshot path pid;
  let '(energyUJ, cpu, err) := snap in
  st ← get;
  if bool_decide (is_Some err) || (ProcessTicks cpu <? ProcessTicks (segCPU (sg_meter st)))
  then logSegmentMarkMissing;; mret false
  else
    m ← asks (λ env, closeAt env energyUJ cpu (sg_meter st));
    modify (set_seg m (noteFreeze energyUJ cpu (sg_marks st)));;
    mret true.

Definition openSegmentAtResume (path : string) (pid : Z) : M SegState bool :=
  st ← get;
  if negb (frozen (sg_meter st)) then mret false
  else
    snap ← segmentSnapshot path pid;
    let '(energy, cpu, err) := snap in
    let ticks := ProcessTicks (frozenCPU (sg_meter st)) in
    let ok := negb (bool_decide (is_Some err)) && (ticks <=? ProcessTicks cpu) in
    energyUJ ← (if ok then mret energy
                else logSegmentMarkMissing;; mret (frozenEnergy (sg_meter st)));
    wall ← (if WallNs cpu =? 0 then now_wall else mret (WallNs cpu));
    let start := {| ProcessTicks := ticks; WallNs := wall |} in
    modify (set_seg (openAt energyUJ start (sg_meter st)) (noteResume energyUJ start (sg_marks st)));;
    mret ok.

(** ** The meter and the marks agree *)

(** Where the marks leave the computation: running since a point with the
    energy closed so far, or stopped at a mark without a resume. *)
Inductive seg_pos :=
  | Running (e : Z) (c : CPUSnapshot) (closed : Z)
  | Stopped (closed : Z).

Fixpoint walk (env : Env) (e : Z) (c : CPUSnapshot) (closed : Z) (marks : list freezeMark) : seg_pos :=
  match marks with
  | [] => Running e c closed
  | m :: rest =>
      let closed := closed +! attributedEnergyUJ env e (FreezeEnergyUJ m) c (FreezeCPU m) in
      if negb (Resumed m) then Stopped closed
      else walk env (ResumeEnergyUJ m) (ResumeCPU m) closed rest
  end.

(** Energy of the step at a final reading. *)
Definition pos_energy (env : Env) (eE : Z) (sE : CPUSnapshot) (p : seg_pos) : Z :=
  match p with
  | Running e c closed => closed +! attributedEnergyUJ env e eE c sE
  | Stopped closed => closed
  end.

Lemma attributed_int64 env eS eE sS sE : in_int64 (attributedEnergyUJ env eS eE sS sE).
Proof.
  unfold attributedEnergyUJ, attributionDetail. repeat case_match; simpl; try solve_int64.
  unfold f64_to_int64. repeat case_match; solve_int64.
Qed.

Lemma add_segments_walk env total e c eE sE marks :
  AttributedUJ (add_segments env total e c eE sE marks) =
  pos_energy env eE sE (walk env e c (AttributedUJ total) marks).
Proof.
  revert total e c. induction marks as [|m rest IH]; intros total e c; simpl; [done|].
  destruct (Resumed m); simpl; [|done]. by rewrite IH.
Qed.

(** The final measurement is the energy at the position the marks lead to. *)
Lemma segmented_walk env eS eE sS sE marks :
  AttributedUJ (segmentedAttribution env eS eE sS sE marks) =
  pos_energy env eE sE (walk env eS sS 0 marks).
Proof.
  destruct marks as [|m rest].
  - simpl. unfold i64_add. by rewrite Z.add_0_l, int64_id by apply attributed_int64.
  - change 0 with (AttributedUJ zero_breakdown). rewrite <-add_segments_walk.
    unfold segmentedAttribution. by case_match.
Qed.

Definition open_mark (e : Z) (c : CPUSnapshot) : freezeMark :=
  {| FreezeEnergyUJ := e; FreezeCPU := c; Resumed := false;
     ResumeEnergyUJ := 0; ResumeCPU := zero_snapshot |}.

(** The meter and the marks describe the same segments. *)
Definition agree (env : Env) (eS : Z) (sS : CPUSnapshot) (s : SegState) : Prop :=
  let m := sg_meter s in
  if frozen m then
    ∃ pre base,
      sg_marks s = pre ++ [open_mark (frozenEnergy m) (frozenCPU m)] ∧
      walk env eS sS 0 pre = Running (lastSegEnergy m) (lastSegCPU m) base ∧
      lastSegUJ m = attributedEnergyUJ env (lastSegEnergy m) (frozenEnergy m)
                      (lastSegCPU m) (frozenCPU m) ∧
      closedUJ m = base +! lastSegUJ m
  else walk env eS sS 0 (sg_marks s) = Running (segEnergy m) (segCPU m) (closedUJ m).

Lemma alter_last_snoc {A} (f : A → A) l x : alter_last f (l ++ [x]) = l ++ [f x].
Proof.
  induction l as [|y l IH]; [done|]. simpl. rewrite IH.
  by destruct l.
Qed.

Lemma walk_app env e c closed l l' :
  walk env e c closed (l ++ l') =
  match walk env e c closed l with
  | Running e' c' closed' => walk env e' c' closed' l'
  | Stopped closed' => Stopped closed'
  end.
Proof.
  revert e c closed. induction l as [|m l IH]; intros e c closed; simpl; [done|].
  destruct (Resumed m); simpl; [apply IH|done].
Qed.

Lemma agree_start env eS sS : agree env eS sS {| sg_meter := newStepMeter eS sS; sg_marks := [] |}.
Proof. done. Qed.

Section agree_steps.
Context (env : Env) (eS : Z) (sS : CPUSnapshot).

Lemma agree_close e c s :
  frozen (sg_meter s) = false → agree env eS sS s →
  agree env eS sS {| sg_meter := closeAt env e c (sg_meter s);
                     sg_marks := noteFreeze e c (sg_marks s) |}.
Proof.
  unfold agree. intros -> Hw. simpl.
  exists (sg_marks s), (closedUJ (sg_meter s)). done.
Qed.

Lemma agree_refine t s :
  agree env eS sS s →
  agree env eS sS {| sg_meter := (refineFrozenCPU env t (sg_meter s)).2;
                     sg_marks := if frozen (sg_meter s) then refineFreezeCPU t (sg_marks s)
                                 else sg_marks s |}.
Proof.
  unfold agree, refineFrozenCPU. destruct (frozen (sg_meter s)) eqn:Hf; simpl; [|by rewrite Hf].
  intros (pre & base & Hm & Hw & Hl & Hc).
  destruct (Z.leb_spec t (ProcessTicks (frozenCPU (sg_meter s)))); simpl.
  - rewrite Hf. exists pre, base. unfold refineFreezeCPU. rewrite Hm, alter_last_snoc. simpl.
    by rewrite (proj2 (Z.ltb_ge _ _)) by lia.
  - exists pre, base. unfold refineFreezeCPU. rewrite Hm, alter_last_snoc. simpl.
    rewrite (proj2 (Z.ltb_lt _ _)) by lia.
    split; [done|]. split; [done|]. split; [done|]. rewrite Hc. int64_ring.
Qed.

Lemma agree_open e c s :
  frozen (sg_meter s) = true → agree env eS sS s →
  agree env eS sS {| sg_meter := openAt e c (sg_meter s);
                     sg_marks := noteResume e c (sg_marks s) |}.
Proof.
  unfold agree. intros ->. simpl. intros (pre & base & Hm & Hw & Hl & Hc).
  unfold noteResume. rewrite Hm, alter_last_snoc, walk_app, Hw. simpl. by rewrite Hc, Hl.
Qed.

(** The monitor's reading is the final measurement. *)
Lemma agree_energy eE sE s :
  agree env eS sS s →
  stepJ env (sg_meter s) eE sE =
  f64_of_Z (AttributedUJ (segmentedAttribution env eS eE sS sE (sg_marks s))) ⊘ f64_1e6.
Proof.
  rewrite segmented_walk. unfold agree, stepJ, closedJ.
  destruct (frozen (sg_meter s)).
  - intros (pre & base & Hm & Hw & Hl & Hc). rewrite Hm, walk_app, Hw. simpl. by rewrite Hc, Hl.
  - intros ->. done.
Qed.
End agree_steps.

(** ** The monitor as a step relation *)

Inductive seg_step (env : Env) (path : string) (pid : Z) : relation (SegState * io) :=
  | step_close s w b s' w' :
      frozen (sg_meter s) = false →
      closeSegmentAtFreeze path pid env s w = Done b s' w' →
      seg_step env path pid (s, w) (s', w')
  | step_refine s w b s' w' :
      refineFrozenSegment path pid env s w = Done b s' w' →
      seg_step env path pid (s, w) (s', w')
  | step_open s w b s' w' :
      openSegmentAtResume path pid env s w = Done b s' w' →
      seg_step env path pid (s, w) (s', w').

Lemma cpuSnapshot_reads {S} path pid : reads (cpuSnapshot path pid : M S CPUSnapshot).
Proof.
  assert (Hv2 : ∀ lines, reads (ticks_v2 lines : M S _)).
  { induction lines as [|l lines IH]; simpl; unfold readCgroupV2CPUUsec; [solve_reads|].
    case_match; [done|]. solve_reads. }
  assert (Hv1 : ∀ lines, reads (ticks_v1 lines : M S _)).
  { induction lines as [|l lines IH]; simpl; [solve_reads|].
    repeat (case_match; try done); solve_reads. }
  unfold cpuSnapshot, readCPUSnapshotFromCgroup, readCgroupV2CPUUsec, readCPUSnapshot, readProcessTicks.
  solve_reads.
Qed.

Lemma segmentSnapshot_reads {S} path pid : reads (segmentSnapshot path pid : M S _).
Proof.
  pose proof (@cpuSnapshot_reads S path pid). unfold segmentSnapshot, readEnergy.
  solve_reads.
Qed.
#[export] Hint Resolve cpuSnapshot_reads segmentSnapshot_reads : reads.

(** What the monadic operations do to the state. *)
Lemma refineFrozenSegment_spec path pid env s w :
  ∃ r w' t, refineFrozenSegment path pid env s w = Done r
    {| sg_meter := (refineFrozenCPU env t (sg_meter s)).2;
       sg_marks := if frozen (sg_meter s) then refineFreezeCPU t (sg_marks s) else sg_marks s |} w' ∧
    r.2 = frozen (sg_meter s).
Proof.
  unfold refineFrozenSegment. run.
  destruct (frozen (sg_meter s)) eqn:Hf; simpl.
  - bind_step as c.
    run. eexists _, _, (ProcessTicks c). by split.
  - eexists (0, false), _, 0. split; [|done]. unfold refineFrozenCPU. rewrite Hf. by destruct s.
Qed.

Lemma closeSegmentAtFreeze_spec path pid env s w :
  ∃ b w' e c, closeSegmentAtFreeze path pid env s w = Done b
    (if b : bool then {| sg_meter := closeAt env e c (sg_meter s);
                         sg_marks := noteFreeze e c (sg_marks s) |} else s) w' ∧
    (b = true → ProcessTicks (segCPU (sg_meter s)) ≤ ProcessTicks c).
Proof.
  unfold closeSegmentAtFreeze.
  bind_step as [[e c] err].
  run. case_match eqn:Hb.
  - exists false. by eexists _, e, c.
  - exists true. eexists _, e, c. split; [done|]. breq. lia.
Qed.

Lemma openSegmentAtResume_spec path pid env s w :
  ∃ b w', if frozen (sg_meter s)
    then ∃ e c, openSegmentAtResume path pid env s w = Done b
           {| sg_meter := openAt e c (sg_meter s); sg_marks := noteResume e c (sg_marks s) |} w' ∧
           ProcessTicks c = ProcessTicks (frozenCPU (sg_meter s))
    else openSegmentAtResume path pid env s w = Done b s w'.
Proof.
  unfold openSegmentAtResume. run.
  destruct (frozen (sg_meter s)) eqn:Hf; simpl; [|by eexists _, _].
  bind_step as [[e c] err].
  destruct (negb (bool_decide (is_Some err)) && _); destruct (WallNs c =? 0);
    by eexists _, _, _, _.
Qed.

Lemma seg_step_agree env path pid eS sS s w s' w' :
  seg_step env path pid (s, w) (s', w') → agree env eS sS s → agree env eS sS s'.
Proof.
  intros Hstep Ha. inversion Hstep as [? ? ? ? ? Hf Hrun|? ? ? ? ? Hrun|? ? ? ? ? Hrun]; simplify_eq.
  - destruct (closeSegmentAtFreeze_spec path pid env s w) as (b' & ? & e & c & H' & _).
    rewrite H' in Hrun. simplify_eq. destruct b; [|done]. by apply agree_close.
  - destruct (refineFrozenSegment_spec path pid env s w) as (r & ? & t & H' & _).
    rewrite H' in Hrun. simplify_eq. by apply agree_refine.
  - destruct (openSegmentAtResume_spec path pid env s w) as (b' & ? & H').
    destruct (frozen (sg_meter s)) eqn:Hf.
    + destruct H' as (e & c & H' & _). rewrite H' in Hrun. simplify_eq. by apply agree_open.
    + rewrite H' in Hrun. by simplify_eq.
Qed.

(** Invariants of one step hold after any run. *)
Lemma seg_rtc_ind env path pid (I : SegState → Prop) x y :
  (∀ s w s' w', seg_step env path pid (s, w) (s', w') → I s → I s') →
  rtc (seg_step env path pid) x y → I x.1 → I y.1.
Proof.
  intros Hstep Hr. induction Hr as [|[s1 w1] [s2 w2] z Hs _ IH]; [done|].
  intros HI. apply IH. by eapply Hstep.
Qed.

(** C14: whatever freezes, late CPU readings and resumes happen, and however the
    readings fail, the energy the monitor compares with the threshold is the
    energy the final measurement attributes. *)
Theorem monitor_agrees_with_final env path pid eS sS w0 s w eE sE :
  rtc (seg_step env path pid) ({| sg_meter := newStepMeter eS sS; sg_marks := [] |}, w0) (s, w) →
  stepJ env (sg_meter s) eE sE =
  f64_of_Z (AttributedUJ (segmentedAttribution env eS eE sS sE (sg_marks s))) ⊘ f64_1e6.
Proof.
  intros Hr. apply agree_energy.
  refine (seg_rtc_ind env path pid (agree env eS sS) _ _ _ Hr _);
    [eauto using seg_step_agree|apply agree_start].
Qed.

(** ** Bounds of the final measurement *)

(** What the socket consumed while the step was running: the readings taken
    at the ends of its segments, the frozen time left out. *)
Fixpoint running_uj (env : Env) (e eE : Z) (marks : list freezeMark) : Z :=
  match marks with
  | [] => Z.max 0 (deltaRAPLUJ env e eE)
  | m :: rest =>
      Z.max 0 (deltaRAPLUJ env e (FreezeEnergyUJ m)) +
      (if Resumed m then running_uj env (ResumeEnergyUJ m) eE rest else 0)
  end.

(** Every segment has exact inputs. *)
Fixpoint measurable_segments (env : Env) (e eE : Z) (c cE : CPUSnapshot) (marks : list freezeMark) : Prop :=
  match marks with
  | [] => measurable env e eE c cE
  | m :: rest =>
      measurable env e (FreezeEnergyUJ m) c (FreezeCPU m) ∧
      (Resumed m = true → measurable_segments env (ResumeEnergyUJ m) eE (ResumeCPU m) cE rest)
  end.

#[global] Instance measurable_segments_dec env e eE c cE marks :
  Decision (measurable_segments env e eE c cE marks).
Proof. revert e c. induction marks; intros; simpl; apply _. Defined.

Lemma attributed_bounds env eS eE sS sE :
  measurable env eS eE sS sE →
  0 ≤ attributedEnergyUJ env eS eE sS sE ≤ Z.max 0 (deltaRAPLUJ env eS eE).
Proof. intros H. by destruct (attribution_detail_bounds env eS eE sS sE H). Qed.

Lemma running_uj_nonneg env e eE marks : 0 ≤ running_uj env e eE marks.
Proof.
  revert e. induction marks as [|m rest IH]; intros e; simpl; [lia|].
  specialize (IH (ResumeEnergyUJ m)). case_match; lia.
Qed.

Lemma walk_bounds env eE cE marks : ∀ e c closed,
  measurable_segments env e eE c cE marks →
  0 ≤ closed → closed + running_uj env e eE marks ≤ int64_max →
  closed ≤ pos_energy env eE cE (walk env e c closed marks) ≤ closed + running_uj env e eE marks.
Proof.
  induction marks as [|m rest IH]; intros e c closed Hm H0 Hmax; simpl in *.
  - pose proof (attributed_bounds _ _ _ _ _ Hm). rewrite i64_add_exact by solve_int64. lia.
  - destruct Hm as [Hm Hrest]. pose proof (attributed_bounds _ _ _ _ _ Hm) as Ha.
    pose proof (running_uj_nonneg env (ResumeEnergyUJ m) eE rest).
    rewrite i64_add_exact by (destruct (Resumed m); solve_int64).
    destruct (Resumed m); simpl; [|lia].
    specialize (IH (ResumeEnergyUJ m) (ResumeCPU m) _ (Hrest eq_refl)
      ltac:(eapply Z.add_nonneg_nonneg; [exact H0|apply Ha]) ltac:(lia)). lia.
Qed.

(** C26: an invocation whose counters could be read, without an overflow of the
    sum, is charged at most what the socket consumed while it was running; the
    energy other tenants burn during its freezes is not charged to it. *)
Theorem segmented_energy_bounds env eS eE sS sE marks :
  measurable_segments env eS eE sS sE marks →
  running_uj env eS eE marks ≤ int64_max →
  0 ≤ AttributedUJ (segmentedAttribution env eS eE sS sE marks) ≤ running_uj env eS eE marks.
Proof.
  intros Hm Hmax. rewrite segmented_walk.
  pose proof (walk_bounds env eE sE marks eS sS 0 Hm ltac:(lia) ltac:(lia)). lia.
Qed.

(** ** CPU time is counted once *)

(** Segments tile the CPU time: each one starts where the previous one was
    closed, late CPU time included. *)
Fixpoint tiled (t : Z) (marks : list freezeMark) : Prop :=
  match marks with
  | [] => True
  | m :: rest =>
      t ≤ ProcessTicks (FreezeCPU m) ∧
      (Resumed m = true →
       ProcessTicks (ResumeCPU m) = ProcessTicks (FreezeCPU m) ∧
       tiled (ProcessTicks (ResumeCPU m)) rest)
  end.

#[global] Instance tiled_dec t marks : Decision (tiled t marks).
Proof. revert t. induction marks; intros; simpl; apply _. Defined.

(** The CPU time at which the marks leave the computation. *)
Fixpoint last_ticks (t : Z) (marks : list freezeMark) : Z :=
  match marks with
  | [] => t
  | m :: rest => if Resumed m then last_ticks (ProcessTicks (ResumeCPU m)) rest
                 else ProcessTicks (FreezeCPU m)
  end.

(** The marks and the meter record the same CPU times. *)
Definition tiling (t0 : Z) (s : SegState) : Prop :=
  let m := sg_meter s in
  if frozen m then
    ∃ pre, sg_marks s = pre ++ [open_mark (frozenEnergy m) (frozenCPU m)] ∧
      tiled t0 (sg_marks s) ∧ Forall (λ m, Resumed m = true) pre
  else tiled t0 (sg_marks s) ∧ Forall (λ m, Resumed m = true) (sg_marks s) ∧
       last_ticks t0 (sg_marks s) = ProcessTicks (segCPU m).

Lemma tiled_snoc t pre m :
  Forall (λ m, Resumed m = true) pre →
  tiled t (pre ++ [m]) ↔
  tiled t pre ∧ last_ticks t pre ≤ ProcessTicks (FreezeCPU m) ∧
  (Resumed m = true → ProcessTicks (ResumeCPU m) = ProcessTicks (FreezeCPU m)).
Proof.
  intros Hpre. revert t. induction Hpre as [|x pre Hx Hpre IH]; intros t; simpl.
  - tauto.
  - rewrite Hx, IH. tauto.
Qed.

Lemma last_ticks_snoc t pre m :
  Forall (λ m, Resumed m = true) pre →
  last_ticks t (pre ++ [m]) =
  if Resumed m then ProcessTicks (ResumeCPU m) else ProcessTicks (FreezeCPU m).
Proof.
  intros Hpre. revert t. induction Hpre as [|x pre Hx Hpre IH]; intros t; simpl; [done|].
  by rewrite Hx, IH.
Qed.

Section tiling_steps.
Context (t0 : Z).

Lemma tiling_close env e c s :
  frozen (sg_meter s) = false → ProcessTicks (segCPU (sg_meter s)) ≤ ProcessTicks c →
  tiling t0 s →
  tiling t0 {| sg_meter := closeAt env e c (sg_meter s); sg_marks := noteFreeze e c (sg_marks s) |}.
Proof.
  unfold tiling. intros -> Hc (Ht & Hr & Hl). simpl. exists (sg_marks s).
  split; [done|]. split; [|done]. apply tiled_snoc; [done|]. simpl. rewrite Hl. done.
Qed.

Lemma tiling_refine env t s :
  tiling t0 s →
  tiling t0 {| sg_meter := (refineFrozenCPU env t (sg_meter s)).2;
               sg_marks := if frozen (sg_meter s) then refineFreezeCPU t (sg_marks s)
                           else sg_marks s |}.
Proof.
  unfold tiling, refineFrozenCPU. destruct (frozen (sg_meter s)) eqn:Hf; simpl; [|by rewrite Hf].
  intros (pre & Hm & Ht & Hr). rewrite Hm in *. apply tiled_snoc in Ht as (Ht & Hl & _); [|done].
  unfold refineFreezeCPU. rewrite alter_last_snoc. simpl in *.
  destruct (Z.leb_spec t (ProcessTicks (frozenCPU (sg_meter s)))); simpl.
  - rewrite Hf, (proj2 (Z.ltb_ge _ _)) by lia. exists pre. split; [done|].
    split; [|done]. by apply tiled_snoc.
  - rewrite (proj2 (Z.ltb_lt _ _)) by lia. exists pre. split; [done|].
    split; [|done]. apply tiled_snoc; [done|]. simpl. split; [done|]. split; [lia|done].
Qed.

Lemma tiling_open e c s :
  frozen (sg_meter s) = true → ProcessTicks c = ProcessTicks (frozenCPU (sg_meter s)) →
  tiling t0 s →
  tiling t0 {| sg_meter := openAt e c (sg_meter s); sg_marks := noteResume e c (sg_marks s) |}.
Proof.
  unfold tiling. intros -> Hc. simpl. intros (pre & Hm & Ht & Hr). unfold noteResume.
  rewrite Hm in *. apply tiled_snoc in Ht as (Ht & Hl & _); [|done].
  rewrite alter_last_snoc. simpl in *. split; [by apply tiled_snoc|].
  rewrite last_ticks_snoc by done. split; [|done]. apply Forall_app. by split; [|constructor].
Qed.
End tiling_steps.

Lemma seg_step_tiling env path pid t0 s w s' w' :
  seg_step env path pid (s, w) (s', w') → tiling t0 s → tiling t0 s'.
Proof.
  intros Hstep Ha. inversion Hstep as [? ? ? ? ? Hf Hrun|? ? ? ? ? Hrun|? ? ? ? ? Hrun]; simplify_eq.
  - destruct (closeSegmentAtFreeze_spec path pid env s w) as (b' & ? & e & c & H' & Hc).
    rewrite H' in Hrun. simplify_eq. destruct b; [|done]. by apply tiling_close; [|apply Hc|].
  - destruct (refineFrozenSegment_spec path pid env s w) as (r & ? & t & H' & _).
    rewrite H' in Hrun. simplify_eq. by apply tiling_refine.
  - destruct (openSegmentAtResume_spec path pid env s w) as (b' & ? & H').
    destruct (frozen (sg_meter s)) eqn:Hf.
    + destruct H' as (e & c & H' & Hc). rewrite H' in Hrun. simplify_eq. by apply tiling_open.
    + rewrite H' in Hrun. by simplify_eq.
Qed.

Lemma detail_ticks env eS eE sS sE :
  0 ≤ ProcessTicks sS ≤ ProcessTicks sE → ProcessTicks sE ≤ int64_max →
  0 ≤ DeltaProcessUsec (attributionDetail env eS eE sS sE) ≤ ProcessTicks sE - ProcessTicks sS.
Proof.
  intros H1 H2. unfold attributionDetail. rewrite i64_sub_exact by solve_int64.
  repeat case_match; simpl; lia.
Qed.

(** The CPU time at which the final measurement stops. *)
Fixpoint end_ticks (tE : Z) (marks : list freezeMark) : Z :=
  match marks with
  | [] => tE
  | m :: rest => if Resumed m then end_ticks tE rest else ProcessTicks (FreezeCPU m)
  end.

Lemma tiled_mono t marks : tiled t marks → t ≤ last_ticks t marks.
Proof.
  revert t. induction marks as [|m rest IH]; intros t; simpl; [lia|]. intros (? & H).
  destruct (Resumed m); [|done]. destruct H as [H1 H2]; [done|]. specialize (IH _ H2). lia.
Qed.

Lemma add_segments_ticks env eE sE marks : ∀ total e c,
  tiled (ProcessTicks c) marks →
  0 ≤ DeltaProcessUsec total ≤ ProcessTicks c →
  last_ticks (ProcessTicks c) marks ≤ end_ticks (ProcessTicks sE) marks ≤ int64_max →
  DeltaProcessUsec total ≤ DeltaProcessUsec (add_segments env total e c eE sE marks)
    ≤ DeltaProcessUsec total + (end_ticks (ProcessTicks sE) marks - ProcessTicks c).
Proof.
  induction marks as [|m rest IH]; intros total e c Ht Htot Hl; simpl in *.
  - pose proof (detail_ticks env e eE c sE ltac:(lia) ltac:(lia)).
    rewrite i64_add_exact by solve_int64. lia.
  - destruct Ht as [Hc Hrest].
    assert (Hf : ProcessTicks (FreezeCPU m) ≤ int64_max).
    { destruct (Resumed m); [|lia]. destruct Hrest as [Heq Hrest]; [done|].
      pose proof (tiled_mono _ _ Hrest). lia. }
    pose proof (detail_ticks env e (FreezeEnergyUJ m) c (FreezeCPU m) ltac:(lia) Hf).
    set (d := attributionDetail env e (FreezeEnergyUJ m) c (FreezeCPU m)) in *.
    assert (Hd : DeltaProcessUsec (add_breakdown total d) = DeltaProcessUsec total + DeltaProcessUsec d)
      by (apply i64_add_exact; solve_int64).
    destruct (Resumed m) eqn:Hm; cbn [negb]; [|rewrite Hd; lia].
    destruct Hrest as [Heq Hrest]; [done|].
    specialize (IH (add_breakdown total d) (ResumeEnergyUJ m) (ResumeCPU m) Hrest
      ltac:(rewrite Hd; lia) ltac:(lia)).
    rewrite Hd in IH. lia.
Qed.

(** C31: after any run of the monitor, the CPU time the final measurement counts
    is at most the CPU time the container used between the start and the end: CPU
    time that trickles in after a freeze is in the segment the freeze closed, and
    in no other. *)
Theorem cpu_time_counted_once env path pid eS sS w0 s w eE sE :
  rtc (seg_step env path pid) ({| sg_meter := newStepMeter eS sS; sg_marks := [] |}, w0) (s, w) →
  0 ≤ ProcessTicks sS →
  last_ticks (ProcessTicks sS) (sg_marks s) ≤ end_ticks (ProcessTicks sE) (sg_marks s) ≤ int64_max →
  0 ≤ DeltaProcessUsec (segmentedAttribution env eS eE sS sE (sg_marks s))
    ≤ end_ticks (ProcessTicks sE) (sg_marks s) - ProcessTicks sS.
Proof.
  intros Hr H0 Hl.
  assert (Ht : tiling (ProcessTicks sS) s).
  { refine (seg_rtc_ind env path pid (tiling (ProcessTicks sS)) _ _ _ Hr _);
      [eauto using seg_step_tiling|done]. }
  assert (Htile : tiled (ProcessTicks sS) (sg_marks s)).
  { unfold tiling in Ht. destruct (frozen (sg_meter s)); [|apply Ht].
    by destruct Ht as (? & _ & ? & _). }
  destruct (sg_marks s) as [|m rest]; [simpl in *; apply detail_ticks; lia|].
  pose proof (add_segments_ticks env eE sE (m :: rest) zero_breakdown eS sS Htile
    ltac:(simpl; lia) Hl) as Hd.
  change (DeltaProcessUsec zero_breakdown) with 0 in Hd. unfold segmentedAttribution.
  case_match; cbn [DeltaProcessUsec]; lia.
Qed.

(** ** A sample run *)

(** One freeze, no resume: 2000 µJ were used before it. *)
Definition sample_start : SegState :=
  {| sg_meter := newStepMeter 1000 {| ProcessTicks := 0; WallNs := 0 |}; sg_marks := [] |}.

(** The counter reads 3000 and the container has used 400 µs. *)
Definition sample_readings : Env :=
  sample_env [("RAPL_PATH", "/r/energy_uj"); ("RAPL_CORES", "0-1")]
    [("/r/max_energy_range_uj", "1000000"); ("/r/energy_uj", "3000");
     ("/c/cpu.stat", "usage_usec 400")] (λ _, None) (λ _, HttpErr EDeadline) true None.

Definition sample_w : io := IO 9 0 [].
Definition sample_frozen : SegState := out_st (closeSegmentAtFreeze "/c" 42 sample_readings sample_start sample_w).

Lemma sample_run :
  rtc (seg_step sample_readings "/c" 42) (sample_start, sample_w)
    (sample_frozen, out_io (closeSegmentAtFreeze "/c" 42 sample_readings sample_start sample_w)).
Proof.
  apply rtc_once. apply (step_close _ _ _ sample_start sample_w true); [reflexivity|].
  vm_compute. reflexivity.
Qed.

Lemma monitor_agrees_with_final_witness :
  stepJ sample_readings (sg_meter sample_frozen) 9000 {| ProcessTicks := 900; WallNs := 20000000000 |} =
  f64_of_Z (AttributedUJ (segmentedAttribution sample_readings 1000 9000 {| ProcessTicks := 0; WallNs := 0 |}
    {| ProcessTicks := 900; WallNs := 20000000000 |} (sg_marks sample_frozen))) ⊘ f64_1e6.
Proof.
  eapply (monitor_agrees_with_final sample_readings "/c" 42 1000 {| ProcessTicks := 0; WallNs := 0 |}).
  exact sample_run.
Defined.

Lemma segmented_energy_bounds_witness :
  let marks := sg_marks sample_frozen in
  marks ≠ [] ∧
  0 ≤ AttributedUJ (segmentedAttribution sample_readings 1000 9000 {| ProcessTicks := 0; WallNs := 0 |}
        {| ProcessTicks := 900; WallNs := 20000000000 |} marks) ≤ running_uj sample_readings 1000 9000 marks.
Proof.
  split; [vm_compute; discriminate|].
  apply (segmented_energy_bounds sample_readings 1000 9000); apply (bool_decide_unpack _); vm_compute; reflexivity.
Defined.

Lemma cpu_time_counted_once_witness :
  0 ≤ DeltaProcessUsec (segmentedAttribution sample_readings 1000 9000 {| ProcessTicks := 0; WallNs := 0 |}
        {| ProcessTicks := 900; WallNs := 20000000000 |} (sg_marks sample_frozen))
    ≤ end_ticks 900 (sg_marks sample_frozen) - 0.
Proof.
  eapply (cpu_time_counted_once sample_readings "/c" 42 1000 {| ProcessTicks := 0; WallNs := 0 |});
    [exact sample_run|apply (bool_decide_unpack _); vm_compute; reflexivity..].
Defined.
