(* ===== verification/Freezer.v ===== *)
(** * Cgroup freezer and runtime state machine ([openwhisk/cgroupFreezer.go])

    [cgroupHandle]'s operations write a control file and then poll the
    effective state; [ActivationController] guards them with the state machine
    RUNNING / FREEZING / FROZEN / RESUMING / KILLING / STOPPED / UNKNOWN.  Its
    methods hold the controller's mutex from their first line to their last, so
    each is one body of the state monad here ([Lock] interleaves them). *)

From S2P Require Import Prelude Float64 GoStrings Json Effects.

Local Open Scope Z_scope.
Local Open Scope go_scope.

Inductive RuntimeState :=
  | StateRunning | StateFreezing | StateFrozen | StateResuming
  | StateKilling | StateStopped | StateUnknown.

#[global] Instance RuntimeState_eq_dec : EqDecision RuntimeState.
Proof. solve_decision. Defined.

Record TransitionError := {
  te_AttemptedOp : string;
  te_FromState : RuntimeState;
  te_PauseID : string;
  te_Reason : goerr
}.

Definition newTransitionError (op : string) (from : RuntimeState) (pauseID : string)
    (reason : goerr) : TransitionError :=
  {| te_AttemptedOp := op; te_FromState := from; te_PauseID := pauseID; te_Reason := reason |}.

(** ** The low-level handle *)

Definition millisecond : Z := 1000000.

Definition positive_ms (v : string) (defaultMs : Z) : Z :=
  match atoi v with
  | Some parsed => if 0 <? parsed then parsed else defaultMs
  | None => defaultMs
  end.

Section handle.
Context {S : Type}.

Definition cgroupTimeout (envVar : string) (defaultMs : Z) : M S Z :=
  v ← getenv envVar;
  mret ((if (v =? "")%string then defaultMs else positive_ms v defaultMs) *! millisecond).

Definition cgroupMountRoot : M S string :=
  v ← getenv "CGROUP_MOUNT_ROOT";
  mret (if (v =? "")%string then "/sys/fs/cgroup"%string else v).

Fixpoint own_line (lines : list string) : string + goerr :=
  match lines with
  | [] => inr (EMsg "no cgroup v2 (0::) entry in /proc/self/cgroup")
  | line :: rest => if has_prefix line "0::" then inl (trim_prefix line "0::") else own_line rest
  end.

Definition ownCgroupRelativePath : M S (string + goerr) :=
  data ← read_file "/proc/self/cgroup";
  mret (match data with
        | inr e => inr (EWrap "read /proc/self/cgroup" e)
        | inl d => own_line (str_split newline d)
        end).

Definition cgroupBaseDir : M S (string + goerr) :=
  v ← getenv "CGROUP_BASE_DIR";
  if negb (v =? "")%string then mret (inl v)
  else
    own ← ownCgroupRelativePath;
    match own with
    | inr e => mret (inr e)
    | inl own => root ← cgroupMountRoot; mret (inl (path_join [root; own; "ow-activations"]%string))
    end.

Definition newCgroupHandle (name : string) : M S (string + goerr) :=
  base ← cgroupBaseDir;
  match base with
  | inr e => mret (inr (EWrap "determine cgroup base dir" e))
  | inl base =>
      err ← syscall "mkdirall" base;
      match err with
      | Some e => mret (inr (EWrap ("create cgroup base dir " +:+ base) e))
      | None =>
          let path := path_join [base; name] in
          err ← syscall "mkdir" path;
          mret (match err with
                | Some e => inr (EWrap ("create activation cgroup " +:+ path) e)
                | None => inl path
                end)
      end
  end.

(** The value of the first [<field> <value>] line. *)
Fixpoint event_field (field : string) (lines : list string) : option string :=
  match lines with
  | [] => None
  | line :: rest =>
      match fields line with
      | [k; v] => if (k =? field)%string then Some v else event_field field rest
      | _ => event_field field rest
      end
  end.

Definition readEventField (path field : string) : M S (string + goerr) :=
  data ← read_file (path_join [path; "cgroup.events"]%string);
  mret (match data with
        | inr e => inr (EWrap "read cgroup.events" e)
        | inl d => match event_field field (str_split newline d) with
                   | Some v => inl v
                   | None => inr (EMsg "field not found in cgroup.events")
                   end
        end).

Definition poll_interval : Z := 5 * millisecond.

(** The polling loop, with the number of readings it may still make. *)
Fixpoint wait_loop (fuel : nat) (path field want : string) (deadline : Z) : M S (option goerr) :=
  match fuel with
  | O => blocked
  | Datatypes.S fuel =>
      got ← readEventField path field;
      match got with
      | inr e => mret (Some e)
      | inl got =>
          if (got =? want)%string then mret None
          else
            now ← now_mono;
            if deadline <? now then mret (Some (EWaitTimeout field want got))
            else sleep poll_interval;; wait_loop fuel path field want deadline
      end
  end.

(** Readings that fit before the deadline, which bound the loop. *)
Definition wait_fuel (timeout : Z) : nat := Z.to_nat (timeout / poll_interval) + 2.

Definition waitForEventField (path field want : string) (timeout : Z) : M S (option goerr) :=
  now ← now_mono;
  wait_loop (wait_fuel timeout) path field want (now + timeout).

Definition control (path file value ctx field want timeoutVar : string) : M S (option goerr) :=
  err ← write_file (path_join [path; file]) value;
  match err with
  | Some e => mret (Some (EWrap ctx e))
  | None =>
      timeout ← cgroupTimeout timeoutVar 2000;
      waitForEventField path field want timeout
  end.

Definition freeze (path : string) : M S (option goerr) :=
  control path "cgroup.freeze" "1" "write cgroup.freeze=1" "frozen" "1" "CGROUP_FREEZE_TIMEOUT_MS".

Definition unfreeze (path : string) : M S (option goerr) :=
  control path "cgroup.freeze" "0" "write cgroup.freeze=0" "frozen" "0" "CGROUP_RESUME_TIMEOUT_MS".

Definition kill (path : string) : M S (option goerr) :=
  control path "cgroup.kill" "1" "write cgroup.kill" "populated" "0" "CGROUP_KILL_TIMEOUT_MS".

Definition remove (path : string) : M S (option goerr) := syscall "remove" path.
End handle.

(** ** The controller *)

Record ActivationController := {
  ac_path : string;
  ac_cmd : option Z;          (** pid of the started process *)
  ac_state : RuntimeState;
  ac_reaped : bool;           (** [waitOnce] has its result *)
  ac_lastPauseID : string
}.

Definition set_state (st : RuntimeState) (a : ActivationController) : ActivationController :=
  {| ac_path := ac_path a; ac_cmd := ac_cmd a; ac_state := st; ac_reaped := ac_reaped a;
     ac_lastPauseID := ac_lastPauseID a |}.

Definition set_pause (st : RuntimeState) (p : string) (a : ActivationController) : ActivationController :=
  {| ac_path := ac_path a; ac_cmd := ac_cmd a; ac_state := st; ac_reaped := ac_reaped a;
     ac_lastPauseID := p |}.

Definition set_cmd (pid : Z) (a : ActivationController) : ActivationController :=
  {| ac_path := ac_path a; ac_cmd := Some pid; ac_state := StateRunning; ac_reaped := ac_reaped a;
     ac_lastPauseID := ac_lastPauseID a |}.

Definition set_reaped (a : ActivationController) : ActivationController :=
  {| ac_path := ac_path a; ac_cmd := ac_cmd a; ac_state := ac_state a; ac_reaped := true;
     ac_lastPauseID := ac_lastPauseID a |}.

Definition NewActivationController {S} (name : string) : M S (ActivationController + goerr) :=
  cg ← newCgroupHandle name;
  mret (match cg with
        | inr e => inr e
        | inl path => inl {| ac_path := path; ac_cmd := None; ac_state := StateRunning;
                             ac_reaped := false; ac_lastPauseID := "" |}
        end).

Definition Start : M ActivationController (option goerr) :=
  a ← get;
  err ← syscall "open" (ac_path a);
  match err with
  | Some e => mret (Some (EWrap "open cgroup dir for CLONE_INTO_CGROUP" e))
  | None =>
      err ← syscall "clone_into_cgroup" (ac_path a);
      match err with
      | Some e => mret (Some (EWrap "start process into cgroup" e))
      | None =>
          pid ← effect env_pid [];
          modify (set_cmd pid);;
          mret None
      end
  end.

Definition Pid (a : ActivationController) : Z := default 0 (ac_cmd a).

Definition Close : M ActivationController (option goerr) := a ← get; remove (ac_path a).

Definition freezeExecution (pauseID : string) : M ActivationController (option TransitionError) :=
  a ← get;
  if bool_decide (ac_state a = StateFrozen) && (ac_lastPauseID a =? pauseID)%string then mret None
  else if negb (bool_decide (ac_state a = StateRunning)) then
    mret (Some (newTransitionError "freeze" (ac_state a) pauseID
      (EMsg "freezeExecution requires RUNNING (or an idempotent repeat of the current FROZEN pause_id)")))
  else
    modify (set_state StateFreezing);;
    err ← freeze (ac_path a);
    match err with
    | Some e =>
        modify (set_state StateUnknown);;
        mret (Some (newTransitionError "freeze" StateFreezing pauseID e))
    | None => modify (set_pause StateFrozen pauseID);; mret None
    end.

Definition resumeExecution (pauseID : string) : M ActivationController (option TransitionError) :=
  a ← get;
  if bool_decide (ac_state a = StateRunning) && (ac_lastPauseID a =? pauseID)%string then mret None
  else if negb (bool_decide (ac_state a = StateFrozen)) then
    mret (Some (newTransitionError "resume" (ac_state a) pauseID
      (EMsg "resumeExecution requires FROZEN (or an idempotent repeat of the pause_id just resumed)")))
  else if negb (pauseID =? ac_lastPauseID a)%string then
    mret (Some (newTransitionError "resume" (ac_state a) pauseID (EMsg "pause_id mismatch")))
  else
    modify (set_state StateResuming);;
    err ← unfreeze (ac_path a);
    match err with
    | Some e =>
        modify (set_state StateUnknown);;
        mret (Some (newTransitionError "resume" StateResuming pauseID e))
    | None => modify (set_pause StateRunning pauseID);; mret None
    end.

Definition killConfirmWaitTimeout {S} : M S Z :=
  v ← getenv "KILL_CONFIRM_WAIT_TIMEOUT_MS";
  mret ((if (v =? "")%string then 0
         else match atoi v with
              | Some parsed => if 0 <=? parsed then parsed else 0
              | None => 0
              end) *! millisecond).

Definition logSafetyKillConfirmTimeout {S} : M S () := safety "KILL_CONFIRM_WAIT_TIMEOUT" "warning".

(** [waiter.wait]: the first caller waits for the process, the others get its
    result. *)
Definition waiter_wait : M ActivationController () := λ env a w,
  if ac_reaped a then Done tt a w
  else match env_reap env (io_step w) with
       | Some ns => Done tt (set_reaped a) (advance env (Z.of_N ns) [EvReap] w)
       | None => Cut a w
       end.

(** The [select] between the reaped process and [time.After(budget)]; reports
    whether the process was reaped. *)
Definition wait_budget (budget : Z) : M ActivationController bool := λ env a w,
  if ac_reaped a then Done true a w
  else match env_reap env (io_step w) with
       | Some ns =>
           if Z.of_N ns <=? budget
           then Done true (set_reaped a) (advance env (Z.of_N ns) [EvReap] w)
           else Done false a (advance env budget [] w)
       | None => Done false a (advance env budget [] w)
       end.

Definition killExecution (pauseID : string) : M ActivationController (option TransitionError) :=
  a ← get;
  if bool_decide (ac_state a = StateStopped) then mret None
  else if negb (bool_decide (ac_state a = StateRunning)) && negb (bool_decide (ac_state a = StateFrozen)) then
    mret (Some (newTransitionError "kill" (ac_state a) pauseID
      (EMsg "killExecution requires RUNNING or FROZEN")))
  else
    modify (set_state StateKilling);;
    err ← kill (ac_path a);
    match err with
    | Some e =>
        modify (set_state StateUnknown);;
        mret (Some (newTransitionError "kill" StateKilling pauseID e))
    | None =>
        (match ac_cmd a with
         | None => mret ()
         | Some _ =>
             budget ← killConfirmWaitTimeout;
             if 0 <? budget then
               reaped ← wait_budget budget;
               if reaped : bool then mret () else logSafetyKillConfirmTimeout
             else waiter_wait
         end);;
        modify (set_pause StateStopped pauseID);;
        mret None
    end.

Definition WaitForExit : M ActivationController (option goerr) :=
  a ← get;
  match ac_cmd a with
  | None => mret (Some (EMsg "WaitForExit: no process started"))
  | Some _ => waiter_wait;; asks env_exit
  end.

(** ** Waiting for the effective state *)

(** The last effect was a reading of [cgroup.events] that shows the wanted
    value. *)
Definition confirmed (env : Env) (path field want : string) (w : io) : Prop :=
  ∃ i d, io_step w = Datatypes.S i ∧ env_read env i (path_join [path; "cgroup.events"]%string) = inl d ∧
         event_field field (str_split newline d) = Some want.

Section waiting.
Context {S : Type} (path field want : string).

Lemma readEventField_spec env (s : S) w :
  ∃ r, readEventField path field env s w =
       Done r s (advance env 0 [EvRead (path_join [path; "cgroup.events"]%string)] w) ∧
       (∀ v, r = inl v → v = want →
        confirmed env path field want (advance env 0 [EvRead (path_join [path; "cgroup.events"]%string)] w)).
Proof.
  unfold readEventField, read_file. run.
  destruct (env_read env (io_step w) _) as [d|e] eqn:Hr; [|by eexists].
  destruct (event_field field _) as [v|] eqn:Hf; [|by eexists].
  eexists. split; [done|]. intros v' [= <-] ->. by exists (io_step w), d.
Qed.

(** Each reading that does not end the loop takes at least [poll_interval]. *)
Lemma wait_loop_spec env (s : S) fuel : ∀ deadline w,
  deadline - io_clock w < Z.of_nat fuel * poll_interval →
  ∃ r w', wait_loop (Datatypes.S fuel) path field want deadline env s w = Done r s w' ∧
          (r = None → confirmed env path field want w').
Proof.
  induction fuel as [|fuel IH]; intros deadline w Hd;
    destruct (readEventField_spec env s w) as (r & Hr & Hc);
    (cbn [wait_loop]; unfold mbind at 1, M_bind at 1; rewrite Hr);
    (destruct r as [v|e]; [|by eexists _, _]);
    (destruct (String.eqb_spec v want); [eexists _, _; split; [done|by eauto]|]);
    run; destruct (Z.ltb_spec deadline (io_clock w + 0 + Z.of_N (env_elapsed env (io_step w))));
    try (by eexists _, _).
  - unfold poll_interval, millisecond in *. lia.
  - run. apply IH. simpl. unfold poll_interval, millisecond in *. lia.
Qed.

(** The fuel is never the reason the wait ends. *)
Lemma waitForEventField_spec env (s : S) w timeout :
  ∃ r w', waitForEventField path field want timeout env s w = Done r s w' ∧
          (r = None → confirmed env path field want w').
Proof.
  unfold waitForEventField, wait_fuel. run.
  replace (Z.to_nat (timeout / poll_interval) + 2)%nat
    with (Datatypes.S (Z.to_nat (timeout / poll_interval) + 1)) by lia.
  apply wait_loop_spec.
  pose proof (Z.mul_succ_div_gt timeout poll_interval ltac:(done)).
  unfold poll_interval, millisecond in *. lia.
Qed.

(** What a wait may do to the outside world: read and sleep. *)
Definition waiting (e : event) : Prop :=
  match e with EvRead _ | EvSleep _ => True | _ => False end.

Lemma wait_loop_emits fuel deadline :
  emits waiting (wait_loop fuel path field want deadline : M S _).
Proof.
  induction fuel as [|fuel IH]; simpl; unfold readEventField, read_file;
    solve_emits ltac:(done).
Qed.
End waiting.

Lemma control_spec {S} path file value ctx field want timeoutVar env (s : S) w :
  ∃ r w', control path file value ctx field want timeoutVar env s w = Done r s w' ∧
    (∃ new, io_trace w' = new ++ EvWrite (path_join [path; file]) value :: io_trace w ∧
            Forall waiting new) ∧
    (r = None → confirmed env path field want w').
Proof.
  unfold control, write_file. run. case_match.
  - eexists _, _. split; [done|]. split; [by exists []|done].
  - unfold cgroupTimeout. run.
    match goal with |- context [waitForEventField _ _ _ ?t env s ?w1] => set (tm := t); set (w2 := w1) end.
    destruct (waitForEventField_spec path field want env s w2 tm) as (r & w' & Hw & Hc).
    exists r, w'. split; [done|]. split; [|done].
    destruct (wait_loop_emits (S:=S) path field want (wait_fuel tm) (io_clock w2 + tm) env s w2 I)
      as [(new & Ht & Hn) _].
    unfold waitForEventField in Hw. autorewrite with run in Hw. rewrite Hw in Ht. exists new. done.
Qed.

(** ** The specification of the state machine *)

Inductive op := OpFreeze | OpResume | OpKill.

(** What the controller promises its callers: the state at rest and the pause
    it was last confirmed under. *)
Record Abs := { abs_state : RuntimeState; abs_pause : string }.

Definition abs_of (a : ActivationController) : Abs :=
  {| abs_state := ac_state a; abs_pause := ac_lastPauseID a |}.

Definition enabled (o : op) (p : string) (x : Abs) : Prop :=
  match o with
  | OpFreeze => abs_state x = StateRunning ∨ (abs_state x = StateFrozen ∧ abs_pause x = p)
  | OpResume => (abs_state x = StateFrozen ∨ abs_state x = StateRunning) ∧ abs_pause x = p
  | OpKill => abs_state x = StateRunning ∨ abs_state x = StateFrozen ∨ abs_state x = StateStopped
  end.

(** [spec_step o p x ok x']: operation [o] under pause [p] takes the machine
    from [x] to [x'], and reports [ok]. *)
Inductive spec_step : op → string → Abs → bool → Abs → Prop :=
  | spec_freeze p q :
      spec_step OpFreeze p {| abs_state := StateRunning; abs_pause := q |} true
                           {| abs_state := StateFrozen; abs_pause := p |}
  | spec_resume p :
      spec_step OpResume p {| abs_state := StateFrozen; abs_pause := p |} true
                           {| abs_state := StateRunning; abs_pause := p |}
  | spec_kill st p q :
      st = StateRunning ∨ st = StateFrozen →
      spec_step OpKill p {| abs_state := st; abs_pause := q |} true
                         {| abs_state := StateStopped; abs_pause := p |}
  | spec_lost o st p q :
      st = StateRunning ∨ st = StateFrozen → enabled o p {| abs_state := st; abs_pause := q |} →
      spec_step o p {| abs_state := st; abs_pause := q |} false
                    {| abs_state := StateUnknown; abs_pause := q |}
  | spec_freeze_again p :
      spec_step OpFreeze p {| abs_state := StateFrozen; abs_pause := p |} true
                           {| abs_state := StateFrozen; abs_pause := p |}
  | spec_resume_again p :
      spec_step OpResume p {| abs_state := StateRunning; abs_pause := p |} true
                           {| abs_state := StateRunning; abs_pause := p |}
  | spec_kill_again p q :
      spec_step OpKill p {| abs_state := StateStopped; abs_pause := q |} true
                         {| abs_state := StateStopped; abs_pause := q |}
  | spec_refused o p x :
      ¬ enabled o p x → spec_step o p x false x.

Definition call (o : op) (p : string) : M ActivationController (option TransitionError) :=
  match o with
  | OpFreeze => freezeExecution p
  | OpResume => resumeExecution p
  | OpKill => killExecution p
  end.

Definition ok {A} (r : option A) : bool := match r with None => true | Some _ => false end.

(** The control files. *)
Definition freeze_file (path : string) : string := path_join [path; "cgroup.freeze"]%string.
Definition kill_file (path : string) : string := path_join [path; "cgroup.kill"]%string.

(** What one call adds to the trace: nothing, or one write to the control file of
    the operation followed by readings. *)
Definition op_write (o : op) (path : string) : event :=
  match o with
  | OpFreeze => EvWrite (freeze_file path) "1"
  | OpResume => EvWrite (freeze_file path) "0"
  | OpKill => EvWrite (kill_file path) "1"
  end.

Definition quiet (e : event) : Prop :=
  match e with
  | EvWrite _ _ | EvPost _ _ _ | EvStdin _ | EvGuard _ | EvLogLine _ _ | EvRespond _ _ => False
  | _ => True
  end.

(** The state in which an operation does something. *)
Definition acts (o : op) (p : string) (a : ActivationController) : Prop :=
  match o with
  | OpFreeze => ac_state a = StateRunning
  | OpResume => ac_state a = StateFrozen ∧ ac_lastPauseID a = p
  | OpKill => ac_state a = StateRunning ∨ ac_state a = StateFrozen
  end.

#[global] Instance acts_dec o p a : Decision (acts o p a).
Proof. destruct o; unfold acts; apply _. Defined.

(** An operation that has nothing to do touches nothing. *)
Lemma call_idle o p env a w :
  ¬ acts o p a →
  ∃ r, call o p env a w = Done r a w ∧ spec_step o p (abs_of a) (ok r) (abs_of a) .
Proof.
  destruct a as [path cmd st reaped q], o; simpl; intros Hn;
    [unfold freezeExecution|unfold resumeExecution|unfold killExecution]; run;
    destruct st; simplify_eq/=; try tauto;
    try (eexists; split; [reflexivity|apply spec_refused; simpl; intuition congruence]);
    try destruct (String.eqb_spec q p) as [->|]; simpl; try tauto;
    rewrite ?(proj2 (String.eqb_neq _ _)) by congruence; simpl;
    (eexists; split; [reflexivity|]); try constructor; simpl; intuition congruence.
Qed.

(** An operation that acts: one write, the confirmation of the kernel's effective
    state, and the transition of the specification. *)
Definition acted (env : Env) (o : op) (p : string) (field want : string)
    (a : ActivationController) (w : io) (r : option TransitionError)
    (a' : ActivationController) (w' : io) : Prop :=
  spec_step o p (abs_of a) (ok r) (abs_of a') ∧
  ac_path a' = ac_path a ∧ ac_cmd a' = ac_cmd a ∧
  (∃ new, io_trace w' = new ++ op_write o (ac_path a) :: io_trace w ∧ Forall quiet new) ∧
  (r = None → ∃ w1, confirmed env (ac_path a) field want w1 ∧
                    io_step w ≤ io_step w1 ∧ io_step w1 ≤ io_step w')%nat.

Lemma quiet_waiting e : waiting e → quiet e.
Proof. by destruct e. Qed.

Lemma control_step {S} path file value ctx field want timeoutVar env (s : S) w r s' w' :
  control path file value ctx field want timeoutVar env s w = Done r s' w' →
  (io_step w ≤ io_step w')%nat.
Proof.
  assert (Hloop : ∀ fuel deadline s w r s' w',
    wait_loop fuel path field want deadline env (s : S) w = Done r s' w' → (io_step w ≤ io_step w')%nat).
  { induction fuel as [|fuel IH]; intros deadline s0 w0 r0 s0' w0'; [done|].
    destruct (readEventField_spec path field want env s0 w0) as (x & Hx & _).
    cbn [wait_loop]. unfold mbind at 1, M_bind at 1. rewrite Hx.
    destruct x as [v|e]; [|intros; autorewrite with run in *; simplify_eq/=; lia].
    case_match; [intros; autorewrite with run in *; simplify_eq/=; lia|]. run.
    case_match; [intros; autorewrite with run in *; simplify_eq/=; lia|]. run.
    intros H'. apply IH in H'. simpl in H'. lia. }
  unfold control, write_file. run. case_match; [intros; autorewrite with run in *; simplify_eq/=; lia|].
  unfold cgroupTimeout, waitForEventField. run. intros H'. apply Hloop in H'. simpl in H'. lia.
Qed.

Ltac use_control c :=
  match goal with
  | |- context [(c ≫= _) ?env ?s ?w] =>
      let r := fresh "r" in let w' := fresh "w'" in
      destruct (control_spec _ _ _ _ _ _ _ env s w : ∃ r w', c env s w = Done r s w' ∧ _ ∧ _)
        as (r & w' & Hrun & (new & Ht & Hq) & Hc);
      rewrite !(run_done _ _ _ _ _ _ _ _ Hrun); pose proof (control_step _ _ _ _ _ _ _ _ _ _ _ _ _ Hrun); destruct r
  end.

Lemma freeze_acts p env a w :
  acts OpFreeze p a →
  ∃ r a' w', freezeExecution p env a w = Done r a' w' ∧
             acted env OpFreeze p "frozen" "1" a w r a' w'.
Proof.
  destruct a as [path cmd st reaped q]. simpl. intros ->. unfold freezeExecution. run.
  use_control (freeze (S:=ActivationController) path).
  - run. eexists _, _, _. split; [done|]. split; [apply spec_lost; [by left|by left]|].
    split; [done|]. split; [done|]. split; [|done]. exists new.
    split; [done|]. by eapply Forall_impl; [|apply quiet_waiting].
  - run. eexists _, _, _. split; [done|]. split; [apply spec_freeze|].
    split; [done|]. split; [done|]. split; [|intros _; eexists; by split; [apply Hc|]].
    exists new. split; [done|]. by eapply Forall_impl; [|apply quiet_waiting].
Qed.

Lemma resume_acts p env a w :
  acts OpResume p a →
  ∃ r a' w', resumeExecution p env a w = Done r a' w' ∧
             acted env OpResume p "frozen" "0" a w r a' w'.
Proof.
  destruct a as [path cmd st reaped q]. simpl. intros [-> ->]. unfold resumeExecution. run.
  rewrite String.eqb_refl. run.
  use_control (unfreeze (S:=ActivationController) path).
  - run. eexists _, _, _. split; [done|]. split; [apply spec_lost; simpl; tauto|].
    split; [done|]. split; [done|]. split; [|done]. exists new.
    split; [done|]. by eapply Forall_impl; [|apply quiet_waiting].
  - run. eexists _, _, _. split; [done|]. split; [apply spec_resume|].
    split; [done|]. split; [done|]. split; [|intros _; eexists; by split; [apply Hc|]].
    exists new. split; [done|]. by eapply Forall_impl; [|apply quiet_waiting].
Qed.

(** The wait for the reaped process: what it does to the controller. *)
Definition reap_wait (cmd : option Z) : M ActivationController () :=
  match cmd with
  | None => mret ()
  | Some _ =>
      budget ← killConfirmWaitTimeout;
      if 0 <? budget then
        reaped ← wait_budget budget;
        if reaped : bool then mret () else logSafetyKillConfirmTimeout
      else waiter_wait
  end.

Definition kill_budget (env : Env) : Z :=
  let v := env_getenv env "KILL_CONFIRM_WAIT_TIMEOUT_MS" in
  (if (v =? "")%string then 0
   else match atoi v with
        | Some parsed => if 0 <=? parsed then parsed else 0
        | None => 0
        end) *! millisecond.

Definition with_reaped (b : bool) (a : ActivationController) : ActivationController :=
  {| ac_path := ac_path a; ac_cmd := ac_cmd a; ac_state := ac_state a; ac_reaped := b;
     ac_lastPauseID := ac_lastPauseID a |}.

Lemma reap_wait_spec cmd env a w :
  (∃ b w', reap_wait cmd env a w = Done tt (with_reaped b a) w' ∧
           (io_step w ≤ io_step w')%nat ∧
           ∃ new, io_trace w' = new ++ io_trace w ∧ Forall quiet new) ∨
  (reap_wait cmd env a w = Cut a w ∧ kill_budget env ≤ 0 ∧ ac_reaped a = false ∧
   env_reap env (io_step w) = None ∧ is_Some cmd).
Proof.
  destruct a as [path c st reaped q]. unfold reap_wait, with_reaped. simpl.
  destruct cmd as [pid|]; [|left; exists reaped, w; split; [done|]; split; [done|]; by exists []].
  unfold killConfirmWaitTimeout. run. fold (kill_budget env).
  destruct (Z.ltb_spec 0 (kill_budget env)).
  - left. unfold wait_budget, mbind, M_bind. simpl.
    destruct reaped; [exists true, w; split; [done|]; split; [done|]; by exists []|].
    destruct (env_reap env (io_step w)) as [ns|]; [destruct (Z.of_N ns <=? kill_budget env)|];
      [exists true|exists false..]; eexists; (split; [reflexivity|]); (split; [simpl; lia|]);
      [exists [EvReap]|exists [EvSafety "KILL_CONFIRM_WAIT_TIMEOUT" "warning"]..];
      repeat constructor.
  - unfold waiter_wait. simpl. destruct reaped.
    + left. exists true, w. split; [done|]. split; [done|]. by exists [].
    + destruct (env_reap env (io_step w)) as [ns|] eqn:Hr; [left|right; eauto].
      eexists _, _. split; [done|]. split; [simpl; lia|]. exists [EvReap]. repeat constructor.
Qed.

Lemma kill_acts p env a w :
  acts OpKill p a →
  (∃ r a' w', killExecution p env a w = Done r a' w' ∧
              acted env OpKill p "populated" "0" a w r a' w') ∨
  (∃ a' w', killExecution p env a w = Cut a' w' ∧ ac_state a' = StateKilling ∧
            kill_budget env ≤ 0 ∧ ac_reaped a = false ∧ is_Some (ac_cmd a) ∧
            (∃ i, env_reap env i = None) ∧ ac_path a' = ac_path a ∧
            ∃ new, io_trace w' = new ++ op_write OpKill (ac_path a) :: io_trace w ∧ Forall quiet new).
Proof.
  destruct a as [path cmd st reaped q]. cbn [acts ac_state]. intros Hst. unfold killExecution. run.
  assert (Hst' : bool_decide (st = StateStopped) = false ∧
    negb (bool_decide (st = StateRunning)) && negb (bool_decide (st = StateFrozen)) = false)
    by (by destruct Hst as [-> | ->]).
  destruct Hst' as [-> ->]. run. use_control (kill (S:=ActivationController) path).
  - run. left. eexists _, _, _. split; [done|].
    split; [apply spec_lost; simpl; tauto|].
    split; [done|]. split; [done|]. split; [|done]. exists new.
    split; [done|]. by eapply Forall_impl; [|apply quiet_waiting].
  - run. fold (reap_wait cmd).
    match goal with |- context [(reap_wait cmd ≫= _) env ?a0 ?w0] =>
      destruct (reap_wait_spec cmd env a0 w0)
        as [(b & w2 & Hw & Hs & new' & Ht' & Hq')|(Hw & Hb & Hrp & Hnone & Hc')] end;
      [rewrite !(run_done _ _ _ _ _ _ _ _ Hw)|rewrite !(run_cut _ _ _ _ _ _ _ Hw)].
    + run. left. eexists _, _, _. split; [done|]. split; [by apply spec_kill|].
      split; [done|]. split; [done|]. split.
      * exists (new' ++ new). rewrite Ht', Ht, app_assoc. split; [done|].
        apply Forall_app. split; [done|]. by eapply Forall_impl; [|apply quiet_waiting].
      * intros _. exists w'. split; [by apply Hc|done].
    + right. eexists _, _. split; [done|]. split; [done|]. split; [done|]. split; [done|].
      split; [done|]. split; [by eexists|]. split; [done|]. exists new.
      split; [done|]. by eapply Forall_impl; [|apply quiet_waiting].
Qed.

(** ** Theorems on the controller *)

Lemma call_acts o p env a w :
  acts o p a →
  (∃ r a' w' field want, call o p env a w = Done r a' w' ∧ acted env o p field want a w r a' w') ∨
  (o = OpKill ∧ ∃ a' w', call o p env a w = Cut a' w' ∧ ac_state a' = StateKilling ∧
     kill_budget env ≤ 0 ∧ ac_reaped a = false ∧ is_Some (ac_cmd a) ∧
     (∃ i, env_reap env i = None) ∧ ac_path a' = ac_path a ∧
     ∃ new, io_trace w' = new ++ op_write OpKill (ac_path a) :: io_trace w ∧ Forall quiet new).
Proof.
  intros Ha. destruct o; simpl.
  - destruct (freeze_acts p env a w Ha) as (r & a' & w' & ?). left. eauto 10.
  - destruct (resume_acts p env a w Ha) as (r & a' & w' & ?). left. eauto 10.
  - destruct (kill_acts p env a w Ha) as [(r & a' & w' & ?)|(a' & w' & ?)]; [left|right]; eauto 20.
Qed.

Lemma call_spec o p env a w r a' w' :
  call o p env a w = Done r a' w' →
  spec_step o p (abs_of a) (ok r) (abs_of a') ∧ ac_path a' = ac_path a ∧
  ((a' = a ∧ w' = w) ∨
   (acts o p a ∧
    ∃ new, io_trace w' = new ++ op_write o (ac_path a) :: io_trace w ∧ Forall quiet new)).
Proof.
  intros Hc. destruct (decide (acts o p a)) as [Ha|Hn].
  - destruct (call_acts o p env a w Ha) as [(r' & a1 & w1 & f & v & Hr & Hs & ? & ? & ? & ?)
      |(-> & a1 & w1 & Hr & ?)]; rewrite Hc in Hr; simplify_eq; auto 10.
  - destruct (call_idle o p env a w Hn) as (r' & Hr & Hs). rewrite Hc in Hr. simplify_eq. auto.
Qed.

Lemma controller_step o p env a w :
  match call o p env a w with
  | Done r a' _ => spec_step o p (abs_of a) (ok r) (abs_of a') ∧ ac_path a' = ac_path a
  | Cut a' _ => o = OpKill ∧ kill_budget env ≤ 0 ∧ ac_state a' = StateKilling
  | Panic _ _ _ => False
  end.
Proof.
  destruct (decide (acts o p a)) as [Ha|Hn].
  - destruct (call_acts o p env a w Ha) as [(r & a' & w' & f & v & -> & Hs & ? & ?)
      |(-> & a' & w' & -> & ?)]; tauto.
  - destruct (call_idle o p env a w Hn) as (r & -> & Hs). done.
Qed.

(** C3: the controller implements the specified state machine. Only a kill without
    a reaping budget can fail to return, and it leaves KILLING. *)
Theorem controller_refines o p env a w :
  match call o p env a w with
  | Done r a' _ => spec_step o p (abs_of a) (ok r) (abs_of a') ∧ ac_path a' = ac_path a
  | Cut a' _ => o = OpKill ∧ kill_budget env ≤ 0 ∧ ac_state a' = StateKilling
  | Panic _ _ _ => False
  end.
Proof. apply controller_step. Qed.

Lemma kill_within_budget p env a w :
  0 < kill_budget env →
  ∃ r a' w', killExecution p env a w = Done r a' w' ∧
    (r = None → ac_state a' = StateStopped) ∧
    (r ≠ None → ac_state a' = StateUnknown ∨ a' = a).
Proof.
  intros Hb. destruct (decide (acts OpKill p a)) as [Ha|Hn].
  - destruct (kill_acts p env a w Ha) as [(r & a' & w' & -> & Hs & _)|(? & ? & _ & _ & ? & _)]; [|lia].
    exists r, a', w'. split; [done|]. destruct a, a', r; inversion Hs; simplify_eq/=;
      split; intros; simplify_eq; auto; exfalso; naive_solver.
  - destruct (call_idle OpKill p env a w Hn) as (r & Hr & Hs). simpl in Hr. rewrite Hr.
    exists r, a, w. split; [done|]. split; [|by right]. intros ->.
    destruct a; inversion Hs; simplify_eq/=; naive_solver.
Qed.

(** With a budget on the wait for the reaped process a kill always returns: a
    success leaves the controller STOPPED; a failure leaves it UNKNOWN, or as it
    was if the kill was refused. *)
Theorem kill_with_budget_returns p env a w :
  0 < kill_budget env →
  ∃ r a' w', killExecution p env a w = Done r a' w' ∧
    (r = None → ac_state a' = StateStopped) ∧
    (r ≠ None → ac_state a' = StateUnknown ∨ a' = a).
Proof. apply kill_within_budget. Qed.

(** C23: a call that acts and reports success has written its control file and
    then read the effective state it wanted. *)
Theorem success_is_confirmed o p env a w a' w' :
  acts o p a → call o p env a w = Done None a' w' →
  (∃ new, io_trace w' = new ++ op_write o (ac_path a) :: io_trace w) ∧
  ∃ w1, (io_step w ≤ io_step w1 ≤ io_step w')%nat ∧
    match o with
    | OpFreeze => confirmed env (ac_path a) "frozen" "1" w1
    | OpResume => confirmed env (ac_path a) "frozen" "0" w1
    | OpKill => confirmed env (ac_path a) "populated" "0" w1
    end.
Proof.
  intros Ha Hc. destruct o; simpl in Hc.
  - destruct (freeze_acts p env a w Ha) as (r & a1 & w1 & Hr & Hs & _ & _ & (new & ? & _) & Hok).
    rewrite Hc in Hr. simplify_eq. destruct Hok as (w2 & ? & ?); [done|]. eauto 10.
  - destruct (resume_acts p env a w Ha) as (r & a1 & w1 & Hr & Hs & _ & _ & (new & ? & _) & Hok).
    rewrite Hc in Hr. simplify_eq. destruct Hok as (w2 & ? & ?); [done|]. eauto 10.
  - destruct (kill_acts p env a w Ha) as [(r & a1 & w1 & Hr & Hs & _ & _ & (new & ? & _) & Hok)
      |(? & ? & Hr & _)]; rewrite Hc in Hr; simplify_eq.
    destruct Hok as (w2 & ? & ?); [done|]. eauto 10.
Qed.

(** Repeating a confirmed call changes nothing and touches nothing. *)
Theorem repeated_call_is_noop o p env a w a' w' :
  call o p env a w = Done None a' w' → call o p env a' w' = Done None a' w'.
Proof.
  intros Hc. destruct (call_spec _ _ _ _ _ _ _ _ Hc) as (Hs & _ & _).
  assert (Hn : ¬ acts o p a') by
    (destruct a', o; simpl in *; inversion Hs; simplify_eq/=; naive_solver).
  destruct (call_idle o p env a' w' Hn) as (r & -> & Hr). f_equal.
  destruct r; [|done]. exfalso.
  destruct a', o; simpl in *; inversion Hs; simplify_eq/=; inversion Hr; simplify_eq/=; naive_solver.
Qed.

(** A kill that does not return. *)
Lemma blocked_kill_spec p env a w a' w' :
  killExecution p env a w = Cut a' w' →
  ac_state a' = StateKilling ∧ ac_path a' = ac_path a ∧
  ∃ new, io_trace w' = new ++ op_write OpKill (ac_path a) :: io_trace w ∧ Forall quiet new.
Proof.
  intros Hc. destruct (decide (acts OpKill p a)) as [Ha|Hn].
  - destruct (kill_acts p env a w Ha) as [(r & a1 & w1 & Hr & _)|(a1 & w1 & Hr & ? & _ & _ & _ & _ & ? & ?)];
      rewrite Hc in Hr; by simplify_eq.
  - destruct (call_idle OpKill p env a w Hn) as (r & Hr & _). simpl in Hr. by rewrite Hc in Hr.
Qed.

(** ** The controller and the kernel *)

Inductive ctl_step (env : Env) : relation (ActivationController * io) :=
  | ctl_call o p a w r a' w' :
      call o p env a w = Done r a' w' → ctl_step env (a, w) (a', w').

(** The last value written to a file. *)
Fixpoint last_write (file : string) (tr : list event) : option string :=
  match tr with
  | [] => None
  | EvWrite f v :: rest => if (f =? file)%string then Some v else last_write file rest
  | _ :: rest => last_write file rest
  end.

Lemma last_write_quiet file new tr :
  Forall quiet new → last_write file (new ++ tr) = last_write file tr.
Proof. induction 1 as [|e new He _ IH]; [done|]. by destruct e. Qed.

(** What the controller's state says of its control files: a frozen activation
    is one the runtime last asked to freeze, a running one was never frozen or
    last asked to thaw, a stopped one was killed. *)
Definition tracks (a : ActivationController) (tr : list event) : Prop :=
  match ac_state a with
  | StateRunning => last_write (freeze_file (ac_path a)) tr ∈ [None; Some "0"%string]
  | StateFrozen => last_write (freeze_file (ac_path a)) tr = Some "1"%string
  | StateStopped => EvWrite (kill_file (ac_path a)) "1" ∈ tr
  | StateUnknown => True
  | _ => False
  end.

Lemma call_tracks o p env a w r a' w' :
  call o p env a w = Done r a' w' → tracks a (io_trace w) → tracks a' (io_trace w').
Proof.
  intros Hc Ht. destruct (call_spec _ _ _ _ _ _ _ _ Hc) as (Hs & Hp & Hw).
  destruct Hw as [[-> ->]|(Ha & new & Hnew & Hq)]; [done|].
  rewrite Hnew. unfold tracks in *. rewrite Hp, last_write_quiet by done.
  destruct a as [path cmd st rp q], a' as [path' cmd' st' rp' q'].
  destruct o; inversion Hs; simplify_eq/=; rewrite ?String.eqb_refl; try done; try set_solver;
    naive_solver.
Qed.

(** Whatever calls the runtime makes, in whatever order and with whatever
    failures, the state it holds agrees with what it asked the kernel for; between
    calls it is RUNNING, FROZEN, STOPPED or UNKNOWN. *)
Theorem controller_tracks_kernel env path pid w0 a w :
  (∀ e, e ∈ io_trace w0 → quiet e) →
  rtc (ctl_step env)
    ({| ac_path := path; ac_cmd := pid; ac_state := StateRunning; ac_reaped := false;
        ac_lastPauseID := "" |}, w0) (a, w) →
  tracks a (io_trace w).
Proof.
  intros Hq Hr.
  enough (∀ x y, rtc (ctl_step env) x y → tracks x.1 (io_trace x.2) → tracks y.1 (io_trace y.2)) as H.
  { refine (H _ _ Hr _). unfold tracks. simpl. rewrite <-(app_nil_r (io_trace w0)), last_write_quiet;
      [set_solver|]. by apply Forall_forall. }
  clear. induction 1 as [x|[a1 w1] [a2 w2] z Hs Hr IH]; [done|].
  intros Ht. apply IH. inversion Hs; simplify_eq. by eapply call_tracks.
Qed.

(** A failed freeze or resume loses the activation. From UNKNOWN no later call
    ever reaches the kernel again: in particular the kill that is meant to end
    such an activation is refused without writing [cgroup.kill]. *)
Theorem lost_activation_is_never_killed env a w a' w' :
  ac_state a = StateUnknown → rtc (ctl_step env) (a, w) (a', w') →
  a' = a ∧ w' = w ∧ ∀ o p r b v, call o p env a' w' = Done r b v → r ≠ None.
Proof.
  intros Hu Hr.
  assert (Hidle : ∀ o p, ¬ acts o p a) by (intros [] p; simpl; rewrite Hu; naive_solver).
  assert (Hst : a' = a ∧ w' = w).
  { remember (a, w) as x eqn:Hx. remember (a', w') as y eqn:Hy. revert Hx Hy.
    induction Hr as [x|x y z Hs Hr IH]; intros; simplify_eq; [done|]. apply IH; [|done].
    inversion Hs as [o p ? ? r b v Hc]; simplify_eq.
    destruct (call_idle o p env a w (Hidle o p)) as (r' & Hr' & _). rewrite Hc in Hr'. by simplify_eq. }
  destruct Hst as [-> ->]. split; [done|]. split; [done|].
  intros o p r b v Hc. destruct (call_idle o p env a w (Hidle o p)) as (r' & Hr' & Hs).
  rewrite Hc in Hr'. simplify_eq. destruct a as [? ? st ? ?]; simpl in *; subst st.
  destruct r'; [done|]. inversion Hs; naive_solver.
Qed.

(** ** A sample activation *)

(** A kernel that obeys at once. *)
Definition obedient_kernel : Env :=
  sample_env [("KILL_CONFIRM_WAIT_TIMEOUT_MS", "10")]
    [("/c/cgroup.events", ("populated 0" +:+ String newline "frozen 1")%string)]
    (λ _, None) (λ _, HttpErr EDeadline) true None.

Definition sample_activation (st : RuntimeState) : ActivationController :=
  {| ac_path := "/c"; ac_cmd := Some 42; ac_state := st; ac_reaped := false; ac_lastPauseID := "" |}.

Definition frozen_activation : ActivationController := set_pause StateFrozen "p1" (sample_activation StateRunning).

Lemma freeze_runs : ∃ w', call OpFreeze "p1" obedient_kernel (sample_activation StateRunning) io_start =
  Done None frozen_activation w'.
Proof. eexists. vm_compute. reflexivity. Qed.

Lemma kill_with_budget_returns_witness :
  ∃ r a' w', killExecution "p1" obedient_kernel (sample_activation StateRunning) io_start = Done r a' w' ∧
    (r = None → ac_state a' = StateStopped) ∧
    (r ≠ None → ac_state a' = StateUnknown ∨ a' = sample_activation StateRunning).
Proof.
  apply (kill_with_budget_returns "p1" obedient_kernel (sample_activation StateRunning) io_start).
  apply (bool_decide_unpack _). vm_compute. reflexivity.
Defined.

Lemma success_is_confirmed_witness :
  ∃ w' w1, (0 ≤ io_step w1 ≤ io_step w')%nat ∧ confirmed obedient_kernel "/c" "frozen" "1" w1.
Proof.
  destruct freeze_runs as (w' & Hr).
  destruct (success_is_confirmed OpFreeze "p1" obedient_kernel (sample_activation StateRunning) io_start
    frozen_activation w' eq_refl Hr) as (_ & w1 & Hw & Hc).
  exists w', w1. split; [exact Hw|exact Hc].
Defined.

Lemma repeated_call_is_noop_witness :
  ∃ w', call OpFreeze "p1" obedient_kernel frozen_activation w' = Done None frozen_activation w'.
Proof.
  destruct freeze_runs as (w' & Hr). exists w'.
  exact (repeated_call_is_noop OpFreeze "p1" obedient_kernel (sample_activation StateRunning) io_start
    frozen_activation w' Hr).
Defined.

Lemma controller_tracks_kernel_witness :
  ∃ w', tracks frozen_activation (io_trace w').
Proof.
  destruct freeze_runs as (w' & Hr). exists w'.
  apply (controller_tracks_kernel obedient_kernel "/c" (Some 42) io_start frozen_activation w').
  - intros e He. exfalso. by apply elem_of_nil in He.
  - apply rtc_once. exact (ctl_call _ OpFreeze "p1" _ _ None _ _ Hr).
Defined.

Lemma lost_activation_is_never_killed_witness :
  ∀ o p r b v, call o p obedient_kernel (sample_activation StateUnknown) io_start = Done r b v → r ≠ None.
Proof.
  apply (lost_activation_is_never_killed obedient_kernel (sample_activation StateUnknown) io_start
    (sample_activation StateUnknown) io_start eq_refl). apply rtc_refl.
Defined.
