(* ===== verification/EnergyState.v ===== *)
(** * The energy state carried between steps ([openwhisk/energy_state.go])

    The first step of a sequence receives its energy state as [energy_*]
    parameters, the following ones as a hidden [__energy_state] member that
    the previous step's runtime put into its result. *)

From S2P Require Import Prelude Float64 GoStrings Json Effects.

Local Open Scope string_scope.

Definition energyStateKey : string := "__energy_state".

Definition energyParamKeys : list (string * string) :=
  [("energy_trace_id", "trace_id");
   ("energy_reservation_id", "reservation_id");
   ("energy_execution_phase", "execution_phase");
   ("energy_execution_threshold_j", "execution_threshold_j");
   ("energy_consumed_before_j", "consumed_before_j");
   ("energy_pause_enabled", "pause_enabled");
   ("energy_pause_mode", "pause_mode");
   ("energy_max_pause_duration_ms", "max_pause_duration_ms");
   ("energy_max_pause_count", "max_pause_count");
   ("energy_interruption_class", "interruption_class")].

Definition firstStepAnchorKey : string := "energy_trace_id".

Record EnergyState := {
  TraceID : string;
  ReservationID : string;
  ExecutionPhase : string;
  ExecutionThresholdJ : f64;
  ConsumedBeforeJ : f64;
  PauseEnabled : bool;
  PauseMode : string;
  MaxPauseDurationMs : Z;
  MaxPauseCount : Z;
  InterruptionClass : option (gmap string string);
  ResolvedActionName : string
}.

Definition zero_state : EnergyState :=
  {| TraceID := ""; ReservationID := ""; ExecutionPhase := ""; ExecutionThresholdJ := f64_zero;
     ConsumedBeforeJ := f64_zero; PauseEnabled := false; PauseMode := ""; MaxPauseDurationMs := 0;
     MaxPauseCount := 0; InterruptionClass := None; ResolvedActionName := "" |}.

(** ** Field updates *)

Definition with_consumed (x : f64) (s : EnergyState) : EnergyState :=
  {| TraceID := TraceID s; ReservationID := ReservationID s; ExecutionPhase := ExecutionPhase s;
     ExecutionThresholdJ := ExecutionThresholdJ s; ConsumedBeforeJ := x;
     PauseEnabled := PauseEnabled s; PauseMode := PauseMode s;
     MaxPauseDurationMs := MaxPauseDurationMs s; MaxPauseCount := MaxPauseCount s;
     InterruptionClass := InterruptionClass s; ResolvedActionName := ResolvedActionName s |}.

Definition with_threshold (x : f64) (s : EnergyState) : EnergyState :=
  {| TraceID := TraceID s; ReservationID := ReservationID s; ExecutionPhase := ExecutionPhase s;
     ExecutionThresholdJ := x; ConsumedBeforeJ := ConsumedBeforeJ s;
     PauseEnabled := PauseEnabled s; PauseMode := PauseMode s;
     MaxPauseDurationMs := MaxPauseDurationMs s; MaxPauseCount := MaxPauseCount s;
     InterruptionClass := InterruptionClass s; ResolvedActionName := ResolvedActionName s |}.

Definition with_action_name (n : string) (s : EnergyState) : EnergyState :=
  {| TraceID := TraceID s; ReservationID := ReservationID s; ExecutionPhase := ExecutionPhase s;
     ExecutionThresholdJ := ExecutionThresholdJ s; ConsumedBeforeJ := ConsumedBeforeJ s;
     PauseEnabled := PauseEnabled s; PauseMode := PauseMode s;
     MaxPauseDurationMs := MaxPauseDurationMs s; MaxPauseCount := MaxPauseCount s;
     InterruptionClass := InterruptionClass s; ResolvedActionName := n |}.

(** ** Wire format: the struct's JSON tags *)

Definition energy_state_fields : list (field EnergyState) :=
  [str_field "trace_id" (λ x s, Build_EnergyState x (ReservationID s) (ExecutionPhase s)
     (ExecutionThresholdJ s) (ConsumedBeforeJ s) (PauseEnabled s) (PauseMode s)
     (MaxPauseDurationMs s) (MaxPauseCount s) (InterruptionClass s) (ResolvedActionName s));
   str_field "reservation_id" (λ x s, Build_EnergyState (TraceID s) x (ExecutionPhase s)
     (ExecutionThresholdJ s) (ConsumedBeforeJ s) (PauseEnabled s) (PauseMode s)
     (MaxPauseDurationMs s) (MaxPauseCount s) (InterruptionClass s) (ResolvedActionName s));
   str_field "execution_phase" (λ x s, Build_EnergyState (TraceID s) (ReservationID s) x
     (ExecutionThresholdJ s) (ConsumedBeforeJ s) (PauseEnabled s) (PauseMode s)
     (MaxPauseDurationMs s) (MaxPauseCount s) (InterruptionClass s) (ResolvedActionName s));
   f64_field "execution_threshold_j" with_threshold;
   f64_field "consumed_before_j" with_consumed;
   bool_field "pause_enabled" (λ x s, Build_EnergyState (TraceID s) (ReservationID s)
     (ExecutionPhase s) (ExecutionThresholdJ s) (ConsumedBeforeJ s) x (PauseMode s)
     (MaxPauseDurationMs s) (MaxPauseCount s) (InterruptionClass s) (ResolvedActionName s));
   str_field "pause_mode" (λ x s, Build_EnergyState (TraceID s) (ReservationID s)
     (ExecutionPhase s) (ExecutionThresholdJ s) (ConsumedBeforeJ s) (PauseEnabled s) x
     (MaxPauseDurationMs s) (MaxPauseCount s) (InterruptionClass s) (ResolvedActionName s));
   int64_field "max_pause_duration_ms" (λ x s, Build_EnergyState (TraceID s) (ReservationID s)
     (ExecutionPhase s) (ExecutionThresholdJ s) (ConsumedBeforeJ s) (PauseEnabled s) (PauseMode s)
     x (MaxPauseCount s) (InterruptionClass s) (ResolvedActionName s));
   int64_field "max_pause_count" (λ x s, Build_EnergyState (TraceID s) (ReservationID s)
     (ExecutionPhase s) (ExecutionThresholdJ s) (ConsumedBeforeJ s) (PauseEnabled s) (PauseMode s)
     (MaxPauseDurationMs s) x (InterruptionClass s) (ResolvedActionName s));
   strmap_field "interruption_class" InterruptionClass (λ x s, Build_EnergyState (TraceID s)
     (ReservationID s) (ExecutionPhase s) (ExecutionThresholdJ s) (ConsumedBeforeJ s)
     (PauseEnabled s) (PauseMode s) (MaxPauseDurationMs s) (MaxPauseCount s) x
     (ResolvedActionName s))].

(** [json.Marshal] of the struct, read back as generic JSON: an integer field's
    text is parsed as a [float64] by the next step. *)
Definition encode_members (s : EnergyState) : list (string * json) :=
  [("trace_id", JStr (TraceID s));
   ("reservation_id", JStr (ReservationID s));
   ("execution_phase", JStr (ExecutionPhase s));
   ("execution_threshold_j", JNum (ExecutionThresholdJ s));
   ("consumed_before_j", JNum (ConsumedBeforeJ s));
   ("pause_enabled", JBool (PauseEnabled s));
   ("pause_mode", JStr (PauseMode s));
   ("max_pause_duration_ms", JNum (f64_of_Z (MaxPauseDurationMs s)));
   ("max_pause_count", JNum (f64_of_Z (MaxPauseCount s)));
   ("interruption_class", json_of_strmap (InterruptionClass s))].

Definition encode_state (s : EnergyState) : option json :=
  let j := JObj (encode_members s) in
  if json_encodable j then Some j else None.

(** ** Extraction and reinjection *)

Definition decodeEnergyStateMap (m : gomap) : option EnergyState :=
  let encoded := json_of_map m in
  if json_encodable encoded then decode_struct energy_state_fields encoded zero_state else None.

(** The loop over [energyParamKeys]: moves each present parameter to its bare
    name. *)
Definition move_param (acc : gomap * gomap) (kb : string * string) : gomap * gomap :=
  let '(bare, cleaned) := acc in
  (match cleaned !! kb.1 with
   | Some v => <[kb.2 := v]> bare
   | None => bare
   end, delete kb.1 cleaned).

Section sidecar.
Context {S : Type}.

Definition logCorruptedEnergyState : M S () := safety "ENERGY_STATE_CORRUPTED" "".

Definition ExtractEnergyState (params : gomap) : M S (option EnergyState * gomap) :=
  match params !! firstStepAnchorKey with
  | Some _ =>
      let '(bare, cleaned) := foldl move_param (∅, params) energyParamKeys in
      mret (decodeEnergyStateMap bare, cleaned)
  | None =>
      match params !! energyStateKey with
      | None => mret (None, params)
      | Some raw =>
          let cleaned := delete energyStateKey params in
          match raw with
          | JObj l =>
              match decodeEnergyStateMap (members_map l) with
              | Some state => mret (Some state, cleaned)
              | None => logCorruptedEnergyState;; mret (None, cleaned)
              end
          | _ => logCorruptedEnergyState;; mret (None, cleaned)
          end
      end
  end.
End sidecar.

(** On an encoding error the caller gets the result it passed in. *)
Definition ReinjectEnergyState (result : gomap) (previous : option EnergyState)
    (measuredEnergyJ : f64) : gomap + gomap :=
  match previous with
  | None => inl result
  | Some previous =>
      let updated := with_consumed (f64_add (ConsumedBeforeJ previous) measuredEnergyJ) previous in
      match encode_state updated with
      | None => inr result
      | Some raw => inl (<[energyStateKey := raw]> result)
      end
  end.

(** ** Round trip between two steps *)

(** States whose numbers survive the wire: finite energies and integers below
    2^49. *)
Definition storable (s : EnergyState) : Prop :=
  f64_is_finite (ExecutionThresholdJ s) = true ∧ f64_is_finite (ConsumedBeforeJ s) = true ∧
  (0 ≤ MaxPauseDurationMs s < 2 ^ 49)%Z ∧ (0 ≤ MaxPauseCount s < 2 ^ 49)%Z.

#[global] Instance storable_dec s : Decision (storable s).
Proof. unfold storable. apply _. Defined.

(** The order in which [json.Marshal] writes the bare names. *)
Lemma sorted_state_members (j1 j2 j3 j4 j5 j6 j7 j8 j9 j10 : json) :
  sorted_members (members_map
    [("trace_id", j1); ("reservation_id", j2); ("execution_phase", j3);
     ("execution_threshold_j", j4); ("consumed_before_j", j5); ("pause_enabled", j6);
     ("pause_mode", j7); ("max_pause_duration_ms", j8); ("max_pause_count", j9);
     ("interruption_class", j10)]) =
  [("consumed_before_j", j5); ("execution_phase", j3); ("execution_threshold_j", j4);
   ("interruption_class", j10); ("max_pause_count", j9); ("max_pause_duration_ms", j8);
   ("pause_enabled", j6); ("pause_mode", j7); ("reservation_id", j2); ("trace_id", j1)].
Proof. vm_compute. reflexivity. Qed.

Lemma strmap_encodable m : json_encodable (json_of_strmap m) = true.
Proof.
  destruct m as [m|]; [|done]. simpl. apply forallb_forall. intros [k j] Hin.
  apply list_elem_of_In, elem_of_sorted_members, lookup_fmap_Some in Hin as (v & <- & _). done.
Qed.

Lemma encode_state_storable s :
  storable s → encode_state s = Some (JObj (encode_members s)).
Proof.
  intros (Ht & Hc & ? & ?). unfold encode_state. cbn [json_encodable encode_members forallb snd].
  assert (Hi : ∀ z, (0 ≤ z < 2 ^ 49)%Z → f64_is_finite (f64_of_Z z) = true).
  { intros z Hz. destruct (decide (z = 0)%Z) as [->|]; [done|].
    by destruct (f64_of_Z_exact z) as (m & e & -> & _); [lia|]. }
  rewrite Ht, Hc, !Hi, strmap_encodable by done. done.
Qed.

Lemma decode_encode s :
  storable s → decodeEnergyStateMap (members_map (encode_members s)) = Some (with_action_name "" s).
Proof.
  intros Hs. pose proof (encode_state_storable s Hs) as He. unfold encode_state in He.
  destruct Hs as (Ht & Hc & Hd & Hn).
  unfold decodeEnergyStateMap, json_of_map. unfold encode_members at 1 2.
  rewrite sorted_state_members.
  assert (Henc : json_encodable (JObj (encode_members s)) = true)
    by (cbv zeta in He; by destruct (json_encodable (JObj (encode_members s)))).
  cbn [json_encodable encode_members forallb snd] in Henc |- *.
  destruct (f64_is_finite (ConsumedBeforeJ s)); [|done].
  destruct (f64_is_finite (ExecutionThresholdJ s)); [|done].
  rewrite strmap_encodable in *.
  destruct (f64_is_finite (f64_of_Z (MaxPauseDurationMs s))); [|done].
  destruct (f64_is_finite (f64_of_Z (MaxPauseCount s))); [|done].
  cbn [andb]. unfold decode_struct. cbn [foldl].
  destruct s as [t r p th c pe pm md mc ic an]. unfold json_of_strmap. cbn [InterruptionClass].
  destruct ic as [ic|]; cbn -[json_int64 f64_of_Z sorted_members add_str_member].
  - rewrite strmap_roundtrip. cbn -[json_int64 f64_of_Z]. rewrite json_int64_exact by done.
    cbn -[json_int64 f64_of_Z]. by rewrite json_int64_exact by done.
  - rewrite json_int64_exact by done.
    cbn -[json_int64 f64_of_Z]. by rewrite json_int64_exact by done.
Qed.

(** ** Stripping *)

Lemma move_params_cleaned l bare cleaned k :
  (foldl move_param (bare, cleaned) l).2 !! k =
  if decide (k ∈ l.*1) then None else cleaned !! k.
Proof.
  revert bare cleaned. induction l as [|[p b] l IH]; intros bare cleaned; [done|].
  cbn [foldl move_param fst snd]. rewrite IH. rewrite fmap_cons. simpl.
  repeat case_decide; try done; try set_solver.
  - destruct (decide (k = p)) as [->|]; [by rewrite lookup_delete_eq|set_solver].
  - rewrite lookup_delete_ne; [done|set_solver].
Qed.

Lemma move_params_bare l bare cleaned p b :
  NoDup l.*1 → NoDup l.*2 → (p, b) ∈ l → bare !! b = None →
  (foldl move_param (bare, cleaned) l).1 !! b = cleaned !! p.
Proof.
  assert (Hkeep : ∀ l bare cleaned b, b ∉ l.*2 →
    (foldl move_param (bare, cleaned) l).1 !! b = (bare : gomap) !! b).
  { clear. induction l as [|[p' b'] l IH]; intros bare cleaned b Hb; [done|].
    cbn [foldl move_param fst snd]. rewrite fmap_cons in Hb. simpl in Hb.
    rewrite IH by set_solver. case_match; [rewrite lookup_insert_ne; [done|set_solver]|done]. }
  revert bare cleaned. induction l as [|[p' b'] l IH]; intros bare cleaned Hp Hb Hin Hn; [set_solver|].
  rewrite fmap_cons in Hp, Hb. apply NoDup_cons in Hp as [Hp1 Hp2]. apply NoDup_cons in Hb as [Hb1 Hb2].
  cbn [foldl move_param fst snd]. apply elem_of_cons in Hin as [[= -> ->]|Hin].
  - rewrite Hkeep by done. simpl. destruct (cleaned !! p'); [apply lookup_insert_eq|done].
  - assert (p ≠ p') by (intros ->; apply Hp1, list_elem_of_fmap; by exists (p', b)).
    assert (b ≠ b') by (intros ->; apply Hb1, list_elem_of_fmap; by exists (p, b')).
    rewrite IH; [|done..|].
    + simpl. by rewrite lookup_delete_ne.
    + simpl. case_match; [by rewrite lookup_insert_ne|done].
Qed.

Lemma extract_spec {S} params env (s : S) w :
  ∃ st cleaned w', ExtractEnergyState params env s w = Done (st, cleaned) s w' ∧
    cleaned = (if decide (is_Some (params !! firstStepAnchorKey))
               then (foldl move_param (∅, params) energyParamKeys).2
               else delete energyStateKey params) ∧
    (is_Some (params !! firstStepAnchorKey) →
     st = decodeEnergyStateMap (foldl move_param (∅, params) energyParamKeys).1).
Proof.
  unfold ExtractEnergyState. destruct (params !! firstStepAnchorKey) as [a|] eqn:Ha.
  - destruct (foldl move_param (∅, params) energyParamKeys) as [bare cleaned] eqn:Hf.
    eexists _, _, _. split; [done|]. rewrite decide_True by eauto. done.
  - rewrite decide_False by (intros [? ?]; congruence).
    destruct (params !! energyStateKey) as [raw|] eqn:He.
    + destruct raw; try (eexists _, _, _; split; [done|]; split; [done|]; by intros [? ?]).
      case_match; (eexists _, _, _; split; [done|]; split; [done|]; by intros [? ?]).
    + eexists _, _, _. split; [done|]. rewrite delete_id by done. split; [done|]. by intros [? ?].
Qed.

(** What the business code sees. On the first step every [energy_*] parameter of
    the protocol is gone and everything else is untouched; on a later step only
    the hidden member is gone. *)
Theorem extract_strips_exactly {S} params env (s : S) w :
  ∃ st cleaned w', ExtractEnergyState params env s w = Done (st, cleaned) s w' ∧
    ∀ k, cleaned !! k =
      if decide (is_Some (params !! firstStepAnchorKey))
      then (if decide (k ∈ energyParamKeys.*1) then None else params !! k)
      else (if decide (k = energyStateKey) then None else params !! k).
Proof.
  destruct (extract_spec params env s w) as (st & cleaned & w' & Hr & -> & _).
  eexists _, _, _. split; [exact Hr|]. intros k.
  destruct (decide (is_Some _)); [apply move_params_cleaned|].
  case_decide; [subst; apply lookup_delete_eq|by apply lookup_delete_ne].
Qed.

(** On the first step every parameter of the protocol reaches the decoder under
    its bare name. *)
Theorem first_step_reads_parameters {S} params env (s : S) w p b :
  is_Some (params !! firstStepAnchorKey) → (p, b) ∈ energyParamKeys →
  ∃ bare cleaned w', ExtractEnergyState params env s w = Done (decodeEnergyStateMap bare, cleaned) s w' ∧
    bare !! b = params !! p.
Proof.
  intros Ha Hin. destruct (extract_spec params env s w) as (st & cleaned & w' & Hr & _ & Hst).
  rewrite (Hst Ha) in Hr. eexists _, _, _. split; [exact Hr|].
  apply move_params_bare; [apply (bool_decide_unpack _); by vm_compute..|done|done].
Qed.

(** The state a step leaves in its result is the state the next step extracts,
    with the step's measured energy added and the action name left for the next
    step to fill in. *)
Theorem sidecar_roundtrip {S} result previous measuredEnergyJ params env (s : S) w :
  let updated := with_consumed (f64_add (ConsumedBeforeJ previous) measuredEnergyJ) previous in
  storable updated → params !! firstStepAnchorKey = None →
  ∃ out, ReinjectEnergyState result (Some previous) measuredEnergyJ = inl out ∧
    (∀ k, k ≠ energyStateKey → out !! k = result !! k) ∧
    (params !! energyStateKey = out !! energyStateKey →
     ExtractEnergyState params env s w =
     Done (Some (with_action_name "" updated), delete energyStateKey params) s w).
Proof.
  intros updated Hs Ha. unfold ReinjectEnergyState. fold updated.
  rewrite encode_state_storable by done. eexists. split; [done|].
  split; [intros k Hk; by apply lookup_insert_ne|].
  rewrite lookup_insert_eq. intros Hp. unfold ExtractEnergyState. rewrite Ha, Hp.
  by rewrite decode_encode.
Qed.

(** With both forms present the hidden member is not stripped: the business code
    of a first step sees whatever [__energy_state] its caller passed. *)
Theorem anchor_leaves_hidden_member {S} params env (s : S) w :
  is_Some (params !! firstStepAnchorKey) →
  ∃ st cleaned w', ExtractEnergyState params env s w = Done (st, cleaned) s w' ∧
    cleaned !! energyStateKey = params !! energyStateKey.
Proof.
  intros Ha. destruct (extract_spec params env s w) as (st & cleaned & w' & Hr & -> & _).
  eexists _, _, _. split; [exact Hr|]. rewrite decide_True by done.
  rewrite move_params_cleaned. by rewrite decide_False by (apply (bool_decide_unpack _); by vm_compute).
Qed.

(** ** Types *)

(** What the declared types of an energy state promise: its numbers are finite and
    its integers fit in 64 bits. *)
Definition well_typed (s : EnergyState) : Prop :=
  f64_is_finite (ExecutionThresholdJ s) = true ∧ f64_is_finite (ConsumedBeforeJ s) = true ∧
  in_int64 (MaxPauseDurationMs s) ∧ in_int64 (MaxPauseCount s).

Lemma energy_fields_typed : Forall (types well_typed) energy_state_fields.
Proof.
  unfold energy_state_fields. repeat apply Forall_cons_2; [..|by apply Forall_nil_2];
    auto with fields; (apply f64_field_types || apply int64_field_types); unfold well_typed; naive_solver.
Qed.

Lemma decode_typed m s : parsed_map m → decodeEnergyStateMap m = Some s → well_typed s.
Proof.
  intros Hm. unfold decodeEnergyStateMap. case_match; [|done].
  apply decode_struct_types with (P := well_typed); [apply energy_fields_typed|by apply parsed_json_of_map|].
  apply (bool_decide_unpack _). vm_compute. reflexivity.
Qed.

Lemma move_params_parsed l bare cleaned :
  parsed_map bare → parsed_map cleaned →
  parsed_map (foldl move_param (bare, cleaned) l).1 ∧ parsed_map (foldl move_param (bare, cleaned) l).2.
Proof.
  revert bare cleaned. induction l as [|kb l IH]; intros bare cleaned Hb Hc; [done|]. simpl.
  apply IH; [|by apply map_Forall_delete]. destruct (cleaned !! kb.1) eqn:Hk; [|done].
  apply map_Forall_insert_2; [by apply (Hc kb.1)|done].
Qed.

Lemma encode_parsed s j : encode_state s = Some j → parsed j = true.
Proof.
  unfold encode_state. destruct (json_encodable (JObj (encode_members s))) eqn:He; [|done].
  intros [= <-]. cbn [json_encodable parsed encode_members forallb snd] in *.
  assert (Hm : parsed (json_of_strmap (InterruptionClass s)) = true).
  { destruct (InterruptionClass s) as [m|]; [|done]. apply parsed_json_of_map.
    intros k j. rewrite lookup_fmap_Some. by intros (v & <- & _). }
  rewrite Hm, strmap_encodable in *. done.
Qed.

(** C33: types are preserved along a sequence: from parameters that were parsed
    from JSON, the extracted state has finite energies and 64-bit counts, the
    business code's parameters are still values of JSON, and so is the answer with
    the updated state in it. *)
Theorem energy_state_is_typed {S} params env (s s' : S) w w' st cleaned :
  parsed_map params → ExtractEnergyState params env s w = Done (st, cleaned) s' w' →
  parsed_map cleaned ∧
  (∀ e, st = Some e → well_typed e) ∧
  ∀ result measuredJ out, parsed_map result → ReinjectEnergyState result st measuredJ = inl out → parsed_map out.
Proof.
  intros Hp Hr. assert (H : parsed_map cleaned ∧ (∀ e, st = Some e → well_typed e)).
  { assert (Hnone : ∀ c, parsed_map c → parsed_map c ∧ (∀ e, None = Some e → well_typed e))
      by (intros c Hc; split; [exact Hc|]; by intros e [=]).
    revert Hr. unfold ExtractEnergyState, logCorruptedEnergyState, safety.
    destruct (params !! firstStepAnchorKey).
    - destruct (foldl move_param (∅, params) energyParamKeys) as [bare c] eqn:Hf. intros [= <- <- <- <-].
      destruct (move_params_parsed energyParamKeys ∅ params) as [Hb Hc]; [apply map_Forall_empty|done|].
      rewrite Hf in Hb, Hc. split; [exact Hc|]. intros e He. exact (decode_typed bare e Hb He).
    - destruct (params !! energyStateKey) as [raw|] eqn:He; [|intros [= <- <- <- <-]; by apply Hnone].
      assert (Hc : parsed_map (delete energyStateKey params)) by by apply map_Forall_delete.
      destruct raw as [| | | | | |l]; try (intros [= <- <- <- <-]; by apply Hnone).
      destruct (decodeEnergyStateMap (members_map l)) as [e|] eqn:Hd; 
        [|intros [= <- <- <- <-]; by apply Hnone].
      intros [= <- <- <- <-]. split; [done|]. intros ? [= <-]. eapply decode_typed; [|done].
      apply parsed_members. by apply (Hp energyStateKey). }
  split; [apply H|]. split; [apply H|]. intros result measuredJ out Hres. unfold ReinjectEnergyState.
  destruct st as [previous|]; [|by intros [= <-]].
  destruct (encode_state _) as [raw|] eqn:He; [|done]. intros [= <-].
  apply map_Forall_insert_2; [by eapply encode_parsed|done].
Qed.

(** ** A sample state *)

Definition sample_state : EnergyState :=
  {| TraceID := "t1"; ReservationID := "r1"; ExecutionPhase := "forward";
     ExecutionThresholdJ := f64_of_decimal false 25 (-1); ConsumedBeforeJ := f64_of_Z 1;
     PauseEnabled := true; PauseMode := "auto"; MaxPauseDurationMs := 5000; MaxPauseCount := 2;
     InterruptionClass := Some {["pay" := "UNKILLABLE"]}; ResolvedActionName := "pay" |}.

Definition sample_params : gomap :=
  <["energy_trace_id" := JStr "t1"]> (<["energy_consumed_before_j" := JNum f64_zero]> {["x" := JBool true]}).

Definition sample_world : Env := sample_env [] [] (λ _, None) (λ _, HttpErr EDeadline) true None.

Lemma first_step_reads_parameters_witness :
  ∃ bare cleaned w', ExtractEnergyState sample_params sample_world () io_start =
      Done (decodeEnergyStateMap bare, cleaned) () w' ∧
    bare !! "consumed_before_j" = Some (JNum f64_zero).
Proof.
  apply (first_step_reads_parameters sample_params sample_world () io_start
    "energy_consumed_before_j" "consumed_before_j").
  - exists (JStr "t1"). vm_compute. reflexivity.
  - apply (bool_decide_unpack _). vm_compute. reflexivity.
Defined.

Lemma sidecar_roundtrip_witness :
  let updated := with_consumed (f64_add (f64_of_Z 1) (f64_of_Z 3)) sample_state in
  ∃ out, ReinjectEnergyState {["x" := JBool true]} (Some sample_state) (f64_of_Z 3) = inl out ∧
    out !! "x" = Some (JBool true) ∧
    (({["__energy_state" := JObj (encode_members updated)]} : gomap) !! energyStateKey = out !! energyStateKey →
     ExtractEnergyState {["__energy_state" := JObj (encode_members updated)]} sample_world () io_start =
     Done (Some (with_action_name "" updated),
           delete energyStateKey {["__energy_state" := JObj (encode_members updated)]}) () io_start).
Proof.
  intros updated.
  destruct (sidecar_roundtrip {["x" := JBool true]} sample_state (f64_of_Z 3)
    {["__energy_state" := JObj (encode_members updated)]} sample_world () io_start) as (out & Hr & Hk & He);
    [apply (bool_decide_unpack _); vm_compute; reflexivity|by apply lookup_singleton_ne|].
  exists out. split; [exact Hr|]. split; [|exact He]. rewrite Hk by done. apply lookup_singleton_eq.
Defined.

Lemma anchor_leaves_hidden_member_witness :
  ∃ st cleaned w', ExtractEnergyState (<[energyStateKey := JStr "stale"]> sample_params) sample_world () io_start =
      Done (st, cleaned) () w' ∧ cleaned !! energyStateKey = Some (JStr "stale").
Proof.
  destruct (anchor_leaves_hidden_member (<[energyStateKey := JStr "stale"]> sample_params) sample_world () io_start)
    as (st & cleaned & w' & Hr & Hc); [exists (JStr "t1"); vm_compute; reflexivity|].
  exists st, cleaned, w'. split; [exact Hr|]. rewrite Hc. apply lookup_insert_eq.
Defined.

Lemma energy_state_is_typed_witness :
  ∃ e out, ExtractEnergyState sample_params sample_world () io_start =
      Done (Some e, delete "energy_consumed_before_j" (delete "energy_trace_id" sample_params)) () io_start ∧
    well_typed e ∧ ReinjectEnergyState ∅ (Some e) (f64_of_Z 1) = inl out ∧ parsed_map out.
Proof.
  assert (Hr : ∃ e, ExtractEnergyState sample_params sample_world () io_start =
    Done (Some e, delete "energy_consumed_before_j" (delete "energy_trace_id" sample_params)) () io_start)
    by (eexists; vm_compute; reflexivity).
  destruct Hr as [e Hr].
  assert (Hp : parsed_map sample_params) by (apply map_Forall_to_list; vm_compute; repeat constructor).
  destruct (energy_state_is_typed sample_params sample_world () () io_start io_start (Some e) _ Hp Hr)
    as (_ & He & Hout).
  assert (Hj : ∃ out, ReinjectEnergyState ∅ (Some e) (f64_of_Z 1) = inl out)
    by (vm_compute in Hr; injection Hr as <-; eexists; vm_compute; reflexivity).
  destruct Hj as [out Hj]. exists e, out. split; [exact Hr|]. split; [exact (He e eq_refl)|]. split; [exact Hj|].
  apply (Hout ∅ (f64_of_Z 1) out); [apply map_Forall_empty|exact Hj].
Defined.
