(* ===== verification/Paths.v ===== *)
(** * Paths ([path/filepath] as the runtime uses it)

    A path is compared by its elements once cleaned.  Names that do not climb stay
    below the directory they are joined to; names proper ([good_name]) can be cut off
    again. *)

From S2P Require Import Prelude Float64 GoStrings.

(** [filepath.Dir] *)
Definition path_dir (p : string) : string := clean_path (str_take (Z.to_nat (last_index "/" p + 1)) p).

(** The elements a path is made of once cleaned. *)
Definition path_elems (p : string) : list string :=
  rev (foldl (clean_elem (has_prefix p "/")) [] (str_split "/" p)).

(** [p] is the directory [dir] or lies under it. *)
Definition under (dir p : string) : Prop := p = dir ∨ ∃ rest, p = dir +:+ "/" +:+ rest.

(** No element of the name climbs. *)
Definition climbs (name : string) : bool := existsb (λ e, (e =? "..")%string) (str_split "/" name).

Lemma str_split_app c p s : str_split c (p +:+ String c s) = str_split c p ++ str_split c s.
Proof.
  induction p as [|a p IH]; [by simpl; rewrite Ascii.eqb_refl|]. rewrite str_app_cons. cbn [str_split].
  rewrite IH. destruct (a =? c)%char; [done|].
  destruct (str_split c p) eqn:Hp; [by destruct (split_nonempty c p)|done].
Qed.

Lemma str_app_assoc (a b c : string) : a +:+ (b +:+ c) = (a +:+ b) +:+ c.
Proof. induction a as [|x a IH]; [done|]. rewrite !str_app_cons. by f_equal. Qed.

Lemma str_join_app c l1 l2 :
  l1 ≠ [] → l2 ≠ [] → str_join c (l1 ++ l2) = str_join c l1 +:+ String c (str_join c l2).
Proof.
  intros H1 H2. induction l1 as [|x l1 IH]; [done|]. destruct l1 as [|y l1].
  - simpl. by destruct l2.
  - change (str_join c ((x :: y :: l1) ++ l2)) with (x +:+ String c (str_join c ((y :: l1) ++ l2))).
    rewrite IH by done. change (str_join c (x :: y :: l1)) with (x +:+ String c (str_join c (y :: l1))).
    by rewrite <-str_app_assoc.
Qed.

(** Without climbing elements cleaning only adds. *)
Lemma clean_adds rooted l : ∀ kept,
  existsb (λ e, (e =? "..")%string) l = false →
  ∃ new, foldl (clean_elem rooted) kept l = new ++ kept.
Proof.
  induction l as [|e l IH]; intros kept Hl; simpl in *; [by exists []|].
  apply orb_false_iff in Hl as [He Hl]. unfold clean_elem at 2. rewrite He.
  case_match; [by apply IH|]. destruct (IH (e :: kept) Hl) as (new & ->). exists (new ++ [e]).
  by rewrite <-app_assoc.
Qed.

Lemma clean_nonempty rooted l : ∀ kept,
  Forall (λ e, e ≠ ""%string) kept → Forall (λ e, e ≠ ""%string) (foldl (clean_elem rooted) kept l).
Proof.
  induction l as [|e l IH]; intros kept Hk; simpl; [done|]. apply IH. unfold clean_elem.
  destruct (e =? "")%string eqn:He; [done|]. destruct (e =? ".")%string; [done|]. simpl.
  destruct (e =? "..")%string.
  - destruct kept as [|top rest]; [destruct rooted; [constructor|by apply Forall_singleton]|].
    inversion Hk; subst. case_match; [by constructor|done].
  - constructor; [|done]. by apply String.eqb_neq.
Qed.

Lemma join_empty c l : Forall (λ e, e ≠ ""%string) l → l ≠ [] → str_join c l ≠ ""%string.
Proof. destruct l as [|[|a x] [|y l]]; [done|by inversion 1..|done|done]. Qed.

Lemma clean_path_elems p :
  path_elems p ≠ [] →
  clean_path p = (if has_prefix p "/" then "/" else "") +:+ str_join "/" (path_elems p).
Proof.
  intros Hne. unfold clean_path. fold (path_elems p). destruct (has_prefix p "/"); [done|].
  destruct (str_join "/" (path_elems p) =? "")%string eqn:He; [|done].
  apply String.eqb_eq in He. exfalso. revert He. apply join_empty; [|done].
  unfold path_elems. apply Forall_rev. by apply clean_nonempty.
Qed.

(** Joining a name that does not climb stays under the directory. *)
Lemma join_under dest name :
  path_elems dest ≠ [] → climbs name = false → under (clean_path dest) (path_join [dest; name]).
Proof.
  intros Hd Hc. assert (Hne : dest ≠ ""%string) by (intros ->; by apply Hd).
  unfold path_join. simpl. rewrite (proj2 (String.eqb_neq dest "")) by done. cbn [negb].
  destruct (name =? "")%string; cbn [negb]; [by left|].
  change (clean_path (dest +:+ String "/" (str_join "/" [name]))) with (clean_path (dest +:+ String "/" name)).
  assert (Hp : has_prefix (dest +:+ String "/" name) "/" = has_prefix dest "/")
    by (unfold has_prefix; destruct dest as [|a [|b d]]; [done|simpl; by case_match..]).
  destruct (clean_adds (has_prefix dest "/") (str_split "/" name)
    (foldl (clean_elem (has_prefix dest "/")) [] (str_split "/" dest)) Hc) as (new & Hnew).
  assert (He : path_elems (dest +:+ String "/" name) = path_elems dest ++ rev new).
  { unfold path_elems. rewrite Hp, str_split_app, foldl_app, Hnew, rev_app_distr. done. }
  rewrite (clean_path_elems (dest +:+ String "/" name)) by (rewrite He; by destruct (path_elems dest)).
  rewrite (clean_path_elems dest), He, Hp by done.
  destruct (rev new) as [|x l] eqn:Hn; [left; by rewrite app_nil_r|]. right.
  rewrite str_join_app by done. exists (str_join "/" (x :: l)). by rewrite <-!str_app_assoc.
Qed.

(** ** Below a directory *)

Definition good_name (n : string) : bool :=
  negb (n =? "")%string && negb (n =? ".")%string && negb (n =? "..")%string &&
  str_all (λ a, negb (a =? "/")%char) n.

Definition tidy (d : string) : Prop := clean_path d = d ∧ path_elems d ≠ [].

(** The path of [rel] below [d]. *)
Definition below (d : string) (rel : list string) : string :=
  match rel with [] => d | _ => d +:+ String "/" (str_join "/" rel) end.

Lemma str_app_nil_r (s : string) : s +:+ "" = s.
Proof. induction s as [|a s IH]; [done|]. rewrite str_app_cons. by f_equal. Qed.

Lemma split_single c x : str_all (λ a, negb (a =? c)%char) x = true → str_split c x = [x].
Proof.
  induction x as [|a x IH]; [done|]. simpl. intros [Ha Hx]%andb_true_iff. rewrite (IH Hx).
  by destruct (a =? c)%char.
Qed.

Lemma split_join l :
  l ≠ [] → Forall (λ n, str_all (λ a, negb (a =? "/")%char) n = true) l → str_split "/" (str_join "/" l) = l.
Proof.
  intros Hne Hl. induction Hl as [|x l Hx Hl IH]; [done|]. pose proof (split_single _ _ Hx) as Hs.
  destruct l as [|y l]; [exact Hs|].
  change (str_join "/" (x :: y :: l)) with (x +:+ String "/" (str_join "/" (y :: l))).
  by rewrite str_split_app, Hs, IH.
Qed.

Lemma good_names_plain l :
  Forall (λ n, good_name n = true) l → Forall (λ n, str_all (λ a, negb (a =? "/")%char) n = true) l.
Proof. intros Hl. eapply Forall_impl; [exact Hl|]. by intros n [_ ?]%andb_true_iff. Qed.

Lemma clean_good rooted kept l :
  Forall (λ n, good_name n = true) l → foldl (clean_elem rooted) kept l = rev l ++ kept.
Proof.
  intros Hl. revert kept. induction Hl as [|x l Hx _ IH]; intros kept; [done|]. simpl.
  assert (Hc : clean_elem rooted kept x = x :: kept).
  { unfold good_name in Hx. unfold clean_elem. destruct (x =? "")%string, (x =? ".")%string, (x =? "..")%string; done. }
  by rewrite Hc, IH, <-app_assoc.
Qed.

Lemma prefix_slash d s : d ≠ ""%string → has_prefix (d +:+ String "/" s) "/" = has_prefix d "/".
Proof. unfold has_prefix. destruct d as [|a [|b d]]; [done|simpl; by case_match..]. Qed.

(** The elements below a directory, with or without a trailing slash. *)
Lemma elems_below d l tail :
  d ≠ ""%string → l ≠ [] → Forall (λ n, good_name n = true) l → tail ∈ [""; "/"]%string →
  path_elems (d +:+ String "/" (str_join "/" l +:+ tail)) = path_elems d ++ l.
Proof.
  intros Hd Hne Hl Ht. unfold path_elems. rewrite prefix_slash, str_split_app, foldl_app by done.
  assert (Hs : ∃ e, str_split "/" (str_join "/" l +:+ tail) = l ++ e ∧ e ∈ [[]; [""%string]]).
  { apply elem_of_cons in Ht as [->|Ht%list_elem_of_singleton].
    - exists []. rewrite str_app_nil_r, app_nil_r, split_join by (done || by apply good_names_plain). split; [done|set_solver].
    - subst tail. exists [""%string]. rewrite str_split_app, split_join by (done || by apply good_names_plain). split; [done|set_solver]. }
  destruct Hs as (e & -> & He). rewrite foldl_app, (clean_good _ _ l) by done.
  assert (Hf : ∀ rooted kept, foldl (clean_elem rooted) kept e = kept)
    by (intros; apply elem_of_cons in He as [->|He%list_elem_of_singleton]; [done|by subst e]).
  by rewrite Hf, rev_app_distr, rev_involutive.
Qed.

(** *** Cleaning twice *)

Lemma clean_elem_cases rooted kept e :
  clean_elem rooted kept e = kept ∨ clean_elem rooted kept e = e :: kept ∨
  ∃ top, kept = top :: clean_elem rooted kept e.
Proof.
  unfold clean_elem. case_match; [by left|]. destruct (e =? "..")%string eqn:He; [|by right; left].
  apply String.eqb_eq in He as ->. destruct kept as [|top rest]; [destruct rooted; [by left|by right; left]|].
  case_match; [by right; left|]. right; right. by exists top.
Qed.

Lemma clean_shrinks rooted l : ∀ kept, (length (foldl (clean_elem rooted) kept l) ≤ length kept + length l)%nat.
Proof.
  induction l as [|e l IH]; intros kept; simpl; [lia|]. etrans; [apply IH|].
  destruct (clean_elem_cases rooted kept e) as [Hk|[Hk|[top Hk]]]; [| |apply (f_equal length) in Hk];
    rewrite ?Hk in *; simpl in *; lia.
Qed.

(** Cleaned elements are what they clean to. *)
Lemma clean_stable rooted l : ∀ kept,
  foldl (clean_elem rooted) [] (rev kept) = kept →
  let out := foldl (clean_elem rooted) kept l in foldl (clean_elem rooted) [] (rev out) = out.
Proof.
  induction l as [|e l IH]; intros kept Hk; simpl in *; [done|]. apply IH.
  destruct (clean_elem_cases rooted kept e) as [He|[He|[top He]]].
  - by rewrite He.
  - rewrite He. simpl. by rewrite foldl_app, Hk.
  - set (rest := clean_elem rooted kept e) in *. rewrite He in Hk. simpl in Hk. rewrite foldl_app in Hk. simpl in Hk.
    pose proof (clean_shrinks rooted (rev rest) []) as Hlen. rewrite length_rev in Hlen. simpl in Hlen.
    set (K := foldl (clean_elem rooted) [] (rev rest)) in *.
    destruct (clean_elem_cases rooted K top) as [Hc|[Hc|[t Hc]]]; [| |rewrite Hk in Hc];
      apply (f_equal length) in Hk as Hl; rewrite ?Hc in Hl; simpl in Hl; [lia|congruence|].
    apply (f_equal length) in Hc. simpl in Hc. lia.
Qed.

Lemma clean_plain rooted l : ∀ kept,
  Forall (λ n, str_all (λ a, negb (a =? "/")%char) n = true) (l ++ kept) →
  Forall (λ n, str_all (λ a, negb (a =? "/")%char) n = true) (foldl (clean_elem rooted) kept l).
Proof.
  induction l as [|e l IH]; intros kept Hl; simpl in *; [done|]. apply Forall_cons in Hl as [He Hl].
  apply IH. apply Forall_app in Hl as [Hl Hk]. apply Forall_app. split; [done|].
  destruct (clean_elem_cases rooted kept e) as [->|[->|[top Ht]]]; [done|by constructor|].
  rewrite Ht in Hk. by apply Forall_cons in Hk as [_ Hk].
Qed.

Lemma path_elems_plain d : Forall (λ n, str_all (λ a, negb (a =? "/")%char) n = true) (path_elems d).
Proof.
  apply Forall_rev, clean_plain. rewrite app_nil_r. apply split_no_sep.
Qed.

Lemma path_elems_nonempty d : Forall (λ e, e ≠ ""%string) (path_elems d).
Proof. by apply Forall_rev, clean_nonempty. Qed.

Lemma prefix_clean d : path_elems d ≠ [] → has_prefix (clean_path d) "/" = has_prefix d "/".
Proof.
  intros Hne. rewrite clean_path_elems by done. pose proof (path_elems_plain d) as Hp.
  pose proof (path_elems_nonempty d) as Hn. destruct (has_prefix d "/"); [unfold has_prefix; by destruct (str_join _ _)|].
  rewrite str_app_nil. destruct (path_elems d) as [|x l]; [done|]. apply Forall_cons in Hn as [Hx _], Hp as [Hp _].
  destruct x as [|a x]; [done|]. apply andb_true_iff in Hp as [Ha _]. apply negb_true_iff, Ascii.eqb_neq in Ha.
  unfold has_prefix. destruct l; simpl; case_match; congruence.
Qed.

Lemma elems_clean d : path_elems d ≠ [] → path_elems (clean_path d) = path_elems d.
Proof.
  intros Hne. unfold path_elems at 1. rewrite prefix_clean by done.
  assert (Hs : foldl (clean_elem (has_prefix d "/")) [] (path_elems d) = rev (path_elems d)).
  { unfold path_elems at 2. rewrite rev_involutive. by apply clean_stable. }
  assert (Hf : foldl (clean_elem (has_prefix d "/")) [] (str_split "/" (clean_path d)) = rev (path_elems d));
    [|by rewrite Hf, rev_involutive].
  pose proof (split_join _ Hne (path_elems_plain d)) as Hj. rewrite clean_path_elems, <-Hs by done.
  destruct (has_prefix d "/"); [|by rewrite str_app_nil, Hj].
  change ("/" +:+ str_join "/" (path_elems d))%string with (String "/" (str_join "/" (path_elems d))).
  cbn [str_split]. by rewrite Hj.
Qed.

Lemma tidy_clean d : path_elems d ≠ [] → tidy (clean_path d).
Proof.
  intros Hne. pose proof (elems_clean d Hne) as He. split; [|by rewrite He].
  rewrite (clean_path_elems (clean_path d)) by by rewrite He.
  by rewrite He, prefix_clean, <-clean_path_elems.
Qed.

Lemma tidy_nonempty d : tidy d → d ≠ ""%string.
Proof. intros [_ Hd] ->. by apply Hd. Qed.

(** Joining good names to a tidy directory, and cutting one off again. *)
Lemma below_elems d rel :
  tidy d → Forall (λ n, good_name n = true) rel → path_elems (below d rel) = path_elems d ++ rel.
Proof.
  intros Hd Hrel. destruct rel as [|x rel]; [by rewrite app_nil_r|]. unfold below.
  rewrite <-(elems_below d (x :: rel) ""); [|by apply tidy_nonempty|done|done|by left].
  by rewrite str_app_nil_r.
Qed.

Lemma clean_below d rel tail :
  path_elems d ≠ [] → rel ≠ [] → Forall (λ n, good_name n = true) rel → tail ∈ [""; "/"]%string →
  clean_path (d +:+ String "/" (str_join "/" rel +:+ tail)) = below (clean_path d) rel.
Proof.
  intros Hd Hne Hrel Ht. assert (Hn : d ≠ ""%string) by (by intros ->).
  rewrite clean_path_elems by (rewrite elems_below by done; by destruct (path_elems d)).
  rewrite elems_below, prefix_slash by done. rewrite str_join_app, str_app_assoc by done.
  rewrite <-clean_path_elems by done. by destruct rel.
Qed.

Lemma join_below d rel tail :
  path_elems d ≠ [] → rel ≠ [] → Forall (λ n, good_name n = true) rel → tail ∈ [""; "/"]%string →
  path_join [d; str_join "/" rel +:+ tail] = below (clean_path d) rel.
Proof.
  intros Hd Hne Hrel Ht. rewrite <-(clean_below d rel tail) by done. unfold path_join. simpl.
  rewrite (proj2 (String.eqb_neq d "")) by by intros ->. cbn [negb].
  assert (Hj : (str_join "/" rel +:+ tail =? "")%string = false).
  { apply String.eqb_neq. destruct rel as [|x rel]; [done|]. apply Forall_cons in Hrel as [Hx _].
    destruct x as [|a x]; [done|]. by destruct rel. }
  by rewrite Hj.
Qed.

Lemma below_snoc d rel n : below d (rel ++ [n]) = below d rel +:+ String "/" n.
Proof.
  destruct rel as [|x rel]; [done|]. unfold below. cbn [app].
  change (x :: rel ++ [n]) with ((x :: rel) ++ [n]). rewrite str_join_app by done.
  by rewrite <-str_app_assoc, str_app_cons.
Qed.

Lemma tidy_below d rel : tidy d → Forall (λ n, good_name n = true) rel → tidy (below d rel).
Proof.
  intros Hd Hrel. split.
  - destruct Hd as [Hc He]. destruct rel as [|x rel]; [done|]. rewrite <-Hc at 2.
    rewrite <-(clean_below d (x :: rel) "") by (done || by left). unfold below. by rewrite str_app_nil_r.
  - rewrite below_elems by done. destruct Hd as [_ Hd]. by destruct (path_elems d).
Qed.

Lemma join_child d rel n :
  tidy d → Forall (λ n, good_name n = true) (rel ++ [n]) → path_join [below d rel; n] = below d (rel ++ [n]).
Proof.
  intros Hd [Hrel Hn]%Forall_app. rewrite below_snoc, <-(str_app_nil_r n) at 1.
  change (n +:+ "")%string with (str_join "/" [n] +:+ "")%string.
  destruct (tidy_below d rel Hd Hrel) as [Hc He].
  rewrite join_below; [by rewrite Hc|done|done|done|by left].
Qed.

(** The parent of a path. *)
Lemma dir_below d rel n :
  tidy d → Forall (λ n, good_name n = true) (rel ++ [n]) → path_dir (below d (rel ++ [n])) = below d rel.
Proof.
  intros Hd Hrel. apply Forall_app in Hrel as [Hrel [Hn _]%Forall_cons].
  pose proof (tidy_below d rel Hd Hrel) as [Hc He]. unfold path_dir. rewrite below_snoc, last_index_app
    by (by apply andb_true_iff in Hn as [_ ?]).
  set (p := below d rel) in *. replace (Z.to_nat (Z.of_nat (String.length p) + 1)) with (S (String.length p)) by lia.
  assert (Ht : ∀ p s, str_take (S (String.length p)) (p +:+ String "/" s) = p +:+ String "/" "").
  { intros q s. induction q as [|a q IH]; [by destruct s|]. rewrite !str_app_cons. simpl in *. by f_equal. }
  rewrite Ht. assert (Hp : p ≠ ""%string) by (by intros ->).
  assert (Heq : path_elems (p +:+ String "/" "") = path_elems p).
  { unfold path_elems. by rewrite prefix_slash, str_split_app, foldl_app by done. }
  rewrite <-Hc at 2. rewrite !clean_path_elems, Heq, prefix_slash by (done || by rewrite Heq). done.
Qed.

Lemma trim_app d s : trim_prefix (d +:+ s) d = s.
Proof.
  assert (Hp : has_prefix (d +:+ s) d = true ∧ str_drop (String.length d) (d +:+ s) = s).
  { unfold has_prefix. induction d as [|a d [IH1 IH2]]; [by destruct s|]. rewrite str_app_cons. simpl.
    destruct (ascii_dec a a); [|done]. by split. }
  unfold trim_prefix. by destruct Hp as [-> ->].
Qed.

Lemma trim_below d rel : rel ≠ [] → trim_prefix (below d rel) d = String "/" (str_join "/" rel).
Proof. intros Hne. rewrite <-(trim_app d (String "/" _)). by destruct rel. Qed.

