(* ===== verification/Archives.v ===== *)
(** * Action files ([openwhisk/filetype.go], [openwhisk/zip.go],
    [openwhisk/tar.go])

    What kind of file an action is, and how an archive is laid out on disk.
    The decoders of the archive formats are the standard library's; what this
    file models is what the runtime does with the entries they present. *)

From S2P Require Import Prelude Float64 GoStrings Json Effects Paths.

Local Open Scope Z_scope.

(** ** Magic numbers *)

Definition byte_is (buf : string) (i : nat) (vs : list Z) : bool :=
  match String.get i buf with
  | Some a => existsb (Z.eqb (Z.of_nat (nat_of_ascii a))) vs
  | None => false
  end.

Definition longer (buf : string) (n : nat) : bool := (n <? String.length buf)%nat.

Definition IsElf (buf : string) : bool :=
  longer buf 52 && byte_is buf 0 [0x7F] && byte_is buf 1 [0x45] && byte_is buf 2 [0x4C] && byte_is buf 3 [0x46].

Definition IsExe (buf : string) : bool :=
  longer buf 1 && byte_is buf 0 [0x4D] && byte_is buf 1 [0x5A].

Definition IsMach64 (buf : string) : bool :=
  longer buf 4 && byte_is buf 0 [0xcf] && byte_is buf 1 [0xfa] && byte_is buf 2 [0xed] && byte_is buf 3 [0xfe].

Definition IsBangPath (buf : string) : bool :=
  longer buf 2 && byte_is buf 0 [35] && byte_is buf 1 [33].

Definition IsExecutable (buf runtime : string) : bool :=
  (if runtime =? "darwin" then IsMach64 buf || IsBangPath buf
   else if runtime =? "linux" then IsElf buf || IsBangPath buf
   else if runtime =? "windows" then IsExe buf
   else false)%string.

Definition IsZip (buf : string) : bool :=
  longer buf 3 && byte_is buf 0 [0x50] && byte_is buf 1 [0x4B] && byte_is buf 2 [0x3; 0x5; 0x7] &&
  byte_is buf 3 [0x4; 0x6; 0x8].

Definition IsGz (buf : string) : bool :=
  longer buf 3 && byte_is buf 0 [0x1f] && byte_is buf 1 [0x8b] && byte_is buf 2 [0x08].

(** ** Zip *)

Section archives.
Context {S : Type}.

Definition mkdir_all (path : string) : M S (option goerr) := syscall "mkdirall" path.

(** [extractAndWriteFile] *)
Definition extract_zip_entry (dest : string) (f : zip_entry) : M S (option goerr) :=
  let path := path_join [dest; ze_name f] in
  if ze_dir f && negb (ze_link f) then mkdir_all path
  else
    match ze_open f with
    | Some err => mret (Some err)
    | None =>
        if ze_link f then
          match ze_data f with
          | inr err => mret (Some err)
          | inl target => syscall ("symlink " +:+ target) path
          end
        else
          err ← mkdir_all (path_dir path);
          match err with
          | Some err => mret (Some err)
          | None =>
              err ← syscall "create" path;
              match err with
              | Some err => mret (Some err)
              | None =>
                  match ze_data f with
                  | inr err => mret (Some err)
                  | inl data => write_file path data
                  end
              end
          end
    end.

(** Errors of entries are logged and do not stop the extraction. *)
Fixpoint extract_all (dest : string) (l : list zip_entry) : M S () :=
  match l with
  | [] => mret ()
  | f :: l => extract_zip_entry dest f;; extract_all dest l
  end.

(** A buffer [zip.NewReader] refuses makes the reader [nil], and the range over its
    files a dereference of [nil]. *)
Definition Unzip (src dest : string) : M S (option goerr) :=
  r ← asks (λ env, env_zip env src);
  mkdir_all dest;;
  match r with
  | None => panic "nil pointer dereference"
  | Some files => extract_all dest files;; mret None
  end.

Definition UnzipOrSaveJar (src dest jarFile : string) : M S (option goerr) :=
  r ← asks (λ env, env_zip env src);
  match r with
  | None => mret (Some (EMsg "not a zip file"))
  | Some files =>
      if existsb (λ f, (ze_name f =? "META-INF/MANIFEST.MF")%string) files
      then write_file jarFile src;; mret None
      else Unzip src dest
  end.

(** ** Tar *)

Definition extract_tar_entry (dest : string) (h : tar_entry) : M S (option goerr) :=
  let target := path_join [dest; te_name h] in
  match te_type h with
  | TypeDir =>
      missing ← syscall "stat" target;
      match missing with
      | Some _ => syscall "mkdirall" target
      | None => mret None
      end
  | TypeReg =>
      err ← syscall "open" target;
      match err with
      | Some err => mret (Some err)
      | None =>
          match te_data h with
          | inr err => mret (Some err)
          | inl data => write_file target data
          end
      end
  | TypeOther => mret None
  end.

(** The first error stops the extraction. *)
Fixpoint untar_all (dest : string) (l : list tar_entry) (last : option goerr) : M S (option goerr) :=
  match l with
  | [] => mret last
  | h :: l =>
      err ← extract_tar_entry dest h;
      match err with
      | Some err => mret (Some err)
      | None => untar_all dest l last
      end
  end.

Definition UnTar (src dest : string) : M S (option goerr) :=
  r ← asks (λ env, env_targz env src);
  match r with
  | inr err => mret (Some err)
  | inl (headers, last) => mkdir_all dest;; untar_all dest headers last
  end.
End archives.

(** ** Where an archive may write *)

(** What an extraction creates. *)
Definition creates_under (dir : string) (e : event) : Prop :=
  match e with
  | EvWrite p _ => under dir p
  | EvSyscall op p => (op =? "mkdirall")%string = true ∨ under dir p
  | _ => False
  end.

(** An archive whose names do not climb is laid out inside its directory: every
    file and every link a zip or a tar creates lies under the destination (its
    name, links not followed). *)
Theorem archive_stays_inside {S} src dest :
  path_elems dest ≠ [] →
  ∀ env (s : S) w,
    (∀ l, env_zip env src = Some l → Forall (λ f, climbs (ze_name f) = false) l) →
    (∀ l last, env_targz env src = inl (l, last) → Forall (λ h, climbs (te_name h) = false) l) →
    (∃ new, io_trace (out_io (Unzip src dest env s w)) = new ++ io_trace w ∧
       Forall (creates_under (clean_path dest)) new) ∧
    (∃ new, io_trace (out_io (UnTar src dest env s w)) = new ++ io_trace w ∧
       Forall (creates_under (clean_path dest)) new).
Proof.
  intros Hd env s w Hzip Htar.
  assert (Hmk : ∀ p, creates_under (clean_path dest) (EvSyscall "mkdirall" p)) by (intros; by left).
  assert (Hz : ∀ l, Forall (λ f, climbs (ze_name f) = false) l →
    emits (S:=S) (creates_under (clean_path dest)) (extract_all dest l)).
  { induction 1 as [|f l Hf _ IH]; cbn [extract_all]; [auto with emits|]. pose proof (join_under dest _ Hd Hf).
    unfold extract_zip_entry, mkdir_all, syscall, write_file. solve_emits ltac:(simpl; auto). }
  assert (Ht : ∀ l last, Forall (λ h, climbs (te_name h) = false) l →
    emits (S:=S) (creates_under (clean_path dest)) (untar_all dest l last)).
  { intros l last. induction 1 as [|h l Hh _ IH]; cbn [untar_all]; [auto with emits|].
    pose proof (join_under dest _ Hd Hh).
    unfold extract_tar_entry, mkdir_all, syscall, write_file. solve_emits ltac:(simpl; auto). }
  split.
  - unfold Unzip, mkdir_all, syscall. run. destruct (env_zip env src) as [l|] eqn:He; [|exists [EvSyscall "mkdirall" dest]; split; [done|by repeat constructor]].
    destruct (Hz l (Hzip l eq_refl) env s (advance env 0 [EvSyscall "mkdirall" dest] w) I)
      as [(new & Hn & Hf) _].
    exists (new ++ [EvSyscall "mkdirall" dest]). unfold mbind, M_bind.
    destruct (extract_all dest l env s _); simpl in *; rewrite Hn, <-app_assoc;
      (split; [done|]; apply Forall_app; split; [done|]; by repeat constructor).
  - unfold UnTar, mkdir_all, syscall. run.
    destruct (env_targz env src) as [[l last]|e] eqn:He; [|by exists []]. run.
    destruct (Ht l last (Htar l last eq_refl) env s (advance env 0 [EvSyscall "mkdirall" dest] w) I)
      as [(new & Hn & Hf) _].
    exists (new ++ [EvSyscall "mkdirall" dest]). rewrite Hn, <-app_assoc. split; [done|].
    apply Forall_app. split; [done|]. by repeat constructor.
Qed.

(** A name that climbs leaves the directory: nothing in the runtime refuses it. *)
Example climbing_name_escapes :
  path_join ["./action/1/src"; "../../../../etc/cron.d/x"]%string = "../etc/cron.d/x"%string.
Proof. reflexivity. Qed.

Lemma archive_stays_inside_witness :
  (∃ new, io_trace (out_io (Unzip "PK" "/action/1/src"
             (sample_env [] [] (λ _, None) (λ _, HttpErr EDeadline) true None) () io_start)) = new ++ [] ∧
     Forall (creates_under "/action/1/src") new) ∧
  sample_zip ≠ [].
Proof.
  split; [|discriminate].
  destruct (archive_stays_inside "PK" "/action/1/src" ltac:(discriminate)
    (sample_env [] [] (λ _, None) (λ _, HttpErr EDeadline) true None) () io_start) as [H _];
    [|intros l last [=]|exact H].
  intros l [= <-]. by repeat constructor.
Defined.
