(* ===== verification/Packing.v ===== *)
(** * Packing a directory ([Zip] of [openwhisk/zip.go]) and unpacking it

    [Zip] walks a directory and writes one entry per name; [Unzip] ([Archives]) lays
    the entries out again.  The disk an extraction leaves is read off its trace
    ([replay]); paths are compared by their elements, as the kernel does.  The bytes
    of the archive are [archive/zip]'s: that its reader gives back what its writer
    was given is a hypothesis. *)

From S2P Require Import Prelude Float64 GoStrings Json Effects Paths Archives.

Local Open Scope Z_scope.

(** ** The walk *)

Definition dir_entry (rel : string) : zip_entry :=
  {| ze_name := rel +:+ "/"; ze_dir := true; ze_link := false; ze_open := None; ze_data := inl ""%string |}.
Definition link_entry (rel target : string) : zip_entry :=
  {| ze_name := rel; ze_dir := false; ze_link := true; ze_open := None; ze_data := inl target |}.
Definition file_entry (rel data : string) : zip_entry :=
  {| ze_name := rel; ze_dir := false; ze_link := false; ze_open := None; ze_data := inl data |}.

(** The function [Zip] gives to [filepath.Walk]: the entry written for one name. *)
Definition visit (dir filePath : string) (n : node) : list zip_entry + goerr :=
  let relPath := trim_prefix filePath dir in
  if (relPath =? "")%string then inl []
  else
    let relPath := str_drop 1 relPath in
    match n with
    | NGone err | NUnlisted err => inr err
    | NLink (inr err) | NFile (inr err) => inr err
    | NLink (inl target) => inl [link_entry relPath target]
    | NDir _ => inl [dir_entry relPath]
    | NFile (inl data) => inl [file_entry relPath data]
    | NOther => inl []
    end.

(** Two walks one after the other; the first error ends them. *)
Definition and_then (r1 r2 : list zip_entry + goerr) : list zip_entry + goerr :=
  match r1, r2 with
  | inl l1, inl l2 => inl (l1 ++ l2)
  | inl _, inr err => inr err
  | inr err, _ => inr err
  end.

(** [filepath.Walk] *)
Fixpoint walk (dir filePath : string) (n : node) : list zip_entry + goerr :=
  match n with
  | NDir entries =>
      and_then (visit dir filePath n)
        (foldr (λ kv r, and_then (walk dir (path_join [filePath; kv.1]) kv.2) r) (inl []) entries)
  | _ => visit dir filePath n
  end.

Definition Zip {S} (dir : string) : M S (string + goerr) :=
  let dir := clean_path dir in
  tree ← effect (λ env i, env_tree env i dir) [EvRead dir];
  asks (λ env, match walk dir dir tree with
               | inl entries => inl (env_zip_bytes env entries)
               | inr err => inr err
               end).

(** Whatever is wrong with the directory itself is not an error: the archive is
    empty. *)
Example gone_directory_packs : walk "/a" "/a" (NGone (EMsg "ENOENT")) = inl [].
Proof. reflexivity. Qed.

(** Packing the working directory cuts the first byte of every name. *)
Example dot_cuts_names :
  walk "." "." (NDir [("exec", NFile (inl "x"))])%string = inl [file_entry "xec" "x"].
Proof. reflexivity. Qed.

(** ** What is on the disk *)

Inductive obj := ODir | OFile (data : string) | OLink (target : string).

#[global] Instance obj_dec : EqDecision obj.
Proof. solve_decision. Defined.

(** A directory that can be packed: everything in it can be read, and its names are
    names. *)
Fixpoint packable (n : node) : bool :=
  match n with
  | NFile (inl _) | NLink (inl _) => true
  | NDir entries =>
      forallb (λ kv, good_name kv.1 && packable kv.2) entries && bool_decide (NoDup entries.*1)
  | _ => false
  end.

(** What is found under [rel], directories first. *)
Fixpoint items (rel : list string) (n : node) : list (list string * obj) :=
  match n with
  | NFile (inl data) => [(rel, OFile data)]
  | NLink (inl target) => [(rel, OLink target)]
  | NDir entries => (rel, ODir) :: flat_map (λ kv, items (rel ++ [kv.1]) kv.2) entries
  | _ => []
  end.

(** What is found in a directory. *)
Definition tops (l : list (string * node)) : list (list string * obj) := flat_map (λ kv, items [kv.1] kv.2) l.

Definition entry_of (it : list string * obj) : zip_entry :=
  let rel := str_join "/" it.1 in
  match it.2 with
  | ODir => dir_entry rel
  | OFile data => file_entry rel data
  | OLink target => link_entry rel target
  end.

(** Induction on a tree. *)
Lemma node_tree_ind (P : node → Prop) :
  (∀ r, P (NFile r)) → (∀ r, P (NLink r)) → (∀ l, Forall (λ kv, P kv.2) l → P (NDir l)) →
  (∀ e, P (NUnlisted e)) → (∀ e, P (NGone e)) → P NOther → ∀ n, P n.
Proof.
  intros HF HL HD HU HG HO. fix IH 1. intros [r|r|l|e|e|];
    [apply HF|apply HL| |apply HU|apply HG|exact HO]. apply HD.
  induction l as [|[k n] l IHl]; constructor; [apply IH|exact IHl].
Qed.

Lemma packable_dir l :
  packable (NDir l) = true → NoDup l.*1 ∧ Forall (λ kv, good_name kv.1 = true ∧ packable kv.2 = true) l.
Proof.
  simpl. intros [Hl Hn]%andb_true_iff. split; [by apply bool_decide_eq_true in Hn|].
  rewrite forallb_forall in Hl. apply Forall_forall. intros kv Hin. by apply andb_true_iff, Hl, list_elem_of_In.
Qed.

(** ** The archive holds the tree *)

Lemma walk_children {A} (f : string * A → list zip_entry + goerr) g l :
  (∀ kv, kv ∈ l → f kv = inl (g kv)) →
  foldr (λ kv r, and_then (f kv) r) (inl []) l = inl (flat_map g l).
Proof.
  induction l as [|kv l IH]; intros Hf; [done|]. simpl. rewrite IH by set_solver. by rewrite Hf by set_solver.
Qed.

Lemma fmap_flat_map {A B C} (f : B → C) (g : A → list B) l : f <$> flat_map g l = flat_map (λ x, f <$> g x) l.
Proof. induction l as [|x l IH]; [done|]. simpl. by rewrite fmap_app, IH. Qed.

Lemma good_child rel l kv :
  Forall (λ n, good_name n = true) rel → packable (NDir l) = true → kv ∈ l →
  Forall (λ n, good_name n = true) (rel ++ [kv.1]) ∧ packable kv.2 = true.
Proof.
  intros Hrel [_ Hl]%packable_dir Hin. rewrite Forall_forall in Hl. destruct (Hl kv Hin) as [Hg Hp].
  split; [|done]. apply Forall_app. split; [done|]. by constructor.
Qed.

Lemma walk_items dir n : tidy dir → ∀ rel,
  rel ≠ [] → Forall (λ n, good_name n = true) rel → packable n = true →
  walk dir (below dir rel) n = inl (entry_of <$> items rel n).
Proof.
  intros Hd. induction n as [[d|]|[t|]|l IH|e|e|] using node_tree_ind; intros rel Hne Hrel Hp; try done.
  - simpl. unfold visit. by rewrite trim_below.
  - simpl. unfold visit. by rewrite trim_below.
  - cbn [walk items]. rewrite (walk_children _ (λ kv, entry_of <$> items (rel ++ [kv.1]) kv.2)).
    + unfold visit. rewrite trim_below by done. cbn. by rewrite fmap_flat_map.
    + intros kv Hin. destruct (good_child rel l kv Hrel Hp Hin) as [Hg Hk].
      rewrite join_child by done. rewrite Forall_forall in IH. apply IH; [done|by destruct rel|done|done].
Qed.

Lemma walk_root dir l :
  tidy dir → packable (NDir l) = true →
  walk dir dir (NDir l) = inl (entry_of <$> tops l).
Proof.
  intros Hd Hp. cbn [walk]. rewrite (walk_children _ (λ kv, entry_of <$> items [kv.1] kv.2)).
  - unfold tops. rewrite fmap_flat_map. unfold visit.
    pose proof (trim_app dir "") as Ht. rewrite str_app_nil_r in Ht.
    by rewrite Ht.
  - intros kv Hin. destruct (good_child [] l kv (Forall_nil_2 _) Hp Hin) as [Hg Hk].
    change dir with (below dir []) at 2. rewrite join_child by done. by apply walk_items.
Qed.

(** ** The disk an extraction leaves *)

Abbreviation disk := (gmap (list string) obj).

Definition make_dir (fs : disk) (p : list string) : disk :=
  match fs !! p with Some _ => fs | None => <[p := ODir]> fs end.

(** [os.MkdirAll]: every missing directory on the way. *)
Definition make_dirs (p : list string) (fs : disk) : disk :=
  foldl make_dir fs ((λ i, take (S i) p) <$> seq 0 (length p)).

(** What one event of an extraction does to the disk. *)
Definition replay_one (e : event) (fs : disk) : disk :=
  match e with
  | EvSyscall op p =>
      if (op =? "mkdirall")%string then make_dirs (path_elems p) fs
      else if (op =? "create")%string then <[path_elems p := OFile ""]> fs
      else if has_prefix op "symlink " then <[path_elems p := OLink (trim_prefix op "symlink ")]> fs
      else fs
  | EvWrite p data => <[path_elems p := OFile data]> fs
  | _ => fs
  end.

Definition replay (tr : list event) (fs : disk) : disk := foldr replay_one fs tr.

Lemma replay_app tr tr' fs : replay (tr ++ tr') fs = replay tr (replay tr' fs).
Proof. apply foldr_app. Qed.

(** The kernel refuses nothing. *)
Definition writable (env : Env) : Prop :=
  (∀ i op p, env_syscall env i op p = None) ∧ (∀ i p data, env_write env i p data = None).

(** What the extraction of one entry does. *)
Definition lay (base : list string) (fs : disk) (it : list string * obj) : disk :=
  match it.2 with
  | ODir => make_dirs (base ++ it.1) fs
  | OFile data => <[base ++ it.1 := OFile data]> (make_dirs (base ++ removelast it.1) fs)
  | OLink target => <[base ++ it.1 := OLink target]> fs
  end.

Section unpack.
Context {S : Type} (env : Env) (Hw : writable env) (dest : string) (Hd : path_elems dest ≠ []).

Lemma extract_lays it (s : S) w :
  it.1 ≠ [] → Forall (λ n, good_name n = true) it.1 →
  ∃ w' new, extract_zip_entry dest (entry_of it) env s w = Done None s w' ∧
    io_trace w' = new ++ io_trace w ∧ ∀ fs, replay new fs = lay (path_elems dest) fs it.
Proof.
  intros Hne Hrel. destruct Hw as [Hsys Hwr]. destruct it as [rel o]. simpl in Hne, Hrel.
  assert (Hj : ∀ tail, tail ∈ [""; "/"]%string → path_join [dest; str_join "/" rel +:+ tail] = below (clean_path dest) rel)
    by (intros; by apply join_below).
  pose proof (Hj "/"%string ltac:(set_solver)) as Hj1. pose proof (Hj ""%string ltac:(set_solver)) as Hj2.
  rewrite str_app_nil_r in Hj2. pose proof (tidy_clean dest Hd) as Hc.
  pose proof (below_elems _ rel Hc Hrel) as He. rewrite elems_clean in He by done.
  unfold extract_zip_entry, mkdir_all, syscall, write_file. destruct o as [|data|target]; simpl.
  - rewrite Hj1. unfold effect. rewrite Hsys. eexists _, [_]. split; [done|]. split; [done|]. intros fs.
    simpl. by rewrite He.
  - rewrite Hj2. run. rewrite Hsys. run. rewrite Hsys. run. unfold effect. rewrite Hwr.
    destruct (exists_last Hne) as (r & n & ->).
    eexists _, [_; _; _]. split; [done|]. split; [done|]. intros fs. simpl.
    rewrite dir_below, (below_elems _ r), elems_clean, He by (done || by apply Forall_app in Hrel as [? _]).
    unfold lay. simpl. by rewrite insert_insert_eq, removelast_last.
  - rewrite Hj2. unfold effect. rewrite Hsys. eexists _, [_]. split; [done|]. split; [done|]. intros fs.
    assert (Hs : ∀ p, replay_one (EvSyscall ("symlink " +:+ target) p) fs = <[path_elems p := OLink target]> fs)
      by (intros; by destruct target). simpl in Hs |- *. by rewrite Hs, He.
Qed.
End unpack.

(** ** Laying out a tree *)

(** Every directory on the way to [p] exists. *)
Definition standing (p : list string) (fs : disk) : Prop :=
  ∀ i, (i < length p)%nat → is_Some (fs !! take (S i) p).

(** [fs'] is [fs] and the items. *)
Definition grows (base : list string) (fs : disk) (its : list (list string * obj)) (fs' : disk) : Prop :=
  ∀ k o, fs' !! k = Some o ↔ fs !! k = Some o ∨ ∃ r, k = base ++ r ∧ (r, o) ∈ its.

Lemma grows_trans base fs its1 fs1 its2 fs2 :
  grows base fs its1 fs1 → grows base fs1 its2 fs2 → grows base fs (its1 ++ its2) fs2.
Proof. intros H1 H2 k o. rewrite (H2 k o), (H1 k o). set_solver. Qed.

Lemma grows_standing base fs its fs' p : grows base fs its fs' → standing p fs → standing p fs'.
Proof. intros Hg Hs i Hi. destruct (Hs i Hi) as [o Ho]. exists o. apply Hg. by left. Qed.

Lemma make_dir_lookup fs p k o :
  make_dir fs p !! k = Some o ↔ fs !! k = Some o ∨ (fs !! p = None ∧ k = p ∧ o = ODir).
Proof.
  unfold make_dir. destruct (fs !! p) eqn:Hp; [naive_solver|].
  rewrite lookup_insert_Some. destruct (decide (p = k)) as [->|]; naive_solver congruence.
Qed.

Lemma make_dir_keeps fs p k : is_Some (fs !! k) → is_Some (make_dir fs p !! k).
Proof. intros [o Ho]. exists o. apply make_dir_lookup. by left. Qed.

Lemma foldl_make_dir ps fs :
  (∀ p, p ∈ ps → is_Some (fs !! p)) → foldl make_dir fs ps = fs.
Proof.
  induction ps as [|p ps IH]; intros Hp; [done|]. simpl. unfold make_dir at 2.
  destruct (Hp p ltac:(left)) as [o ->]. apply IH. set_solver.
Qed.

Lemma foldl_make_dir_made ps fs p : p ∈ ps ∨ is_Some (fs !! p) → is_Some (foldl make_dir fs ps !! p).
Proof.
  revert fs. induction ps as [|q ps IH]; intros fs Hp; simpl; [set_solver|]. apply IH.
  destruct Hp as [[->|Hp]%elem_of_cons|Hp]; [right|by left|right; by apply make_dir_keeps].
  unfold make_dir. destruct (fs !! q) eqn:Hq; [by rewrite Hq|]. by rewrite lookup_insert_eq.
Qed.

Lemma foldl_make_dir_only ps fs k o :
  foldl make_dir fs ps !! k = Some o → fs !! k = Some o ∨ k ∈ ps.
Proof.
  revert fs. induction ps as [|q ps IH]; intros fs Hk; simpl in Hk; [by left|].
  destruct (IH _ Hk) as [[?|(_ & -> & _)]%make_dir_lookup|?]; set_solver.
Qed.

Lemma make_dirs_standing p fs : standing p fs → make_dirs p fs = fs.
Proof.
  intros Hs. apply foldl_make_dir. intros q (i & -> & Hi)%list_elem_of_fmap. apply Hs.
  apply elem_of_seq in Hi. lia.
Qed.

Lemma make_dirs_stand p fs : standing p (make_dirs p fs).
Proof.
  intros i Hi. apply foldl_make_dir_made. left. apply list_elem_of_fmap. exists i. split; [done|].
  apply elem_of_seq. lia.
Qed.

Lemma make_dirs_only p fs k o :
  make_dirs p fs !! k = Some o → fs !! k = Some o ∨ (length k ≤ length p)%nat.
Proof.
  intros [?|(i & -> & Hi)%list_elem_of_fmap]%foldl_make_dir_only; [by left|]. right.
  rewrite length_take. lia.
Qed.

(** Nothing is below a new directory. *)
Lemma make_dirs_fresh p fs :
  (∀ r, r ≠ [] → fs !! (p ++ r) = None) → ∀ r, r ≠ [] → make_dirs p fs !! (p ++ r) = None.
Proof.
  intros Hfs r Hne. apply eq_None_not_Some. intros [o [Ho|Ho]%make_dirs_only]; [by rewrite Hfs in Ho|].
  rewrite length_app in Ho. destruct r; [done|simpl in Ho; lia].
Qed.

Lemma make_dirs_snoc p x fs :
  standing p fs → fs !! (p ++ [x]) = None → make_dirs (p ++ [x]) fs = <[p ++ [x] := ODir]> fs.
Proof.
  intros Hs Hx. unfold make_dirs. rewrite length_app, Nat.add_1_r, seq_S, fmap_app, foldl_app.
  rewrite (foldl_make_dir (_ <$> seq 0 (length p))).
  - simpl. unfold make_dir. rewrite (take_ge _ (S _)) by (rewrite length_app; simpl; lia). by rewrite Hx.
  - intros q (i & -> & Hi)%list_elem_of_fmap. apply elem_of_seq in Hi. rewrite take_app_le by lia. apply Hs. lia.
Qed.

Section lay_out.
Context (base : list string).

Lemma lay_grows fs rel x o :
  standing (base ++ rel) fs → fs !! (base ++ rel ++ [x]) = None →
  grows base fs [(rel ++ [x], o)] (lay base fs (rel ++ [x], o)).
Proof.
  intros Hs Hx. assert (Hl : lay base fs (rel ++ [x], o) = <[base ++ rel ++ [x] := o]> fs).
  { unfold lay. destruct o; simpl; [|by rewrite removelast_last, make_dirs_standing|done].
    rewrite app_assoc in Hx |- *. by apply make_dirs_snoc. }
  rewrite Hl. intros k o'. rewrite lookup_insert_Some. setoid_rewrite list_elem_of_singleton. split.
  - intros [[<- <-]|[_ ?]]; [right; by eexists|by left].
  - intros [Hk|(r & -> & [= -> ->])]; [right|by left]. split; [congruence|done].
Qed.

Lemma items_extend n : ∀ rel r o, (r, o) ∈ items rel n → ∃ r', r = rel ++ r'.
Proof.
  induction n as [[?|]|[?|]|l IH|e|e|] using node_tree_ind; intros rel r o Hin; simpl in Hin; try by set_solver.
  - apply list_elem_of_singleton in Hin as [= -> ->]. exists []. by rewrite app_nil_r.
  - apply list_elem_of_singleton in Hin as [= -> ->]. exists []. by rewrite app_nil_r.
  - apply elem_of_cons in Hin as [[= -> ->]|Hin]; [exists []; by rewrite app_nil_r|].
    apply list_elem_of_In, in_flat_map in Hin as (kv & Hkv%list_elem_of_In & Hin%list_elem_of_In).
    rewrite Forall_forall in IH. destruct (IH kv Hkv _ _ _ Hin) as [r' ->]. exists (kv.1 :: r').
    by rewrite <-app_assoc.
Qed.

(** What the layout of [n] under the name [x] of [rel] does to the disk. *)
Definition lays (n : node) : Prop := ∀ rel x fs,
  packable n = true → standing (base ++ rel) fs → (∀ r, fs !! (base ++ rel ++ x :: r) = None) →
  grows base fs (items (rel ++ [x]) n) (foldl (lay base) fs (items (rel ++ [x]) n)).

Lemma children_grow l : Forall (λ kv, lays kv.2) l → ∀ rel fs,
  packable (NDir l) = true → standing (base ++ rel) fs →
  (∀ x r, fs !! (base ++ rel ++ x :: r) = None ∨ x ∉ l.*1) →
  grows base fs (flat_map (λ kv, items (rel ++ [kv.1]) kv.2) l)
    (foldl (lay base) fs (flat_map (λ kv, items (rel ++ [kv.1]) kv.2) l)).
Proof.
  induction 1 as [|[x n] l Hn _ IH]; intros rel fs Hp Hs Hx; simpl; [intros k o; set_solver|].
  apply packable_dir in Hp as [[Hnd1 Hnd]%NoDup_cons [[Hg Hk] Hl]%Forall_cons].
  rewrite foldl_app. assert (Hgx := Hn rel x fs Hk Hs ltac:(intros r; destruct (Hx x r); set_solver)).
  eapply grows_trans; [exact Hgx|]. apply IH.
  - simpl. apply andb_true_iff. split; [|by apply bool_decide_eq_true].
    apply forallb_forall. intros kv Hin%list_elem_of_In. rewrite Forall_forall in Hl. by apply andb_true_iff, Hl.
  - by eapply grows_standing.
  - intros y r. destruct (decide (y ∈ l.*1)) as [Hy|]; [left|by right].
    apply eq_None_not_Some. intros [o [Ho|(r' & Hr & Hin)]%Hgx].
    + destruct (Hx y r) as [?|[]]; [congruence|]. simpl. set_solver.
    + destruct (items_extend _ _ _ _ Hin) as [r'' ->]. rewrite <-app_assoc in Hr.
      simplify_list_eq. done.
Qed.

Lemma tree_grows n : lays n.
Proof.
  induction n as [[d|]|[t|]|l IH|e|e|] using node_tree_ind; intros rel x fs Hp Hs Hx; try done;
    try by apply lay_grows.
  change (items (rel ++ [x]) (NDir l))
    with ([(rel ++ [x], ODir)] ++ flat_map (λ kv, items ((rel ++ [x]) ++ [kv.1]) kv.2) l).
  rewrite foldl_app.
  assert (Hg := lay_grows fs rel x ODir Hs (Hx [])). eapply grows_trans; [exact Hg|].
  apply children_grow; [done|done| |].
  - intros i Hi. rewrite app_assoc in Hi |- *. destruct (decide (i < length (base ++ rel))%nat).
    + rewrite take_app_le by lia. by eapply grows_standing.
    + rewrite take_ge by (rewrite length_app in Hi |- *; simpl in *; lia). exists ODir. apply Hg. right.
      exists (rel ++ [x]). split; [by rewrite app_assoc|by left].
  - intros y r. left. rewrite <-app_assoc. apply eq_None_not_Some. intros [o [Ho|(r' & Hr & Hin)]%Hg].
    + simpl in Ho. by rewrite Hx in Ho.
    + apply list_elem_of_singleton in Hin as [= -> ->]. simplify_list_eq.
Qed.
End lay_out.

Lemma Forall_flat_map {A B} (P : B → Prop) (f : A → list B) l :
  (∀ x, x ∈ l → Forall P (f x)) → Forall P (flat_map f l).
Proof.
  induction l as [|x l IH]; intros Hf; simpl; [done|]. apply Forall_app. split; [apply Hf; left|].
  apply IH. intros y Hy. apply Hf. by right.
Qed.

Lemma items_good n : ∀ rel,
  rel ≠ [] → Forall (λ n, good_name n = true) rel → packable n = true →
  Forall (λ it, it.1 ≠ [] ∧ Forall (λ n, good_name n = true) it.1) (items rel n).
Proof.
  induction n as [[?|]|[?|]|l IH|e|e|] using node_tree_ind; intros rel Hne Hrel Hp; try done;
    try by repeat constructor.
  cbn [items]. constructor; [done|]. apply Forall_flat_map. intros kv Hkv.
  destruct (good_child rel l kv Hrel Hp Hkv) as [Hg Hk].
  rewrite Forall_forall in IH. apply (IH kv Hkv); [by destruct rel|done|done].
Qed.

Section unpack_all.
Context {S : Type} (env : Env) (Hw : writable env) (dest : string) (Hd : path_elems dest ≠ []).

Lemma extract_all_lays its (s : S) :
  Forall (λ it, it.1 ≠ [] ∧ Forall (λ n, good_name n = true) it.1) its → ∀ w,
  ∃ w' new, extract_all dest (entry_of <$> its) env s w = Done () s w' ∧
    io_trace w' = new ++ io_trace w ∧ ∀ fs, replay new fs = foldl (lay (path_elems dest)) fs its.
Proof.
  induction 1 as [|it its [Hne Hg] _ IH]; intros w; [by exists w, []|].
  destruct (extract_lays env Hw dest Hd it s w Hne Hg) as (w1 & n1 & He1 & Ht1 & Hr1).
  destruct (IH w1) as (w2 & n2 & He2 & Ht2 & Hr2).
  exists w2, (n2 ++ n1). cbn [fmap list_fmap extract_all]. unfold mbind, M_bind. rewrite He1, He2.
  split; [done|]. rewrite Ht2, Ht1, app_assoc. split; [done|]. intros fs.
  by rewrite replay_app, Hr1, Hr2.
Qed.
End unpack_all.

(** The layout of a whole directory. *)
Lemma directory_grows base l fs :
  packable (NDir l) = true → (∀ r, r ≠ [] → fs !! (base ++ r) = None) →
  grows base (make_dirs base fs) (tops l)
    (foldl (lay base) (make_dirs base fs) (tops l)).
Proof.
  intros Hp Hfs. apply (children_grow base l) with (rel := []); [|done| |].
  - apply Forall_forall. intros kv _. apply tree_grows.
  - rewrite app_nil_r. apply make_dirs_stand.
  - intros x r. left. by apply make_dirs_fresh.
Qed.

Lemma items_root l r o : r ≠ [] → (r, o) ∈ items [] (NDir l) ↔ (r, o) ∈ tops l.
Proof. intros Hne. split; [by intros [[= ->]|Hin]%elem_of_cons|by right]. Qed.

Lemma tops_good l :
  packable (NDir l) = true →
  Forall (λ it, it.1 ≠ [] ∧ Forall (λ n, good_name n = true) it.1) (tops l).
Proof.
  intros Hp. apply Forall_flat_map. intros kv Hkv. destruct (good_child [] l kv (Forall_nil_2 _) Hp Hkv) as [Hg Hk].
  by apply items_good.
Qed.

(** [Zip] of a directory that can be read. *)
Lemma zip_packs {S} dir l env (s : S) w :
  path_elems dir ≠ [] → packable (NDir l) = true → env_tree env (io_step w) (clean_path dir) = NDir l →
  Zip dir env s w =
    Done (inl (env_zip_bytes env (entry_of <$> tops l))) s (advance env 0 [EvRead (clean_path dir)] w).
Proof. intros Hd Hp Ht. unfold Zip. run. by rewrite Ht, walk_root by (done || by apply tidy_clean). Qed.

(** [Unzip] of what it packed, into a directory that holds nothing. *)
Lemma unzip_lays {S} buf dest l env (s : S) w :
  path_elems dest ≠ [] → packable (NDir l) = true → writable env →
  env_zip env buf = Some (entry_of <$> tops l) →
  ∃ w' new, Unzip buf dest env s w = Done None s w' ∧ io_trace w' = new ++ io_trace w ∧
    ∀ fs, (∀ r, r ≠ [] → fs !! (path_elems dest ++ r) = None) →
    ∀ r o, r ≠ [] → (replay new fs !! (path_elems dest ++ r) = Some o ↔ (r, o) ∈ tops l).
Proof.
  intros Hd Hp Hw Hz.
  destruct (extract_all_lays env Hw dest Hd (tops l) s (tops_good l Hp)
    (advance env 0 [EvSyscall "mkdirall" dest] w)) as (w' & new & He & Ht & Hr).
  exists w', (new ++ [EvSyscall "mkdirall" dest]). split; [|split].
  - unfold Unzip, mkdir_all, syscall. run. rewrite Hz. run. unfold mbind, M_bind. by rewrite He.
  - by rewrite Ht, <-app_assoc.
  - intros fs Hfs r o Hne. rewrite replay_app, Hr. etrans; [apply (directory_grows _ l fs Hp Hfs)|].
    rewrite make_dirs_fresh by done. split; [|by right; exists r]. by intros [?|(r' & ->%app_inv_head & Hin)].
Qed.

(** Packing and unpacking give the directory back: when everything below [dir] can
    be read, [Zip] returns an archive, and [Unzip] of that archive into a
    directory that holds nothing returns without error and leaves in it exactly
    the files, links and directories found in [dir], with their contents and
    targets. *)
Theorem zip_roundtrip {S} dir dest l fs :
  path_elems dir ≠ [] → path_elems dest ≠ [] → packable (NDir l) = true →
  (∀ r, r ≠ [] → fs !! (path_elems dest ++ r) = None) →
  ∀ env (s : S) w, writable env → env_tree env (io_step w) (clean_path dir) = NDir l →
    (∀ entries, walk (clean_path dir) (clean_path dir) (NDir l) = inl entries →
       env_zip env (env_zip_bytes env entries) = Some entries) →
  ∃ buf w1 w2 new,
    Zip dir env s w = Done (inl buf) s w1 ∧
    Unzip buf dest env s w1 = Done None s w2 ∧ io_trace w2 = new ++ io_trace w1 ∧
    ∀ r o, r ≠ [] → (replay new fs !! (path_elems dest ++ r) = Some o ↔ (r, o) ∈ items [] (NDir l)).
Proof.
  intros Hdir Hdest Hp Hfs env s w Hw Htree Hzip.
  specialize (Hzip _ (walk_root _ l (tidy_clean dir Hdir) Hp)).
  destruct (unzip_lays _ dest l env s (advance env 0 [EvRead (clean_path dir)] w) Hdest Hp Hw Hzip)
    as (w2 & new & Hu & Ht & Hr).
  eexists _, _, w2, new. split; [by apply zip_packs|]. split; [done|]. split; [done|].
  intros r o Hne. by rewrite (Hr fs Hfs r o Hne), items_root.
Qed.

(** A small project: a script, a directory with a file, a link. *)
Definition sample_tree : list (string * node) :=
  [("exec", NFile (inl "#!/bin/sh")); ("lib", NDir [("a.txt", NFile (inl "hello")); ("empty", NDir [])]);
   ("run", NLink (inl "exec"))]%string.

Definition sample_entries : list zip_entry :=
  [file_entry "exec" "#!/bin/sh"; dir_entry "lib"; file_entry "lib/a.txt" "hello"; dir_entry "lib/empty";
   link_entry "run" "exec"]%string.

Definition packing_env : Env :=
  with_world (λ _ _, inl ""%string) false (NDir sample_tree) (Some sample_entries)
    (sample_env [] [] (λ _, None) (λ _, HttpErr EDeadline) true None).

Lemma zip_roundtrip_witness :
  ∃ buf w1 w2 new,
    Zip "/src/." packing_env () io_start = Done (inl buf) () w1 ∧
    Unzip buf "./action/1/bin" packing_env () w1 = Done None () w2 ∧ io_trace w2 = new ++ io_trace w1 ∧
    ∀ r o, r ≠ [] →
      (replay new ∅ !! (["action"; "1"; "bin"]%string ++ r) = Some o ↔ (r, o) ∈ items [] (NDir sample_tree)).
Proof.
  apply (zip_roundtrip "/src/." "./action/1/bin" sample_tree ∅).
  - discriminate.
  - discriminate.
  - reflexivity.
  - intros; apply lookup_empty.
  - split; reflexivity.
  - reflexivity.
  - intros entries H. cbv in H |- *. congruence.
Defined.
