(* ===== verification/Addresses.v ===== *)
(** * Host and port strings ([net.ParseIP], [net.SplitHostPort], [net.JoinHostPort])

    What the scheduler channel uses of package [net]. *)

From S2P Require Import Prelude Float64 GoStrings.

Local Open Scope Z_scope.

(** ** Addresses *)

Definition octet (s : string) : option Z :=
  if (3 <? String.length s)%nat then None
  else if ((1 <? String.length s)%nat && has_prefix s "0")%bool then None
  else match s with
       | EmptyString => None
       | _ => match parse_digits 0 s with
              | Some n => if n <=? 255 then Some n else None
              | None => None
              end
       end.

Fixpoint map_option {A B} (f : A → option B) (l : list A) : option (list B) :=
  match l with
  | [] => Some []
  | x :: l => match f x, map_option f l with
              | Some y, Some l' => Some (y :: l')
              | _, _ => None
              end
  end.

(** Dotted notation, as two 16-bit groups. *)
Definition parse_v4 (s : string) : option (list Z) :=
  match map_option octet (str_split "." s) with
  | Some [a; b; c; d] => Some [a * 256 + b; c * 256 + d]
  | _ => None
  end.

Fixpoint parse_hex (acc : Z) (s : string) : option Z :=
  match s with
  | EmptyString => Some acc
  | String a r => match hex_val a with
                  | Some d => parse_hex (acc * 16 + d) r
                  | None => None
                  end
  end.

Definition hex_group (s : string) : option Z :=
  match s with
  | EmptyString => None
  | _ => if (4 <? String.length s)%nat then None else parse_hex 0 s
  end.

(** Groups separated by [:], the last of which may be dotted. *)
Fixpoint v6_groups (l : list string) : option (list Z) :=
  match l with
  | [] => Some []
  | [last] => match hex_group last with
              | Some g => Some [g]
              | None => parse_v4 last
              end
  | g :: l => match hex_group g, v6_groups l with
              | Some z, Some zs => Some (z :: zs)
              | _, _ => None
              end
  end.

(** Splits at the first [::]. *)
Fixpoint split_ellipsis (pre : string) (s : string) : option (string * string) :=
  match s with
  | String ":" (String ":" r) => Some (pre, r)
  | String a r => split_ellipsis (pre +:+ String a "") r
  | EmptyString => None
  end.

Definition v6_part (s : string) : option (list Z) :=
  match s with EmptyString => Some [] | _ => v6_groups (str_split ":" s) end.

Definition parse_v6 (s : string) : option (list Z) :=
  match split_ellipsis "" s with
  | None => match v6_groups (str_split ":" s) with
            | Some l => if (length l =? 8)%nat then Some l else None
            | None => None
            end
  | Some (pre, post) =>
      if str_contains pre "." then None else
      match v6_part pre, v6_part post with
      | Some l1, Some l2 =>
          if (length l1 + length l2 <? 8)%nat
          then Some (l1 ++ replicate (8 - (length l1 + length l2)) 0 ++ l2) else None
      | _, _ => None
      end
  end.

(** [net.ParseIP]: the eight 16-bit groups of the address. *)
Definition parse_ip (s : string) : option (list Z) :=
  if str_contains s ":" then parse_v6 s
  else match parse_v4 s with
       | Some l => Some ([0; 0; 0; 0; 0; 65535] ++ l)
       | None => None
       end.

(** [IP.To4] is not nil. *)
Definition is_v4 (ip : list Z) : bool := bool_decide (take 6 ip = [0; 0; 0; 0; 0; 65535]).

Example parse_ip_ex :
  parse_ip "10.0.3.255" = Some [0; 0; 0; 0; 0; 65535; 2560; 1023] ∧
  parse_ip "10.0.3.256" = None ∧ parse_ip "010.0.0.1" = None ∧ parse_ip "ow-scheduler" = None ∧
  parse_ip "fe80::1" = Some [65152; 0; 0; 0; 0; 0; 0; 1] ∧ parse_ip "1::2::3" = None ∧
  parse_ip "::ffff:1.2.3.4" = Some [0; 0; 0; 0; 0; 65535; 258; 772] ∧ parse_ip ":1::2" = None.
Proof. by vm_compute. Qed.

(** ** Host and port *)

(** Splits at the last colon: everything before it, everything after. *)
Definition split_last (s : string) : option (string * string) :=
  let i := last_index ":" s in
  if i <? 0 then None
  else Some (str_take (Z.to_nat i) s, str_drop (Z.to_nat i + 1) s).

(** Everything before the first [']'], everything after. *)
Fixpoint cut_bracket (pre s : string) : option (string * string) :=
  match s with
  | EmptyString => None
  | String "]" r => Some (pre, r)
  | String a r => cut_bracket (pre +:+ String a "") r
  end.

Definition no_brackets (s : string) : bool := negb (str_contains s "[") && negb (str_contains s "]").

Definition SplitHostPort (hostport : string) : option (string * string) :=
  match split_last hostport with
  | None => None
  | Some (before, port) =>
      if has_prefix hostport "[" then
        match cut_bracket "" (str_drop 1 hostport) with
        | None => None
        | Some (host, rest) =>
            if negb (has_prefix rest ":") then None
            else if str_contains (str_drop 1 rest) ":" then None
            else if str_contains host "[" || negb (no_brackets rest) then None
            else Some (host, port)
        end
      else if str_contains before ":" then None
      else if no_brackets hostport then Some (before, port)
      else None
  end.

Definition JoinHostPort (host port : string) : string :=
  if str_contains host ":" then "[" +:+ host +:+ "]:" +:+ port
  else host +:+ ":" +:+ port.

Example split_host_port_ex :
  SplitHostPort "ow-scheduler:5000" = Some ("ow-scheduler", "5000")%string ∧
  SplitHostPort "[fe80::1]:80" = Some ("fe80::1", "80")%string ∧
  SplitHostPort "fe80::1:80" = None ∧ SplitHostPort "host" = None ∧
  SplitHostPort "[a]b:1" = None ∧ JoinHostPort "fe80::1" "80" = "[fe80::1]:80"%string.
Proof. by vm_compute. Qed.
