(* ===== verification/Channel.v ===== *)
(** * The channel to the scheduler ([openwhisk/schedulerChannel.go])

    Three parts: the address of the scheduler, resolved in the background and
    kept ([addrCache]); the recorder that says what a call cost and why it
    failed ([connRecorder]); the two events, the blocking EXECUTION_PAUSED and
    the retried EXECUTION_KILLED.

    The HTTP client is modelled by what the source relies on: it serves a
    request on a pooled connection or dials a new one through
    [schedulerDialContext], and a request that outlives the client's timeout
    returns a timeout error at that instant while its dial goes on in the
    background. *)

From S2P Require Import Prelude Float64 GoStrings Json Effects Freezer Addresses.

Local Open Scope Z_scope.
Local Open Scope go_scope.

(** ** Configuration *)

Section config.
Context {S : Type}.

Definition positiveIntEnv (name : string) (def : Z) : M S Z :=
  v ← getenv name;
  mret (if (v =? "")%string then def else positive_ms v def).

Definition schedulerURL : M S string :=
  v ← getenv "SCHEDULER_URL";
  mret (if (v =? "")%string then "http://localhost:5000"%string else v).

Definition schedulerEventsEndpoint : M S string :=
  u ← schedulerURL; mret (u +:+ "/api/v1/energy/events").

Definition schedulerChannelTimeoutMarginMs : M S Z :=
  ms ← positiveIntEnv "SCHEDULER_CHANNEL_TIMEOUT_MARGIN_MS" 2000; mret (ms *! millisecond).

Definition schedulerAddressResolveMaxAttempts : M S Z :=
  positiveIntEnv "SCHEDULER_ADDRESS_RESOLVE_MAX_ATTEMPTS" 8.

Definition schedulerAddressResolveBackoffBase : M S Z :=
  ms ← positiveIntEnv "SCHEDULER_ADDRESS_RESOLVE_RETRY_BACKOFF_BASE_MS" 200; mret (ms *! millisecond).

Definition schedulerAddressResolveBackoffMax : M S Z :=
  ms ← positiveIntEnv "SCHEDULER_ADDRESS_RESOLVE_RETRY_BACKOFF_MAX_MS" 5000; mret (ms *! millisecond).

Definition executionKilledMaxAttempts : M S Z := positiveIntEnv "EXECUTION_KILLED_MAX_ATTEMPTS" 5.

Definition executionKilledBackoffBase : M S Z :=
  ms ← positiveIntEnv "EXECUTION_KILLED_RETRY_BACKOFF_BASE_MS" 200; mret (ms *! millisecond).

Definition pausedEventTimeout (maxPauseDurationMs : Z) : M S Z :=
  margin ← schedulerChannelTimeoutMarginMs;
  mret ((if maxPauseDurationMs <? 0 then 0 else maxPauseDurationMs) *! millisecond +! margin).
End config.

(** ** The kept address *)

Record addrCache := {
  hostport : string;
  ipport : string;
  resolving : bool
}.

Definition no_address : addrCache := {| hostport := ""; ipport := ""; resolving := false |}.

Definition addr_get (hp : string) (c : addrCache) : string :=
  if (hostport c =? hp)%string then ipport c else "".

Definition addr_set (hp ip : string) (c : addrCache) : addrCache :=
  {| hostport := hp; ipport := ip; resolving := resolving c |}.

Definition addr_forget (hp : string) (c : addrCache) : addrCache :=
  if (hostport c =? hp)%string
  then {| hostport := hostport c; ipport := ""; resolving := resolving c |} else c.

Definition set_resolving (b : bool) (c : addrCache) : addrCache :=
  {| hostport := hostport c; ipport := ipport c; resolving := b |}.

(** The host of a [host:port] that has to be resolved. *)
Definition resolvable (hp : string) : option (string * string) :=
  match SplitHostPort hp with
  | Some (host, port) => match parse_ip host with Some _ => None | None => Some (host, port) end
  | None => None
  end.

(** The synchronous part of [resolveAsync]: whether a resolver is started. *)
Definition resolveAsync (hp : string) (c : addrCache) : bool * addrCache :=
  match resolvable hp with
  | None => (false, c)
  | Some _ => if resolving c then (false, c) else (true, set_resolving true c)
  end.

Fixpoint first_v4 (ips : list string) : option string :=
  match ips with
  | [] => None
  | ip :: rest => match parse_ip ip with
                  | Some a => if is_v4 a then Some ip else first_v4 rest
                  | None => first_v4 rest
                  end
  end.

Definition pickIP (ips : list string) : string :=
  match first_v4 ips with
  | Some ip => ip
  | None => match ips with ip :: _ => ip | [] => "" end
  end.

(** What one lookup gives [resolveOnce]. *)
Definition lookup_ip (host : string) (r : list string + goerr) : string + goerr :=
  match r with
  | inr e => inr e
  | inl ips => let ip := pickIP ips in
               if (ip =? "")%string then inr (EMsg ("no address for " +:+ host)) else inl ip
  end.

(** ** The recorder of a call *)

Record schedulerConnTrace := {
  tr_Reused : bool;
  tr_SetupNs : Z;
  tr_DNSNs : Z;
  tr_ConnectNs : Z;
  tr_CachedAddr : bool;
  tr_Failure : string
}.

Definition zero_trace : schedulerConnTrace :=
  {| tr_Reused := false; tr_SetupNs := 0; tr_DNSNs := 0; tr_ConnectNs := 0;
     tr_CachedAddr := false; tr_Failure := "" |}.

Record connRecorder := {
  cr_closed : bool;
  cr_start : Z;
  cr_trace : schedulerConnTrace;
  cr_resolveStartedAt : option Z;
  cr_resolveEnded : bool;
  cr_resolveOK : bool;
  cr_connectStartedAt : option Z;
  cr_connectEnded : bool;
  cr_gotConn : bool
}.

Definition new_recorder : connRecorder :=
  {| cr_closed := false; cr_start := 0; cr_trace := zero_trace; cr_resolveStartedAt := None;
     cr_resolveEnded := false; cr_resolveOK := false; cr_connectStartedAt := None;
     cr_connectEnded := false; cr_gotConn := false |}.

(** The callbacks, at the instant [now]. *)
Inductive callback :=
  | NoteCachedAddr
  | NoteResolveStart
  | NoteResolveDone (ok : bool)
  | NoteConnectStart
  | NoteConnectDone
  | NoteGotConn (reused : bool).

(** [time.Since] of an instant; the zero time counts as the origin. *)
Definition since (now : Z) (t : option Z) : Z := now -! default 0 t.

Definition note (now : Z) (cb : callback) (r : connRecorder) : connRecorder :=
  let t := cr_trace r in
  match cb with
  | NoteCachedAddr =>
      Build_connRecorder (cr_closed r) (cr_start r)
        (Build_schedulerConnTrace (tr_Reused t) (tr_SetupNs t) (tr_DNSNs t) (tr_ConnectNs t) true
           (tr_Failure t))
        (cr_resolveStartedAt r) (cr_resolveEnded r) (cr_resolveOK r) (cr_connectStartedAt r)
        (cr_connectEnded r) (cr_gotConn r)
  | NoteResolveStart =>
      Build_connRecorder (cr_closed r) (cr_start r) t (Some now) (cr_resolveEnded r)
        (cr_resolveOK r) (cr_connectStartedAt r) (cr_connectEnded r) (cr_gotConn r)
  | NoteResolveDone ok =>
      Build_connRecorder (cr_closed r) (cr_start r)
        (Build_schedulerConnTrace (tr_Reused t) (tr_SetupNs t) (since now (cr_resolveStartedAt r))
           (tr_ConnectNs t) (tr_CachedAddr t) (tr_Failure t))
        (cr_resolveStartedAt r) true ok (cr_connectStartedAt r) (cr_connectEnded r) (cr_gotConn r)
  | NoteConnectStart =>
      Build_connRecorder (cr_closed r) (cr_start r) t (cr_resolveStartedAt r) (cr_resolveEnded r)
        (cr_resolveOK r) (Some now) (cr_connectEnded r) (cr_gotConn r)
  | NoteConnectDone =>
      Build_connRecorder (cr_closed r) (cr_start r)
        (Build_schedulerConnTrace (tr_Reused t) (tr_SetupNs t) (tr_DNSNs t)
           (since now (cr_connectStartedAt r)) (tr_CachedAddr t) (tr_Failure t))
        (cr_resolveStartedAt r) (cr_resolveEnded r) (cr_resolveOK r) (cr_connectStartedAt r) true
        (cr_gotConn r)
  | NoteGotConn reused =>
      Build_connRecorder (cr_closed r) (cr_start r)
        (Build_schedulerConnTrace reused (now -! cr_start r) (tr_DNSNs t) (tr_ConnectNs t)
           (tr_CachedAddr t) (tr_Failure t))
        (cr_resolveStartedAt r) (cr_resolveEnded r) (cr_resolveOK r) (cr_connectStartedAt r)
        (cr_connectEnded r) true
  end.

(** [update]: a closed recorder no longer changes. *)
Definition update (now : Z) (cb : callback) (r : connRecorder) : connRecorder :=
  if cr_closed r then r else note now cb r.

Definition channelFailureResolve : string := "resolve".
Definition channelFailureConnect : string := "connect".
Definition channelFailureTimeout : string := "timeout".
Definition channelFailureUnreadable : string := "unreadable_response".

Definition failure (r : connRecorder) (callErr : option goerr) (unreadable : bool) : string :=
  if unreadable then channelFailureUnreadable
  else match callErr with
       | None => ""
       | Some e =>
           if bool_decide (is_Some (cr_resolveStartedAt r)) && negb (cr_resolveOK r)
           then channelFailureResolve
           else if negb (cr_gotConn r) then channelFailureConnect
           else if is_timeout e then channelFailureTimeout
           else channelFailureConnect
       end.

Definition finish (now : Z) (callErr : option goerr) (unreadable : bool) (r : connRecorder) :
    schedulerConnTrace * connRecorder :=
  let t := cr_trace r in
  let trace :=
    {| tr_Reused := tr_Reused t; tr_SetupNs := tr_SetupNs t;
       tr_DNSNs := if bool_decide (is_Some (cr_resolveStartedAt r)) && negb (cr_resolveEnded r)
                   then since now (cr_resolveStartedAt r) else tr_DNSNs t;
       tr_ConnectNs := if bool_decide (is_Some (cr_connectStartedAt r)) && negb (cr_connectEnded r)
                       then since now (cr_connectStartedAt r) else tr_ConnectNs t;
       tr_CachedAddr := tr_CachedAddr t;
       tr_Failure := match failure r callErr unreadable with
                     | "" => tr_Failure t
                     | f => f
                     end |} in
  (trace,
   {| cr_closed := true; cr_start := cr_start r; cr_trace := trace;
      cr_resolveStartedAt := cr_resolveStartedAt r; cr_resolveEnded := cr_resolveEnded r;
      cr_resolveOK := cr_resolveOK r; cr_connectStartedAt := cr_connectStartedAt r;
      cr_connectEnded := cr_connectEnded r; cr_gotConn := cr_gotConn r |}).

(** ** The dial *)

Record Chan := {
  ch_addr : addrCache;                (** [schedulerAddr], shared by the whole process *)
  ch_rec : option connRecorder;       (** the recorder of the call, if it has one *)
  ch_deadline : option Z              (** when the HTTP client gives the call up *)
}.

Definition set_addr (a : addrCache) (c : Chan) : Chan :=
  {| ch_addr := a; ch_rec := ch_rec c; ch_deadline := ch_deadline c |}.
Definition set_rec (r : option connRecorder) (c : Chan) : Chan :=
  {| ch_addr := ch_addr c; ch_rec := r; ch_deadline := ch_deadline c |}.
Definition set_deadline (d : option Z) (c : Chan) : Chan :=
  {| ch_addr := ch_addr c; ch_rec := ch_rec c; ch_deadline := d |}.

Definition expired (c : Chan) (now : Z) : bool :=
  match ch_deadline c with Some d => d <? now | None => false end.

(** Background resolvers and late dials may change the address at any time. *)
Definition others : M Chan () := λ env c w,
  let a := ch_addr c in
  let '(hp, ip, res) := env_others env (io_step w) (hostport a, ipport a, resolving a) in
  Done tt (set_addr {| hostport := hp; ipport := ip; resolving := res |} c) (advance env 0 [] w).

(** A callback of the current call.  Once the client has given the call up, the
    recorder is closed and the callback comes too late. *)
Definition callback_now (cb : callback) : M Chan () := λ env c w,
  Done tt (if expired c (io_clock w) then c
           else set_rec (update (io_clock w) cb <$> ch_rec c) c) w.

Definition resolveOnce (host : string) : M Chan (string + goerr) :=
  r ← effect (λ env i, env_lookup env i host) [EvLookup host];
  mret (lookup_ip host r).

(** Attempts chained without a pause, until one succeeds, the call is given up
    or none is left. *)
Fixpoint resolve_loop (n : nat) (host : string) : M Chan (string + goerr) :=
  match n with
  | O => mret (inr (EMsg "no attempt"))
  | Datatypes.S n =>
      r ← resolveOnce host;
      match r with
      | inl ip => mret (inl ip)
      | inr e =>
          now ← now_mono;
          gone ← gets (λ c, expired c now);
          if gone || bool_decide (n = O) then mret (inr e) else resolve_loop n host
      end
  end.

Definition dial (target : string) : M Chan (option goerr) :=
  callback_now NoteConnectStart;;
  err ← effect (λ env i, env_dial env i target) [EvDial target];
  callback_now NoteConnectDone;;
  mret err.

Definition schedulerDialContext (addr : string) : M Chan (option goerr) :=
  others;;
  kept ← gets (λ c, addr_get addr (ch_addr c));
  if negb (kept =? "")%string then
    callback_now NoteCachedAddr;;
    err ← dial kept;
    match err with
    | Some e =>
        others;;
        modify (λ c, set_addr (resolveAsync addr (addr_forget addr (ch_addr c))).2 c);;
        mret (Some e)
    | None => mret None
    end
  else
    target ← (match resolvable addr with
              | None => mret (inl addr)
              | Some (host, port) =>
                  callback_now NoteResolveStart;;
                  maxAttempts ← schedulerAddressResolveMaxAttempts;
                  r ← resolve_loop (Z.to_nat maxAttempts) host;
                  callback_now (NoteResolveDone (match r with inl _ => true | inr _ => false end));;
                  mret (match r with
                        | inl ip => inl (JoinHostPort ip port)
                        | inr e => inr (ENet false "dns")
                        end)
              end);
    match target with
    | inr e => mret (Some e)
    | inl target =>
        err ← dial target;
        match err with
        | None =>
            if negb (target =? addr)%string then
              others;; modify (λ c, set_addr (addr_set addr target (ch_addr c)) c);; mret None
            else mret None
        | Some e => mret (Some e)
        end
    end.

(** ** The host and port of a URL *)

(** What [schedulerHostPort] takes from a parsed URL, and what [http.Transport] asks
    the dialer for; empty when there is no host. *)
Definition url_hostport (env : Env) (u : string) : string :=
  match env_urlparse env u with
  | None => ""
  | Some (scheme, hostname, port) =>
      if (hostname =? "")%string then ""
      else
        let port := if (port =? "")%string
                    then (if (scheme =? "https")%string then "443" else "80")
                    else port in
        JoinHostPort hostname port
  end%string.

Definition schedulerHostPort {S} : M S string := u ← schedulerURL; asks (λ env, url_hostport env u).

(** At the start of the container: the goroutine [resolveAsync] starts is one of the
    others. *)
Definition warmSchedulerAddress : M Chan () :=
  hp ← schedulerHostPort;
  modify (λ c, if negb (hp =? "")%string && (addr_get hp (ch_addr c) =? "")%string
               then set_addr (resolveAsync hp (ch_addr c)).2 c else c).

(** ** The HTTP client *)

(** The answer, or the error that ended the call first, unless the client gives
    up before. *)
Definition http_answer (url : string) (body : json) (early : option goerr) : M Chan http_result :=
  λ env c w,
  let res := match early with Some e => HttpErr e | None => env_http env (io_step w) url body end in
  let w1 := advance env 0 [] w in
  match ch_deadline c with
  | Some d =>
      if d <? io_clock w1 then
        let late := HttpErr (ENet true "Client.Timeout exceeded") in
        Done late c (IO (io_step w1) d (EvPost url body late :: io_trace w1))
      else Done res c (IO (io_step w1) (io_clock w1) (EvPost url body res :: io_trace w1))
  | None => Done res c (IO (io_step w1) (io_clock w1) (EvPost url body res :: io_trace w1))
  end.

(** One request: on a pooled connection, or on a new one.  A timeout that is not
    positive is no timeout. *)
Definition client_do (timeout : Z) (url : string) (body : json) : M Chan http_result :=
  now ← now_mono;
  modify (set_deadline (if 0 <? timeout then Some (now + timeout) else None));;
  reused ← effect env_conn_reused [];
  early ← (if reused : bool then callback_now (NoteGotConn true);; mret None
           else
             addr ← asks (λ env, url_hostport env url);
             err ← schedulerDialContext addr;
             match err with
             | Some e => mret (Some (EWrap "dial" e))
             | None => callback_now (NoteGotConn false);; mret None
             end);
  http_answer url body early.

(** ** EXECUTION_PAUSED *)

Record ExecutionPausedEvent := {
  pe_TraceID : string;
  pe_ReservationID : string;
  pe_PauseID : string;
  pe_ActionName : string;
  pe_ExecutionPhase : string;
  pe_EnergyConsumedJ : f64;
  pe_PauseRequestedAt : f64;
  pe_PauseEffectiveAt : f64;
  pe_FreezeLatencyMs : f64
}.

Definition paused_json (e : ExecutionPausedEvent) : json :=
  JObj [("event", JStr "EXECUTION_PAUSED"); ("trace_id", JStr (pe_TraceID e));
        ("reservation_id", JStr (pe_ReservationID e)); ("pause_id", JStr (pe_PauseID e));
        ("action_name", JStr (pe_ActionName e)); ("execution_phase", JStr (pe_ExecutionPhase e));
        ("energy_consumed_j", JNum (pe_EnergyConsumedJ e));
        ("pause_requested_at", JNum (pe_PauseRequestedAt e));
        ("pause_effective_at", JNum (pe_PauseEffectiveAt e));
        ("freeze_latency_ms", JNum (pe_FreezeLatencyMs e))]%string.

Record SchedulerCommand := {
  cmd_Command : string;
  cmd_TraceID : string;
  cmd_ReservationID : string;
  cmd_PauseID : string;
  cmd_NewExecutionThresholdJ : f64;
  cmd_Reason : string
}.

Definition zero_command : SchedulerCommand :=
  {| cmd_Command := ""; cmd_TraceID := ""; cmd_ReservationID := ""; cmd_PauseID := "";
     cmd_NewExecutionThresholdJ := f64_zero; cmd_Reason := "" |}.

Definition command_fields : list (field SchedulerCommand) :=
  [str_field "command" (λ x c, Build_SchedulerCommand x (cmd_TraceID c) (cmd_ReservationID c)
     (cmd_PauseID c) (cmd_NewExecutionThresholdJ c) (cmd_Reason c));
   str_field "trace_id" (λ x c, Build_SchedulerCommand (cmd_Command c) x (cmd_ReservationID c)
     (cmd_PauseID c) (cmd_NewExecutionThresholdJ c) (cmd_Reason c));
   str_field "reservation_id" (λ x c, Build_SchedulerCommand (cmd_Command c) (cmd_TraceID c) x
     (cmd_PauseID c) (cmd_NewExecutionThresholdJ c) (cmd_Reason c));
   str_field "pause_id" (λ x c, Build_SchedulerCommand (cmd_Command c) (cmd_TraceID c)
     (cmd_ReservationID c) x (cmd_NewExecutionThresholdJ c) (cmd_Reason c));
   f64_field "new_execution_threshold_j" (λ x c, Build_SchedulerCommand (cmd_Command c)
     (cmd_TraceID c) (cmd_ReservationID c) (cmd_PauseID c) x (cmd_Reason c));
   str_field "reason" (λ x c, Build_SchedulerCommand (cmd_Command c) (cmd_TraceID c)
     (cmd_ReservationID c) (cmd_PauseID c) (cmd_NewExecutionThresholdJ c) x)].

Definition newPauseID {S} : M S string :=
  r ← effect env_rand [];
  match r with
  | Some hex => mret ("pause-" +:+ hex)
  | None => now ← now_wall; mret ("pause-" +:+ pretty now)
  end.

(** [rec.finish], and the recorder left behind. *)
Definition finish_call (callErr : option goerr) (unreadable : bool) : M Chan schedulerConnTrace :=
  λ env c w,
  match ch_rec c with
  | Some r => let '(t, r') := finish (io_clock w) callErr unreadable r in Done t (set_rec (Some r') c) w
  | None => Done zero_trace c w
  end.

(** [traceRequest] *)
Definition start_call : M Chan () :=
  now ← now_mono;
  modify (λ c, set_rec ((λ r, Build_connRecorder (cr_closed r) now (cr_trace r)
    (cr_resolveStartedAt r) (cr_resolveEnded r) (cr_resolveOK r) (cr_connectStartedAt r)
    (cr_connectEnded r) (cr_gotConn r)) <$> ch_rec c) c).

Definition paused_result : Type := option SchedulerCommand * schedulerConnTrace * option goerr.

Definition postExecutionPaused (event : ExecutionPausedEvent) (maxPauseDurationMs : Z) :
    M Chan paused_result :=
  modify (set_rec (Some new_recorder));;
  let body := paused_json event in
  if negb (json_encodable body) then
    t ← finish_call None false;
    mret (None, t, Some (EMsg "marshal EXECUTION_PAUSED event"))
  else
    timeout ← pausedEventTimeout maxPauseDurationMs;
    url ← schedulerEventsEndpoint;
    bad ← asks (λ env, env_url env url);
    match bad with
    | Some e => t ← finish_call None false; mret (None, t, Some (EWrap "build EXECUTION_PAUSED request" e))
    | None =>
        start_call;;
        resp ← client_do timeout url body;
        match resp with
        | HttpErr e => t ← finish_call (Some e) false; mret (None, t, Some (EWrap "POST EXECUTION_PAUSED" e))
        | HttpResp _ (BodyInvalid e) =>
            if is_timeout e
            then t ← finish_call (Some e) false; mret (None, t, Some (EWrap "read scheduler command" e))
            else t ← finish_call (Some e) true; mret (None, t, Some (EWrap "decode scheduler command" e))
        | HttpResp _ (BodyJson j) =>
            match decode_struct command_fields j zero_command with
            | None => t ← finish_call (Some (EMsg "json")) true;
                      mret (None, t, Some (EWrap "decode scheduler command" (EMsg "json")))
            | Some command => t ← finish_call None false; mret (Some command, t, None)
            end
        end
    end.

(** ** Delivery with bounded retries *)

(** [time.Duration(1<<uint(k))] *)
Definition shl1 (k : Z) : Z := if 64 <=? k then 0 else int64 (2 ^ k).

(** How a response is classified by its status. *)
Inductive verdict := Delivered | Refused | Again.

Definition http_verdict (success : Z → bool) (r : http_result) : verdict :=
  match r with
  | HttpErr _ => Again
  | HttpResp status _ =>
      if success status then Delivered
      else if (400 <=? status) && (status <? 500) then Refused else Again
  end.

(** The retry loop shared by the two deliveries: [n] attempts from number
    [attempt] on, each after its backoff; reports whether one was accepted. *)
Fixpoint deliver {S} (success : Z → bool) (send : M S http_result) (base : Z) (n : nat)
    (attempt : Z) : M S bool :=
  match n with
  | O => mret false
  | Datatypes.S n =>
      (if 0 <? attempt then sleep (base *! shl1 (attempt - 1)) else mret ());;
      r ← send;
      match http_verdict success r with
      | Delivered => mret true
      | Refused => mret false
      | Again => deliver success send base n (attempt + 1)
      end
  end.

Record ExecutionKilledEvent := {
  ke_TraceID : string;
  ke_ReservationID : string;
  ke_PauseID : string;
  ke_ActionName : string;
  ke_ExecutionPhase : string;
  ke_EnergyBudgetExceeded : bool;
  ke_EnergyConsumedJ : f64;
  ke_EnergyOriginalArguments : option gomap;
  ke_ActivationID : string
}.

Definition killed_json (e : ExecutionKilledEvent) : json :=
  JObj ([("event", JStr "EXECUTION_KILLED"); ("trace_id", JStr (ke_TraceID e));
         ("reservation_id", JStr (ke_ReservationID e)); ("pause_id", JStr (ke_PauseID e));
         ("action_name", JStr (ke_ActionName e)); ("execution_phase", JStr (ke_ExecutionPhase e));
         ("energy_budget_exceeded", JBool (ke_EnergyBudgetExceeded e));
         ("energy_consumed_j", JNum (ke_EnergyConsumedJ e));
         ("energy_original_arguments",
          match ke_EnergyOriginalArguments e with Some m => json_of_map m | None => JNull end)]%string ++
        (if (ke_ActivationID e =? "")%string then []
         else [("activation_id"%string, JStr (ke_ActivationID e))])).

Definition ok_2xx (status : Z) : bool := (200 <=? status) && (status <? 300).

Definition postExecutionKilled (event : ExecutionKilledEvent) : M Chan () :=
  let body := killed_json event in
  if negb (json_encodable body) then mret ()
  else
    modify (set_rec None);;
    maxAttempts ← executionKilledMaxAttempts;
    base ← executionKilledBackoffBase;
    url ← schedulerEventsEndpoint;
    delivered ← deliver ok_2xx (client_do (5000 * millisecond) url body) base (Z.to_nat maxAttempts) 0;
    if delivered : bool then mret () else safety "EXECUTION_KILLED_UNDELIVERED" "critical".

(** ** The client's calls *)

(** What a dial may do to the outside world. *)
Definition dialing (e : event) : Prop :=
  match e with EvLookup _ | EvDial _ => True | _ => False end.

Definition deadline_is (d : option Z) (c : Chan) : Prop := ch_deadline c = d.

Lemma others_keeps d φ : keeps (deadline_is d) φ others.
Proof.
  intros env c w Hc. unfold others.
  destruct (env_others env (io_step w) _) as [[hp ip] res]. split; [by exists []|done].
Qed.

Lemma callback_keeps d φ cb : keeps (deadline_is d) φ (callback_now cb).
Proof.
  intros env c w Hc. split; [by exists []|]. unfold callback_now. by case_match.
Qed.
#[export] Hint Resolve others_keeps callback_keeps : keeps.

Lemma resolve_loop_keeps d n host : keeps (deadline_is d) dialing (resolve_loop n host).
Proof.
  induction n as [|n IH]; simpl; unfold resolveOnce; solve_keeps ltac:(done).
Qed.

Lemma dial_keeps d target : keeps (deadline_is d) dialing (dial target).
Proof. unfold dial. solve_keeps ltac:(done). Qed.
#[export] Hint Resolve resolve_loop_keeps dial_keeps : keeps.

Lemma schedulerDialContext_keeps d addr : keeps (deadline_is d) dialing (schedulerDialContext addr).
Proof.
  unfold schedulerDialContext, schedulerAddressResolveMaxAttempts, positiveIntEnv.
  solve_keeps ltac:(done); done.
Qed.
#[export] Hint Resolve schedulerDialContext_keeps : keeps.

(** A call of the client returns, has posted once, and does not outlive its
    timeout. *)
Lemma client_do_spec timeout url body env c w :
  ∃ r c' w' new, client_do timeout url body env c w = Done r c' w' ∧
    io_trace w' = EvPost url body r :: new ++ io_trace w ∧ Forall dialing new ∧
    (0 < timeout → io_clock w' ≤ io_clock w + timeout).
Proof.
  unfold client_do. run. unfold mbind at 1, M_bind.
  set (d := if 0 <? timeout then _ else _).
  match goal with |- context [match ?m env ?c0 ?w0 with _ => _ end] =>
    destruct (keeps_run (deadline_is d) dialing m env c0 w0) as (early & c1 & w1 & new & -> & Hd & Ht & Hf) end;
    [solve_keeps ltac:(done)|done|].
  unfold http_answer. rewrite Hd. subst d.
  destruct (Z.ltb_spec 0 timeout); [case_match; breq|];
    (eexists _, _, _, new; split; [reflexivity|]; split; [simpl; by rewrite Ht|]; split; [done|]); simpl in *; lia.
Qed.

(** ** Delivery *)

(** The answers the HTTP client gave, newest first. *)
Fixpoint answers (tr : list event) : list http_result :=
  match tr with
  | [] => []
  | EvPost _ _ r :: rest => r :: answers rest
  | _ :: rest => answers rest
  end.

(** The sleeps, newest first. *)
Fixpoint sleeps (tr : list event) : list Z :=
  match tr with
  | [] => []
  | EvSleep ns :: rest => ns :: sleeps rest
  | _ :: rest => sleeps rest
  end.

Lemma answers_app tr tr' : answers (tr ++ tr') = answers tr ++ answers tr'.
Proof. induction tr as [|e tr IH]; [done|]. destruct e; simpl; by rewrite ?IH. Qed.
Lemma sleeps_app tr tr' : sleeps (tr ++ tr') = sleeps tr ++ sleeps tr'.
Proof. induction tr as [|e tr IH]; [done|]. destruct e; simpl; by rewrite ?IH. Qed.
Lemma dialing_answers tr : Forall dialing tr → answers tr = [].
Proof. induction 1 as [|e tr He _ IH]; [done|]. by destruct e. Qed.
Lemma dialing_sleeps tr : Forall dialing tr → sleeps tr = [].
Proof. induction 1 as [|e tr He _ IH]; [done|]. by destruct e. Qed.

(** The contract of a delivery over the answers it got, oldest first: all but the
    last call for another attempt; it succeeds on a success, gives up on a
    refusal or when no attempt is left. *)
Fixpoint delivery (success : Z → bool) (n : nat) (l : list http_result) (accepted : bool) : Prop :=
  match n, l with
  | O, [] => accepted = false
  | Datatypes.S n, r :: l =>
      match http_verdict success r with
      | Delivered => l = [] ∧ accepted = true
      | Refused => l = [] ∧ accepted = false
      | Again => delivery success n l accepted
      end
  | _, _ => False
  end.

(** The pauses of a delivery of [k] attempts, the first of which is number
    [attempt]. *)
Fixpoint backoffs (base attempt : Z) (k : nat) : list Z :=
  match k with
  | O => []
  | Datatypes.S k =>
      (if 0 <? attempt then [base *! shl1 (attempt - 1)] else []) ++ backoffs base (attempt + 1) k
  end.

(** A request: returns, posts once, neither sleeps nor reports. *)
Definition is_request {S} (url : string) (body : json) (send : M S http_result) : Prop :=
  ∀ env s w, ∃ r s' w' new, send env s w = Done r s' w' ∧
    io_trace w' = EvPost url body r :: new ++ io_trace w ∧ Forall dialing new.

Definition delivering (url : string) (body : json) (e : event) : Prop :=
  match e with
  | EvLookup _ | EvDial _ | EvSleep _ => True
  | EvPost u b _ => u = url ∧ b = body
  | _ => False
  end.

Lemma deliver_spec {S} success url body (send : M S http_result) base :
  is_request url body send →
  ∀ n attempt env s w, ∃ accepted s' w' new,
    deliver success send base n attempt env s w = Done accepted s' w' ∧
    io_trace w' = new ++ io_trace w ∧ Forall (delivering url body) new ∧
    delivery success n (rev (answers new)) accepted ∧
    rev (sleeps new) = backoffs base attempt (length (answers new)).
Proof.
  intros Hsend. induction n as [|n IH]; intros attempt env s w; cbn [deliver].
  { eexists _, _, _, []. done. }
  set (pause := if 0 <? attempt then [EvSleep (base *! shl1 (attempt - 1))] else []).
  assert (Hp : ∃ w1, (if 0 <? attempt then sleep (base *! shl1 (attempt - 1)) else mret ()) env s w
    = Done tt s w1 ∧ io_trace w1 = pause ++ io_trace w).
  { subst pause. case_match; by eexists. }
  destruct Hp as (w1 & Hp & Ht1). rewrite (run_done _ _ _ _ _ _ _ _ Hp).
  destruct (Hsend env s w1) as (r & s2 & w2 & new & Hr & Ht2 & Hn).
  rewrite (run_done _ _ _ _ _ _ _ _ Hr).
  assert (Hpause : Forall (delivering url body) pause ∧ answers pause = [] ∧
    sleeps pause = (if 0 <? attempt then [base *! shl1 (attempt - 1)] else [])).
  { subst pause. case_match; repeat constructor. }
  destruct Hpause as (Hp1 & Hp2 & Hp3).
  assert (Hd : Forall (delivering url body) (EvPost url body r :: new ++ pause)).
  { constructor; [done|]. apply Forall_app. split; [|done].
    eapply Forall_impl; [exact Hn|]. by intros []. }
  assert (Ha : answers (EvPost url body r :: new ++ pause) = [r]).
  { simpl. by rewrite answers_app, Hp2, dialing_answers. }
  assert (Hs : sleeps (EvPost url body r :: new ++ pause) = sleeps pause).
  { simpl. by rewrite sleeps_app, (dialing_sleeps new). }
  assert (Htr : io_trace w2 = (EvPost url body r :: new ++ pause) ++ io_trace w).
  { rewrite Ht2, Ht1. simpl. by rewrite app_assoc. }
  assert (Hone : rev (sleeps pause) = backoffs base attempt 1).
  { rewrite Hp3. simpl. by case_match. }
  destruct (http_verdict success r) eqn:Hv.
  1-2: eexists _, _, _, _; split; [reflexivity|]; split; [exact Htr|]; split; [exact Hd|];
    rewrite Ha, Hs; simpl; rewrite Hv; auto.
  destruct (IH (attempt + 1) env s2 w2) as (ok & s3 & w3 & new' & Hrun & Ht3 & Hd3 & Hdel & Hsl).
  eexists _, _, _, (new' ++ EvPost url body r :: new ++ pause).
  split; [exact Hrun|]. split; [by rewrite Ht3, Htr, app_assoc|].
  split; [by apply Forall_app|]. rewrite answers_app, sleeps_app, Ha, Hs, !rev_app_distr, length_app.
  simpl. rewrite Hv. split; [done|]. rewrite Hsl, Hp3, Nat.add_1_r. cbn [backoffs]. by case_match.
Qed.

Lemma client_is_request timeout url body : is_request url body (client_do timeout url body).
Proof.
  intros env c w. destruct (client_do_spec timeout url body env c w) as (r & c' & w' & new & ? & ? & ? & _).
  eauto 10.
Qed.

(** Configured number of attempts: positive whatever the environment says. *)
Definition killed_attempts (env : Env) : Z :=
  let v := env_getenv env "EXECUTION_KILLED_MAX_ATTEMPTS" in
  if (v =? "")%string then 5 else positive_ms v 5.

Definition killed_base (env : Env) : Z :=
  let v := env_getenv env "EXECUTION_KILLED_RETRY_BACKOFF_BASE_MS" in
  (if (v =? "")%string then 200 else positive_ms v 200) *! millisecond.

Definition events_url (env : Env) : string :=
  let v := env_getenv env "SCHEDULER_URL" in
  (if (v =? "")%string then "http://localhost:5000" else v) +:+ "/api/v1/energy/events".

Lemma positive_ms_pos v d : 0 < d → 0 < positive_ms v d.
Proof. unfold positive_ms. intros. repeat case_match; breq; lia. Qed.

Lemma killed_attempts_pos env : 0 < killed_attempts env.
Proof. unfold killed_attempts. case_match; [lia|]. by apply positive_ms_pos. Qed.

Lemma postExecutionKilled_spec event env c w :
  json_encodable (killed_json event) = true →
  ∃ accepted c' w' new, postExecutionKilled event env c w = Done tt c' w' ∧
    io_trace w' = (if accepted : bool then [] else [EvSafety "EXECUTION_KILLED_UNDELIVERED" "critical"])
                    ++ new ++ io_trace w ∧
    Forall (delivering (events_url env) (killed_json event)) new ∧
    delivery ok_2xx (Z.to_nat (killed_attempts env)) (rev (answers new)) accepted ∧
    rev (sleeps new) = backoffs (killed_base env) 0 (length (answers new)) ∧
    answers new ≠ [].
Proof.
  intros He. unfold postExecutionKilled. rewrite He. cbn [negb]. run.
  unfold executionKilledMaxAttempts, executionKilledBackoffBase, schedulerEventsEndpoint, schedulerURL,
    positiveIntEnv. run.
  fold (killed_attempts env) (killed_base env) (events_url env).
  destruct (deliver_spec ok_2xx (events_url env) (killed_json event) _ (killed_base env)
    (client_is_request (5000 * millisecond) _ _) (Z.to_nat (killed_attempts env)) 0 env (set_rec None c) w)
    as (ok & c' & w' & new & Hrun & Ht & Hn & Hdel & Hsl).
  rewrite (run_done _ _ _ _ _ _ _ _ Hrun).
  exists ok. destruct ok; (eexists _, _, new; split; [reflexivity|]; split; [simpl; by rewrite Ht|]);
    (split; [done|]; split; [done|]; split; [done|]); intros Hnil; rewrite Hnil in Hdel;
    pose proof (killed_attempts_pos env);
    destruct (Z.to_nat (killed_attempts env)) eqn:Hz; simpl in Hdel; (done || lia).
Qed.

(** C24: the delivery of an EXECUTION_KILLED that JSON can carry returns; it posts
    the same event to the scheduler at least once and at most the configured
    number of times, stops at the first acceptance or refusal, waits [base * 2^k]
    between attempts, and reports a safety incident exactly when no attempt was
    accepted. *)
Theorem killed_delivery event env c w :
  json_encodable (killed_json event) = true →
  ∃ accepted c' w' new, postExecutionKilled event env c w = Done tt c' w' ∧
    io_trace w' = (if accepted : bool then [] else [EvSafety "EXECUTION_KILLED_UNDELIVERED" "critical"])
                    ++ new ++ io_trace w ∧
    Forall (delivering (events_url env) (killed_json event)) new ∧
    delivery ok_2xx (Z.to_nat (killed_attempts env)) (rev (answers new)) accepted ∧
    rev (sleeps new) = backoffs (killed_base env) 0 (length (answers new)) ∧
    answers new ≠ [].
Proof. apply postExecutionKilled_spec. Qed.

(** ** The blocking call *)

Definition margin_ms (env : Env) : Z :=
  let v := env_getenv env "SCHEDULER_CHANNEL_TIMEOUT_MARGIN_MS" in
  (if (v =? "")%string then 2000 else positive_ms v 2000) *! millisecond.

Definition paused_timeout (env : Env) (maxMs : Z) : Z :=
  (if maxMs <? 0 then 0 else maxMs) *! millisecond +! margin_ms env.

Lemma finish_call_done callErr unreadable env c w :
  ∃ t c', finish_call callErr unreadable env c w = Done t c' w.
Proof. unfold finish_call. destruct (ch_rec c); by eexists _, _. Qed.

(** The decision read off an answer: nothing but a decodable body on an answer
    that arrived is one; the status does not matter. *)
Definition decision (r : http_result) : option SchedulerCommand :=
  match r with
  | HttpResp _ (BodyJson j) => decode_struct command_fields j zero_command
  | _ => None
  end.

Lemma postExecutionPaused_spec event maxMs env c w :
  ∃ cmd t err c' w', postExecutionPaused event maxMs env c w = Done (cmd, t, err) c' w' ∧
    (err = None ↔ is_Some cmd) ∧
    ((w' = w ∧ cmd = None) ∨
     ∃ r new, io_trace w' = EvPost (events_url env) (paused_json event) r :: new ++ io_trace w ∧
       Forall dialing new ∧ cmd = decision r ∧
       (0 < paused_timeout env maxMs → io_clock w' ≤ io_clock w + paused_timeout env maxMs)).
Proof.
  assert (Hfin : ∀ {B} cE u (k : schedulerConnTrace → M Chan B) c0 w0,
    ∃ t c', (finish_call cE u ≫= k) env c0 w0 = k t env c' w0).
  { intros B cE u k c0 w0. destruct (finish_call_done cE u env c0 w0) as (t & c' & Hf).
    exists t, c'. by rewrite (run_done _ _ _ _ _ _ _ _ Hf). }
  assert (Hno : ∀ {A} (x : option A), None = Some x ↔ False) by (by intros; split).
  unfold postExecutionPaused. run.
  match goal with |- context [if negb ?b then _ else _] => destruct b end; run.
  2: { match goal with |- context [(finish_call ?a ?b ≫= ?k) env ?c0 ?w0] =>
         destruct (Hfin _ a b k c0 w0) as (t & c' & ->) end.
       eexists _, _, _, _, _. split; [done|]. split; [split; [done|by intros [? ?]]|auto]. }
  unfold pausedEventTimeout, schedulerChannelTimeoutMarginMs, schedulerEventsEndpoint, schedulerURL,
    positiveIntEnv. run.
  fold (margin_ms env) (paused_timeout env maxMs) (events_url env).
  destruct (env_url env (events_url env)) as [e|]; run.
  { match goal with |- context [(finish_call ?a ?b ≫= ?k) env ?c0 ?w0] =>
      destruct (Hfin _ a b k c0 w0) as (t & c' & ->) end.
    eexists _, _, _, _, _. split; [done|]. split; [split; [done|by intros [? ?]]|auto]. }
  unfold start_call. run.
  match goal with |- context [(client_do ?a ?b ?d ≫= _) env ?c0 ?w0] =>
    destruct (client_do_spec a b d env c0 w0) as (r & c1 & w1 & new & Hrun & Ht & Hn & Hck) end.
  rewrite (run_done _ _ _ _ _ _ _ _ Hrun).
  assert (Hres : ∀ cmd t err c',
    cmd = decision r → (err = None ↔ is_Some cmd) →
    ∃ cmd' t' err' c'' w', @Done Chan paused_result (cmd, t, err) c' w1 = Done (cmd', t', err') c'' w' ∧
    (err' = None ↔ is_Some cmd') ∧
    ((w' = w ∧ cmd' = None) ∨
     ∃ r new, io_trace w' = EvPost (events_url env) (paused_json event) r :: new ++ io_trace w ∧
       Forall dialing new ∧ cmd' = decision r ∧
       (0 < paused_timeout env maxMs → io_clock w' ≤ io_clock w + paused_timeout env maxMs))).
  { intros. eexists _, _, _, _, _. split; [done|]. split; [done|]. right. exists r, new. done. }
  assert (Hnone : ∀ e : goerr, Some e = None ↔ is_Some (None : option SchedulerCommand)).
  { intros e. split; [done|by intros [? ?]]. }
  destruct r as [e|status [j|e]]; simpl in Hres.
  2: destruct (decode_struct command_fields j zero_command) as [cmd|].
  4: destruct (is_timeout e).
  all: match goal with H : context [finish_call _ _] |- context [(finish_call ?a ?b ≫= ?k) _ ?c0 ?w0] =>
         destruct (H _ a b k c0 w0) as (t & c' & ->) end.
  all: lazymatch goal with H : (∀ cmd t err c', _ → _ → ex _) |- _ => apply H; auto end.
  split; [by eexists|done].
Qed.

(** C27: the call that waits for the scheduler returns; it posts EXECUTION_PAUSED
    at most once, within its timeout, and yields a command exactly when a body
    that decodes as one was read. *)
Theorem paused_call event maxMs env c w :
  0 < paused_timeout env maxMs →
  ∃ cmd t err c' w', postExecutionPaused event maxMs env c w = Done (cmd, t, err) c' w' ∧
    (err = None ↔ is_Some cmd) ∧ io_clock w' ≤ io_clock w + paused_timeout env maxMs ∧
    (io_trace w' = io_trace w ∧ cmd = None ∨
     ∃ r new, io_trace w' = EvPost (events_url env) (paused_json event) r :: new ++ io_trace w ∧
       Forall dialing new ∧ cmd = decision r).
Proof.
  intros Hp. destruct (postExecutionPaused_spec event maxMs env c w)
    as (cmd & t & err & c' & w' & Hrun & Hiff & H).
  eexists _, _, _, _, _. split; [exact Hrun|]. split; [done|].
  destruct H as [[-> ->]|(r & new & Ht & Hn & Hc & Hck)].
  - split; [lia|auto].
  - split; [by apply Hck|]. right. eauto.
Qed.

(** With a representable deadline the call is never given up before the cycle's
    own deadline plus the margin. *)
Theorem paused_timeout_covers_deadline env maxMs :
  0 ≤ maxMs → in_int64 (maxMs * millisecond + margin_ms env) → 0 < margin_ms env →
  maxMs * millisecond < paused_timeout env maxMs.
Proof.
  intros H0 Hr Hm. unfold paused_timeout. rewrite (proj2 (Z.ltb_ge _ _)) by done.
  assert (in_int64 (margin_ms env)) by (unfold margin_ms, i64_mul; apply int64_range).
  unfold millisecond in *. rewrite i64_mul_exact by solve_int64. rewrite i64_add_exact by done. lia.
Qed.

(** ** No name resolution on the critical path *)

Definition not_lookup (e : event) : Prop := match e with EvLookup _ => False | _ => True end.

(** The kept address of the scheduler is there. *)
Definition kept (addr : string) (c : Chan) : Prop := addr_get addr (ch_addr c) ≠ "".

(** The other goroutines leave it in place. *)
Definition kept_by_others (env : Env) (addr : string) : Prop :=
  ∀ i a, addr_get addr a ≠ "" →
    let '(hp, ip, res) := env_others env i (hostport a, ipport a, resolving a) in
    addr_get addr {| hostport := hp; ipport := ip; resolving := res |} ≠ "".

Section kept.
Context (env : Env) (addr : string).

(** From a state in [P], [m] returns in [Q] without a resolution. *)
Definition unresolved {A} (P : Chan → Prop) (Q : A → Chan → Prop) (m : M Chan A) : Prop := ∀ c w, P c →
  ∃ a c' w' new, m env c w = Done a c' w' ∧ Q a c' ∧ io_trace w' = new ++ io_trace w ∧ Forall not_lookup new.
Local Abbreviation keeping m := (unresolved (kept addr) (λ _, kept addr) m).

Lemma unresolved_bind {A B} P Q Q' (m : M Chan A) (k : A → M Chan B) :
  unresolved P Q m → (∀ a, unresolved (Q a) Q' (k a)) → unresolved P Q' (m ≫= k).
Proof.
  intros Hm Hk c w Hc. destruct (Hm c w Hc) as (a & c1 & w1 & n1 & Hr & Hc1 & H1 & Hf1).
  destruct (Hk a c1 w1 Hc1) as (b & c2 & w2 & n2 & Hr2 & HQ & H2 & Hf2). exists b, c2, w2, (n2 ++ n1).
  rewrite (run_done _ _ _ _ _ _ _ _ Hr), Hr2, H2, H1, app_assoc. split; [done|]. split; [done|]. split; [done|].
  by apply Forall_app.
Qed.

Lemma unresolved_ret {A} (P : Chan → Prop) (Q : A → Chan → Prop) a : (∀ c, P c → Q a c) → unresolved P Q (mret a).
Proof. intros HQ c w Hc. exists a, c, w, []. auto. Qed.

Lemma unresolved_gets {A B} (f : Chan → A) (P : Chan → Prop) Q (k : A → M Chan B) :
  (∀ c, P c → unresolved P Q (k (f c))) → unresolved P Q (gets f ≫= k).
Proof. intros Hk c w Hc. run. exact (Hk c Hc c w Hc). Qed.

Lemma unresolved_asks {A B} (f : Env → A) P Q (k : A → M Chan B) : unresolved P Q (k (f env)) → unresolved P Q (asks f ≫= k).
Proof. intros Hk c w Hc. run. exact (Hk c w Hc). Qed.

Lemma unresolved_now {B} P Q (k : Z → M Chan B) : (∀ a, unresolved P Q (k a)) → unresolved P Q (now_mono ≫= k).
Proof. intros Hk c w Hc. run. exact (Hk _ c w Hc). Qed.

Lemma unresolved_modify f (P Q : Chan → Prop) : (∀ c, P c → Q (f c)) → unresolved P (λ _, Q) (modify f).
Proof. intros HQ c w Hc. exists tt, (f c), w, []. auto. Qed.

Lemma unresolved_effect {A} (f : Env → nat → A) ev P : Forall not_lookup ev → unresolved P (λ _, P) (effect f ev).
Proof. intros Hf c w Hc. by eexists _, c, _, ev. Qed.

Lemma unresolved_callback cb : keeping (callback_now cb).
Proof. intros c w Hc. exists tt. unfold callback_now. case_match; by eexists _, w, []. Qed.

Lemma unresolved_others : kept_by_others env addr → keeping others.
Proof.
  intros Ho c w Hc. unfold others. specialize (Ho (io_step w) (ch_addr c) Hc).
  destruct (env_others env (io_step w) _) as [[hp ip] res]. by eexists _, _, _, [].
Qed.

Lemma unresolved_dial target : keeping (dial target).
Proof.
  unfold dial. apply (unresolved_bind _ (λ _, kept addr)); [apply unresolved_callback|]. intros [].
  apply (unresolved_bind _ (λ _, kept addr)); [apply unresolved_effect; by constructor|]. intros err.
  apply (unresolved_bind _ (λ _, kept addr)); [apply unresolved_callback|]. intros []. by apply unresolved_ret.
Qed.

(** A name is resolved only when no address is kept. *)
Lemma unresolved_dial_context :
  kept_by_others env addr → unresolved (kept addr) (λ r c, r = None → kept addr c) (schedulerDialContext addr).
Proof.
  intros Ho. unfold schedulerDialContext. apply (unresolved_bind _ (λ _, kept addr)); [by apply unresolved_others|]. intros [].
  apply unresolved_gets. intros c Hc. destruct (String.eqb_spec (addr_get addr (ch_addr c)) "") as [He|_]; [done|]. simpl.
  apply (unresolved_bind _ (λ _, kept addr)); [apply unresolved_callback|]. intros [].
  apply (unresolved_bind _ (λ _, kept addr)); [apply unresolved_dial|]. intros [e|]; [|by apply unresolved_ret].
  apply (unresolved_bind _ (λ _, kept addr)); [by apply unresolved_others|]. intros [].
  apply (unresolved_bind _ (λ _ _, True)); [by apply unresolved_modify|]. intros []. by apply unresolved_ret.
Qed.

Lemma unresolved_answer url body early : unresolved (λ _, True) (λ _ _, True) (http_answer url body early).
Proof.
  intros c w _. unfold http_answer. set (r := match early with Some e => HttpErr e | None => _ end).
  destruct (ch_deadline c) as [d|]; [case_match|]; eexists _, c, _, [EvPost url body _]; repeat constructor.
Qed.
End kept.

(** As long as the other goroutines leave the kept address in place, a call to the
    scheduler never resolves a name, whether it reuses a connection, dials or
    fails. *)
Theorem kept_address_is_not_resolved timeout url body env c w :
  kept_by_others env (url_hostport env url) → kept (url_hostport env url) c →
  ∃ r c' w' new, client_do timeout url body env c w = Done r c' w' ∧
    io_trace w' = new ++ io_trace w ∧ Forall not_lookup new.
Proof.
  intros Ho Hk. assert (Hq : unresolved env (kept (url_hostport env url)) (λ _ _, True) (client_do timeout url body)).
  { unfold client_do. apply unresolved_now. intros now.
    eapply unresolved_bind; [by apply unresolved_modify with (Q := kept (url_hostport env url))|]. intros [].
    eapply unresolved_bind; [by apply unresolved_effect|]. intros reused.
    apply (unresolved_bind _ _ (λ _ _, True)); [|intros early; apply unresolved_answer]. destruct reused.
    - eapply unresolved_bind; [apply unresolved_callback|]. intros []. by apply unresolved_ret.
    - apply unresolved_asks. eapply unresolved_bind; [by apply unresolved_dial_context|]. intros [e|]; [by apply unresolved_ret|].
      apply (unresolved_bind _ _ (λ _ _, True)); [|intros []; by apply unresolved_ret].
      intros c0 w0 H0. destruct (unresolved_callback env (url_hostport env url) (NoteGotConn false) c0 w0 (H0 eq_refl))
        as (a & c1 & w1 & new & Hr & _ & H). by exists a, c1, w1, new. }
  destruct (Hq c w Hk) as (r & c' & w' & new & Hr & _ & Ht & Hf). by exists r, c', w', new.
Qed.

(** ** The recorder *)

(** The callbacks of a call in the order they run, each with its instant. *)
Definition record (calls : list (Z * callback)) (r : connRecorder) : connRecorder :=
  foldl (λ r c, update c.1 c.2 r) r calls.

Definition starts_resolution (c : Z * callback) : bool :=
  match c.2 with NoteResolveStart => true | _ => false end.
Definition gets_connection (c : Z * callback) : bool :=
  match c.2 with NoteGotConn _ => true | _ => false end.

(** The outcome of the last resolution that ended. *)
Definition resolution_ok (calls : list (Z * callback)) : bool :=
  foldl (λ b c, match c.2 with NoteResolveDone ok => ok | _ => b end) false calls.

Lemma record_closed calls r : cr_closed r = true → record calls r = r.
Proof. intros Hr. induction calls as [|c calls IH]; [done|]. simpl. unfold update. by rewrite Hr. Qed.

Lemma record_facts calls :
  let r := record calls new_recorder in
  cr_closed r = false ∧ tr_Failure (cr_trace r) = "" ∧
  bool_decide (is_Some (cr_resolveStartedAt r)) = existsb starts_resolution calls ∧
  cr_resolveOK r = resolution_ok calls ∧
  cr_gotConn r = existsb gets_connection calls.
Proof.
  induction calls as [|c calls IH] using rev_ind; [done|].
  assert (Hsnoc : record (calls ++ [c]) new_recorder =
    update c.1 c.2 (record calls new_recorder)) by (unfold record; by rewrite foldl_app).
  unfold resolution_ok in *. rewrite Hsnoc, !foldl_app, !existsb_app.
  destruct IH as (Hc & Hf & Hs & Ho & Hg). unfold update. rewrite Hc. simpl.
  destruct c as [t []]; simpl; rewrite ?orb_false_r, ?orb_true_r; auto.
Qed.

(** The cause recorded for a call, whatever callbacks ran before it returned:
    nothing for a call that succeeded; the resolution if one was started and did
    not succeed; the connection if none was obtained; the timeout only for a
    request that was sent on a connection. Callbacks that run after the call
    returned change nothing. *)
Theorem recorded_failure calls late now callErr unreadable :
  let '(t, r) := finish now callErr unreadable (record calls new_recorder) in
  tr_Failure t =
    (if unreadable then channelFailureUnreadable
     else match callErr with
          | None => ""
          | Some e =>
              if existsb starts_resolution calls && negb (resolution_ok calls)
              then channelFailureResolve
              else if negb (existsb gets_connection calls) then channelFailureConnect
              else if is_timeout e then channelFailureTimeout else channelFailureConnect
          end) ∧
  record late r = r ∧ cr_trace (record late r) = t.
Proof.
  destruct (record_facts calls) as (Hc & Hf & Hs & Ho & Hg).
  unfold finish, failure. rewrite Hs, Ho, Hg. cbn [tr_Failure].
  split; [|rewrite record_closed by done; done].
  rewrite Hf. destruct unreadable; [done|]. destruct callErr as [e|]; [|done].
  repeat case_match; done.
Qed.

(** ** Background resolution *)

(** A resolver goroutine of [resolveAsync]: the attempts made and its backoff;
    [rs_done] once its loop is over and only the deferred reset is left. *)
Record resolver := {
  rs_hostport : string;
  rs_attempt : Z;
  rs_backoff : Z;
  rs_done : bool
}.

Record Resolution := {
  rn_cache : addrCache;
  rn_running : list resolver
}.

Section resolution.
Context (maxAttempts base backoffMax : Z).

(** What a failed attempt makes of its resolver. *)
Definition next_attempt (r : resolver) : resolver :=
  if rs_attempt r =? maxAttempts
  then {| rs_hostport := rs_hostport r; rs_attempt := rs_attempt r;
          rs_backoff := rs_backoff r; rs_done := true |}
  else
    let doubled := rs_backoff r *! 2 in
    {| rs_hostport := rs_hostport r; rs_attempt := rs_attempt r + 1;
       rs_backoff := if backoffMax <? doubled then backoffMax else doubled;
       rs_done := false |}.

Definition stopped (r : resolver) : resolver :=
  {| rs_hostport := rs_hostport r; rs_attempt := rs_attempt r; rs_backoff := rs_backoff r;
     rs_done := true |}.

(** Steps of the process on the shared address: calls of [resolveAsync], the
    resolvers' progress, and the dials' own updates, interleaved at will. *)
Inductive resolution_step : relation Resolution :=
  | rs_call hp c l :
      resolution_step {| rn_cache := c; rn_running := l |}
        {| rn_cache := (resolveAsync hp c).2;
           rn_running := if (resolveAsync hp c).1
                         then {| rs_hostport := hp; rs_attempt := 1; rs_backoff := base;
                                 rs_done := false |} :: l
                         else l |}
  | rs_found c l1 r l2 host port ip :
      rs_done r = false → resolvable (rs_hostport r) = Some (host, port) →
      resolution_step {| rn_cache := c; rn_running := l1 ++ r :: l2 |}
        {| rn_cache := addr_set (rs_hostport r) (JoinHostPort ip port) c;
           rn_running := l1 ++ stopped r :: l2 |}
  | rs_failed c l1 r l2 :
      rs_done r = false →
      resolution_step {| rn_cache := c; rn_running := l1 ++ r :: l2 |}
        {| rn_cache := c; rn_running := l1 ++ next_attempt r :: l2 |}
  | rs_exit c l1 r l2 :
      rs_done r = true →
      resolution_step {| rn_cache := c; rn_running := l1 ++ r :: l2 |}
        {| rn_cache := set_resolving false c; rn_running := l1 ++ l2 |}
  | rs_dial_failed hp c l :
      resolution_step {| rn_cache := c; rn_running := l |}
        {| rn_cache := addr_forget hp c; rn_running := l |}
  | rs_dial_ok hp ip c l :
      resolution_step {| rn_cache := c; rn_running := l |}
        {| rn_cache := addr_set hp ip c; rn_running := l |}.

Definition resolver_ok (r : resolver) : Prop :=
  1 ≤ rs_attempt r ≤ maxAttempts ∧ (rs_attempt r = 1 ∨ rs_backoff r ≤ backoffMax).

Definition resolution_inv (s : Resolution) : Prop :=
  Forall resolver_ok (rn_running s) ∧
  match rn_running s with
  | [] => resolving (rn_cache s) = false
  | [_] => resolving (rn_cache s) = true
  | _ => False
  end.

Lemma one_running (l1 : list resolver) r l2 (P Q : Prop) :
  match l1 ++ r :: l2 with [] => P | [_] => Q | _ => False end → l1 = [] ∧ l2 = [] ∧ Q.
Proof. destruct l1 as [|x l1], l2 as [|y l2]; simpl; try tauto; by destruct l1. Qed.

Lemma resolution_step_inv s s' :
  1 ≤ maxAttempts → resolution_step s s' → resolution_inv s → resolution_inv s'.
Proof.
  intros Hmax Hs [Hf Hi]. destruct Hs as [hp c l|c l1 r l2 host port ip Hr Hres|c l1 r l2 Hr|c l1 r l2 Hr|hp c l|hp ip c l];
    simpl in *.
  2,3,4: destruct (one_running _ _ _ _ _ Hi) as (-> & -> & Hc); simpl in Hf; rewrite Forall_singleton in Hf;
    destruct Hf as [Ha Hb]; simpl.
  - unfold resolveAsync. destruct (resolvable hp); [|by split].
    destruct (resolving c) eqn:Hc; simpl; [split; [done|]; simpl; by rewrite Hc|].
    destruct l as [|x [|]]; try done. split; [|done]. apply Forall_singleton.
    split; simpl; [lia|by left].
  - split; [|done]. by apply Forall_singleton.
  - split; [|done]. apply Forall_singleton. unfold next_attempt.
    destruct (Z.eqb_spec (rs_attempt r) maxAttempts); [by split|]. split; simpl; [lia|]. right. destruct (Z.ltb_spec backoffMax (rs_backoff r *! 2)); lia.
  - split; [constructor|done].
  - split; [done|]. unfold addr_forget. destruct (hostport c =? hp)%string; exact Hi.
  - by split.
Qed.

(** C32: whatever the interleaving of calls, answers, failures and dials, at most
    one resolver runs, the flag says whether one does, no resolver makes more than
    the configured number of attempts, and every pause but the first respects the
    cap. *)
Theorem single_resolver s :
  1 ≤ maxAttempts →
  rtc resolution_step {| rn_cache := no_address; rn_running := [] |} s →
  (length (rn_running s) ≤ 1)%nat ∧
  (resolving (rn_cache s) = true ↔ rn_running s ≠ []) ∧
  Forall resolver_ok (rn_running s).
Proof.
  intros Hmax Hr.
  assert (Hi : resolution_inv s).
  { enough (∀ x y, rtc resolution_step x y → resolution_inv x → resolution_inv y) as H
      by (apply (H _ _ Hr); by split).
    induction 1; eauto using resolution_step_inv. }
  destruct s as [c l]. destruct Hi as [Hf Hi]. simpl in *.
  destruct l as [|x [|y l]]; simpl; try done; (split; [lia|]; split; [|done]);
    rewrite Hi; split; done.
Qed.
End resolution.

(** ** Sample calls *)

Definition sample_chan : Chan :=
  {| ch_addr := {| hostport := "scheduler:5000"; ipport := "10.0.0.1:5000"; resolving := false |}%string;
     ch_rec := None; ch_deadline := None |}.

(** A scheduler that answers every post with 503. *)
Definition busy_scheduler : Env :=
  sample_env [] [] (λ _, None) (λ _, HttpResp 503 (BodyInvalid (EMsg "html"))) true None.

Definition sample_killed : ExecutionKilledEvent :=
  {| ke_TraceID := "t1"; ke_ReservationID := "r1"; ke_PauseID := ""; ke_ActionName := "pay";
     ke_ExecutionPhase := "forward"; ke_EnergyBudgetExceeded := true; ke_EnergyConsumedJ := f64_of_Z 3;
     ke_EnergyOriginalArguments := None; ke_ActivationID := "a1" |}%string.

Definition sample_paused : ExecutionPausedEvent :=
  {| pe_TraceID := "t1"; pe_ReservationID := "r1"; pe_PauseID := "pause-1"; pe_ActionName := "pay";
     pe_ExecutionPhase := "forward"; pe_EnergyConsumedJ := f64_of_Z 3; pe_PauseRequestedAt := f64_of_Z 1;
     pe_PauseEffectiveAt := f64_of_Z 1; pe_FreezeLatencyMs := f64_of_Z 1 |}%string.

Lemma killed_delivery_witness :
  ∃ accepted c' w' new, postExecutionKilled sample_killed busy_scheduler sample_chan io_start = Done tt c' w' ∧
    io_trace w' = (if accepted : bool then [] else [EvSafety "EXECUTION_KILLED_UNDELIVERED" "critical"])
                    ++ new ++ [] ∧
    rev (sleeps new) = backoffs (killed_base busy_scheduler) 0 (length (answers new)).
Proof.
  destruct (killed_delivery sample_killed busy_scheduler sample_chan io_start eq_refl)
    as (ok & c' & w' & new & Hr & Ht & _ & _ & Hs & _).
  exists ok, c', w', new. split; [exact Hr|]. split; [exact Ht|exact Hs].
Defined.

Lemma paused_call_witness :
  ∃ cmd t err c' w', postExecutionPaused sample_paused 5000 busy_scheduler sample_chan io_start =
      Done (cmd, t, err) c' w' ∧ (err = None ↔ is_Some cmd) ∧
    (io_clock w' ≤ 0 + paused_timeout busy_scheduler 5000)%Z.
Proof.
  destruct (paused_call sample_paused 5000 busy_scheduler sample_chan io_start)
    as (cmd & t & err & c' & w' & Hr & Hiff & Hc & _); [vm_compute; reflexivity|].
  exists cmd, t, err, c', w'. split; [exact Hr|]. split; [exact Hiff|exact Hc].
Defined.

Lemma paused_timeout_covers_deadline_witness :
  (5000 * millisecond < paused_timeout busy_scheduler 5000)%Z.
Proof.
  apply (paused_timeout_covers_deadline busy_scheduler 5000); apply (bool_decide_unpack _); vm_compute; reflexivity.
Defined.

Lemma kept_address_is_not_resolved_witness :
  ∃ r c' w' new, client_do 1000 "http://scheduler:5000" JNull busy_scheduler sample_chan io_start = Done r c' w' ∧
    io_trace w' = new ++ [] ∧ Forall not_lookup new.
Proof.
  apply (kept_address_is_not_resolved 1000 "http://scheduler:5000" JNull busy_scheduler sample_chan io_start).
  - intros i [hp ip res] H. exact H.
  - vm_compute. discriminate.
Defined.

Lemma single_resolver_witness :
  ∃ s, rtc (resolution_step 3 100 800) {| rn_cache := no_address; rn_running := [] |} s ∧
    rn_running s ≠ [] ∧ (length (rn_running s) ≤ 1)%nat.
Proof.
  set (s := {| rn_cache := (resolveAsync "scheduler:5000" no_address).2;
               rn_running := [{| rs_hostport := "scheduler:5000"; rs_attempt := 1; rs_backoff := 100;
                                 rs_done := false |}] |}).
  assert (Hs : rtc (resolution_step 3 100 800) {| rn_cache := no_address; rn_running := [] |} s).
  { apply rtc_once. exact (rs_call 3 100 800 "scheduler:5000" no_address []). }
  exists s. split; [exact Hs|]. split; [discriminate|].
  destruct (single_resolver 3 100 800 s ltac:(lia) Hs) as [H _]. exact H.
Defined.
