(* ===== verification/Monitor.v ===== *)
(** * The energy monitor ([openwhisk/energyMonitor.go])

    The monitor samples the energy of a running step and, when the threshold is
    reached, kills it on the spot or runs a pause cycle: freeze, ask the
    scheduler, resume or kill.  Its state gathers what the goroutine touches:
    the controller of the process, the segments, the channel, the result handed
    back to [Interact], and the record of the current cycle.

    The theorems are proved through an abstract protocol, [mon_step]: every
    run of the monitor, however long and however cut short, is a path of the
    protocol, and the safety properties are invariants of the protocol. *)

From S2P Require Import Prelude Float64 GoStrings Json Effects Rapl Instrumentation Segments.
From S2P Require Import Freezer EnergyState Channel.

Local Open Scope Z_scope.
Local Open Scope go_scope.

(** ** Interruption classes *)

(** Text after the last slash. *)
Definition shortActionName (qualified : string) : string :=
  str_drop (Z.to_nat (last_index "/" qualified + 1)) qualified.

Definition isNonInterruptibleForThisStep (energy : option EnergyState) : bool :=
  match energy with
  | None => false
  | Some e =>
      match InterruptionClass e with
      | None => false
      | Some classes =>
          if (ResolvedActionName e =? "")%string then true
          else match classes !! ResolvedActionName e with
               | None => false
               | Some class => (class =? "UNKILLABLE")%string
               end
      end
  end.

Definition interruptionClassUnresolved (energy : option EnergyState) : bool :=
  match energy with
  | None => false
  | Some e => bool_decide (is_Some (InterruptionClass e)) && (ResolvedActionName e =? "")%string
  end.

Section logs.
Context {S : Type}.

Definition logSafetyUnkillable (event severity : string) : M S () := safety event severity.

Definition logUnresolvedInterruptionClass : M S () :=
  safety "INTERRUPTION_CLASS_UNRESOLVED" "critical".

Definition shouldMonitorEnergy (energy : option EnergyState) : M S bool :=
  match energy with
  | None => mret false
  | Some e =>
      if f64_leb (ExecutionThresholdJ e) f64_zero then mret false
      else if interruptionClassUnresolved energy then
        logUnresolvedInterruptionClass;; mret false
      else mret true
  end.

Definition energyMonitorInterval : M S Z :=
  ms ← positiveIntEnv "ENERGY_MONITOR_INTERVAL_MS" 100; mret (ms *! millisecond).

Definition unkillableRepollInterval : M S Z :=
  ms ← positiveIntEnv "UNKILLABLE_REPOLL_INTERVAL_MS" 1000; mret (ms *! millisecond).
End logs.

(** ** What the monitor hands back *)

Record EnergyKillInfo := {
  ki_EnergyConsumedJ : f64;
  ki_PauseID : string
}.

Record energyMonitorResult := {
  res_killed : bool;
  res_consumedJ : f64;
  res_pauseID : string;
  res_thresholdJ : f64;
  res_thresholdUpdated : bool;
  res_lifecycle : Lifecycle
}.

Definition new_result : energyMonitorResult :=
  {| res_killed := false; res_consumedJ := f64_zero; res_pauseID := ""; res_thresholdJ := f64_zero;
     res_thresholdUpdated := false; res_lifecycle := zero_lifecycle |}.

Definition setKilled (consumedJ : f64) (pauseID : string) (r : energyMonitorResult) :=
  {| res_killed := true; res_consumedJ := consumedJ; res_pauseID := pauseID;
     res_thresholdJ := res_thresholdJ r; res_thresholdUpdated := res_thresholdUpdated r;
     res_lifecycle := res_lifecycle r |}.

Definition setThreshold (thresholdJ : f64) (r : energyMonitorResult) :=
  {| res_killed := res_killed r; res_consumedJ := res_consumedJ r; res_pauseID := res_pauseID r;
     res_thresholdJ := thresholdJ; res_thresholdUpdated := true; res_lifecycle := res_lifecycle r |}.

Definition set_lifecycle (l : Lifecycle) (r : energyMonitorResult) :=
  {| res_killed := res_killed r; res_consumedJ := res_consumedJ r; res_pauseID := res_pauseID r;
     res_thresholdJ := res_thresholdJ r; res_thresholdUpdated := res_thresholdUpdated r;
     res_lifecycle := l |}.

Definition noteSample (busy : Z) (r : energyMonitorResult) :=
  let l := res_lifecycle r in
  set_lifecycle
    {| lc_MonitorSamples := lc_MonitorSamples l +! 1; lc_MonitorBusyNs := lc_MonitorBusyNs l +! busy;
       lc_SidecarExtractNs := lc_SidecarExtractNs l; lc_SidecarInjectNs := lc_SidecarInjectNs l;
       lc_SidecarStateBytes := lc_SidecarStateBytes l; lc_KillRequestedAt := lc_KillRequestedAt l;
       lc_ProcessStoppedAt := lc_ProcessStoppedAt l; lc_KillCause := lc_KillCause l;
       lc_Cycles := lc_Cycles l |} r.

Definition addCycle (c : PauseCycle) (r : energyMonitorResult) :=
  let l := res_lifecycle r in
  set_lifecycle
    {| lc_MonitorSamples := lc_MonitorSamples l; lc_MonitorBusyNs := lc_MonitorBusyNs l;
       lc_SidecarExtractNs := lc_SidecarExtractNs l; lc_SidecarInjectNs := lc_SidecarInjectNs l;
       lc_SidecarStateBytes := lc_SidecarStateBytes l; lc_KillRequestedAt := lc_KillRequestedAt l;
       lc_ProcessStoppedAt := lc_ProcessStoppedAt l; lc_KillCause := lc_KillCause l;
       lc_Cycles := lc_Cycles l ++ [c] |} r.

Definition noteKill (requestedAt stoppedAt : Z) (cause : string) (r : energyMonitorResult) :=
  let l := res_lifecycle r in
  set_lifecycle
    {| lc_MonitorSamples := lc_MonitorSamples l; lc_MonitorBusyNs := lc_MonitorBusyNs l;
       lc_SidecarExtractNs := lc_SidecarExtractNs l; lc_SidecarInjectNs := lc_SidecarInjectNs l;
       lc_SidecarStateBytes := lc_SidecarStateBytes l;
       lc_KillRequestedAt := unix_seconds requestedAt; lc_ProcessStoppedAt := unix_seconds stoppedAt;
       lc_KillCause := cause; lc_Cycles := lc_Cycles l |} r.

(** Absent when nothing was instrumented. *)
Definition snapshotLifecycle (r : energyMonitorResult) : option Lifecycle :=
  let l := res_lifecycle r in
  if (lc_MonitorSamples l =? 0) && (length (lc_Cycles l) =? 0)%nat &&
     f64_eqb (lc_KillRequestedAt l) f64_zero
  then None else Some l.

(** ** The record of a cycle *)

Definition new_cycle (pauseID : string) (detectedAt : Z) (energyAtThresholdJ thresholdJ : f64) : PauseCycle :=
  {| cyc_PauseID := pauseID; cyc_ThresholdDetectedAt := unix_seconds detectedAt;
     cyc_EnergyAtThresholdJ := energyAtThresholdJ; cyc_FreezeRequestedAt := f64_zero;
     cyc_FreezeEffectiveAt := f64_zero; cyc_EnergyAtEffectiveFreezeJ := f64_zero;
     cyc_ExecutionThresholdJ := thresholdJ; cyc_CommandRoundtripNs := 0; cyc_ConnReused := false;
     cyc_ConnSetupNs := 0; cyc_ChannelTraced := false; cyc_ChannelDNSNs := 0;
     cyc_ChannelConnectNs := 0; cyc_ChannelCachedAddr := false; cyc_ChannelFailure := "";
     cyc_ResumeRequestedAt := f64_zero; cyc_ResumeEffectiveAt := f64_zero;
     cyc_EnergyAtResumeEffectiveJ := f64_zero; cyc_CPUUsecWhileFrozen := None;
     cyc_Outcome := "killed" |}.

Definition cycle_frozen (requestedAt effectiveAt : Z) (energyJ : f64) (c : PauseCycle) : PauseCycle :=
  {| cyc_PauseID := cyc_PauseID c; cyc_ThresholdDetectedAt := cyc_ThresholdDetectedAt c;
     cyc_EnergyAtThresholdJ := cyc_EnergyAtThresholdJ c;
     cyc_FreezeRequestedAt := unix_seconds requestedAt;
     cyc_FreezeEffectiveAt := unix_seconds effectiveAt; cyc_EnergyAtEffectiveFreezeJ := energyJ;
     cyc_ExecutionThresholdJ := cyc_ExecutionThresholdJ c;
     cyc_CommandRoundtripNs := cyc_CommandRoundtripNs c; cyc_ConnReused := cyc_ConnReused c;
     cyc_ConnSetupNs := cyc_ConnSetupNs c; cyc_ChannelTraced := cyc_ChannelTraced c;
     cyc_ChannelDNSNs := cyc_ChannelDNSNs c; cyc_ChannelConnectNs := cyc_ChannelConnectNs c;
     cyc_ChannelCachedAddr := cyc_ChannelCachedAddr c; cyc_ChannelFailure := cyc_ChannelFailure c;
     cyc_ResumeRequestedAt := cyc_ResumeRequestedAt c; cyc_ResumeEffectiveAt := cyc_ResumeEffectiveAt c;
     cyc_EnergyAtResumeEffectiveJ := cyc_EnergyAtResumeEffectiveJ c;
     cyc_CPUUsecWhileFrozen := cyc_CPUUsecWhileFrozen c; cyc_Outcome := cyc_Outcome c |}.

Definition cycle_refined (cpuUsec : Z) (energyJ : f64) (c : PauseCycle) : PauseCycle :=
  {| cyc_PauseID := cyc_PauseID c; cyc_ThresholdDetectedAt := cyc_ThresholdDetectedAt c;
     cyc_EnergyAtThresholdJ := cyc_EnergyAtThresholdJ c;
     cyc_FreezeRequestedAt := cyc_FreezeRequestedAt c;
     cyc_FreezeEffectiveAt := cyc_FreezeEffectiveAt c; cyc_EnergyAtEffectiveFreezeJ := energyJ;
     cyc_ExecutionThresholdJ := cyc_ExecutionThresholdJ c;
     cyc_CommandRoundtripNs := cyc_CommandRoundtripNs c; cyc_ConnReused := cyc_ConnReused c;
     cyc_ConnSetupNs := cyc_ConnSetupNs c; cyc_ChannelTraced := cyc_ChannelTraced c;
     cyc_ChannelDNSNs := cyc_ChannelDNSNs c; cyc_ChannelConnectNs := cyc_ChannelConnectNs c;
     cyc_ChannelCachedAddr := cyc_ChannelCachedAddr c; cyc_ChannelFailure := cyc_ChannelFailure c;
     cyc_ResumeRequestedAt := cyc_ResumeRequestedAt c; cyc_ResumeEffectiveAt := cyc_ResumeEffectiveAt c;
     cyc_EnergyAtResumeEffectiveJ := cyc_EnergyAtResumeEffectiveJ c;
     cyc_CPUUsecWhileFrozen := Some cpuUsec; cyc_Outcome := cyc_Outcome c |}.

Definition cycle_answered (roundtrip : Z) (t : schedulerConnTrace) (c : PauseCycle) : PauseCycle :=
  {| cyc_PauseID := cyc_PauseID c; cyc_ThresholdDetectedAt := cyc_ThresholdDetectedAt c;
     cyc_EnergyAtThresholdJ := cyc_EnergyAtThresholdJ c;
     cyc_FreezeRequestedAt := cyc_FreezeRequestedAt c;
     cyc_FreezeEffectiveAt := cyc_FreezeEffectiveAt c;
     cyc_EnergyAtEffectiveFreezeJ := cyc_EnergyAtEffectiveFreezeJ c;
     cyc_ExecutionThresholdJ := cyc_ExecutionThresholdJ c; cyc_CommandRoundtripNs := roundtrip;
     cyc_ConnReused := tr_Reused t; cyc_ConnSetupNs := tr_SetupNs t; cyc_ChannelTraced := true;
     cyc_ChannelDNSNs := tr_DNSNs t; cyc_ChannelConnectNs := tr_ConnectNs t;
     cyc_ChannelCachedAddr := tr_CachedAddr t;
     cyc_ChannelFailure := if (tr_Failure t =? "")%string then cyc_ChannelFailure c else tr_Failure t;
     cyc_ResumeRequestedAt := cyc_ResumeRequestedAt c; cyc_ResumeEffectiveAt := cyc_ResumeEffectiveAt c;
     cyc_EnergyAtResumeEffectiveJ := cyc_EnergyAtResumeEffectiveJ c;
     cyc_CPUUsecWhileFrozen := cyc_CPUUsecWhileFrozen c; cyc_Outcome := cyc_Outcome c |}.

Definition cycle_resume_times (requestedAt effectiveAt : Z) (c : PauseCycle) : PauseCycle :=
  {| cyc_PauseID := cyc_PauseID c; cyc_ThresholdDetectedAt := cyc_ThresholdDetectedAt c;
     cyc_EnergyAtThresholdJ := cyc_EnergyAtThresholdJ c;
     cyc_FreezeRequestedAt := cyc_FreezeRequestedAt c;
     cyc_FreezeEffectiveAt := cyc_FreezeEffectiveAt c;
     cyc_EnergyAtEffectiveFreezeJ := cyc_EnergyAtEffectiveFreezeJ c;
     cyc_ExecutionThresholdJ := cyc_ExecutionThresholdJ c;
     cyc_CommandRoundtripNs := cyc_CommandRoundtripNs c; cyc_ConnReused := cyc_ConnReused c;
     cyc_ConnSetupNs := cyc_ConnSetupNs c; cyc_ChannelTraced := cyc_ChannelTraced c;
     cyc_ChannelDNSNs := cyc_ChannelDNSNs c; cyc_ChannelConnectNs := cyc_ChannelConnectNs c;
     cyc_ChannelCachedAddr := cyc_ChannelCachedAddr c; cyc_ChannelFailure := cyc_ChannelFailure c;
     cyc_ResumeRequestedAt := unix_seconds requestedAt;
     cyc_ResumeEffectiveAt := unix_seconds effectiveAt;
     cyc_EnergyAtResumeEffectiveJ := cyc_EnergyAtResumeEffectiveJ c;
     cyc_CPUUsecWhileFrozen := cyc_CPUUsecWhileFrozen c; cyc_Outcome := cyc_Outcome c |}.

(** [EnergyAtResumeEffectiveJ] is the energy at the freeze; the other outcomes
    leave it. *)
Definition cycle_outcome (outcome : string) (c : PauseCycle) : PauseCycle :=
  {| cyc_PauseID := cyc_PauseID c; cyc_ThresholdDetectedAt := cyc_ThresholdDetectedAt c;
     cyc_EnergyAtThresholdJ := cyc_EnergyAtThresholdJ c;
     cyc_FreezeRequestedAt := cyc_FreezeRequestedAt c;
     cyc_FreezeEffectiveAt := cyc_FreezeEffectiveAt c;
     cyc_EnergyAtEffectiveFreezeJ := cyc_EnergyAtEffectiveFreezeJ c;
     cyc_ExecutionThresholdJ := cyc_ExecutionThresholdJ c;
     cyc_CommandRoundtripNs := cyc_CommandRoundtripNs c; cyc_ConnReused := cyc_ConnReused c;
     cyc_ConnSetupNs := cyc_ConnSetupNs c; cyc_ChannelTraced := cyc_ChannelTraced c;
     cyc_ChannelDNSNs := cyc_ChannelDNSNs c; cyc_ChannelConnectNs := cyc_ChannelConnectNs c;
     cyc_ChannelCachedAddr := cyc_ChannelCachedAddr c; cyc_ChannelFailure := cyc_ChannelFailure c;
     cyc_ResumeRequestedAt := cyc_ResumeRequestedAt c; cyc_ResumeEffectiveAt := cyc_ResumeEffectiveAt c;
     cyc_EnergyAtResumeEffectiveJ :=
       if (outcome =? "resumed")%string then cyc_EnergyAtEffectiveFreezeJ c
       else cyc_EnergyAtResumeEffectiveJ c;
     cyc_CPUUsecWhileFrozen := cyc_CPUUsecWhileFrozen c; cyc_Outcome := outcome |}.

(** ** The monitor's state *)

Record Mon := {
  mon_ctl : ActivationController;
  mon_seg : SegState;
  mon_chan : Chan;
  mon_res : energyMonitorResult;
  mon_cycle : PauseCycle
}.

Definition set_ctl (c : ActivationController) (m : Mon) : Mon :=
  {| mon_ctl := c; mon_seg := mon_seg m; mon_chan := mon_chan m; mon_res := mon_res m;
     mon_cycle := mon_cycle m |}.
Definition set_segs (s : SegState) (m : Mon) : Mon :=
  {| mon_ctl := mon_ctl m; mon_seg := s; mon_chan := mon_chan m; mon_res := mon_res m;
     mon_cycle := mon_cycle m |}.
Definition set_chan (c : Chan) (m : Mon) : Mon :=
  {| mon_ctl := mon_ctl m; mon_seg := mon_seg m; mon_chan := c; mon_res := mon_res m;
     mon_cycle := mon_cycle m |}.
Definition upd_res (f : energyMonitorResult → energyMonitorResult) (m : Mon) : Mon :=
  {| mon_ctl := mon_ctl m; mon_seg := mon_seg m; mon_chan := mon_chan m; mon_res := f (mon_res m);
     mon_cycle := mon_cycle m |}.
Definition upd_cycle (f : PauseCycle → PauseCycle) (m : Mon) : Mon :=
  {| mon_ctl := mon_ctl m; mon_seg := mon_seg m; mon_chan := mon_chan m; mon_res := mon_res m;
     mon_cycle := f (mon_cycle m) |}.

Definition ctl_lens : lens Mon ActivationController.
Proof. refine (Lens mon_ctl set_ctl _ _); [done|by intros []]. Defined.
Definition seg_lens : lens Mon SegState.
Proof. refine (Lens mon_seg set_segs _ _); [done|by intros []]. Defined.
Definition chan_lens : lens Mon Chan.
Proof. refine (Lens mon_chan set_chan _ _); [done|by intros []]. Defined.

Definition meter_of (m : Mon) : stepMeter := sg_meter (mon_seg m).

(** [time.Now] gives both readings of the clock. *)
Definition now {S} : M S (Z * Z) := wall ← now_wall; mono ← now_mono; mret (wall, mono).

(** Milliseconds, from whole microseconds. *)
Definition ms_of_ns (ns : Z) : f64 := f64_of_Z (Z.quot ns 1000) ⊘ f64_of_Z 1000.

(** ** One pause cycle *)

Definition refineCycleWhileFrozen (consumedBeforeJ : f64) : M Mon () :=
  path ← gets (λ m, ac_path (mon_ctl m));
  pid ← gets (λ m, Pid (mon_ctl m));
  r ← zoom seg_lens (refineFrozenSegment path pid);
  if negb r.2 then mret ()
  else
    m ← get;
    modify (upd_cycle (cycle_refined r.1 (consumedBeforeJ ⊕ closedJ (meter_of m)))).

(** The kill of a step, timed: a refused kill is logged and the step is reported
    as killed all the same. *)
Definition kill_step (pauseID cause : string) : M Mon () :=
  requested ← now_wall;
  zoom ctl_lens (killExecution pauseID);;
  stopped ← now_wall;
  modify (upd_res (noteKill requested stopped cause)).

(** The choke point of every branch that cannot safely continue: kills an
    ordinary step, makes an UNKILLABLE one wait and ask again; reports
    whether to ask again. *)
Definition killOrRetry (unkillable : bool) (consumedBeforeJ : f64) (pauseID event severity : string) :
    M Mon bool :=
  if unkillable then
    logSafetyUnkillable event severity;;
    interval ← unkillableRepollInterval;
    sleep interval;;
    mret true
  else
    refineCycleWhileFrozen consumedBeforeJ;;
    kill_step pauseID event;;
    mret false.

#[global] Arguments killOrRetry : simpl never.

Definition resume_step (energy : EnergyState) (pauseID : string) : M Mon (option TransitionError) :=
  refineCycleWhileFrozen (ConsumedBeforeJ energy);;
  requested ← now_wall;
  err ← zoom ctl_lens (resumeExecution pauseID);
  match err with
  | Some e => mret (Some e)
  | None =>
      effective ← now_wall;
      modify (upd_cycle (cycle_resume_times requested effective));;
      path ← gets (λ m, ac_path (mon_ctl m));
      pid ← gets (λ m, Pid (mon_ctl m));
      zoom seg_lens (openSegmentAtResume path pid);;
      modify (upd_cycle (cycle_outcome "resumed"));;
      mret None
  end.

Definition cycle_result : Type := f64 * bool * string.

(** The wait for a command, with the number of times EXECUTION_PAUSED may still
    be posted. *)
Fixpoint pause_loop (polls : nat) (energy : EnergyState) (unkillable : bool)
    (event : ExecutionPausedEvent) : M Mon cycle_result :=
  match polls with
  | O => blocked
  | Datatypes.S polls =>
      let pauseID := pe_PauseID event in
      let again := pause_loop polls energy unkillable event in
      let kill_or_retry (name severity : string) :=
        retry ← killOrRetry unkillable (ConsumedBeforeJ energy) pauseID name severity;
        if retry : bool then again else mret (f64_zero, true, pauseID) in
      sent ← now_mono;
      r ← zoom chan_lens (postExecutionPaused event (MaxPauseDurationMs energy));
      back ← now_mono;
      modify (upd_cycle (cycle_answered (back -! sent) r.1.2));;
      match r.2, r.1.1 with
      | Some _, _ => kill_or_retry "PAUSE_CHANNEL_FAILED" "warning"
      | None, None => panic "nil command"
      | None, Some command =>
          if negb (cmd_PauseID command =? pauseID)%string then
            kill_or_retry "PAUSE_ID_MISMATCH" "warning"
          else if (cmd_Command command =? "RESUME_EXECUTION")%string then
            err ← resume_step energy pauseID;
            match err with
            | Some _ => kill_or_retry "RESUME_FAILED" "critical"
            | None => mret (cmd_NewExecutionThresholdJ command, false, pauseID)
            end
          else if (cmd_Command command =? "WAIT_EXECUTION")%string then
            if negb unkillable then kill_or_retry "UNEXPECTED_WAIT_COMMAND" "critical"
            else
              modify (upd_cycle (cycle_outcome "queued_wait"));;
              interval ← unkillableRepollInterval;
              sleep interval;;
              again
          else if (cmd_Command command =? "KILL_EXECUTION")%string then
            if unkillable then
              logSafetyUnkillable "KILL_EXECUTION_REFUSED_UNKILLABLE" "critical";;
              interval ← unkillableRepollInterval;
              sleep interval;;
              again
            else
              refineCycleWhileFrozen (ConsumedBeforeJ energy);;
              kill_step pauseID ("SCHEDULER_COMMAND:" +:+ cmd_Reason command);;
              mret (f64_zero, true, pauseID)
          else kill_or_retry "UNKNOWN_SCHEDULER_COMMAND" "warning"
      end
  end%string.

Definition pause_body (polls : nat) (energy : EnergyState) (actionName : string) (stepJ : f64)
    (pauseID : string) : M Mon cycle_result :=
  let unkillable := isNonInterruptibleForThisStep (Some energy) in
  requested ← now;
  err ← zoom ctl_lens (freezeExecution pauseID);
  match err with
  | Some _ =>
      if unkillable then
        logSafetyUnkillable "FREEZE_FAILED_UNKILLABLE" "critical";;
        mret (ExecutionThresholdJ energy, false, pauseID)
      else
        kill_step pauseID "FREEZE_FAILED";;
        mret (f64_zero, true, pauseID)
  | None =>
      effective ← now;
      path ← gets (λ m, ac_path (mon_ctl m));
      pid ← gets (λ m, Pid (mon_ctl m));
      closed ← zoom seg_lens (closeSegmentAtFreeze path pid);
      m ← get;
      let frozenStepJ := if closed : bool then closedJ (meter_of m) else stepJ in
      let energyJ := ConsumedBeforeJ energy ⊕ frozenStepJ in
      modify (upd_cycle (cycle_frozen requested.1 effective.1 energyJ));;
      pause_loop polls energy unkillable
        {| pe_TraceID := TraceID energy; pe_ReservationID := ReservationID energy;
           pe_PauseID := pauseID; pe_ActionName := actionName;
           pe_ExecutionPhase := ExecutionPhase energy; pe_EnergyConsumedJ := energyJ;
           pe_PauseRequestedAt := unix_seconds requested.1;
           pe_PauseEffectiveAt := unix_seconds effective.1;
           pe_FreezeLatencyMs := ms_of_ns (effective.2 -! requested.2) |}
  end.

(** The cycle is recorded on every return, by a deferred call. *)
Definition runPauseCycle (polls : nat) (energy : EnergyState) (actionName : string) (stepJ : f64)
    (thresholdDetectedAt : Z) (energyAtThresholdJ : f64) : M Mon cycle_result :=
  pauseID ← newPauseID;
  modify (upd_cycle (λ _, new_cycle pauseID thresholdDetectedAt energyAtThresholdJ
                            (ExecutionThresholdJ energy)));;
  r ← pause_body polls energy actionName stepJ pauseID;
  cycle ← gets mon_cycle;
  modify (upd_res (addCycle cycle));;
  mret r.

(** ** The sampling loop *)

(** One tick: the state to go on under, [None] to return. *)
Definition monitor_tick (polls : nat) (energy : EnergyState) (actionName : string) :
    M Mon (option EnergyState) :=
  sampleStart ← now_mono;
  reading ← readEnergy;
  match reading with
  | inr _ =>
      after ← now_mono;
      modify (upd_res (noteSample (after -! sampleStart)));;
      mret (Some energy)
  | inl energyNow =>
      pid ← gets (λ m, Pid (mon_ctl m));
      cpuNow ← readCPUSnapshot pid;
      meter ← gets meter_of;
      stepJ ← asks (λ env, stepJ env meter energyNow cpuNow);
      after ← now_mono;
      modify (upd_res (noteSample (after -! sampleStart)));;
      if f64_ltb (ConsumedBeforeJ energy ⊕ stepJ) (ExecutionThresholdJ energy)
      then mret (Some energy)
      else
        detectedAt ← now_wall;
        if negb (PauseEnabled energy) then
          if isNonInterruptibleForThisStep (Some energy) then
            logSafetyUnkillable "LOCAL_KILL_REFUSED_UNKILLABLE" "critical";;
            mret None
          else
            kill_step "" "THRESHOLD_NO_PAUSE";;
            modify (upd_res (setKilled stepJ ""));;
            mret None
        else
          r ← runPauseCycle polls energy actionName stepJ detectedAt (ConsumedBeforeJ energy ⊕ stepJ);
          let '(newThresholdJ, killed, pauseID) := r in
          if killed : bool then
            meter ← gets meter_of;
            modify (upd_res (setKilled (if frozen meter then closedJ meter else stepJ) pauseID));;
            mret None
          else
            modify (upd_res (setThreshold newThresholdJ));;
            mret (Some (with_threshold newThresholdJ energy))
  end.

(** The [select] between [stop] and the ticker, [ticks] times at most. *)
Fixpoint monitor_loop (ticks polls : nat) (energy : EnergyState) (actionName : string) : M Mon () :=
  match ticks with
  | O => blocked
  | Datatypes.S ticks =>
      stop ← flag;
      if stop : bool then mret ()
      else
        next ← monitor_tick polls energy actionName;
        match next with
        | Some energy => monitor_loop ticks polls energy actionName
        | None => mret ()
        end
  end.

Definition set_meter (meter : stepMeter) (s : SegState) : SegState :=
  {| sg_meter := meter; sg_marks := sg_marks s |}.

Definition monitorEnergy (ticks polls : nat) (energy : EnergyState) : M Mon () :=
  reading ← readEnergy;
  match reading with
  | inr _ => mret ()
  | inl energyStart =>
      pid ← gets (λ m, Pid (mon_ctl m));
      cpuStart ← readCPUSnapshot pid;
      modify (λ m, set_segs (set_meter (newStepMeter energyStart cpuStart) (mon_seg m)) m);;
      interval ← energyMonitorInterval;
      if interval <=? 0 then panic "non-positive interval for NewTicker"
      else monitor_loop ticks polls energy (ResolvedActionName energy)
  end.

(** ** The protocol *)

(** The last call of the HTTP client. *)
Fixpoint last_post (tr : list event) : option (json * http_result) :=
  match tr with
  | [] => None
  | EvPost _ body r :: _ => Some (body, r)
  | _ :: rest => last_post rest
  end.

(** The scheduler's last answer is a RESUME_EXECUTION for this very pause. *)
Definition authorised (pauseID : string) (tr : list event) : Prop :=
  ∃ event r command, last_post tr = Some (paused_json event, r) ∧ pe_PauseID event = pauseID ∧
    decision r = Some command ∧ cmd_Command command = "RESUME_EXECUTION"%string ∧
    cmd_PauseID command = pauseID.

Definition quietly (w w' : io) : Prop :=
  ∃ new, io_trace w' = new ++ io_trace w ∧ Forall quiet new.

(** What a monitored step may go through; [unkillable] is its class, [first] the
    readings its meter starts from. *)
Inductive mon_step (env : Env) (unkillable : bool) (first : Z * CPUSnapshot) : relation (Mon * io) :=
  | ms_world s w w' : quietly w w' → mon_step env unkillable first (s, w) (s, w')
  | ms_start s w :
      sg_marks (mon_seg s) = [] →
      mon_step env unkillable first (s, w)
        (set_segs (set_meter (newStepMeter first.1 first.2) (mon_seg s)) s, w)
  | ms_note s w f :
      (∀ r, res_killed (f r) = res_killed r) → mon_step env unkillable first (s, w) (upd_res f s, w)
  | ms_cycle s w f : mon_step env unkillable first (s, w) (upd_cycle f s, w)
  | ms_freeze s w p r c w' :
      freezeExecution p env (mon_ctl s) w = Done r c w' →
      mon_step env unkillable first (s, w) (set_ctl c s, w')
  | ms_close s w path pid b sg w' :
      ac_state (mon_ctl s) = StateFrozen → frozen (meter_of s) = false →
      closeSegmentAtFreeze path pid env (mon_seg s) w = Done b sg w' →
      mon_step env unkillable first (s, w) (set_segs sg s, w')
  | ms_post s w event maxMs r ch w' :
      ac_state (mon_ctl s) ≠ StateRunning →
      postExecutionPaused event maxMs env (mon_chan s) w = Done r ch w' →
      mon_step env unkillable first (s, w) (set_chan ch s, w')
  | ms_refine s w path pid r sg w' :
      refineFrozenSegment path pid env (mon_seg s) w = Done r sg w' →
      mon_step env unkillable first (s, w) (set_segs sg s, w')
  | ms_resume s w p r c w' :
      authorised p (io_trace w) → resumeExecution p env (mon_ctl s) w = Done r c w' →
      mon_step env unkillable first (s, w) (set_ctl c s, w')
  | ms_open s w path pid b sg w' :
      openSegmentAtResume path pid env (mon_seg s) w = Done b sg w' →
      mon_step env unkillable first (s, w) (set_segs sg s, w')
  | ms_kill s w p r c w' :
      unkillable = false → killExecution p env (mon_ctl s) w = Done r c w' →
      mon_step env unkillable first (s, w) (set_ctl c s, w')
  | ms_kill_blocked s w p c w' :
      unkillable = false → killExecution p env (mon_ctl s) w = Cut c w' →
      mon_step env unkillable first (s, w) (set_ctl c s, w')
  | ms_killed s w f :
      unkillable = false → mon_step env unkillable first (s, w) (upd_res f s, w).

(** An invariant of the protocol's steps holds along its paths. *)
Lemma mon_rtc_ind env u first (I : Mon → io → Prop) x y :
  (∀ s w s' w', mon_step env u first (s, w) (s', w') → I s w → I s' w') →
  rtc (mon_step env u first) x y → I x.1 x.2 → I y.1 y.2.
Proof.
  intros Hstep Hr. induction Hr as [|[s1 w1] [s2 w2] z Hs _ IH]; [done|].
  intros HI. apply IH. by eapply Hstep.
Qed.

(** [path Q m s w]: from [s] and [w], whatever [m] has done when it returns, is cut
    short or panics is a path of the protocol, and [Q] holds if it returns. *)
Section paths.
Context (env : Env) (unkillable : bool) (first : Z * CPUSnapshot).

Definition path {A} (Q : A → Mon → io → Prop) (m : M Mon A) (s : Mon) (w : io) : Prop :=
  rtc (mon_step env unkillable first) (s, w) (out_st (m env s w), out_io (m env s w)) ∧
  match m env s w with Done a s' w' => Q a s' w' | _ => True end.

Lemma path_bind {A B} Q (m : M Mon A) (k : A → M Mon B) s w :
  path (λ a s' w', path Q (k a) s' w') m s w → path Q (m ≫= k) s w.
Proof.
  unfold path, mbind, M_bind. destruct (m env s w) as [a s' w'|s' w'|msg s' w']; simpl; [|done..].
  intros (H1 & H2 & H3). split; [by etrans|done].
Qed.

Lemma path_weaken {A} (Q Q' : A → Mon → io → Prop) (m : M Mon A) s w :
  path Q m s w → (∀ a s' w', Q a s' w' → Q' a s' w') → path Q' m s w.
Proof. unfold path. intros [H1 H2] HQ. split; [done|]. destruct (m env s w); auto. Qed.

Lemma path_invariant {A} (I : Mon → io → Prop) (Q : A → Mon → io → Prop) (m : M Mon A) s w :
  (∀ s w s' w', mon_step env unkillable first (s, w) (s', w') → I s w → I s' w') →
  I s w → path Q m s w → path (λ a s' w', Q a s' w' ∧ I s' w') m s w.
Proof.
  unfold path. intros Hstep Hi [H1 H2]. split; [done|].
  pose proof (mon_rtc_ind _ _ _ I _ _ Hstep H1 Hi) as H. by destruct (m env s w).
Qed.

Lemma path_ret {A} Q (a : A) s w : Q a s w → path Q (mret a) s w.
Proof. intros. split; [apply rtc_refl|done]. Qed.

Lemma path_gets {A B} Q (f : Mon → A) (k : A → M Mon B) s w :
  path Q (k (f s)) s w → path Q (gets f ≫= k) s w.
Proof. exact id. Qed.
Lemma path_now_mono {B} Q (k : Z → M Mon B) s w :
  path Q (k (io_clock w)) s w → path Q (now_mono ≫= k) s w.
Proof. exact id. Qed.
Lemma path_get {B} Q (k : Mon → M Mon B) s w : path Q (k s) s w → path Q (get ≫= k) s w.
Proof. exact id. Qed.
Lemma path_asks {A B} Q (f : Env → A) (k : A → M Mon B) s w :
  path Q (k (f env)) s w → path Q (asks f ≫= k) s w.
Proof. exact id. Qed.

Lemma path_step {A} Q (m : M Mon A) s w a s' w' :
  m env s w = Done a s' w' → mon_step env unkillable first (s, w) (s', w') → Q a s' w' → path Q m s w.
Proof. unfold path. intros -> Hs HQ. split; [by apply rtc_once|done]. Qed.

Lemma path_reading {A} Q (m : M Mon A) s w :
  reads m → emits quiet m → (∀ a w', m env s w = Done a s w' → quietly w w' → Q a s w') → path Q m s w.
Proof.
  intros Hr He HQ. destruct (Hr env s w) as (a & w' & Ha).
  destruct (He env s w I) as [(new & Ht & Hf) _]. rewrite Ha in Ht. simpl in Ht.
  eapply path_step; [exact Ha|apply ms_world|apply HQ]; try done; by exists new.
Qed.

Lemma path_world {A} Q (m : M Mon A) s w :
  reads m → emits quiet m → (∀ a w', quietly w w' → Q a s w') → path Q m s w.
Proof. intros Hr He HQ. apply path_reading; [done..|]. intros a w' _. apply HQ. Qed.

Lemma path_note Q f s w :
  (∀ r, res_killed (f r) = res_killed r) → Q tt (upd_res f s) w → path Q (modify (upd_res f)) s w.
Proof. intros Hf HQ. by eapply path_step; [|apply ms_note|]. Qed.

Lemma path_cycle Q f s w : Q tt (upd_cycle f s) w → path Q (modify (upd_cycle f)) s w.
Proof. intros HQ. by eapply path_step; [|apply ms_cycle|]. Qed.

Lemma path_killed Q f s w :
  unkillable = false → Q tt (upd_res f s) w → path Q (modify (upd_res f)) s w.
Proof. intros Hf HQ. by eapply path_step; [|apply ms_killed|]. Qed.
End paths.

(** ** Quiet bodies *)

Section quiet.
Context {S : Type}.

Lemma readEnergy_reads : reads (readEnergy : M S _).
Proof. unfold readEnergy. solve_reads. Qed.
Lemma readEnergy_quiet : emits quiet (readEnergy : M S _).
Proof. unfold readEnergy, read_file. solve_emits ltac:(done). Qed.

Lemma ticks_v2_quiet lines : emits quiet (ticks_v2 lines : M S _).
Proof.
  induction lines as [|l lines IH]; simpl; unfold readCgroupV2CPUUsec, read_file; [solve_emits ltac:(done)|].
  case_match; [done|]. solve_emits ltac:(done).
Qed.
Lemma ticks_v1_quiet lines : emits quiet (ticks_v1 lines : M S _).
Proof.
  induction lines as [|l lines IH]; cbn [ticks_v1]; unfold read_file; [solve_emits ltac:(done)|].
  repeat (case_match; try done); solve_emits ltac:(done).
Qed.

Lemma readCPUSnapshot_quiet pid : emits quiet (readCPUSnapshot pid : M S _).
Proof.
  unfold readCPUSnapshot, readProcessTicks, now_wall, read_file.
  pose proof ticks_v2_quiet. pose proof ticks_v1_quiet. solve_emits ltac:(done).
Qed.
Lemma readCPUSnapshot_reads pid : reads (readCPUSnapshot pid : M S _).
Proof. exact (cpuSnapshot_reads "" pid). Qed.

Lemma cpuSnapshot_quiet path pid : emits quiet (cpuSnapshot path pid : M S _).
Proof.
  unfold cpuSnapshot. case_match; [|apply readCPUSnapshot_quiet].
  unfold readCPUSnapshotFromCgroup, readCgroupV2CPUUsec, read_file, now_wall. solve_emits ltac:(done).
Qed.
Lemma segmentSnapshot_quiet path pid : emits quiet (segmentSnapshot path pid : M S _).
Proof.
  pose proof (cpuSnapshot_quiet path pid). pose proof readEnergy_quiet.
  unfold segmentSnapshot. solve_emits ltac:(done).
Qed.

Lemma newPauseID_reads : reads (newPauseID : M S _).
Proof. unfold newPauseID. solve_reads. Qed.
Lemma newPauseID_quiet : emits quiet (newPauseID : M S _).
Proof. unfold newPauseID, now_wall. solve_emits ltac:(done). Qed.
Lemma now_reads : reads (now : M S _).
Proof. unfold now. solve_reads. Qed.
Lemma now_quiet : emits quiet (now : M S _).
Proof. unfold now, now_wall. solve_emits ltac:(done). Qed.
Lemma repoll_reads : reads (unkillableRepollInterval : M S _).
Proof. unfold unkillableRepollInterval, positiveIntEnv. solve_reads. Qed.
Lemma repoll_quiet : emits quiet (unkillableRepollInterval : M S _).
Proof. unfold unkillableRepollInterval, positiveIntEnv. solve_emits ltac:(done). Qed.
Lemma safety_quiet n sv : emits quiet (safety n sv : M S _).
Proof. unfold safety. solve_emits ltac:(done). Qed.
Lemma now_wall_quiet : emits quiet (now_wall : M S _).
Proof. unfold now_wall. solve_emits ltac:(done). Qed.
Lemma sleep_quiet ns : emits quiet (sleep ns : M S _).
Proof. by apply emits_sleep. Qed.
End quiet.

#[export] Hint Resolve readEnergy_reads readCPUSnapshot_reads newPauseID_reads now_reads repoll_reads : reads.
Create HintDb quiet.
#[export] Hint Resolve readEnergy_quiet readCPUSnapshot_quiet newPauseID_quiet now_quiet repoll_quiet
  safety_quiet now_wall_quiet sleep_quiet emits_getenv emits_now_mono : quiet.

Lemma refine_quiet path pid : emits quiet (refineFrozenSegment path pid).
Proof.
  pose proof (@cpuSnapshot_quiet SegState path pid). unfold refineFrozenSegment. solve_emits ltac:(done).
Qed.
Lemma close_quiet path pid : emits quiet (closeSegmentAtFreeze path pid).
Proof.
  pose proof (@segmentSnapshot_quiet SegState path pid).
  unfold closeSegmentAtFreeze, logSegmentMarkMissing, safety. solve_emits ltac:(done).
Qed.
Lemma open_quiet path pid : emits quiet (openSegmentAtResume path pid).
Proof.
  pose proof (@segmentSnapshot_quiet SegState path pid).
  unfold openSegmentAtResume, logSegmentMarkMissing, safety, now_wall. solve_emits ltac:(done).
Qed.

Lemma quietly_of {S A} (m : M S A) env s w a s' w' :
  emits quiet m → m env s w = Done a s' w' → quietly w w'.
Proof.
  intros He Hr. destruct (He env s w I) as [(new & Ht & Hf) _]. rewrite Hr in Ht. by exists new.
Qed.

Lemma quietly_refl w : quietly w w.
Proof. by exists []. Qed.
Lemma quietly_trans w1 w2 w3 : quietly w1 w2 → quietly w2 w3 → quietly w1 w3.
Proof.
  intros (n1 & H1 & F1) (n2 & H2 & F2). exists (n2 ++ n1). rewrite H2, H1, app_assoc.
  split; [done|]. by apply Forall_app.
Qed.

Lemma quietly_last_post w w' : quietly w w' → last_post (io_trace w') = last_post (io_trace w).
Proof.
  intros (new & -> & Hf). induction Hf as [|e new He _ IH]; [done|]. by destruct e.
Qed.

Lemma authorised_quietly p w w' : quietly w w' → authorised p (io_trace w) → authorised p (io_trace w').
Proof. intros Hq. unfold authorised. by rewrite (quietly_last_post _ _ Hq). Qed.

(** The readings [monitorEnergy] starts its meter from. *)
Definition first_readings (env : Env) (s : Mon) (w : io) : Z * CPUSnapshot :=
  match readEnergy env s w with
  | Done (inl energyStart) s1 w1 =>
      match readCPUSnapshot (Pid (mon_ctl s)) env s1 w1 with
      | Done cpuStart _ _ => (energyStart, cpuStart)
      | _ => (0, zero_snapshot)
      end
  | _ => (0, zero_snapshot)
  end.

(** A started step: its meter and its marks describe the same segments. *)
Definition segments_inv (env : Env) (first : Z * CPUSnapshot) (s : Mon) (w : io) : Prop :=
  agree env first.1 first.2 (mon_seg s).

Lemma segments_inv_step env u first s w s' w' :
  mon_step env u first (s, w) (s', w') → segments_inv env first s w → segments_inv env first s' w'.
Proof.
  unfold segments_inv. intros Hs Hi.
  inversion Hs as [|? ? Hm| | | |? ? pa pi ? ? ? Hc Hf Hr| |? ? pa pi ? ? ? Hr| |? ? pa pi ? ? ? Hr| | |];
    simplify_eq/=; try done.
  - destruct (mon_seg s) as [m l]. simpl in *. subst l. apply agree_start.
  - eapply (seg_step_agree env pa pi); [|exact Hi]. by eapply step_close.
  - eapply (seg_step_agree env pa pi); [|exact Hi]. by eapply step_refine.
  - eapply (seg_step_agree env pa pi); [|exact Hi]. by eapply step_open.
Qed.

(** ** The monitor follows the protocol *)

Section follows.
Context (env : Env) (unkillable : bool) (first : Z * CPUSnapshot).
Local Abbreviation pth := (path env unkillable first).

(** World steps in front of a continuation. *)
Lemma path_world_bind {A B} (Q : B → Mon → io → Prop) (m : M Mon A) (k : A → M Mon B) s w :
  reads m → emits quiet m → (∀ a w', quietly w w' → pth Q (k a) s w') → pth Q (m ≫= k) s w.
Proof. intros Hr He Hk. apply path_bind. by apply path_world. Qed.

Lemma refine_path consumed s w (Q : () → Mon → io → Prop) :
  (∀ s' w', quietly w w' → mon_ctl s' = mon_ctl s → mon_res s' = mon_res s →
     frozen (meter_of s') = frozen (meter_of s) → Q tt s' w') →
  pth Q (refineCycleWhileFrozen consumed) s w.
Proof.
  intros HQ. unfold refineCycleWhileFrozen. apply path_gets, path_gets, path_bind.
  set (pa := ac_path _). set (pi := Pid _).
  destruct (refineFrozenSegment_spec pa pi env (mon_seg s) w) as (r & w' & t & Hr & Hf).
  pose proof (quietly_of _ _ _ _ _ _ _ (refine_quiet pa pi) Hr) as Hq.
  eapply path_step; [unfold zoom; simpl; by rewrite Hr|by eapply ms_refine|].
  assert (Hfr : frozen (refineFrozenCPU env t (sg_meter (mon_seg s))).2 = frozen (meter_of s)).
  { unfold refineFrozenCPU. by destruct (negb _ || _). }
  rewrite Hf. destruct (negb _).
  - apply path_ret. by apply HQ.
  - apply path_get, path_cycle. by apply HQ.
Qed.

Lemma kill_path pauseID cause s w (Q : () → Mon → io → Prop) :
  unkillable = false →
  (∀ s' w', mon_seg s' = mon_seg s → res_killed (mon_res s') = res_killed (mon_res s) → Q tt s' w') →
  pth Q (kill_step pauseID cause) s w.
Proof.
  intros Hu HQ. unfold kill_step. apply path_world_bind; [auto with reads|apply now_wall_quiet|].
  intros requested w1 _. apply path_bind.
  pose proof (controller_step OpKill pauseID env (mon_ctl s) w1) as Hc. simpl in Hc.
  destruct (killExecution pauseID env (mon_ctl s) w1) as [r c w2|c w2|] eqn:Hk; [| |done].
  - eapply path_step; [unfold zoom; simpl; by rewrite Hk|by eapply ms_kill|].
    apply path_world_bind; [auto with reads|apply now_wall_quiet|]. intros stopped w3 _.
    apply path_note; [done|]. by apply HQ.
  - unfold path, zoom. simpl. rewrite Hk. simpl. split; [|done].
    by apply rtc_once, ms_kill_blocked with pauseID.
Qed.

Lemma killOrRetry_path u consumed pauseID name severity s w (Q : bool → Mon → io → Prop) :
  u = unkillable → ac_state (mon_ctl s) ≠ StateRunning →
  (∀ s' w', res_killed (mon_res s') = res_killed (mon_res s) →
     unkillable = false → Q false s' w') →
  (∀ w', unkillable = true → Q true s w') →
  pth Q (killOrRetry u consumed pauseID name severity) s w.
Proof.
  intros Hu Hc Hkill Hretry. unfold killOrRetry. destruct u.
  - unfold logSafetyUnkillable.
    apply path_world_bind; [auto with reads|apply safety_quiet|]. intros [] w1 _.
    apply path_world_bind; [auto with reads|apply repoll_quiet|]. intros i w2 _.
    apply path_world_bind; [auto with reads|apply sleep_quiet|]. intros [] w3 _.
    apply path_ret. by apply Hretry.
  - apply path_bind, refine_path. intros s1 w1 _ Hc1 Hr1 _.
    apply path_bind, kill_path; [done|]. intros s2 w2 _ Hr2. apply path_ret.
    apply Hkill; [congruence|done].
Qed.

Lemma resume_path energy pauseID s w (Q : option TransitionError → Mon → io → Prop) :
  ac_state (mon_ctl s) ≠ StateRunning → authorised pauseID (io_trace w) →
  (∀ s' w', res_killed (mon_res s') = res_killed (mon_res s) →
     frozen (meter_of s') = false → Q None s' w') →
  (∀ e s' w', res_killed (mon_res s') = res_killed (mon_res s) →
     ac_state (mon_ctl s') ≠ StateRunning → Q (Some e) s' w') →
  pth Q (resume_step energy pauseID) s w.
Proof.
  intros Hns Hauth Hok Hko. unfold resume_step.
  apply path_bind, refine_path. intros s1 w1 Hq1 Hc1 Hr1 _.
  apply path_world_bind; [auto with reads|apply now_wall_quiet|]. intros requested w2 Hq2.
  apply path_bind.
  pose proof (controller_step OpResume pauseID env (mon_ctl s1) w2) as Hc. simpl in Hc.
  destruct (resumeExecution pauseID env (mon_ctl s1) w2) as [r c w3|c w3|] eqn:Hrun;
    [|by destruct Hc as [? _]|done].
  eapply path_step; [unfold zoom; simpl; by rewrite Hrun| |].
  { eapply ms_resume; [|exact Hrun]. eapply authorised_quietly; [|exact Hauth].
    by eapply quietly_trans. }
  destruct Hc as [Hs _]. destruct r as [e|].
  - apply path_ret. apply Hko; [simpl; congruence|]. simpl. rewrite Hc1 in Hs.
    destruct (mon_ctl s), c; inversion Hs; simplify_eq/=; congruence.
  - apply path_world_bind; [auto with reads|apply now_wall_quiet|]. intros effective w4 _.
    apply path_bind, path_cycle, path_gets, path_gets, path_bind.
    match goal with |- context [openSegmentAtResume ?a ?b] => set (pa := a); set (pi := b) end.
    destruct (openSegmentAtResume_spec pa pi env (mon_seg s1) w4) as (b & w5 & Hopen).
    assert (Ho : ∃ sg, openSegmentAtResume pa pi env (mon_seg s1) w4 = Done b sg w5 ∧
      frozen (sg_meter sg) = false).
    { destruct (frozen (sg_meter (mon_seg s1))) eqn:Hf.
      - destruct Hopen as (e & cc & Hopen & _). by eexists.
      - by eexists. }
    destruct Ho as (sg & Ho & Hf).
    eapply path_step; [unfold zoom; simpl; by rewrite Ho|by eapply ms_open|].
    apply path_bind, path_cycle, path_ret. apply Hok; simpl; [congruence|done].
Qed.

Lemma post_step event maxMs s w :
  ∃ cmd t err c' w', postExecutionPaused event maxMs env (mon_chan s) w = Done (cmd, t, err) c' w' ∧
    (err = None ↔ is_Some cmd) ∧
    (∀ command, cmd = Some command → cmd_Command command = "RESUME_EXECUTION"%string →
       cmd_PauseID command = pe_PauseID event → authorised (pe_PauseID event) (io_trace w')).
Proof.
  destruct (postExecutionPaused_spec event maxMs env (mon_chan s) w)
    as (cmd & t & err & c' & w' & Hrun & Hiff & H).
  eexists _, _, _, _, _. split; [exact Hrun|]. split; [done|].
  intros command -> Hr Hp. destruct H as [[_ ?]|(r & new & Ht & _ & Hc & _)]; [done|].
  exists event, r, command. rewrite Ht. auto.
Qed.

(** What a pause cycle leaves: a killed step is not UNKILLABLE, a resumed one runs
    in an open segment. *)
Definition cycle_left (s0 : Mon) (r : cycle_result) (s : Mon) : Prop :=
  res_killed (mon_res s) = res_killed (mon_res s0) ∧
  (r.1.2 = true → unkillable = false) ∧ (r.1.2 = false → frozen (meter_of s) = false).

Lemma pause_loop_path u polls energy event : u = unkillable → ∀ s w,
  ac_state (mon_ctl s) ≠ StateRunning →
  pth (λ r s' _, cycle_left s r s') (pause_loop polls energy u event) s w.
Proof.
  intros Hu. induction polls as [|polls IH]; intros s w Hns; cbn [pause_loop].
  { split; [apply rtc_refl|done]. }
  set (again := pause_loop polls energy u event) in *.
  assert (Hagain : ∀ s' w', res_killed (mon_res s') = res_killed (mon_res s) →
    ac_state (mon_ctl s') ≠ StateRunning → pth (λ r s'' _, cycle_left s r s'') again s' w').
  { intros s' w' Hr Hst. eapply path_weaken; [by apply IH|].
    intros r s2 w2 (? & ? & ?). split; [congruence|done]. }
  assert (Hkr : ∀ name severity s' w', res_killed (mon_res s') = res_killed (mon_res s) →
    ac_state (mon_ctl s') ≠ StateRunning →
    pth (λ r s'' _, cycle_left s r s'')
      (retry ← killOrRetry u (ConsumedBeforeJ energy) (pe_PauseID event) name severity;
       if retry : bool then again else mret (f64_zero, true, pe_PauseID event)) s' w').
  { intros name severity s' w' Hr Hst. apply path_bind, killOrRetry_path; [done|done| |].
    - intros s2 w2 Hr2 Hu2. apply path_ret. split; [congruence|done].
    - intros w2 _. by apply Hagain. }
  assert (Hpoll : ∀ s' w', res_killed (mon_res s') = res_killed (mon_res s) →
    ac_state (mon_ctl s') ≠ StateRunning →
    pth (λ r s'' _, cycle_left s r s'')
      (interval ← unkillableRepollInterval; sleep interval;; again) s' w').
  { intros s' w' Hr Hst.
    apply path_world_bind; [auto with reads|apply repoll_quiet|]. intros i w2 _.
    apply path_world_bind; [auto with reads|apply sleep_quiet|]. intros [] w3 _. by apply Hagain. }
  clearbody again. apply path_now_mono, path_bind.
  destruct (post_step event (MaxPauseDurationMs energy) s w)
    as (cmd & t & err & ch & w1 & Hrun & Hiff & Hauth).
  eapply path_step; [unfold zoom; simpl; by rewrite Hrun|by eapply ms_post|].
  apply path_now_mono, path_bind, path_cycle. cbn [fst snd].
  destruct err as [e|]; [by apply Hkr|].
  destruct cmd as [command|]; [|by destruct (proj1 Hiff eq_refl)].
  destruct (String.eqb_spec (cmd_PauseID command) (pe_PauseID event)) as [Hp|]; [|by apply Hkr].
  cbn [negb]. destruct (String.eqb_spec (cmd_Command command) "RESUME_EXECUTION") as [Hc|].
  { apply path_bind, resume_path; [done|by eapply Hauth| |].
    - intros s2 w2 Hr2 Hf2. apply path_ret. split; [simpl in *; congruence|done].
    - intros e s2 w2 Hr2 Hst2. apply Hkr; [simpl in *; congruence|done]. }
  destruct (String.eqb_spec (cmd_Command command) "WAIT_EXECUTION").
  { destruct u; cbn [negb]; [|by apply Hkr]. apply path_bind, path_cycle. by apply Hpoll. }
  destruct (String.eqb_spec (cmd_Command command) "KILL_EXECUTION"); [|by apply Hkr].
  destruct u.
  - unfold logSafetyUnkillable.
    apply path_world_bind; [auto with reads|apply safety_quiet|]. intros [] w2 _. by apply Hpoll.
  - apply path_bind, refine_path. intros s2 w2 _ _ Hr2 _. apply path_bind, kill_path; [done|].
    intros s3 w3 _ Hr3. apply path_ret. split; [simpl in *; congruence|done].
Qed.

Lemma pause_body_path polls energy actionName stepJ pauseID s w :
  unkillable = isNonInterruptibleForThisStep (Some energy) →
  frozen (meter_of s) = false →
  pth (λ r s' _, cycle_left s r s') (pause_body polls energy actionName stepJ pauseID) s w.
Proof.
  intros Hu Hf. unfold pause_body, logSafetyUnkillable. set (u := isNonInterruptibleForThisStep _) in *.
  apply path_world_bind; [auto with reads|apply now_quiet|]. intros requested w1 _.
  apply path_bind.
  pose proof (controller_step OpFreeze pauseID env (mon_ctl s) w1) as Hc. simpl in Hc.
  destruct (freezeExecution pauseID env (mon_ctl s) w1) as [r c w2|c w2|] eqn:Hrun;
    [|by destruct Hc as [? _]|done].
  eapply path_step; [unfold zoom; simpl; by rewrite Hrun|by eapply ms_freeze|].
  destruct Hc as [Hs _]. destruct r as [e|].
  - clearbody u. destruct u.
    + apply path_world_bind; [auto with reads|apply safety_quiet|]. intros [] w3 _.
      apply path_ret. by split.
    + apply path_bind, kill_path; [done|]. intros s3 w3 _ Hr. apply path_ret. by split.
  - apply path_world_bind; [auto with reads|apply now_quiet|]. intros effective w3 _.
    apply path_gets, path_gets, path_bind.
    match goal with |- context [closeSegmentAtFreeze ?a ?b] => set (pa := a); set (pi := b) end.
    destruct (closeSegmentAtFreeze_spec pa pi env (mon_seg s) w3) as (b & w4 & e & cc & Hcl & _).
    assert (Hst : ac_state c = StateFrozen) by (destruct (mon_ctl s), c; by inversion Hs).
    eapply path_step; [unfold zoom; simpl; by rewrite Hcl|by eapply ms_close|].
    apply path_get, path_bind, path_cycle.
    eapply path_weaken; [apply pause_loop_path; [done|simpl; congruence]|].
    intros r s5 w5 (? & ? & ?). by split.
Qed.

Lemma run_cycle_path polls energy actionName stepJ detectedAt energyJ s w :
  unkillable = isNonInterruptibleForThisStep (Some energy) → frozen (meter_of s) = false →
  pth (λ r s' _, cycle_left s r s') (runPauseCycle polls energy actionName stepJ detectedAt energyJ) s w.
Proof.
  intros Hu Hf. unfold runPauseCycle.
  apply path_world_bind; [auto with reads|apply newPauseID_quiet|]. intros pauseID w1 _.
  apply path_bind, path_cycle, path_bind.
  eapply path_weaken; [by apply pause_body_path|]. intros r s2 w2 (Hr & Hk & Hfr).
  apply path_gets, path_bind, path_note; [done|]. apply path_ret. by split.
Qed.

(** What a tick leaves.  A step killed after an effective freeze is settled at the
    energy of its closed segments. *)
Definition settled (s : Mon) : Prop :=
  res_killed (mon_res s) = true →
  unkillable = false ∧
  (frozen (meter_of s) = true → res_consumedJ (mon_res s) = closedJ (meter_of s)).

Definition tick_left (energy : EnergyState) (next : option EnergyState) (s : Mon) : Prop :=
  match next with
  | Some e => res_killed (mon_res s) = false ∧ frozen (meter_of s) = false ∧
              ∃ x, e = with_threshold x energy
  | None => settled s
  end.

Lemma with_threshold_same e : e = with_threshold (ExecutionThresholdJ e) e.
Proof. by destruct e. Qed.

Lemma tick_path polls energy actionName s w :
  unkillable = isNonInterruptibleForThisStep (Some energy) →
  frozen (meter_of s) = false → res_killed (mon_res s) = false →
  pth (λ next s' _, tick_left energy next s') (monitor_tick polls energy actionName) s w.
Proof.
  intros Hu Hf Hk. unfold monitor_tick, logSafetyUnkillable. apply path_now_mono.
  apply path_world_bind; [auto with reads|apply readEnergy_quiet|]. intros [energyNow|e] w1 _.
  2: { apply path_now_mono, path_bind, path_note; [done|]. apply path_ret.
       split; [done|]. split; [done|]. eexists. apply with_threshold_same. }
  apply path_gets, path_world_bind; [auto with reads|apply readCPUSnapshot_quiet|]. intros cpuNow w2 _.
  apply path_gets, path_asks, path_now_mono, path_bind, path_note; [done|].
  case_match.
  { apply path_ret. split; [done|]. split; [done|]. eexists. apply with_threshold_same. }
  apply path_world_bind; [auto with reads|apply now_wall_quiet|]. intros detectedAt w3 _.
  destruct (PauseEnabled energy); cbn [negb].
  - apply path_bind. eapply path_weaken; [by apply run_cycle_path|].
    intros [[thr killed] pid] s4 w4 (Hr & Hkd & Hfr). simpl in Hr, Hkd, Hfr.
    destruct killed.
    + apply path_gets, path_bind, path_killed; [by apply Hkd|]. apply path_ret.
      intros _. split; [by apply Hkd|]. intros Hx. change (frozen (meter_of s4) = true) in Hx.
      simpl. by rewrite Hx.
    + apply path_bind, path_note; [done|]. apply path_ret.
      split; [simpl; congruence|]. split; [by apply Hfr|by eexists].
  - set (u := isNonInterruptibleForThisStep _) in *. clearbody u. destruct u.
    + apply path_world_bind; [auto with reads|apply safety_quiet|]. intros [] w4 _.
      apply path_ret. intros Hkilled. simpl in Hkilled. congruence.
    + apply path_bind, kill_path; [done|]. intros s4 w4 Hseg Hr.
      apply path_bind, path_killed; [done|]. apply path_ret. intros _. split; [done|].
      simpl. unfold meter_of in *. simpl. rewrite Hseg. simpl in *. congruence.
Qed.

Lemma loop_path ticks polls actionName : ∀ energy s w,
  unkillable = isNonInterruptibleForThisStep (Some energy) →
  frozen (meter_of s) = false → res_killed (mon_res s) = false →
  pth (λ _ s' _, settled s') (monitor_loop ticks polls energy actionName) s w.
Proof.
  induction ticks as [|ticks IH]; intros energy s w Hu Hf Hk; cbn [monitor_loop].
  { split; [apply rtc_refl|done]. }
  apply path_world_bind; [unfold flag; auto with reads|unfold flag; solve_emits ltac:(done)|].
  intros [] w1 _.
  - apply path_ret. intros Hkilled. congruence.
  - apply path_bind. eapply path_weaken; [by apply tick_path|].
    intros [e|] s2 w2 Ht; [|by apply path_ret].
    destruct Ht as (Hk2 & Hf2 & x & ->). by apply IH.
Qed.

Lemma monitor_path ticks polls energy s w :
  unkillable = isNonInterruptibleForThisStep (Some energy) →
  first = first_readings env s w →
  sg_marks (mon_seg s) = [] → res_killed (mon_res s) = false →
  pth (λ _ s' w', settled s' ∧ (res_killed (mon_res s') = true → segments_inv env first s' w'))
    (monitorEnergy ticks polls energy) s w.
Proof.
  intros Hu Hfirst Hm Hk. unfold monitorEnergy, first_readings in *.
  apply path_bind, path_reading; [auto with reads|apply readEnergy_quiet|]. intros [energyStart|e] w1 H1 _.
  2: { apply path_ret. split; intros ?; congruence. }
  apply path_gets, path_bind, path_reading; [auto with reads|apply readCPUSnapshot_quiet|]. intros cpuStart w2 H2 _.
  rewrite H1, H2 in Hfirst.
  apply path_bind. eapply path_step; [|by apply ms_start|]; [by rewrite Hfirst|].
  apply path_world_bind; [unfold energyMonitorInterval, positiveIntEnv; solve_reads
    |unfold energyMonitorInterval, positiveIntEnv; solve_emits ltac:(done)|].
  intros interval w3 _. case_match.
  - split; [apply rtc_refl|done].
  - eapply path_weaken; [apply (path_invariant _ _ _ (segments_inv env first)); [apply segments_inv_step| |by apply loop_path]|].
    + destruct (mon_seg s) as [m l]. simpl in *. subst l. rewrite Hfirst. apply agree_start.
    + intros [] s' w' [? ?]. by split.
Qed.
End follows.

(** ** Invariants of the protocol *)

(** What one step adds to the trace, and what it does to the controller. *)
Inductive traced (env : Env) (u : bool) (c : ActivationController) (w : io)
    (c' : ActivationController) (w' : io) : Prop :=
  | traced_quiet : c' = c → quietly w w' → traced env u c w c' w'
  | traced_post url event r new :
      c' = c → io_trace w' = EvPost url (paused_json event) r :: new ++ io_trace w → Forall dialing new →
      ac_state c ≠ StateRunning → traced env u c w c' w'
  | traced_call o p r :
      call o p env c w = Done r c' w' → (o = OpResume → authorised p (io_trace w)) →
      (o = OpKill → u = false) → traced env u c w c' w'
  | traced_blocked p :
      killExecution p env c w = Cut c' w' → u = false → traced env u c w c' w'.

Lemma mon_step_traced env u first s w s' w' :
  mon_step env u first (s, w) (s', w') → traced env u (mon_ctl s) w (mon_ctl s') w'.
Proof.
  inversion 1 as [? ? ? Hq| | | |? ? ? ? ? ? Hr|? ? ? ? ? ? ? Hc Hf Hr|? ? event ? r ch ? Hns Hr
    |? ? ? ? ? ? ? Hr|? ? ? ? ? ? Hau Hr|? ? ? ? ? ? ? Hr|? ? ? ? ? ? Hu Hr|? ? ? ? ? Hu Hr|];
    simplify_eq/=; try (apply traced_quiet; [done|apply quietly_refl]).
  - by apply traced_quiet.
  - by eapply (traced_call _ _ _ _ _ _ OpFreeze).
  - apply traced_quiet; [done|]. by eapply quietly_of; [apply close_quiet|].
  - destruct (postExecutionPaused_spec event maxMs env (mon_chan s) w)
      as (cmd & t & err & c' & w1 & Hrun & _ & H').
    rewrite Hr in Hrun. simplify_eq. destruct H' as [[-> _]|(r & new & Ht & Hn & _)].
    + apply traced_quiet; [done|apply quietly_refl].
    + by eapply traced_post.
  - apply traced_quiet; [done|]. by eapply quietly_of; [apply refine_quiet|].
  - by eapply (traced_call _ _ _ _ _ _ OpResume).
  - apply traced_quiet; [done|]. by eapply quietly_of; [apply open_quiet|].
  - by eapply (traced_call _ _ _ _ _ _ OpKill).
  - by eapply traced_blocked.
Qed.

Lemma dialing_quiet e : dialing e → quiet e.
Proof. by destruct e. Qed.

Lemma quiet_no_write new f v : Forall quiet new → EvWrite f v ∉ new.
Proof. intros Hf Hin. by apply (proj1 (Forall_forall _ _) Hf) in Hin. Qed.

(** A step extends the trace by at most one write, which it was entitled to. *)
Lemma traced_writes env u c w c' w' :
  traced env u c w c' w' →
  ac_path c' = ac_path c ∧
  ∃ new, io_trace w' = new ++ io_trace w ∧
    (∀ l1 f v l2, new = l1 ++ EvWrite f v :: l2 →
       l2 = [] ∧
       ((f = freeze_file (ac_path c) ∧ v = "1"%string) ∨
        (f = freeze_file (ac_path c) ∧ v = "0"%string ∧ ∃ p, authorised p (io_trace w)) ∨
        (u = false ∧ f = kill_file (ac_path c) ∧ v = "1"%string))).
Proof.
  assert (Hone : ∀ (ev : event) new l1 e l2, Forall quiet new → ¬ quiet e →
    new ++ [ev] = l1 ++ e :: l2 → l2 = [] ∧ e = ev).
  { intros ev new l1 e l2 Hq He Heq. destruct l2 as [|x l2] using rev_ind.
    - apply app_inj_tail in Heq as [_ ->]. done.
    - exfalso. rewrite app_comm_cons, app_assoc in Heq. apply app_inj_tail in Heq as [-> _].
      apply Forall_app in Hq as [_ Hq]. by apply Forall_cons in Hq as [? _]. }
  intros [-> (new & Ht & Hq)|url event r new -> Ht Hn _|o p r Hc Hauth Hkill|p Hc Hu].
  - split; [done|]. exists new. split; [done|]. intros l1 f v l2 ->.
    exfalso. apply (quiet_no_write _ f v Hq). set_solver.
  - split; [done|]. exists (EvPost url (paused_json event) r :: new). split; [done|]. intros l1 f v l2 Heq.
    exfalso. eapply (quiet_no_write new f v); [by eapply Forall_impl; [|apply dialing_quiet]|].
    assert (EvWrite f v ∈ EvPost url (paused_json event) r :: new) as [?|?]%elem_of_cons by (rewrite Heq; set_solver); done.
  - destruct (call_spec _ _ _ _ _ _ _ _ Hc) as (_ & Hp & [[-> ->]|(Ha & new & Ht & Hq)]).
    { split; [done|]. exists []. split; [done|]. by intros [] f v l2. }
    split; [done|]. exists (new ++ [op_write o (ac_path c)]). rewrite Ht, <-app_assoc. split; [done|].
    intros l1 f v l2 Heq. apply Hone in Heq as [-> Hw]; [|done|by intros ?]. split; [done|].
    destruct o; injection Hw as -> ->.
    + by left.
    + right. left. split; [done|]. split; [done|]. exists p. by apply Hauth.
    + right. right. split; [by apply Hkill|done].
  - apply blocked_kill_spec in Hc as (_ & Hp & new & Ht & Hq). split; [done|].
    exists (new ++ [op_write OpKill (ac_path c)]). rewrite Ht, <-app_assoc. split; [done|].
    intros l1 f v l2 Heq. apply Hone in Heq as [-> Hw]; [|done|by intros ?]. split; [done|].
    injection Hw as -> ->. right. by right.
Qed.

(** The writes a step is entitled to, given the trace before them. *)
Definition entitled (u : bool) (path f v : string) (before : list event) : Prop :=
  (f = freeze_file path ∧ v = "1"%string) ∨
  (f = freeze_file path ∧ v = "0"%string ∧ ∃ p, authorised p before) ∨
  (u = false ∧ f = kill_file path ∧ v = "1"%string).

Definition trace_inv (u : bool) (path : string) (w0 : io) (s : Mon) (w : io) : Prop :=
  ac_path (mon_ctl s) = path ∧
  ∃ new, io_trace w = new ++ io_trace w0 ∧
    ∀ l1 f v l2, new = l1 ++ EvWrite f v :: l2 → entitled u path f v (l2 ++ io_trace w0).

Lemma trace_inv_step env u first path w0 s w s' w' :
  mon_step env u first (s, w) (s', w') → trace_inv u path w0 s w → trace_inv u path w0 s' w'.
Proof.
  intros Hs (<- & new & Ht & Hw).
  destruct (traced_writes _ _ _ _ _ _ (mon_step_traced _ _ _ _ _ _ _ Hs)) as (Hp' & n' & Ht' & Hw').
  split; [done|]. exists (n' ++ new). split; [by rewrite Ht', Ht, app_assoc|].
  intros l1 f v l2 Heq. apply app_eq_inv in Heq as [(k & Hn & Hk)|(k & -> & Hk)].
  - destruct k as [|e k]; simplify_eq/=; [by eapply (Hw [])|].
    destruct (Hw' l1 f v k eq_refl) as [-> He]. simpl in *. by rewrite <-Ht.
  - by eapply Hw.
Qed.

Definition alive_inv (s : Mon) (w : io) : Prop :=
  ac_state (mon_ctl s) ∈ [StateRunning; StateFrozen; StateUnknown] ∧ res_killed (mon_res s) = false.

Lemma alive_inv_step env first s w s' w' :
  mon_step env true first (s, w) (s', w') → alive_inv s w → alive_inv s' w'.
Proof.
  intros Hs [Hst Hk]. split.
  - destruct (mon_step_traced _ _ _ _ _ _ _ Hs) as [-> _|url event r new -> _ _ _|o p r Hc _ Hkill|p _ Hu];
      [done..| |done].
    destruct (call_spec _ _ _ _ _ _ _ _ Hc) as (Hspec & _).
    destruct o; [| |by specialize (Hkill eq_refl)];
      destruct (mon_ctl s), (mon_ctl s'); inversion Hspec; simplify_eq/=; set_solver.
  - inversion Hs as [| |? ? ? Hf| | | | | | | | | |]; simplify_eq/=; try done. by rewrite Hf.
Qed.

(** The kernel was asked for what the controller believes, or a kill is under way. *)
Definition kernel_inv (s : Mon) (w : io) : Prop :=
  ac_state (mon_ctl s) = StateKilling ∨ tracks (mon_ctl s) (io_trace w).

Lemma tracks_quietly a w w' : quietly w w' → tracks a (io_trace w) → tracks a (io_trace w').
Proof.
  intros (new & -> & Hq). unfold tracks. rewrite !last_write_quiet by done.
  case_match; try done. intros. set_solver.
Qed.

Lemma kernel_inv_step env u first s w s' w' :
  mon_step env u first (s, w) (s', w') → kernel_inv s w → kernel_inv s' w'.
Proof.
  unfold kernel_inv. intros Hs Hk. destruct (mon_step_traced _ _ _ _ _ _ _ Hs) as [-> Hq|url event r new -> Ht Hn _|o p r Hc _ _|p Hc _].
  - destruct Hk; [by left|right]. by eapply tracks_quietly.
  - destruct Hk as [|Hk]; [by left|right]. rewrite Ht. unfold tracks in *.
    assert (Hl : ∀ f, last_write f (EvPost url (paused_json event) r :: new ++ io_trace w) = last_write f (io_trace w)).
    { intros f. simpl. apply last_write_quiet. by eapply Forall_impl; [|apply dialing_quiet]. }
    rewrite Hl. case_match; try done. set_solver.
  - destruct Hk as [Hk|Hk]; [left|right; by eapply call_tracks].
    destruct (call_idle o p env (mon_ctl s) w) as (r' & Hr' & _);
      [intros Ha; destruct o; simpl in Ha; rewrite Hk in Ha; [done|by destruct Ha..]|].
    rewrite Hc in Hr'. by injection Hr' as _ -> _.
  - left. by apply blocked_kill_spec in Hc as [? _].
Qed.

(** ** Theorems on the monitor *)

(** How [Interact] starts the monitor: on a running process, without marks, with a
    fresh result. *)
Definition ready (s : Mon) : Prop :=
  ac_state (mon_ctl s) = StateRunning ∧ sg_marks (mon_seg s) = [] ∧
  meter_of s = newStepMeter 0 zero_snapshot ∧ mon_res s = new_result.

(** An invariant of the protocol holds of any run, finished or not. *)
Lemma monitor_invariant (I : Mon → io → Prop) ticks polls energy env s w :
  (∀ s1 w1 s' w', mon_step env (isNonInterruptibleForThisStep (Some energy)) (first_readings env s w)
     (s1, w1) (s', w') → I s1 w1 → I s' w') →
  ready s → I s w →
  I (out_st (monitorEnergy ticks polls energy env s w)) (out_io (monitorEnergy ticks polls energy env s w)).
Proof.
  intros Hstep (_ & Hm & _ & Hr) HI.
  destruct (monitor_path env _ _ ticks polls energy s w eq_refl eq_refl Hm) as [Hp _]; [by rewrite Hr|].
  exact (mon_rtc_ind _ _ _ I _ _ Hstep Hp HI).
Qed.

Lemma monitor_entitled ticks polls energy env s w :
  ready s →
  let w' := out_io (monitorEnergy ticks polls energy env s w) in
  ∃ new, io_trace w' = new ++ io_trace w ∧
    ∀ l1 f v l2, new = l1 ++ EvWrite f v :: l2 →
      entitled (isNonInterruptibleForThisStep (Some energy)) (ac_path (mon_ctl s)) f v (l2 ++ io_trace w).
Proof.
  intros Hs w'.
  assert (Hi : trace_inv (isNonInterruptibleForThisStep (Some energy)) (ac_path (mon_ctl s)) w s w).
  { split; [done|]. exists []. split; [done|]. by intros [] f v l2. }
  destruct (monitor_invariant _ ticks polls energy env s w
    (trace_inv_step env _ _ _ w) Hs Hi) as (_ & H). exact H.
Qed.

(** C2: an UNKILLABLE step is never killed by the monitor: however many ticks and
    re-polls, whatever the scheduler answers and whatever fails, no kill is
    written, the controller is never KILLING or STOPPED, and the step is not
    reported as killed. The only files written are its [cgroup.freeze]. *)
Theorem unkillable_step_is_never_killed ticks polls energy env s w :
  isNonInterruptibleForThisStep (Some energy) = true → ready s →
  let o := monitorEnergy ticks polls energy env s w in
  ac_state (mon_ctl (out_st o)) ∈ [StateRunning; StateFrozen; StateUnknown] ∧
  res_killed (mon_res (out_st o)) = false ∧
  ∃ new, io_trace (out_io o) = new ++ io_trace w ∧
    ∀ f v, EvWrite f v ∈ new → f = freeze_file (ac_path (mon_ctl s)).
Proof.
  intros Hu Hs o.
  assert (Ha : alive_inv s w).
  { destruct Hs as (Hst & _ & _ & Hr). split; [rewrite Hst; set_solver|by rewrite Hr]. }
  destruct (monitor_invariant alive_inv ticks polls energy env s w) as [H1 H2];
    [rewrite Hu; apply alive_inv_step|done|done|].
  split; [done|]. split; [done|].
  destruct (monitor_entitled ticks polls energy env s w Hs) as (new & Ht & Hw).
  exists new. split; [done|]. intros f v (l1 & l2 & Heq)%list_elem_of_split.
  destruct (Hw _ _ _ _ Heq) as [[? _]|[[? _]|[? _]]]; [done|done|congruence].
Qed.

(** A frozen step is thawed only on the scheduler's authority: every write of [0]
    to [cgroup.freeze] comes after a post of EXECUTION_PAUSED whose answer, the
    last the scheduler gave, is a RESUME_EXECUTION carrying the pause_id of that
    post. *)
Theorem resume_needs_authorisation ticks polls energy env s w :
  ready s →
  ∃ new, io_trace (out_io (monitorEnergy ticks polls energy env s w)) = new ++ io_trace w ∧
    ∀ l1 l2, new = l1 ++ EvWrite (freeze_file (ac_path (mon_ctl s))) "0" :: l2 →
      ∃ pauseID, authorised pauseID (l2 ++ io_trace w).
Proof.
  intros Hs. destruct (monitor_entitled ticks polls energy env s w Hs) as (new & Ht & Hw).
  exists new. split; [done|]. intros l1 l2 Heq.
  destruct (Hw _ _ _ _ Heq) as [[_ ?]|[(_ & _ & ?)|(_ & _ & ?)]]; done.
Qed.

(** C4: a step killed after an effective freeze is settled at its energy at the
    freeze: what is attributed to it from the monitor's first readings, whatever
    the energy and CPU readings of the end, and only for a class that may be
    killed. *)
Theorem killed_step_settled_at_freeze ticks polls energy env s w s' w' :
  ready s → monitorEnergy ticks polls energy env s w = Done tt s' w' →
  res_killed (mon_res s') = true →
  isNonInterruptibleForThisStep (Some energy) = false ∧
  (frozen (meter_of s') = true →
   ∀ eE sE, res_consumedJ (mon_res s') =
     f64_of_Z (AttributedUJ (segmentedAttribution env (first_readings env s w).1 eE
       (first_readings env s w).2 sE (sg_marks (mon_seg s')))) ⊘ f64_1e6).
Proof.
  intros (_ & Hm & _ & Hr) Hrun Hk.
  destruct (monitor_path env _ _ ticks polls energy s w eq_refl eq_refl Hm) as [_ Hq]; [by rewrite Hr|].
  rewrite Hrun in Hq. destruct Hq as [Hset Hagree]. destruct (Hset Hk) as [Hu Hfr]. split; [done|].
  intros Hf eE sE. rewrite (Hfr Hf), <-(agree_energy env _ _ eE sE _ (Hagree Hk)).
  unfold stepJ. unfold meter_of in Hf. by rewrite Hf.
Qed.

(** C15: at any point of a run the controller's state agrees with what the runtime
    last asked the kernel for, unless a kill is under way. *)
Theorem monitor_keeps_kernel_in_sync ticks polls energy env s w :
  ready s →
  last_write (freeze_file (ac_path (mon_ctl s))) (io_trace w) ∈ [None; Some "0"%string] →
  let o := monitorEnergy ticks polls energy env s w in
  ac_state (mon_ctl (out_st o)) = StateKilling ∨ tracks (mon_ctl (out_st o)) (io_trace (out_io o)).
Proof.
  intros Hs Hl o. apply (monitor_invariant kernel_inv); [apply kernel_inv_step|done|].
  right. unfold tracks. by rewrite (proj1 Hs).
Qed.

(** ** One pause cycle of an ordinary step *)

Definition unposted (w w' : io) : Prop :=
  ∃ new, io_trace w' = new ++ io_trace w ∧ answers new = [].

Lemma unposted_refl w : unposted w w.
Proof. by exists []. Qed.
Lemma unposted_trans w1 w2 w3 : unposted w1 w2 → unposted w2 w3 → unposted w1 w3.
Proof.
  intros (n1 & H1 & A1) (n2 & H2 & A2). exists (n2 ++ n1).
  by rewrite H2, H1, app_assoc, answers_app, A1, A2.
Qed.
Lemma quiet_answers new : Forall quiet new → answers new = [].
Proof. induction 1 as [|e new He _ IH]; [done|]. by destruct e. Qed.
Lemma unposted_quietly w w' : quietly w w' → unposted w w'.
Proof. intros (new & Ht & Hq). exists new. split; [done|]. by apply quiet_answers. Qed.

Lemma call_unposted o p env a w r a' w' :
  call o p env a w = Done r a' w' → unposted w w'.
Proof.
  intros Hc. destruct (call_spec _ _ _ _ _ _ _ _ Hc) as (_ & _ & [[_ ->]|(_ & new & Ht & Hq)]);
    [apply unposted_refl|].
  exists (new ++ [op_write o (ac_path a)]). rewrite Ht, <-app_assoc, answers_app, quiet_answers by done.
  split; [done|]. by destruct o.
Qed.

Section ordinary.
Context (env : Env) (Hbudget : 0 < kill_budget env).

Lemma world_done {A B} (m : M Mon A) (k : A → M Mon B) s w :
  reads m → emits quiet m → ∃ a w', quietly w w' ∧ (m ≫= k) env s w = k a env s w'.
Proof.
  intros Hr He. destruct (Hr env s w) as (a & w' & Ha). exists a, w'.
  split; [by eapply quietly_of|]. by rewrite (run_done _ _ _ _ _ _ _ _ Ha).
Qed.

Lemma zoom_done {T A} (l : lens Mon T) (m : M T A) s w a t w' :
  m env (view l s) w = Done a t w' → zoom l m env s w = Done a (put l t s) w'.
Proof. unfold zoom. by intros ->. Qed.

Lemma refine_done consumed s w :
  ∃ s' w', refineCycleWhileFrozen consumed env s w = Done tt s' w' ∧ unposted w w' ∧
    mon_ctl s' = mon_ctl s.
Proof.
  unfold refineCycleWhileFrozen. run.
  set (pa := ac_path _). set (pi := Pid _).
  destruct (refineFrozenSegment_spec pa pi env (mon_seg s) w) as (r & w' & t & Hr & Hf).
  pose proof (quietly_of _ _ _ _ _ _ _ (refine_quiet pa pi) Hr) as Hq.
  rewrite (run_done _ _ _ _ _ _ _ _ (zoom_done seg_lens _ s w _ _ _ Hr)).
  apply unposted_quietly in Hq. destruct (negb r.2); run; by eexists _, _.
Qed.

Lemma kill_done pauseID cause s w :
  ∃ s' w', kill_step pauseID cause env s w = Done tt s' w' ∧ unposted w w'.
Proof.
  unfold kill_step.
  destruct (world_done now_wall (λ requested, zoom ctl_lens (killExecution pauseID);;
    stopped ← now_wall; modify (upd_res (noteKill requested stopped cause))) s w)
    as (requested & w1 & Hq1 & ->); [auto with reads|apply now_wall_quiet|].
  destruct (kill_within_budget pauseID env (mon_ctl s) w1 Hbudget) as (r & c & w2 & Hk & _).
  rewrite (run_done _ _ _ _ _ _ _ _ (zoom_done ctl_lens _ s w1 _ _ _ Hk)).
  unfold now_wall. run. eexists _, _. split; [done|].
  eapply unposted_trans; [by apply unposted_quietly|].
  eapply unposted_trans; [by apply (call_unposted OpKill _ _ _ _ _ _ _ Hk)|]. by exists [].
Qed.

Lemma kill_return consumed pauseID name severity (again : M Mon cycle_result) s w :
  ∃ r s' w', (retry ← killOrRetry false consumed pauseID name severity;
    if retry : bool then again else mret (f64_zero, true, pauseID)) env s w = Done r s' w' ∧
    unposted w w'.
Proof.
  unfold killOrRetry. run.
  destruct (refine_done consumed s w) as (s1 & w1 & H1 & U1 & _).
  rewrite (run_done _ _ _ _ _ _ _ _ H1). run.
  destruct (kill_done pauseID name s1 w1) as (s2 & w2 & H2 & U2).
  rewrite (run_done _ _ _ _ _ _ _ _ H2). run. eexists _, _, _. split; [done|].
  by eapply unposted_trans.
Qed.

Lemma resume_done energy pauseID s w :
  ∃ r s' w', resume_step energy pauseID env s w = Done r s' w' ∧ unposted w w'.
Proof.
  unfold resume_step.
  destruct (refine_done (ConsumedBeforeJ energy) s w) as (s1 & w1 & H1 & U1 & _).
  rewrite (run_done _ _ _ _ _ _ _ _ H1). unfold now_wall. run.
  match goal with |- context [(zoom ctl_lens _ ≫= _) env ?s0 ?w0] => set (wk := w0) end.
  assert (U2 : unposted w wk) by (eapply unposted_trans; [exact U1|by exists []]).
  pose proof (controller_step OpResume pauseID env (mon_ctl s1) wk) as Hc. simpl in Hc.
  destruct (resumeExecution pauseID env (mon_ctl s1) wk) as [r c w2|c w2|] eqn:Hk;
    [|by destruct Hc as [? _]|done].
  rewrite (run_done _ _ _ _ _ _ _ _ (zoom_done ctl_lens _ s1 wk _ _ _ Hk)).
  assert (U3 : unposted w w2)
    by (eapply unposted_trans; [exact U2|by apply (call_unposted OpResume _ _ _ _ _ _ _ Hk)]).
  destruct r as [e|]; run; [by eexists _, _, _|].
  match goal with |- context [(zoom seg_lens (openSegmentAtResume ?a ?b) ≫= _) env ?s0 ?w0] =>
    destruct (openSegmentAtResume_spec a b env (view seg_lens s0) w0) as (b' & w5 & Hopen); set (s4 := s0) in *;
    set (w4 := w0) in *; set (pa := a) in *; set (pi := b) in * end.
  assert (Ho : ∃ sg, openSegmentAtResume pa pi env (view seg_lens s4) w4 = Done b' sg w5).
  { destruct (frozen (sg_meter (view seg_lens s4))); [|by eexists].
    destruct Hopen as (e & cc & Hopen & _). by eexists. }
  destruct Ho as (sg & Ho). rewrite (run_done _ _ _ _ _ _ _ _ (zoom_done seg_lens _ s4 w4 _ _ _ Ho)).
  run. eexists _, _, _. split; [done|]. eapply unposted_trans; [exact U3|].
  apply (unposted_trans w2 w4); [by exists []|]. apply unposted_quietly. by eapply quietly_of; [apply open_quiet|].
Qed.

(** After the freeze, an ordinary step asks the scheduler once and leaves the loop:
    it is resumed or killed, whatever the answer. *)
Lemma ordinary_pause_loop polls energy event s w :
  ∃ r s' w' new, pause_loop (Datatypes.S polls) energy false event env s w = Done r s' w' ∧
    io_trace w' = new ++ io_trace w ∧ (length (answers new) ≤ 1)%nat.
Proof.
  assert (Hfin : ∀ (o : outcome Mon cycle_result) w1 n1,
    io_trace w1 = n1 ++ io_trace w → (length (answers n1) ≤ 1)%nat →
    (∃ r s' w', o = Done r s' w' ∧ unposted w1 w') →
    ∃ r s' w' new, o = Done r s' w' ∧ io_trace w' = new ++ io_trace w ∧ (length (answers new) ≤ 1)%nat).
  { intros o w1 n1 H1 L1 (r & s' & w' & -> & n2 & H2 & A2). exists r, s', w', (n2 ++ n1).
    rewrite H2, H1, app_assoc, answers_app, A2. done. }
  cbn [pause_loop]. run.
  destruct (postExecutionPaused_spec event (MaxPauseDurationMs energy) env (mon_chan s) w)
    as (cmd & t & err & ch & w1 & Hrun & Hiff & Hpost).
  rewrite (run_done _ _ _ _ _ _ _ _ (zoom_done chan_lens _ s w _ _ _ Hrun)). run.
  assert (Hn1 : ∃ n1, io_trace w1 = n1 ++ io_trace w ∧ (length (answers n1) ≤ 1)%nat).
  { destruct Hpost as [[-> _]|(r & new & Ht & Hn & _)]; [exists []; simpl; split; [done|lia]|].
    eexists (_ :: new). split; [exact Ht|]. simpl. rewrite dialing_answers by done. simpl. lia. }
  destruct Hn1 as (n1 & Ht1 & Hl1). eapply (Hfin _ w1 n1 Ht1 Hl1). clear Hfin Hl1 Ht1.
  set (s1 := upd_cycle _ _). clearbody s1.
  destruct err as [e|]; [apply kill_return|].
  destruct cmd as [command|]; [|by destruct (proj1 Hiff eq_refl)].
  destruct (cmd_PauseID command =? pe_PauseID event)%string; cbn [negb]; [|apply kill_return].
  destruct (cmd_Command command =? "RESUME_EXECUTION")%string.
  { destruct (resume_done energy (pe_PauseID event) s1 w1) as (r & s2 & w2 & Hr & U2).
    rewrite (run_done _ _ _ _ _ _ _ _ Hr). destruct r as [e|]; [|run; by eexists _, _, _].
    edestruct kill_return as (r & s3 & w3 & Hk & U3). eexists _, _, _. split; [exact Hk|].
    by eapply unposted_trans. }
  destruct (cmd_Command command =? "WAIT_EXECUTION")%string; [apply kill_return|].
  destruct (cmd_Command command =? "KILL_EXECUTION")%string; [|apply kill_return].
  destruct (refine_done (ConsumedBeforeJ energy) s1 w1) as (s2 & w2 & H2 & U2 & _).
  rewrite (run_done _ _ _ _ _ _ _ _ H2).
  edestruct kill_done as (s3 & w3 & H3 & U3). rewrite (run_done _ _ _ _ _ _ _ _ H3). run.
  eexists _, _, _. split; [done|]. by eapply unposted_trans.
Qed.
End ordinary.

#[local] Arguments pause_loop : simpl never.

Lemma ordinary_body polls energy actionName stepJ env pauseID s w :
  isNonInterruptibleForThisStep (Some energy) = false → 0 < kill_budget env →
  ∃ r s' w' new,
    pause_body (Datatypes.S polls) energy actionName stepJ pauseID env s w = Done r s' w' ∧
    io_trace w' = new ++ io_trace w ∧ (length (answers new) ≤ 1)%nat.
Proof.
  intros Hu Hb. unfold pause_body. rewrite Hu. unfold now, now_wall. run.
  match goal with |- context [(zoom ctl_lens _ ≫= _) env ?s0 ?w0] => set (w1 := w0) end.
  pose proof (controller_step OpFreeze pauseID env (mon_ctl s) w1) as Hc. simpl in Hc.
  destruct (freezeExecution pauseID env (mon_ctl s) w1) as [r c w2|c w2|] eqn:Hk;
    [|by destruct Hc as [? _]|done].
  rewrite (run_done _ _ _ _ _ _ _ _ (zoom_done env ctl_lens _ s w1 _ _ _ Hk)).
  assert (U2 : unposted w w2).
  { apply (unposted_trans w w1); [by exists []|]. by apply (call_unposted OpFreeze _ _ _ _ _ _ _ Hk). }
  destruct r as [e|].
  - edestruct (kill_done env Hb) as (s3 & w3 & H3 & U3).
    rewrite (run_done _ _ _ _ _ _ _ _ H3). run.
    destruct (unposted_trans _ _ _ U2 U3) as (new & Ht & Ha).
    eexists _, _, _, new. split; [done|]. split; [done|]. rewrite Ha. simpl. lia.
  - run.
    match goal with |- context [(zoom seg_lens (closeSegmentAtFreeze ?a ?b) ≫= _) env ?s0 ?w0] =>
      destruct (closeSegmentAtFreeze_spec a b env (view seg_lens s0) w0)
        as (b' & w5 & e & cc & Hcl & _); set (s4 := s0) in *; set (w4 := w0) in *;
      set (pa := a) in *; set (pi := b) in * end.
    rewrite (run_done _ _ _ _ _ _ _ _ (zoom_done env seg_lens _ s4 w4 _ _ _ Hcl)). run.
    match goal with |- context [pause_loop _ _ _ ?ev env ?s0 ?w0] =>
      destruct (ordinary_pause_loop env Hb polls energy ev s0 w0) as (r & s6 & w6 & new & Hr & Ht & Hl) end.
    assert (U5 : unposted w w5).
    { apply (unposted_trans w w2); [done|]. apply (unposted_trans w2 w4); [by exists []|].
      apply unposted_quietly. by eapply quietly_of; [apply close_quiet|]. }
    destruct U5 as (n5 & Ht5 & A5). eexists _, _, _, (new ++ n5). split; [exact Hr|].
    by rewrite Ht, Ht5, app_assoc, answers_app, A5, app_nil_r.
Qed.

Lemma ordinary_cycle polls energy actionName stepJ detectedAt energyJ env s w :
  isNonInterruptibleForThisStep (Some energy) = false → 0 < kill_budget env →
  ∃ r s' w' new,
    runPauseCycle (Datatypes.S polls) energy actionName stepJ detectedAt energyJ env s w = Done r s' w' ∧
    io_trace w' = new ++ io_trace w ∧ (length (answers new) ≤ 1)%nat ∧
    last (lc_Cycles (res_lifecycle (mon_res s'))) = Some (mon_cycle s').
Proof.
  intros Hu Hb. unfold runPauseCycle.
  match goal with |- context [(newPauseID ≫= ?k) env s w] =>
    destruct (world_done env newPauseID k s w) as (pauseID & w1 & Hq1 & ->) end;
    [auto with reads|apply newPauseID_quiet|].
  run. match goal with |- context [(pause_body _ _ _ _ _ ≫= _) env ?s0 ?w0] =>
    destruct (ordinary_body polls energy actionName stepJ env pauseID s0 w0 Hu Hb)
      as (r & s2 & w2 & new & Hr & Ht & Hl) end.
  rewrite (run_done _ _ _ _ _ _ _ _ Hr). run.
  destruct (unposted_quietly _ _ Hq1) as (n1 & Ht1 & A1).
  eexists _, _, _, (new ++ n1). split; [done|]. rewrite Ht, Ht1, app_assoc, answers_app, A1, app_nil_r.
  split; [done|]. split; [done|]. simpl. by rewrite last_snoc.
Qed.

(** C25: the pause cycle of an ordinary step always ends: with a budget on the
    wait for the reaped process, it returns after at most one post of
    EXECUTION_PAUSED, resumed or killed, whatever the kernel and the scheduler
    answer, and it leaves one more cycle on record. *)
Theorem ordinary_cycle_ends polls energy actionName stepJ detectedAt energyJ env s w :
  isNonInterruptibleForThisStep (Some energy) = false → 0 < kill_budget env →
  ∃ r s' w' new,
    runPauseCycle (Datatypes.S polls) energy actionName stepJ detectedAt energyJ env s w = Done r s' w' ∧
    io_trace w' = new ++ io_trace w ∧ (length (answers new) ≤ 1)%nat ∧
    last (lc_Cycles (res_lifecycle (mon_res s'))) = Some (mon_cycle s').
Proof. apply ordinary_cycle. Qed.

(** ** The local kill *)

Definition no_post (e : event) : Prop := match e with EvPost _ _ _ => False | _ => True end.

Lemma quiet_no_post e : quiet e → no_post e.
Proof. by destruct e. Qed.

Lemma control_no_post {S} path file value ctx field want tv :
  emits no_post (control path file value ctx field want tv : M S _).
Proof.
  assert (Hl : ∀ fuel d, emits no_post (wait_loop fuel path field want d : M S _)).
  { intros fuel d. eapply emits_weaken; [apply wait_loop_emits|]. by intros []. }
  unfold control, write_file, cgroupTimeout, waitForEventField. solve_emits ltac:(done).
Qed.

Lemma kill_no_post pauseID : emits no_post (killExecution pauseID).
Proof.
  assert (Hw : emits no_post waiter_wait).
  { intros env a w _. unfold waiter_wait. repeat case_match; simpl; (split; [|done]);
      first [exists []; split; [done|constructor] | exists [EvReap]; split; [done|by repeat constructor]]. }
  assert (Hb : ∀ b, emits no_post (wait_budget b)).
  { intros b env a w _. unfold wait_budget. repeat case_match; simpl; (split; [|done]);
      first [exists []; split; [done|constructor] | exists [EvReap]; split; [done|by repeat constructor]]. }
  assert (Hk : ∀ path, emits no_post (kill path : M ActivationController _)) by (intros; apply control_no_post).
  unfold killExecution, killConfirmWaitTimeout, logSafetyKillConfirmTimeout, safety.
  solve_emits ltac:(done).
Qed.

Lemma kill_step_no_post pauseID cause : emits no_post (kill_step pauseID cause).
Proof.
  pose proof (kill_no_post pauseID). unfold kill_step, now_wall. solve_emits ltac:(done).
Qed.

(** With pauses disabled the monitor never talks to the scheduler: the kill of a
    step over its threshold waits for no round trip. *)
Theorem local_kill_has_no_round_trip ticks polls energy :
  PauseEnabled energy = false → emits no_post (monitorEnergy ticks polls energy).
Proof.
  intros Hp.
  assert (He : emits no_post (readEnergy : M Mon _))
    by (eapply emits_weaken; [apply readEnergy_quiet|apply quiet_no_post]).
  assert (Hc : ∀ pid, emits no_post (readCPUSnapshot pid : M Mon _))
    by (intros; eapply emits_weaken; [apply readCPUSnapshot_quiet|apply quiet_no_post]).
  assert (Htick : ∀ name, emits no_post (monitor_tick polls energy name)).
  { intros name. pose proof (kill_step_no_post "" "THRESHOLD_NO_PAUSE").
    unfold monitor_tick, logSafetyUnkillable, safety, now_wall. rewrite Hp. cbn [negb].
    solve_emits ltac:(done). }
  assert (Hsame : ∀ name env s w e s' w',
    monitor_tick polls energy name env s w = Done (Some e) s' w' → e = energy).
  { intros name env s w e s' w'. unfold monitor_tick. run. rewrite Hp. cbn [negb].
    unfold mbind at 1, M_bind at 1. destruct (readEnergy env s w) as [[energyNow|err]| |]; [|by run; intros; simplify_eq|done..].
    run. unfold mbind at 1, M_bind at 1. destruct (readCPUSnapshot _ env _ _); [|done..]. run.
    case_match; [by run; intros; simplify_eq|]. unfold now_wall. run.
    case_match; [unfold logSafetyUnkillable, safety; by run|].
    unfold mbind at 1, M_bind at 1. destruct (kill_step _ _ env _ _); [|done..]. by run. }
  assert (Hloop : ∀ name, emits no_post (monitor_loop ticks polls energy name)).
  { intros name. induction ticks as [|n IH]; cbn [monitor_loop]; [solve_emits ltac:(done)|].
    unfold flag. apply emits_bind; [by apply emits_effect; constructor|]. intros []; [solve_emits ltac:(done)|].
    intros env s w _. destruct (Htick name env s w I) as [(n1 & Ht1 & Hf1) _].
    unfold mbind, M_bind. destruct (monitor_tick polls energy name env s w) as [[e|] s1 w1|s1 w1|msg s1 w1] eqn:Hm;
      simpl in *; try (by split; [exists n1|]).
    apply Hsame in Hm as ->. destruct (IH env s1 w1 I) as [(n2 & Ht2 & Hf2) _].
    split; [|by case_match]. exists (n2 ++ n1). rewrite Ht2, Ht1, app_assoc.
    split; [done|]. by apply Forall_app. }
  unfold monitorEnergy, energyMonitorInterval, positiveIntEnv. solve_emits ltac:(done).
Qed.

(** ** The published threshold *)

(** When a tick goes on under another state, that state differs by its threshold
    alone, and this is the threshold handed back to [Interact]: the next step
    inherits the extension. *)
Theorem tick_publishes_threshold polls energy actionName env s w next s' w' :
  monitor_tick polls energy actionName env s w = Done (Some next) s' w' →
  next = energy ∨
  (next = with_threshold (res_thresholdJ (mon_res s')) energy ∧
   res_thresholdUpdated (mon_res s') = true).
Proof.
  unfold monitor_tick. run. unfold mbind at 1, M_bind at 1.
  destruct (readEnergy env s w) as [[energyNow|err]| |]; [|run; intros; simplify_eq; by left|done..].
  run. unfold mbind at 1, M_bind at 1. destruct (readCPUSnapshot _ env _ _); [|done..]. run.
  case_match; [run; intros; simplify_eq; by left|]. unfold now_wall. run.
  destruct (PauseEnabled energy); cbn [negb].
  - unfold mbind at 1, M_bind at 1.
    destruct (runPauseCycle _ _ _ _ _ _ env _ _) as [[[thr killed] pid]| |]; [|done..].
    destruct killed; run; [done|]. intros. simplify_eq/=. by right.
  - case_match; [unfold logSafetyUnkillable, safety; by run|].
    unfold mbind at 1, M_bind at 1. destruct (kill_step _ _ env _ _); [|done..]. by run.
Qed.

(** The short name of an action is what follows its last slash: a suffix of the
    qualified name without a slash, the whole name if there is none. *)
Theorem shortActionName_spec qualified :
  str_all (λ a, negb (a =? "/")%char) (shortActionName qualified) = true ∧
  (∃ pre, qualified = pre +:+ shortActionName qualified) ∧
  (str_all (λ a, negb (a =? "/")%char) qualified = true → shortActionName qualified = qualified).
Proof.
  split; [apply after_last_no_sep|]. split; [apply after_last_suffix|].
  intros Hn. unfold shortActionName. rewrite (proj1 (last_index_none _ _) Hn). by destruct qualified.
Qed.

(** C38: when the freeze of an ordinary step fails, the step is reported as
    killed, with a kill request and a stop time on record, but nothing was killed:
    the controller is UNKNOWN, which refuses the kill, and the only file written
    is [cgroup.freeze]. *)
Theorem failed_freeze_reports_a_kill_that_never_happened polls energy actionName stepJ pauseID env s w e :
  isNonInterruptibleForThisStep (Some energy) = false →
  ac_state (mon_ctl s) = StateRunning →
  env_write env (Datatypes.S (io_step w)) (freeze_file (ac_path (mon_ctl s))) "1" = Some e →
  ∃ s' w', pause_body polls energy actionName stepJ pauseID env s w = Done (f64_zero, true, pauseID) s' w' ∧
    ac_state (mon_ctl s') = StateUnknown ∧
    io_trace w' = EvWrite (freeze_file (ac_path (mon_ctl s))) "1" :: io_trace w ∧
    lc_KillCause (res_lifecycle (mon_res s')) = "FREEZE_FAILED"%string.
Proof.
  intros Hu Hst Hw. unfold pause_body. rewrite Hu. unfold now, now_wall. run.
  match goal with |- context [(zoom ctl_lens _ ≫= _) env ?s0 ?w0] => set (w1 := w0) end.
  assert (Hfr : ∃ r c w2, freezeExecution pauseID env (mon_ctl s) w1 = Done (Some r) c w2 ∧
    ac_state c = StateUnknown ∧
    io_trace w2 = EvWrite (freeze_file (ac_path (mon_ctl s))) "1" :: io_trace w).
  { destruct (mon_ctl s) as [path cmd st reaped q]. simpl in *. subst st.
    unfold freezeExecution, freeze, control, write_file. run.
    unfold freeze_file in Hw. rewrite Hw. run. by eexists _, _, _. }
  destruct Hfr as (r & c & w2 & Hf & Hc & Ht).
  rewrite (run_done _ _ _ _ _ _ _ _ (zoom_done env ctl_lens _ s w1 _ _ _ Hf)).
  unfold kill_step, now_wall. run.
  match goal with |- context [(zoom ctl_lens _ ≫= _) env ?s0 ?w0] =>
    destruct (call_idle OpKill pauseID env (view ctl_lens s0) w0) as (r' & Hk & _);
    [simpl; rewrite Hc; naive_solver|];
    rewrite (run_done _ _ _ _ _ _ _ _ (zoom_done env ctl_lens _ s0 w0 _ _ _ Hk)) end.
  run. eexists _, _. split; [done|]. done.
Qed.

(** ** Sample runs *)

Definition energy_file : string := "/sys/class/powercap/intel-rapl/intel-rapl:0/energy_uj".

(** A kernel that obeys, a counter that can be read, and a scheduler that gives the
    same answer to every post. *)
Definition sample_site (answer : http_result) : Env :=
  sample_env [("KILL_CONFIRM_WAIT_TIMEOUT_MS", "10")]
    [(energy_file, "1000"); ("/c/cgroup.events", "populated 0" +:+ String newline "frozen 1");
     ("/c/cpu.stat", "usage_usec 400")]%string (λ _, None) (λ _, answer) false None.

Definition kill_answer : http_result :=
  HttpResp 200 (BodyJson (JObj [("command", JStr "KILL_EXECUTION"); ("pause_id", JStr "pause-00ff")]))%string.

(** A step already at its threshold. *)
Definition spent (class : string) : EnergyState :=
  {| TraceID := "t1"; ReservationID := "r1"; ExecutionPhase := "forward"; ExecutionThresholdJ := f64_of_Z 2;
     ConsumedBeforeJ := f64_of_Z 3; PauseEnabled := true; PauseMode := "auto"; MaxPauseDurationMs := 100;
     MaxPauseCount := 1; InterruptionClass := Some {["pay" := class]}; ResolvedActionName := "pay" |}%string.

Definition sample_mon : Mon :=
  {| mon_ctl := sample_activation StateRunning;
     mon_seg := {| sg_meter := newStepMeter 0 zero_snapshot; sg_marks := [] |};
     mon_chan := {| ch_addr := no_address; ch_rec := None; ch_deadline := None |};
     mon_res := new_result; mon_cycle := new_cycle "" 0 f64_zero f64_zero |}.

Lemma sample_ready : ready sample_mon.
Proof. done. Qed.

(** What a run of the monitor came to, to be evaluated. *)
Definition outline (o : outcome Mon ()) : bool * RuntimeState * bool :=
  (bool_decide (is_Some (out_val o)), ac_state (mon_ctl (out_st o)), res_killed (mon_res (out_st o))).

Example ordinary_step_is_killed :
  outline (monitorEnergy 2 2 (spent "COMPENSATABLE") (sample_site kill_answer) sample_mon io_start) =
  (true, StateStopped, true).
Proof. vm_compute. reflexivity. Qed.

Lemma unkillable_step_is_never_killed_witness :
  let o := monitorEnergy 2 2 (spent "UNKILLABLE") (sample_site kill_answer) sample_mon io_start in
  ac_state (mon_ctl (out_st o)) ∈ [StateRunning; StateFrozen; StateUnknown] ∧
  res_killed (mon_res (out_st o)) = false.
Proof.
  intros o.
  destruct (unkillable_step_is_never_killed 2 2 (spent "UNKILLABLE") (sample_site kill_answer) sample_mon
    io_start eq_refl sample_ready) as (Hs & Hk & _).
  split; [exact Hs|exact Hk].
Defined.

Lemma resume_needs_authorisation_witness :
  ∃ new, io_trace (out_io (monitorEnergy 2 2 (spent "UNKILLABLE") (sample_site kill_answer) sample_mon io_start)) =
      new ++ [] ∧
    ∀ l1 l2, new = l1 ++ EvWrite (freeze_file "/c") "0" :: l2 → ∃ pauseID, authorised pauseID (l2 ++ []).
Proof.
  exact (resume_needs_authorisation 2 2 (spent "UNKILLABLE") (sample_site kill_answer) sample_mon io_start
    sample_ready).
Defined.

Lemma sample_kill : ∃ s' w',
  monitorEnergy 2 2 (spent "COMPENSATABLE") (sample_site kill_answer) sample_mon io_start = Done tt s' w' ∧
  res_killed (mon_res s') = true ∧ frozen (meter_of s') = true.
Proof. eexists _, _. split; [vm_compute; reflexivity|]. by vm_compute. Qed.

Lemma killed_step_settled_at_freeze_witness :
  ∃ s', ∀ eE sE, res_consumedJ (mon_res s') =
    f64_of_Z (AttributedUJ (segmentedAttribution (sample_site kill_answer)
      (first_readings (sample_site kill_answer) sample_mon io_start).1 eE
      (first_readings (sample_site kill_answer) sample_mon io_start).2 sE (sg_marks (mon_seg s')))) ⊘ f64_1e6.
Proof.
  destruct sample_kill as (s' & w' & Hr & Hk & Hf). exists s'.
  destruct (killed_step_settled_at_freeze 2 2 (spent "COMPENSATABLE") (sample_site kill_answer) sample_mon
    io_start s' w' sample_ready Hr Hk) as [_ H].
  exact (H Hf).
Defined.

Lemma monitor_keeps_kernel_in_sync_witness :
  let o := monitorEnergy 2 2 (spent "UNKILLABLE") (sample_site kill_answer) sample_mon io_start in
  ac_state (mon_ctl (out_st o)) = StateKilling ∨ tracks (mon_ctl (out_st o)) (io_trace (out_io o)).
Proof.
  apply (monitor_keeps_kernel_in_sync 2 2 (spent "UNKILLABLE") (sample_site kill_answer) sample_mon io_start
    sample_ready).
  apply (bool_decide_unpack _). vm_compute. reflexivity.
Defined.

Lemma ordinary_cycle_ends_witness :
  ∃ r s' w' new,
    runPauseCycle 1 (spent "COMPENSATABLE") "pay" f64_zero 0 (f64_of_Z 3) (sample_site (HttpErr EDeadline))
      sample_mon io_start = Done r s' w' ∧
    io_trace w' = new ++ [] ∧ (length (answers new) ≤ 1)%nat ∧
    last (lc_Cycles (res_lifecycle (mon_res s'))) = Some (mon_cycle s').
Proof.
  apply (ordinary_cycle_ends 0 (spent "COMPENSATABLE") "pay" f64_zero 0 (f64_of_Z 3)
    (sample_site (HttpErr EDeadline)) sample_mon io_start eq_refl).
  apply (bool_decide_unpack _). vm_compute. reflexivity.
Defined.

Definition no_pause : EnergyState :=
  {| TraceID := "t1"; ReservationID := "r1"; ExecutionPhase := "forward"; ExecutionThresholdJ := f64_of_Z 2;
     ConsumedBeforeJ := f64_of_Z 3; PauseEnabled := false; PauseMode := ""; MaxPauseDurationMs := 0;
     MaxPauseCount := 0; InterruptionClass := None; ResolvedActionName := "pay" |}%string.

Lemma local_kill_has_no_round_trip_witness : emits no_post (monitorEnergy 5 5 no_pause).
Proof. apply (local_kill_has_no_round_trip 5 5 no_pause). reflexivity. Defined.

(** A kernel that refuses the freeze. *)
Definition broken_kernel : Env :=
  sample_env [] [(energy_file, "1000")] (λ _, Some (EMsg "EPERM")) (λ _, HttpErr EDeadline) false None.

Lemma failed_freeze_reports_a_kill_that_never_happened_witness :
  ∃ s' w', pause_body 1 (spent "COMPENSATABLE") "pay" f64_zero "pause-1" broken_kernel sample_mon io_start =
      Done (f64_zero, true, "pause-1"%string) s' w' ∧
    ac_state (mon_ctl s') = StateUnknown ∧ io_trace w' = [EvWrite (freeze_file "/c") "1"] ∧
    lc_KillCause (res_lifecycle (mon_res s')) = "FREEZE_FAILED"%string.
Proof.
  exact (failed_freeze_reports_a_kill_that_never_happened 1 (spent "COMPENSATABLE") "pay" f64_zero "pause-1"
    broken_kernel sample_mon io_start (EMsg "EPERM") eq_refl eq_refl eq_refl).
Defined.
