(* ===== verification/Payload.v ===== *)
(** * What crosses the wire to the collector ([openwhisk/pushgateway.go])

    [collectorPayload] copies an [Entry] field by field, with the JSON tags of
    [metricHandler.go].  The theorem of this file is that nothing is lost on
    the way: the entry can be read back from the payload. *)

From S2P Require Import Prelude Float64 GoStrings Json Effects Rapl Instrumentation.

Local Open Scope Z_scope.

Definition cycle_members (c : PauseCycle) : list (string * json) :=
  ([("pause_id", JStr (cyc_PauseID c));
    ("threshold_detected_at", JNum (cyc_ThresholdDetectedAt c));
    ("energy_at_threshold_j", JNum (cyc_EnergyAtThresholdJ c));
    ("freeze_requested_at", JNum (cyc_FreezeRequestedAt c));
    ("freeze_effective_at", JNum (cyc_FreezeEffectiveAt c));
    ("energy_at_effective_freeze_j", JNum (cyc_EnergyAtEffectiveFreezeJ c));
    ("execution_threshold_j", JNum (cyc_ExecutionThresholdJ c));
    ("command_roundtrip_ns", JInt (cyc_CommandRoundtripNs c))]%string ++
   omit_bool "conn_reused" (cyc_ConnReused c) ++
   omit_int "conn_setup_ns" (cyc_ConnSetupNs c) ++
   omit_bool "channel_traced" (cyc_ChannelTraced c) ++
   omit_int "channel_dns_ns" (cyc_ChannelDNSNs c) ++
   omit_int "channel_connect_ns" (cyc_ChannelConnectNs c) ++
   omit_bool "channel_cached_addr" (cyc_ChannelCachedAddr c) ++
   omit_str "channel_failure" (cyc_ChannelFailure c) ++
   omit_f64 "resume_requested_at" (cyc_ResumeRequestedAt c) ++
   omit_f64 "resume_effective_at" (cyc_ResumeEffectiveAt c) ++
   omit_f64 "energy_at_resume_effective_j" (cyc_EnergyAtResumeEffectiveJ c) ++
   omit_ptr JInt "cpu_usec_while_frozen" (cyc_CPUUsecWhileFrozen c) ++
   [("outcome"%string, JStr (cyc_Outcome c))]).

Definition omit_cycles (k : string) (l : list PauseCycle) : list (string * json) :=
  match l with
  | [] => []
  | _ => [(k, JArr ((λ c, JObj (cycle_members c)) <$> l))]
  end.

Definition lifecycle_members (l : Lifecycle) : list (string * json) :=
  omit_int "monitor_samples" (lc_MonitorSamples l) ++
  omit_int "monitor_busy_ns" (lc_MonitorBusyNs l) ++
  omit_int "sidecar_extract_ns" (lc_SidecarExtractNs l) ++
  omit_int "sidecar_inject_ns" (lc_SidecarInjectNs l) ++
  omit_int "sidecar_state_bytes" (lc_SidecarStateBytes l) ++
  omit_f64 "kill_requested_at" (lc_KillRequestedAt l) ++
  omit_f64 "process_stopped_at" (lc_ProcessStoppedAt l) ++
  omit_str "kill_cause" (lc_KillCause l) ++
  omit_cycles "cycles" (lc_Cycles l).

(** The JSON form of [collectorPayload] for an entry. *)
Definition collectorPayload (endpoint : string) (e : Entry) : json :=
  JObj
   ([("endpoint", JStr endpoint);
     ("start", JInt (en_Start e)); ("end", JInt (en_End e));
     ("energy_start", JInt (en_EnergyStart e)); ("energy_end", JInt (en_EnergyEnd e));
     ("energy_attributed_uj", JInt (en_EnergyAttributed e));
     ("energy_trace_id", JStr (en_TraceID e)); ("pod_name", JStr (en_PodName e));
     ("activation_id", JStr (en_ActivationID e))]%string ++
    omit_str "execution_phase" (en_ExecutionPhase e) ++
    omit_ptr (λ l, JObj (lifecycle_members l)) "lifecycle" (en_Lifecycle e) ++
    omit_int "cpu_process_usec" (en_CPUProcessUsec e) ++
    omit_int "cpu_capacity_usec" (en_CPUCapacityUsec e) ++
    omit_f64 "cpu_ratio" (en_CPURatio e)).

(** ** Reading the payload *)

Definition read_cycle (j : json) : PauseCycle :=
  let l := members j in
  {| cyc_PauseID := get_str "pause_id" l;
     cyc_ThresholdDetectedAt := get_f64 "threshold_detected_at" l;
     cyc_EnergyAtThresholdJ := get_f64 "energy_at_threshold_j" l;
     cyc_FreezeRequestedAt := get_f64 "freeze_requested_at" l;
     cyc_FreezeEffectiveAt := get_f64 "freeze_effective_at" l;
     cyc_EnergyAtEffectiveFreezeJ := get_f64 "energy_at_effective_freeze_j" l;
     cyc_ExecutionThresholdJ := get_f64 "execution_threshold_j" l;
     cyc_CommandRoundtripNs := get_int "command_roundtrip_ns" l;
     cyc_ConnReused := get_bool "conn_reused" l;
     cyc_ConnSetupNs := get_int "conn_setup_ns" l;
     cyc_ChannelTraced := get_bool "channel_traced" l;
     cyc_ChannelDNSNs := get_int "channel_dns_ns" l;
     cyc_ChannelConnectNs := get_int "channel_connect_ns" l;
     cyc_ChannelCachedAddr := get_bool "channel_cached_addr" l;
     cyc_ChannelFailure := get_str "channel_failure" l;
     cyc_ResumeRequestedAt := get_f64 "resume_requested_at" l;
     cyc_ResumeEffectiveAt := get_f64 "resume_effective_at" l;
     cyc_EnergyAtResumeEffectiveJ := get_f64 "energy_at_resume_effective_j" l;
     cyc_CPUUsecWhileFrozen := match member "cpu_usec_while_frozen" l with
                               | Some (JInt z) => Some z | _ => None end;
     cyc_Outcome := get_str "outcome" l |}.

Definition read_lifecycle (j : json) : Lifecycle :=
  let l := members j in
  {| lc_MonitorSamples := get_int "monitor_samples" l;
     lc_MonitorBusyNs := get_int "monitor_busy_ns" l;
     lc_SidecarExtractNs := get_int "sidecar_extract_ns" l;
     lc_SidecarInjectNs := get_int "sidecar_inject_ns" l;
     lc_SidecarStateBytes := get_int "sidecar_state_bytes" l;
     lc_KillRequestedAt := get_f64 "kill_requested_at" l;
     lc_ProcessStoppedAt := get_f64 "process_stopped_at" l;
     lc_KillCause := get_str "kill_cause" l;
     lc_Cycles := match member "cycles" l with
                  | Some (JArr js) => read_cycle <$> js | _ => [] end |}.

Definition read_payload (j : json) : string * Entry :=
  let l := members j in
  (get_str "endpoint" l,
   {| en_Start := get_int "start" l; en_End := get_int "end" l;
      en_EnergyStart := get_int "energy_start" l; en_EnergyEnd := get_int "energy_end" l;
      en_EnergyAttributed := get_int "energy_attributed_uj" l;
      en_CPUProcessUsec := get_int "cpu_process_usec" l;
      en_CPUCapacityUsec := get_int "cpu_capacity_usec" l;
      en_CPURatio := get_f64 "cpu_ratio" l;
      en_TraceID := get_str "energy_trace_id" l; en_PodName := get_str "pod_name" l;
      en_ActivationID := get_str "activation_id" l;
      en_ExecutionPhase := get_str "execution_phase" l;
      en_Lifecycle := read_lifecycle <$> member "lifecycle" l |}).

(** ** Nothing is lost *)

(** A [float64] field with [omitempty] may not hold a negative zero, which reads
    back as zero. *)
Definition no_neg_zero (x : f64) : Prop := x ≠ S754_zero true.

Definition cycle_plain (c : PauseCycle) : Prop :=
  no_neg_zero (cyc_ResumeRequestedAt c) ∧ no_neg_zero (cyc_ResumeEffectiveAt c) ∧
  no_neg_zero (cyc_EnergyAtResumeEffectiveJ c).

Definition lifecycle_plain (l : Lifecycle) : Prop :=
  no_neg_zero (lc_KillRequestedAt l) ∧ no_neg_zero (lc_ProcessStoppedAt l) ∧
  Forall cycle_plain (lc_Cycles l).

Definition entry_plain (e : Entry) : Prop :=
  no_neg_zero (en_CPURatio e) ∧ match en_Lifecycle e with Some l => lifecycle_plain l | None => True end.

Lemma skips_cycles k k' l : k' ≠ k → skips k (omit_cycles k' l).
Proof. intros. destruct l; by repeat constructor. Qed.
Lemma skips_one k k' j : k' ≠ k → skips k [(k', j)].
Proof. intros. by repeat constructor. Qed.
Lemma skips_app k l l' : skips k l → skips k l' → skips k (l ++ l').
Proof. intros. by apply Forall_app. Qed.
Lemma skips_nil k : skips k [].
Proof. constructor. Qed.
Lemma skips_cons k k' j l : k' ≠ k → skips k l → skips k ((k', j) :: l).
Proof. intros. by constructor. Qed.

(** Different names are told apart by computation. *)
Ltac skip_names :=
  repeat first
    [ apply skips_app | apply skips_cons | apply skips_nil | apply skips_int | apply skips_f64
    | apply skips_str | apply skips_bool | apply skips_ptr | apply skips_cycles
    | intros ?; discriminate ].

(** Reaches the member a reader is looking for, skipping the others. *)
Ltac find_member :=
  repeat match goal with
  | |- context [member ?k (?l ++ ?r)] =>
      lazymatch l with
      | omit_int k _ => fail
      | omit_f64 k _ => fail
      | omit_str k _ => fail
      | omit_bool k _ => fail
      | omit_ptr _ k _ => fail
      | omit_cycles k _ => fail
      | _ => rewrite (member_skip k l r) by skip_names
      end
  end.

Lemma get_f64_last k x : no_neg_zero x → get_f64 k (omit_f64 k x) = x.
Proof. intros. rewrite <-(app_nil_r (omit_f64 k x)). by apply get_f64_omit; [apply skips_nil|]. Qed.

Lemma member_omit_cycles k l :
  match member k (omit_cycles k l) with Some (JArr js) => read_cycle <$> js | _ => [] end =
  (λ c, read_cycle (JObj (cycle_members c))) <$> l.
Proof. destruct l; simpl; [done|]. rewrite String.eqb_refl. simpl. by rewrite <-list_fmap_compose. Qed.

Ltac read_field :=
  unfold get_int, get_f64, get_str, get_bool; find_member;
  first
    [ reflexivity
    | apply get_int_omit; skip_names
    | apply get_str_omit; skip_names
    | apply get_bool_omit; skip_names
    | apply get_f64_omit; [skip_names|done]
    | apply get_f64_last; done ].

Lemma read_cycle_members c : cycle_plain c → read_cycle (JObj (cycle_members c)) = c.
Proof.
  intros (H1 & H2 & H3). destruct c as [c1 c2 c3 c4 c5 c6 c7 c8 c9 c10 c11 c12 c13 c14 c15 c16 c17 c18 c19 c20].
  simpl in H1, H2, H3. unfold read_cycle, cycle_members, members.
  cbn [cyc_PauseID cyc_ThresholdDetectedAt cyc_EnergyAtThresholdJ cyc_FreezeRequestedAt
    cyc_FreezeEffectiveAt cyc_EnergyAtEffectiveFreezeJ cyc_ExecutionThresholdJ cyc_CommandRoundtripNs
    cyc_ConnReused cyc_ConnSetupNs cyc_ChannelTraced cyc_ChannelDNSNs cyc_ChannelConnectNs
    cyc_ChannelCachedAddr cyc_ChannelFailure cyc_ResumeRequestedAt cyc_ResumeEffectiveAt
    cyc_EnergyAtResumeEffectiveJ cyc_CPUUsecWhileFrozen cyc_Outcome].
  f_equal; try read_field.
  find_member. rewrite member_omit_ptr by skip_names. by destruct c19.
Qed.

Lemma read_lifecycle_members l : lifecycle_plain l → read_lifecycle (JObj (lifecycle_members l)) = l.
Proof.
  intros (H1 & H2 & H3). destruct l as [l1 l2 l3 l4 l5 l6 l7 l8 l9].
  simpl in H1, H2, H3. unfold read_lifecycle, lifecycle_members, members.
  cbn [lc_MonitorSamples lc_MonitorBusyNs lc_SidecarExtractNs lc_SidecarInjectNs lc_SidecarStateBytes
    lc_KillRequestedAt lc_ProcessStoppedAt lc_KillCause lc_Cycles].
  f_equal; try read_field.
  find_member. rewrite member_omit_cycles.
  rewrite <-(list_fmap_id l9) at 2. apply list_fmap_ext. intros i c Hc.
  apply read_cycle_members. by eapply Forall_lookup_1.
Qed.

(** Every field of a measurement crosses the wire: the entry, its lifecycle and
    all its pause cycles can be read back from the payload, whichever fields
    [omitempty] leaves out. *)
Theorem payload_carries_the_entry endpoint e :
  entry_plain e → read_payload (collectorPayload endpoint e) = (endpoint, e).
Proof.
  intros [H1 H2]. destruct e as [e1 e2 e3 e4 e5 e6 e7 e8 e9 e10 e11 e12 e13].
  simpl in H1, H2. unfold read_payload, collectorPayload, members.
  cbn [en_Start en_End en_EnergyStart en_EnergyEnd en_EnergyAttributed en_CPUProcessUsec
    en_CPUCapacityUsec en_CPURatio en_TraceID en_PodName en_ActivationID en_ExecutionPhase en_Lifecycle].
  f_equal. f_equal; try read_field.
  find_member. rewrite member_omit_ptr by skip_names.
  destruct e13 as [l|]; simpl; [|done]. by rewrite read_lifecycle_members.
Qed.

(** ** A sample entry *)

Definition sample_entry : Entry :=
  {| en_Start := 1; en_End := 2; en_EnergyStart := 10; en_EnergyEnd := 20; en_EnergyAttributed := 5;
     en_CPUProcessUsec := 400; en_CPUCapacityUsec := 2000; en_CPURatio := f64_of_decimal false 2 (-1);
     en_TraceID := "t1"; en_PodName := "pod"; en_ActivationID := "a1"; en_ExecutionPhase := "recovery";
     en_Lifecycle := Some zero_lifecycle |}%string.

Lemma payload_carries_the_entry_witness :
  read_payload (collectorPayload "/run" sample_entry) = ("/run"%string, sample_entry).
Proof.
  apply (payload_carries_the_entry "/run" sample_entry).
  split; [discriminate|]. split; [discriminate|]. split; [discriminate|constructor].
Defined.
