(* ===== verification/Recording.v ===== *)
(** * Measurements: store, push, record ([openwhisk/metricHandler.go],
    [openwhisk/pushgateway.go], [recordMetricsImpl] of
    [openwhisk/metrics_helpers.go])

    Also the state of the proxy ([openwhisk/actionProxy.go]), which the handlers
    share. *)

From S2P Require Import Prelude Float64 GoStrings Json Effects Rapl Instrumentation Segments.
From S2P Require Import Freezer EnergyState Channel Payload.

Local Open Scope Z_scope.
Local Open Scope go_scope.

(** ** The in-process store *)

Record Metrics := {
  mt_data : gmap string (list Entry);
  mt_limit : Z
}.

Definition NewMetrics (limit : Z) : Metrics := {| mt_data := ∅; mt_limit := limit |}.

Definition Add (endpoint : string) (entry : Entry) (m : Metrics) : Metrics :=
  if (en_Start entry =? 0) && (en_End entry =? 0) then m
  else
    let s := default [] (mt_data m !! endpoint) ++ [entry] in
    let s := if (0 <? mt_limit m) && (mt_limit m <? Z.of_nat (length s))
             then drop (Z.to_nat (Z.of_nat (length s) - mt_limit m)) s else s in
    {| mt_data := <[endpoint := s]> (mt_data m); mt_limit := mt_limit m |}.

(** A deep copy: values are never shared. *)
Definition Snapshot (m : Metrics) : gmap string (list Entry) := mt_data m.

(** ** The state of the proxy *)

Record Executor := {
  ex_command : string;
  ex_env : gmap string string;         (** the environment of the child *)
  ex_ctl : ActivationController;
  ex_marks : list freezeMark
}.

Record ActionProxy := {
  ap_initialized : bool;
  ap_baseDir : string;
  ap_compiler : string;
  ap_currentDir : Z;
  ap_theExecutor : option Executor;
  ap_env : gmap string string;
  ap_metrics : option Metrics;
  ap_pendingInitEntry : option Entry;
  ap_chan : Chan;                      (** the process-wide scheduler channel *)
  ap_execCounter : Z                   (** process-wide too *)
}.

Definition set_executor (x : option Executor) (p : ActionProxy) : ActionProxy :=
  {| ap_initialized := ap_initialized p; ap_baseDir := ap_baseDir p; ap_compiler := ap_compiler p;
     ap_currentDir := ap_currentDir p; ap_theExecutor := x; ap_env := ap_env p;
     ap_metrics := ap_metrics p; ap_pendingInitEntry := ap_pendingInitEntry p; ap_chan := ap_chan p;
     ap_execCounter := ap_execCounter p |}.
Definition set_metrics (x : option Metrics) (p : ActionProxy) : ActionProxy :=
  {| ap_initialized := ap_initialized p; ap_baseDir := ap_baseDir p; ap_compiler := ap_compiler p;
     ap_currentDir := ap_currentDir p; ap_theExecutor := ap_theExecutor p; ap_env := ap_env p;
     ap_metrics := x; ap_pendingInitEntry := ap_pendingInitEntry p; ap_chan := ap_chan p;
     ap_execCounter := ap_execCounter p |}.
Definition set_pending (x : option Entry) (p : ActionProxy) : ActionProxy :=
  {| ap_initialized := ap_initialized p; ap_baseDir := ap_baseDir p; ap_compiler := ap_compiler p;
     ap_currentDir := ap_currentDir p; ap_theExecutor := ap_theExecutor p; ap_env := ap_env p;
     ap_metrics := ap_metrics p; ap_pendingInitEntry := x; ap_chan := ap_chan p;
     ap_execCounter := ap_execCounter p |}.
Definition set_chan (x : Chan) (p : ActionProxy) : ActionProxy :=
  {| ap_initialized := ap_initialized p; ap_baseDir := ap_baseDir p; ap_compiler := ap_compiler p;
     ap_currentDir := ap_currentDir p; ap_theExecutor := ap_theExecutor p; ap_env := ap_env p;
     ap_metrics := ap_metrics p; ap_pendingInitEntry := ap_pendingInitEntry p; ap_chan := x;
     ap_execCounter := ap_execCounter p |}.

Definition proxy_chan : lens ActionProxy Chan.
Proof. refine (Lens ap_chan set_chan _ _); [done|by intros []]. Defined.

(** Through the controller, under its mutex. *)
Definition CgroupPath (x : Executor) : string := ac_path (ex_ctl x).

(** Of [proc.cmd] itself, without the mutex; the controller keeps the same command. *)
Definition Pid (x : Executor) : Z := default 0 (ac_cmd (ex_ctl x)).
Definition FreezeMarks (x : option Executor) : list freezeMark :=
  match x with Some x => snapshot (ex_marks x) | None => [] end.

(** ** Push to the collector *)

Section push.
Context {S : Type}.

Definition metricsPushMaxAttempts : M S Z := positiveIntEnv "METRICS_PUSH_MAX_ATTEMPTS" 3.

Definition metricsPushBackoffBase : M S Z :=
  ms ← positiveIntEnv "METRICS_PUSH_RETRY_BACKOFF_BASE_MS" 200; mret (ms *! millisecond).

Definition logSafetyMetricsUndelivered : M S () := safety "METRICS_PUSH_UNDELIVERED" "critical".

(** One request of the collector's own client. *)
Definition collector_post (url : string) (body : json) : M S http_result := λ env s w,
  let res := env_http env (io_step w) url body in
  Done res s (advance env 0 [EvPost url body res] w).

Definition accepted (status : Z) : bool := (status =? 200) || (status =? 202).

Definition pushMetrics (endpoint : string) (entry : Entry) : M S () :=
  collectorURL ← getenv "COLLECTOR_URL";
  if (collectorURL =? "")%string then mret ()
  else
    let body := collectorPayload endpoint entry in
    if negb (json_encodable body) then mret ()
    else
      let url := trim_right_if (λ a, (a =? "/")%char) collectorURL +:+ "/collect" in
      maxAttempts ← metricsPushMaxAttempts;
      base ← metricsPushBackoffBase;
      bad ← asks (λ env, env_url env url);
      match bad with
      | Some _ => mret ()
      | None =>
          ok ← deliver accepted (collector_post url body) base (Z.to_nat maxAttempts) 0;
          if ok : bool then mret () else logSafetyMetricsUndelivered
      end.
End push.

(** ** Recording a measurement *)

Definition apply_meta (meta : option RunMeta) (e : Entry) : Entry :=
  match meta with
  | None => e
  | Some m =>
      {| en_Start := en_Start e; en_End := en_End e; en_EnergyStart := en_EnergyStart e;
         en_EnergyEnd := en_EnergyEnd e; en_EnergyAttributed := en_EnergyAttributed e;
         en_CPUProcessUsec := en_CPUProcessUsec e; en_CPUCapacityUsec := en_CPUCapacityUsec e;
         en_CPURatio := en_CPURatio e; en_TraceID := meta_TraceID m; en_PodName := meta_PodName m;
         en_ActivationID := meta_ActivationID m; en_ExecutionPhase := meta_ExecutionPhase m;
         en_Lifecycle := meta_Lifecycle m |}
  end.

(** The pending [/init] entry is tagged like the [/run] it belongs to. *)
Definition tag_init (run p : Entry) : Entry :=
  {| en_Start := en_Start p; en_End := en_End p; en_EnergyStart := en_EnergyStart p;
     en_EnergyEnd := en_EnergyEnd p; en_EnergyAttributed := en_EnergyAttributed p;
     en_CPUProcessUsec := en_CPUProcessUsec p; en_CPUCapacityUsec := en_CPUCapacityUsec p;
     en_CPURatio := en_CPURatio p; en_TraceID := en_TraceID run; en_PodName := en_PodName p;
     en_ActivationID := en_ActivationID run; en_ExecutionPhase := en_ExecutionPhase run;
     en_Lifecycle := en_Lifecycle p |}.

(** The measurement itself, with the substitution of the fallback energy. *)
Definition new_entry (start end_ energyStart energyEnd : Z) (d : AttributionBreakdown)
    (attributed : Z) : Entry :=
  {| en_Start := start; en_End := end_; en_EnergyStart := energyStart; en_EnergyEnd := energyEnd;
     en_EnergyAttributed := attributed; en_CPUProcessUsec := DeltaProcessUsec d;
     en_CPUCapacityUsec := CapacityUsec d; en_CPURatio := CPURatio d; en_TraceID := "";
     en_PodName := ""; en_ActivationID := ""; en_ExecutionPhase := ""; en_Lifecycle := None |}.

Definition logEnergyAttributionFallbackUsed {S} : M S () :=
  safety "ENERGY_ATTRIBUTION_FALLBACK_USED" "".

Definition push_or_spawn (sync : bool) (endpoint : string) (e : Entry) : M ActionProxy () :=
  if sync then pushMetrics endpoint e else mret ().   (* [go pushMetrics]: not waited for *)

Definition final_snapshot (endv : Z) : M ActionProxy CPUSnapshot :=
  x ← gets ap_theExecutor;
  match x with
  | None => mret {| ProcessTicks := 0; WallNs := endv |}
  | Some x =>
      c ← readCPUSnapshotFromCgroup (CgroupPath x);
      mret {| ProcessTicks := ProcessTicks c; WallNs := endv |}
  end.

(** What is stored and pushed for one invocation. *)
Definition measure (endpoint : string) (start energyStart : Z) (cpuStart : CPUSnapshot)
    (meta : option RunMeta) (fallbackJ : f64) : M ActionProxy Entry :=
  reading ← readEnergy;
  let energyEnd := match reading with inl e => e | inr _ => 0 end in
  endv ← now_wall;
  cpuEnd ← final_snapshot endv;
  x ← gets ap_theExecutor;
  let marks := if (endpoint =? "/run")%string then FreezeMarks x else [] in
  detail ← asks (λ env, segmentedAttribution env energyStart energyEnd cpuStart cpuEnd marks);
  attributed ← (if (AttributedUJ detail =? 0) && f64_gtb fallbackJ f64_zero then
                  logEnergyAttributionFallbackUsed;; mret (f64_to_int64 (fallbackJ ⊗ f64_1e6))
                else mret (AttributedUJ detail));
  mret (apply_meta meta (new_entry start endv energyStart energyEnd detail attributed)).

Definition recordMetricsImpl (endpoint : string) (start energyStart : Z) (cpuStart : CPUSnapshot)
    (meta : option RunMeta) (sync : bool) (fallbackJ : f64) : M ActionProxy () :=
  entry ← measure endpoint start energyStart cpuStart meta fallbackJ;
  modify (λ p, set_metrics (Add endpoint entry <$> ap_metrics p) p);;
  if (endpoint =? "/run")%string then
    pending ← gets ap_pendingInitEntry;
    match pending with
    | Some p =>
        modify (set_pending None);;
        push_or_spawn sync "/init" (tag_init entry p)
    | None => mret ()
    end;;
    push_or_spawn sync "/run" entry
  else modify (set_pending (Some entry)).

Definition recordMetrics endpoint start energyStart cpuStart meta : M ActionProxy () :=
  recordMetricsImpl endpoint start energyStart cpuStart meta false f64_zero.
Definition recordMetricsSync endpoint start energyStart cpuStart meta : M ActionProxy () :=
  recordMetricsImpl endpoint start energyStart cpuStart meta true f64_zero.
Definition recordMetricsSyncWithFallback endpoint start energyStart cpuStart meta fallbackJ :
    M ActionProxy () :=
  recordMetricsImpl endpoint start energyStart cpuStart meta true fallbackJ.

(** ** Theorems: the store *)

(** What a sequence of additions should leave for one endpoint. *)
Definition kept (limit : Z) (l : list Entry) : list Entry :=
  if 0 <? limit then last_n (Z.to_nat limit) l else l.

Definition measured (e : Entry) : bool := negb ((en_Start e =? 0) && (en_End e =? 0)).

Lemma Add_lookup endpoint e m k :
  default [] (mt_data (Add endpoint e m) !! k) =
  if decide (k = endpoint) then
    if measured e then kept (mt_limit m) (default [] (mt_data m !! k) ++ [e])
    else default [] (mt_data m !! k)
  else default [] (mt_data m !! k).
Proof.
  unfold Add, measured. destruct ((en_Start e =? 0) && (en_End e =? 0)) eqn:Hz; cbn [negb].
  { by case_decide. }
  cbn [mt_data]. case_decide as Hk; [subst|by rewrite lookup_insert_ne].
  rewrite lookup_insert_eq. simpl. unfold kept, last_n.
  set (l := default [] (mt_data m !! endpoint) ++ [e]).
  destruct (Z.ltb_spec 0 (mt_limit m)); simpl; [|done].
  destruct (Z.ltb_spec (mt_limit m) (Z.of_nat (length l))).
  - f_equal. lia.
  - by replace (length l - Z.to_nat (mt_limit m))%nat with 0%nat by lia.
Qed.

Lemma Add_limit endpoint e m : mt_limit (Add endpoint e m) = mt_limit m.
Proof. unfold Add. by case_match. Qed.

(** After any sequence of additions, an endpoint holds its last [limit]
    measurements in order, and nothing else. *)
Theorem store_keeps_latest limit (l : list (string * Entry)) endpoint :
  default [] (Snapshot (foldl (λ m ke, Add ke.1 ke.2 m) (NewMetrics limit) l) !! endpoint) =
  kept limit (List.filter measured ((List.filter (λ ke, (ke.1 =? endpoint)%string) l).*2)).
Proof.
  unfold Snapshot.
  assert (Hl : ∀ l, mt_limit (foldl (λ m ke, Add ke.1 ke.2 m) (NewMetrics limit) l) = limit).
  { intros l'. induction l' as [|ke l' IH] using rev_ind; [done|]. by rewrite foldl_app; simpl; rewrite Add_limit. }
  induction l as [|[k e] l IH] using rev_ind.
  { simpl. rewrite lookup_empty. unfold kept, last_n. by case_match. }
  rewrite foldl_app. simpl. rewrite Add_lookup, Hl, IH.
  rewrite !List.filter_app. simpl. rewrite fmap_app, List.filter_app.
  case_decide as Hk.
  - subst k. rewrite String.eqb_refl. simpl. destruct (measured e); simpl; [|by rewrite app_nil_r].
    set (h := List.filter measured _). unfold kept. destruct (Z.ltb_spec 0 limit); [|done].
    apply last_n_snoc. lia.
  - rewrite (proj2 (String.eqb_neq k endpoint)) by done. by rewrite !app_nil_r.
Qed.

(** ** Theorems: the push *)

Definition collector_url (env : Env) : string := env_getenv env "COLLECTOR_URL".
Definition collect_url (env : Env) : string :=
  trim_right_if (λ a, (a =? "/")%char) (collector_url env) +:+ "/collect".

Definition push_attempts (env : Env) : Z :=
  let v := env_getenv env "METRICS_PUSH_MAX_ATTEMPTS" in
  if (v =? "")%string then 3 else positive_ms v 3.

Definition push_base (env : Env) : Z :=
  let v := env_getenv env "METRICS_PUSH_RETRY_BACKOFF_BASE_MS" in
  (if (v =? "")%string then 200 else positive_ms v 200) *! millisecond.

(** A collector is configured under a well-formed URL, and the entry has a JSON
    text. *)
Definition pushable (env : Env) (endpoint : string) (e : Entry) : bool :=
  negb (collector_url env =? "")%string && json_encodable (collectorPayload endpoint e) &&
  bool_decide (env_url env (collect_url env) = None).

(** What a push does between two points of the trace: bounded attempts with the same
    body, growing pauses, and an incident exactly when nothing was accepted. *)
Definition pushed (env : Env) (endpoint : string) (e : Entry) (w w' : io) : Prop :=
  if pushable env endpoint e then
    ∃ ok new, io_trace w' =
        (if ok : bool then [] else [EvSafety "METRICS_PUSH_UNDELIVERED" "critical"]) ++ new ++ io_trace w ∧
      Forall (delivering (collect_url env) (collectorPayload endpoint e)) new ∧
      delivery accepted (Z.to_nat (push_attempts env)) (rev (answers new)) ok ∧
      rev (sleeps new) = backoffs (push_base env) 0 (length (answers new)) ∧
      answers new ≠ []
  else w' = w.

#[local] Arguments collectorPayload : simpl never.
#[local] Arguments json_encodable : simpl never.

Lemma push_attempts_pos env : 0 < push_attempts env.
Proof. unfold push_attempts. case_match; [lia|]. by apply positive_ms_pos. Qed.

Lemma collector_is_request {S} url body : is_request url body (collector_post url body : M S http_result).
Proof. intros env s w. by eexists _, _, _, []. Qed.

Lemma pushMetrics_spec {S} endpoint e env (s : S) w :
  ∃ w', pushMetrics endpoint e env s w = Done tt s w' ∧ pushed env endpoint e w w'.
Proof.
  unfold pushMetrics, pushed, pushable. run. fold (collector_url env).
  destruct (collector_url env =? "")%string; [by eexists|].
  destruct (json_encodable (collectorPayload endpoint e)); cbn [negb andb]; [|by eexists].
  unfold metricsPushMaxAttempts, metricsPushBackoffBase, positiveIntEnv. run.
  fold (collect_url env) (push_attempts env) (push_base env).
  destruct (env_url env (collect_url env)) as [err|]; [by eexists|]. rewrite bool_decide_eq_true_2 by done.
  assert (Hst : ∀ n attempt w, ∃ ok w', deliver accepted
    (collector_post (collect_url env) (collectorPayload endpoint e)) (push_base env) n attempt env s w = Done ok s w').
  { intros n. induction n as [|n IH]; intros a w1; cbn [deliver]; [by eexists _, _|].
    case_match; run; unfold mbind at 1, M_bind at 1; unfold collector_post at 1;
      (case_match; [by eexists _, _..|apply IH]). }
  destruct (Hst (Z.to_nat (push_attempts env)) 0 w) as (ok & w' & Hrun).
  destruct (deliver_spec accepted (collect_url env) (collectorPayload endpoint e) _ (push_base env)
    (@collector_is_request S (collect_url env) (collectorPayload endpoint e))
    (Z.to_nat (push_attempts env)) 0 env s w) as (ok' & s' & w2 & new & Hrun' & Ht & Hn & Hdel & Hsl).
  rewrite Hrun in Hrun'. injection Hrun' as -> -> ->. rewrite (run_done _ _ _ _ _ _ _ _ Hrun).
  assert (Hne : answers new ≠ []).
  { intros Hnil. rewrite Hnil in Hdel. pose proof (push_attempts_pos env).
    destruct (Z.to_nat (push_attempts env)) eqn:Hz; simpl in Hdel; (done || lia). }
  exists (if ok' then w2 else advance env 0 [EvSafety "METRICS_PUSH_UNDELIVERED" "critical"] w2).
  split; [by destruct ok'|]. exists ok', new. split; [|done].
  destruct ok'; simpl; by rewrite Ht.
Qed.

(** C28: A measurement reaches the collector or is reported lost: the push
    returns, posts the same body at least once and at most the configured number
    of times, stops at the first acceptance or refusal, waits [base * 2^k] between
    attempts, and reports an incident exactly when no attempt was accepted;
    without a usable collector it does nothing. *)
Theorem push_delivers_or_reports endpoint e env (p : ActionProxy) w :
  ∃ w', pushMetrics endpoint e env p w = Done tt p w' ∧ pushed env endpoint e w w'.
Proof. apply pushMetrics_spec. Qed.

(** ** Theorems: the record of one invocation *)

Lemma final_snapshot_reads endv : reads (final_snapshot endv).
Proof.
  unfold final_snapshot, readCPUSnapshotFromCgroup, readCgroupV2CPUUsec. solve_reads.
Qed.

Lemma measure_reads endpoint start energyStart cpuStart meta fallbackJ :
  reads (measure endpoint start energyStart cpuStart meta fallbackJ).
Proof.
  pose proof final_snapshot_reads.
  unfold measure, readEnergy, logEnergyAttributionFallbackUsed, safety. solve_reads.
Qed.

(** The state after the record of a [/run]. *)
Definition recorded (entry : Entry) (p : ActionProxy) : ActionProxy :=
  set_pending None (set_metrics (Add "/run" entry <$> ap_metrics p) p).

Lemma run_record_spec start energyStart cpuStart meta fallbackJ env p w :
  ∃ entry w1 w2 w3,
    measure "/run" start energyStart cpuStart meta fallbackJ env p w = Done entry p w1 ∧
    recordMetricsSyncWithFallback "/run" start energyStart cpuStart meta fallbackJ env p w =
      Done tt (recorded entry p) w3 ∧
    match ap_pendingInitEntry p with
    | Some pending => pushed env "/init" (tag_init entry pending) w1 w2
    | None => w2 = w1
    end ∧
    pushed env "/run" entry w2 w3.
Proof.
  destruct (measure_reads "/run" start energyStart cpuStart meta fallbackJ env p w)
    as (entry & w1 & Hm).
  unfold recordMetricsSyncWithFallback, recordMetricsImpl.
  rewrite (run_done _ _ _ _ _ _ _ _ Hm). run.
  exists entry, w1. unfold recorded. set (q := set_metrics _ p).
  destruct (ap_pendingInitEntry p) as [pending|] eqn:Hp; run; unfold push_or_spawn.
  - destruct (pushMetrics_spec "/init" (tag_init entry pending) env (set_pending None q) w1)
      as (w2 & H2 & P2).
    destruct (pushMetrics_spec "/run" entry env (set_pending None q) w2) as (w3 & H3 & P3).
    exists w2, w3. rewrite (run_done _ _ _ _ _ _ _ _ H2). run. by rewrite H3.
  - destruct (pushMetrics_spec "/run" entry env q w1) as (w3 & H3 & P3).
    exists w1, w3. rewrite H3. split; [done|]. split; [|done]. f_equal.
    unfold q. destruct p. simpl in *. by subst.
Qed.

(** The only caller of [recordMetrics] records [/init], which pushes nothing: no
    asynchronous push is ever spawned. *)
Definition no_post (e : event) : Prop := match e with EvPost _ _ _ => False | _ => True end.

Lemma init_record_pushes_nothing start energyStart cpuStart meta :
  emits no_post (recordMetrics "/init" start energyStart cpuStart meta).
Proof.
  unfold recordMetrics, recordMetricsImpl, measure, readEnergy, final_snapshot, readCPUSnapshotFromCgroup,
    readCgroupV2CPUUsec, logEnergyAttributionFallbackUsed, safety, now_wall, read_file. simpl.
  solve_emits ltac:(done).
Qed.

(** A synchronous [/run] record takes one measurement, stores it, delivers the
    pending [/init] entry first, tagged with the identifiers of this [/run] and
    exactly once, then delivers the [/run] entry, and only then returns. *)
Theorem run_record_pushes_init_first start energyStart cpuStart meta fallbackJ env p w :
  ∃ entry w1 w2 w3,
    measure "/run" start energyStart cpuStart meta fallbackJ env p w = Done entry p w1 ∧
    recordMetricsSyncWithFallback "/run" start energyStart cpuStart meta fallbackJ env p w =
      Done tt (recorded entry p) w3 ∧
    match ap_pendingInitEntry p with
    | Some pending => pushed env "/init" (tag_init entry pending) w1 w2
    | None => w2 = w1
    end ∧
    pushed env "/run" entry w2 w3.
Proof. apply run_record_spec. Qed.
