(* ===== verification/Executor.v ===== *)
(** * The action's process ([openwhisk/executor.go])

    An [Executor] guards one child process: it writes one line per invocation
    to its standard input, reads one line of answer, and runs the energy
    monitor meanwhile.  The monitor goroutine ends before [Interact] reads its
    result, so a run of [Interact] is the run of the monitor between the line
    and the answer; the answer itself is the world's. *)

From S2P Require Import Prelude Float64 GoStrings Json Effects Rapl Instrumentation Segments.
From S2P Require Import Freezer EnergyState Channel Monitor Payload Recording.

Local Open Scope Z_scope.
Local Open Scope go_scope.

(** ** Running a body on another state *)

(** [m] runs on the state [init s], which [back] writes into [s] on every way out. *)
Definition run_in {S T A} (init : S → T) (back : T → S → S) (m : M T A) : M S (A * T) := λ env s w,
  match m env (init s) w with
  | Done a t w' => Done (a, t) (back t s) w'
  | Cut t w' => Cut (back t s) w'
  | Panic msg t w' => Panic msg (back t s) w'
  end.

(** ** Construction *)

Definition set_ex_ctl (c : ActivationController) (x : Executor) : Executor :=
  {| ex_command := ex_command x; ex_env := ex_env x; ex_ctl := c; ex_marks := ex_marks x |}.
Definition set_ex_marks (l : list freezeMark) (x : Executor) : Executor :=
  {| ex_command := ex_command x; ex_env := ex_env x; ex_ctl := ex_ctl x; ex_marks := l |}.

Definition ex_ctl_lens : lens Executor ActivationController.
Proof. refine (Lens ex_ctl set_ex_ctl _ _); [done|by intros []]. Defined.

Definition bump_counter (p : ActionProxy) : ActionProxy :=
  {| ap_initialized := ap_initialized p; ap_baseDir := ap_baseDir p; ap_compiler := ap_compiler p;
     ap_currentDir := ap_currentDir p; ap_theExecutor := ap_theExecutor p; ap_env := ap_env p;
     ap_metrics := ap_metrics p; ap_pendingInitEntry := ap_pendingInitEntry p; ap_chan := ap_chan p;
     ap_execCounter := ap_execCounter p +! 1 |}.

(** [nil] when a pipe or the cgroup cannot be made. *)
Definition NewExecutor (command : string) (env : gmap string string) : M ActionProxy (option Executor) :=
  debugging ← asks env_debugging;
  let env := if debugging : bool then <["OW_DEBUG" := "/tmp/action.log"]> env else env in
  stdin ← syscall "pipe" "stdin";
  match stdin with
  | Some _ => mret None
  | None =>
      output ← syscall "pipe" "output";
      match output with
      | Some _ => mret None
      | None =>
          modify bump_counter;;
          self ← asks env_self;
          n ← gets ap_execCounter;
          controller ← NewActivationController ("exec-" +:+ pretty self +:+ "-" +:+ pretty n);
          mret (match controller with
                | inr _ => None
                | inl c => Some {| ex_command := command; ex_env := env; ex_ctl := c; ex_marks := [] |}
                end)
      end
  end%string.

(** ** Life of the process *)

(** A look at the [exited] channel, closed once the process has been reaped. *)
Definition Exited : M Executor bool :=
  x ← get;
  if ac_reaped (ex_ctl x) then mret true
  else
    exited ← flag;
    (if exited : bool then zoom ex_ctl_lens (modify set_reaped) else mret ());;
    mret exited.

(** [ActionAck] *)
Definition ack_fields : list (field bool) := [bool_field "ok" (λ b _, b)].

Definition ack_error (answer : option http_body) : option goerr :=
  match answer with
  | None => Some (EMsg "Command exited abruptly during initialization.")
  | Some (BodyInvalid e) => Some e
  | Some (BodyJson j) =>
      match decode_struct ack_fields j false with
      | None => Some (EMsg "json")
      | Some true => None
      | Some false => Some (EMsg "The action did not initialize properly.")
      end
  end.

Definition DefaultTimeoutStart : Z := 5 * millisecond.

Definition Start (waitForAck : bool) : M Executor (option goerr) :=
  err ← zoom ex_ctl_lens Freezer.Start;
  match err with
  | Some _ => mret (Some (EMsg "command exited"))
  | None =>
      if negb waitForAck then
        exited ← Exited;
        mret (if exited : bool then Some (EMsg "command exited") else None)
      else
        answer ← effect env_action [];
        mret (ack_error answer)
  end.

Definition Stop : M Executor () :=
  zoom ex_ctl_lens (killExecution "");;
  zoom ex_ctl_lens Close;;
  mret ().

(** ** One invocation *)

(** What an invocation works on: the process and the channel to the scheduler. *)
Record Proc := { pr_exec : Executor; pr_chan : Chan }.

Definition set_pr_exec (x : Executor) (q : Proc) : Proc := {| pr_exec := x; pr_chan := pr_chan q |}.

Definition zero_cycle : PauseCycle := new_cycle "" 0 f64_zero f64_zero.

(** The monitor's view of the process, and back. *)
Definition mon_init (q : Proc) : Mon :=
  {| mon_ctl := ex_ctl (pr_exec q);
     mon_seg := {| sg_meter := newStepMeter 0 zero_snapshot; sg_marks := ex_marks (pr_exec q) |};
     mon_chan := pr_chan q; mon_res := new_result; mon_cycle := zero_cycle |}.

Definition mon_back (m : Mon) (q : Proc) : Proc :=
  {| pr_exec := set_ex_marks (sg_marks (mon_seg m)) (set_ex_ctl (mon_ctl m) (pr_exec q));
     pr_chan := mon_chan m |}.

Record Interaction := {
  in_answer : option http_body;          (** [None]: the process exited, or said nothing *)
  in_killInfo : option EnergyKillInfo;
  in_lifecycle : option Lifecycle;
  in_energy : option EnergyState         (** the caller's state, threshold included *)
}.

(** [monitorResult.get] *)
Definition kill_info (r : energyMonitorResult) : option EnergyKillInfo :=
  if res_killed r then Some {| ki_EnergyConsumedJ := res_consumedJ r; ki_PauseID := res_pauseID r |}
  else None.

Definition finalThreshold (r : energyMonitorResult) : f64 * bool := (res_thresholdJ r, res_thresholdUpdated r).

(** The threshold the step ended under goes back to the caller. *)
Definition final_energy (r : energyMonitorResult) (energy : EnergyState) : EnergyState :=
  let '(thresholdJ, updated) := finalThreshold r in
  if updated : bool then with_threshold thresholdJ energy else energy.

(** From the start of the monitor goroutine to its end. *)
Definition monitored_part (ticks polls : nat) (energy : option EnergyState) :
    M Proc (option energyMonitorResult) :=
  monitored ← shouldMonitorEnergy energy;
  match monitored, energy with
  | true, Some e =>
      r ← run_in mon_init mon_back (monitorEnergy ticks polls e);
      mret (Some (mon_res r.2))
  | _, _ => mret None
  end.

Definition interaction (answer : option http_body) (result : option energyMonitorResult)
    (energy : option EnergyState) : Interaction :=
  {| in_answer := answer;
     in_killInfo := r ← result; kill_info r;
     in_lifecycle := r ← result; snapshotLifecycle r;
     in_energy := match result with Some r => final_energy r <$> energy | None => energy end |}.

(** An invocation starts without marks. *)
Definition restart (q : Proc) : Proc := set_pr_exec (set_ex_marks (reset (ex_marks (pr_exec q))) (pr_exec q)) q.

Definition Interact (ticks polls : nat) (input : http_body) (energy : option EnergyState) :
    M Proc Interaction :=
  modify restart;;
  effect (λ _ _, tt) [EvStdin input];;
  result ← monitored_part ticks polls energy;
  answer ← effect env_action [];
  effect (λ _ _, tt) [EvGuard "stdout"];;
  effect (λ _ _, tt) [EvGuard "stderr"];;
  mret (interaction answer result energy).

(** ** What an invocation may do to the world *)

(** Everything but talking to the action and to the caller. *)
Definition inner (e : event) : Prop :=
  match e with EvStdin _ | EvGuard _ | EvLogLine _ _ | EvRespond _ _ => False | _ => True end.

Definition inwardly (w w' : io) : Prop :=
  ∃ new, io_trace w' = new ++ io_trace w ∧ Forall inner new.

Lemma quiet_inner e : quiet e → inner e.
Proof. by destruct e. Qed.

Lemma inwardly_refl w : inwardly w w.
Proof. by exists []. Qed.
Lemma inwardly_trans w1 w2 w3 : inwardly w1 w2 → inwardly w2 w3 → inwardly w1 w3.
Proof.
  intros (n1 & H1 & F1) (n2 & H2 & F2). exists (n2 ++ n1).
  rewrite H2, H1, app_assoc. split; [done|]. by apply Forall_app.
Qed.
Lemma inwardly_quietly w w' : quietly w w' → inwardly w w'.
Proof.
  intros (new & Ht & Hf). exists new. split; [done|]. eapply Forall_impl; [exact Hf|apply quiet_inner].
Qed.

(** The trace of a call of the controller: its write, then readings. *)
Lemma inwardly_write o path (new : list event) w w' :
  io_trace w' = new ++ op_write o path :: io_trace w → Forall quiet new → inwardly w w'.
Proof.
  intros Ht Hf. exists (new ++ [op_write o path]). rewrite Ht, <-app_assoc. split; [done|].
  apply Forall_app. split; [by eapply Forall_impl; [|apply quiet_inner]|]. repeat constructor. by destruct o.
Qed.

Lemma call_inwardly o p env a w : inwardly w (out_io (call o p env a w)).
Proof.
  destruct (call o p env a w) as [r a' w'|a' w'|msg a' w'] eqn:Hc; simpl.
  - apply call_spec in Hc as (_ & _ & [[_ ->]|(_ & new & Ht & Hf)]); [apply inwardly_refl|].
    by eapply inwardly_write.
  - destruct o; [| |apply blocked_kill_spec in Hc as (_ & _ & new & Ht & Hf); by eapply inwardly_write];
      match goal with H : call ?o _ _ _ _ = _ |- _ =>
        destruct (decide (acts o p a)) as [Ha|Hn];
        [destruct (call_acts o p env a w Ha) as [(? & ? & ? & ? & ? & Hr & _)|[? _]]; [|done]
        |destruct (call_idle o p env a w Hn) as (? & Hr & _)]; by rewrite H in Hr end.
  - destruct (decide (acts o p a)) as [Ha|Hn];
      [destruct (call_acts o p env a w Ha) as [(? & ? & ? & ? & ? & Hr & _)|(_ & ? & ? & Hr & _)]
      |destruct (call_idle o p env a w Hn) as (? & Hr & _)]; by rewrite Hc in Hr.
Qed.

Lemma traced_inwardly env u c w c' w' : traced env u c w c' w' → inwardly w w'.
Proof.
  destruct 1 as [_ Hq|url event r new _ Ht Hf _|o p r Hc _ _|p Hc _].
  - by apply inwardly_quietly.
  - exists (EvPost url (paused_json event) r :: new). split; [done|]. constructor; [done|].
    eapply Forall_impl; [exact Hf|]. by intros [].
  - pose proof (call_inwardly o p env c w) as H. by rewrite Hc in H.
  - pose proof (call_inwardly OpKill p env c w) as H. simpl in H. by rewrite Hc in H.
Qed.

(** The monitor's state when [Interact] starts it. *)
Definition fresh (s : Mon) : Prop := sg_marks (mon_seg s) = [] ∧ res_killed (mon_res s) = false.

Lemma monitor_inwardly ticks polls energy env s w :
  fresh s → inwardly w (out_io (monitorEnergy ticks polls energy env s w)).
Proof.
  intros [Hm Hr]. destruct (monitor_path env _ _ ticks polls energy s w eq_refl eq_refl Hm Hr) as [Hp _].
  apply (mon_rtc_ind _ _ _ (λ _ w', inwardly w w') _ _) in Hp; [exact Hp| |apply inwardly_refl].
  intros s1 w1 s2 w2 Hs Hw. eapply inwardly_trans; [exact Hw|].
  by eapply traced_inwardly, mon_step_traced.
Qed.

(** ** Theorems: one invocation *)

(** Whether a step is monitored: it has a budget, and its class can be told. *)
Definition monitored (energy : option EnergyState) : bool :=
  match energy with
  | None => false
  | Some e => negb (f64_leb (ExecutionThresholdJ e) f64_zero) && negb (interruptionClassUnresolved energy)
  end.

Lemma should_monitor_value {S} energy env (s : S) w :
  ∃ w', shouldMonitorEnergy energy env s w = Done (monitored energy) s w' ∧ quietly w w'.
Proof.
  unfold shouldMonitorEnergy, monitored, logUnresolvedInterruptionClass, safety.
  destruct energy as [e|]; [|eexists; split; [done|apply quietly_refl]].
  destruct (f64_leb _ _); [eexists; split; [done|apply quietly_refl]|].
  destruct (interruptionClassUnresolved _); run.
  - eexists. split; [done|]. exists [EvSafety "INTERRUPTION_CLASS_UNRESOLVED" "critical"].
    split; [done|]. by repeat constructor.
  - eexists. split; [done|apply quietly_refl].
Qed.

Lemma interact_unfold ticks polls input energy env q w :
  let w1 := advance env 0 [EvStdin input] w in
  Interact ticks polls input energy env q w =
  match monitored_part ticks polls energy env (restart q) w1 with
  | Done result q' w2 =>
      let w3 := advance env 0 [] w2 in
      Done (interaction (env_action env (io_step w2)) result energy) q'
        (advance env 0 [EvGuard "stderr"] (advance env 0 [EvGuard "stdout"] w3))
  | Cut q' w2 => Cut q' w2
  | Panic msg q' w2 => Panic msg q' w2
  end.
Proof.
  unfold Interact. run. unfold mbind at 1, M_bind.
  by destruct (monitored_part ticks polls energy env (restart q) _).
Qed.

(** What the monitored part may leave: nothing when the step is not monitored,
    otherwise the result of a run of the monitor. *)
Lemma monitored_part_spec ticks polls energy env q w :
  ∃ w1, quietly w w1 ∧
    ((monitored energy = false ∧ monitored_part ticks polls energy env q w = Done None q w1) ∨
     (∃ e, energy = Some e ∧ monitored energy = true ∧
      let o := monitorEnergy ticks polls e env (mon_init q) w1 in
      monitored_part ticks polls energy env q w =
        match o with
        | Done _ m w' => Done (Some (mon_res m)) (mon_back m q) w'
        | Cut m w' => Cut (mon_back m q) w'
        | Panic msg m w' => Panic msg (mon_back m q) w'
        end)).
Proof.
  destruct (should_monitor_value energy env q w) as (w1 & Hr & Hq).
  exists w1. split; [done|]. unfold monitored_part. rewrite (run_done _ _ _ _ _ _ _ _ Hr).
  destruct (monitored energy) eqn:Hb; [|by left]. right. destruct energy as [e|]; [|done]. exists e.
  split; [done|]. split; [done|]. unfold mbind at 1, M_bind, run_in.
  by destruct (monitorEnergy ticks polls e env (mon_init q) w1).
Qed.

Lemma monitored_part_inwardly ticks polls energy env q w :
  ex_marks (pr_exec q) = [] → inwardly w (out_io (monitored_part ticks polls energy env q w)).
Proof.
  intros Hm. destruct (monitored_part_spec ticks polls energy env q w)
    as (w1 & Hq & [[_ ->]|(e & _ & _ & ->)]); [by apply inwardly_quietly|].
  eapply inwardly_trans; [by apply inwardly_quietly|].
  pose proof (monitor_inwardly ticks polls e env (mon_init q) w1 (conj Hm eq_refl)) as H.
  by destruct (monitorEnergy ticks polls e env (mon_init q) w1).
Qed.

(** One line in, one answer out: an invocation writes its line to the action
    exactly once and first, closes both logs with one marker each after everything
    else, and answers what the action answered; cut short, it has written its line
    and no marker. *)
Theorem interact_conversation ticks polls input energy env q w :
  ∃ new, Forall inner new ∧
    match Interact ticks polls input energy env q w with
    | Done i _ w' =>
        io_trace w' = [EvGuard "stderr"; EvGuard "stdout"] ++ new ++ EvStdin input :: io_trace w ∧
        ∃ at_, in_answer i = env_action env at_
    | Cut _ w' | Panic _ _ w' => io_trace w' = new ++ EvStdin input :: io_trace w
    end.
Proof.
  rewrite interact_unfold. cbv zeta. set (w1 := advance env 0 [EvStdin input] w).
  destruct (monitored_part_inwardly ticks polls energy env (restart q) w1 eq_refl) as (new & Ht & Hf).
  exists new. split; [done|].
  destruct (monitored_part ticks polls energy env (restart q) w1); simpl in *; rewrite Ht; eauto.
Qed.

(** An action that is not monitored runs untouched: the runtime writes nothing
    to its cgroup, sends nothing to the scheduler, reports no kill and leaves its
    process and the channel as they were. *)
Theorem unmonitored_action_is_untouched ticks polls input energy env q w :
  monitored energy = false →
  ∃ i w' new, Interact ticks polls input energy env q w = Done i (restart q) w' ∧
    io_trace w' = new ++ io_trace w ∧
    Forall (λ e, match e with EvWrite _ _ | EvPost _ _ _ => False | _ => True end) new ∧
    in_killInfo i = None ∧ in_energy i = energy.
Proof.
  intros Hn. rewrite interact_unfold. cbv zeta. set (w1 := advance env 0 [EvStdin input] w).
  destruct (monitored_part_spec ticks polls energy env (restart q) w1)
    as (w2 & (new & Ht & Hf) & [[_ ->]|(e & _ & He & _)]); [|congruence].
  eexists _, _, ([EvGuard "stderr"; EvGuard "stdout"] ++ new ++ [EvStdin input]).
  split; [reflexivity|]. simpl. rewrite Ht, <-app_assoc. split; [done|]. split; [|done].
  do 2 (constructor; [done|]). apply Forall_app. split; [|by repeat constructor].
  eapply Forall_impl; [exact Hf|]. by intros [].
Qed.

(** An UNKILLABLE invocation of a running process is never reported as killed, and
    its process is still alive for the kernel's controller at whatever point the
    invocation is. *)
Theorem unkillable_invocation_survives ticks polls input e env q w :
  isNonInterruptibleForThisStep (Some e) = true → ac_state (ex_ctl (pr_exec q)) = StateRunning →
  let o := Interact ticks polls input (Some e) env q w in
  ac_state (ex_ctl (pr_exec (out_st o))) ∈ [StateRunning; StateFrozen; StateUnknown] ∧
  (∀ i, out_val o = Some i → in_killInfo i = None).
Proof.
  intros Hu Hst. rewrite interact_unfold. cbv zeta. set (w1 := advance env 0 [EvStdin input] w).
  destruct (monitored_part_spec ticks polls (Some e) env (restart q) w1)
    as (w2 & _ & [[_ ->]|(e' & [= <-] & _ & ->)]); [simpl; rewrite Hst; set_solver|].
  destruct (monitor_invariant alive_inv ticks polls e env (mon_init (restart q)) w2) as [Ha Hr];
    [rewrite Hu; apply alive_inv_step|done|split; simpl; [rewrite Hst; set_solver|done]|].
  destruct (monitorEnergy ticks polls e env (mon_init (restart q)) w2) as [r m w'|m w'|msg m w'];
    simpl in *; (split; [done|]); intros i Hi; simplify_eq/=.
  unfold kill_info. by rewrite Hr.
Qed.

Lemma start_spec waitForAck env x w x' w' :
  Start waitForAck env x w = Done None x' w' →
  ac_state (ex_ctl x') = StateRunning ∧ is_Some (ac_cmd (ex_ctl x')) ∧
  (∃ new, io_trace w' = new ++ EvSyscall "clone_into_cgroup" (ac_path (ex_ctl x)) ::
                          EvSyscall "open" (ac_path (ex_ctl x)) :: io_trace w) ∧
  (waitForAck = true → ∃ i j, env_action env i = Some (BodyJson j) ∧ decode_struct ack_fields j false = Some true).
Proof.
  unfold Start, Freezer.Start, syscall, zoom. run. unfold mbind at 1, M_bind. run.
  destruct (env_syscall env _ "open" _); [done|]. run.
  destruct (env_syscall env _ "clone_into_cgroup" _); [done|]. run.
  destruct waitForAck; cbn [negb].
  - run. intros [= Ha <- <-]. split; [done|]. split; [done|]. split; [by eexists []|]. intros _.
    unfold ack_error in Ha. destruct (env_action env _) as [[j|]|] eqn:He; try done.
    destruct (decode_struct ack_fields j false) as [[]|] eqn:Hd; try done. by eexists _, _.
  - unfold Exited, flag. run. destruct (ac_reaped _); [done|]. run.
    destruct (env_flag env _); [done|]. run. intros [= <- <-]. split; [done|]. split; [done|].
    split; [by eexists []|done].
Qed.

(** A start succeeds only for a process the kernel has put into its own cgroup,
    and, when an acknowledgement is required, only if the first line of the action
    says [ok]. *)
Theorem start_requires_cgroup_and_ack waitForAck env x w x' w' :
  Start waitForAck env x w = Done None x' w' →
  ac_state (ex_ctl x') = StateRunning ∧ is_Some (ac_cmd (ex_ctl x')) ∧
  (∃ new, io_trace w' = new ++ EvSyscall "clone_into_cgroup" (ac_path (ex_ctl x)) ::
                          EvSyscall "open" (ac_path (ex_ctl x)) :: io_trace w) ∧
  (waitForAck = true → ∃ i j, env_action env i = Some (BodyJson j) ∧ decode_struct ack_fields j false = Some true).
Proof. apply start_spec. Qed.

(** ** Sample invocations *)

Definition sample_executor : Executor :=
  {| ex_command := "/action/1/bin/exec"; ex_env := ∅; ex_ctl := sample_activation StateRunning;
     ex_marks := [] |}%string.

Definition sample_proc : Proc := {| pr_exec := sample_executor; pr_chan := mon_chan sample_mon |}.

Lemma unmonitored_action_is_untouched_witness :
  ∃ i w' new, Interact 2 2 (BodyJson JNull) None (sample_site kill_answer) sample_proc io_start =
      Done i (restart sample_proc) w' ∧
    io_trace w' = new ++ [] ∧
    Forall (λ e, match e with EvWrite _ _ | EvPost _ _ _ => False | _ => True end) new ∧
    in_killInfo i = None ∧ in_energy i = None.
Proof.
  exact (unmonitored_action_is_untouched 2 2 (BodyJson JNull) None (sample_site kill_answer) sample_proc
    io_start eq_refl).
Defined.

Lemma unkillable_invocation_survives_witness :
  ac_state (ex_ctl (pr_exec (out_st (Interact 2 2 (BodyJson JNull) (Some (spent "UNKILLABLE"))
    (sample_site kill_answer) sample_proc io_start)))) ∈ [StateRunning; StateFrozen; StateUnknown].
Proof.
  apply (unkillable_invocation_survives 2 2 (BodyJson JNull) (spent "UNKILLABLE") (sample_site kill_answer)
    sample_proc io_start eq_refl eq_refl).
Defined.

(** An action that acknowledges its start. *)
Definition acking : Env :=
  sample_env [] [] (λ _, None) (λ _, HttpErr EDeadline) false
    (Some (BodyJson (JObj [("ok"%string, JBool true)]))).

Lemma start_requires_cgroup_and_ack_witness :
  ∃ x', ac_state (ex_ctl x') = StateRunning ∧ is_Some (ac_cmd (ex_ctl x')) ∧
    ∃ i j, env_action acking i = Some (BodyJson j) ∧ decode_struct ack_fields j false = Some true.
Proof.
  assert (H : ∃ x' w', Start true acking sample_executor io_start = Done None x' w')
    by (eexists _, _; vm_compute; reflexivity).
  destruct H as (x' & w' & Hr). exists x'.
  destruct (start_requires_cgroup_and_ack true acking sample_executor io_start x' w' Hr) as (Hs & Hc & _ & Ha).
  split; [exact Hs|]. split; [exact Hc|exact (Ha eq_refl)].
Defined.
