(* ===== verification/RunHandler.v ===== *)
(** * The [/run] handler ([openwhisk/runHandler.go])

    One invocation, from the request to the response: snapshots, extraction of
    the energy state, the action, and then one of four ends: the report of a
    kill, an early exit, a bad answer, or the reinjection of the energy state
    and the answer. *)

From S2P Require Import Prelude Float64 GoStrings Json Effects Rapl Instrumentation Segments.
From S2P Require Import Freezer EnergyState Channel Monitor Payload Recording Executor.

Local Open Scope Z_scope.
Local Open Scope go_scope.

(** ** Requests and responses *)

Definition sendError {S} (code : Z) (cause : string) : M S () :=
  effect (λ _ _, tt) [EvRespond code (JObj [("error"%string, JStr cause)])].

Record runRequest := {
  rq_ActivationID : string;
  rq_Value : option gomap;
  rq_ActionName : string
}.

Definition zero_request : runRequest :=
  {| rq_ActivationID := ""; rq_Value := None; rq_ActionName := "" |}.

Definition set_value (m : option gomap) (r : runRequest) : runRequest :=
  {| rq_ActivationID := rq_ActivationID r; rq_Value := m; rq_ActionName := rq_ActionName r |}.

(** A [map[string]interface{}] field: members are added to the map already
    there. *)
Definition map_field {T} (n : string) (get : T → option gomap) (set : option gomap → T → T) : field T :=
  Field n (λ j t, match j with
                  | JObj l => Some (set (Some (foldl (λ m kv, <[kv.1 := kv.2]> m) (default ∅ (get t)) l)) t)
                  | JNull => Some (set None t)
                  | _ => None
                  end).

Definition run_request_fields : list (field runRequest) :=
  [str_field "activation_id" (λ x r, Build_runRequest x (rq_Value r) (rq_ActionName r));
   map_field "value" rq_Value set_value;
   str_field "action_name" (λ x r, Build_runRequest (rq_ActivationID r) (rq_Value r) x)].

(** [json.Marshal(req)] *)
Definition request_json (r : runRequest) : json :=
  JObj [("activation_id", JStr (rq_ActivationID r));
        ("value", match rq_Value r with Some m => json_of_map m | None => JNull end);
        ("action_name", JStr (rq_ActionName r))]%string.

Definition new_meta (podName : string) : RunMeta :=
  {| meta_TraceID := ""; meta_PodName := podName; meta_ActivationID := ""; meta_ExecutionPhase := "";
     meta_Lifecycle := None |}.

Definition sidecar_lifecycle (extractNs : Z) : Lifecycle :=
  {| lc_MonitorSamples := 0; lc_MonitorBusyNs := 0; lc_SidecarExtractNs := extractNs;
     lc_SidecarInjectNs := 0; lc_SidecarStateBytes := 0; lc_KillRequestedAt := f64_zero;
     lc_ProcessStoppedAt := f64_zero; lc_KillCause := ""; lc_Cycles := [] |}.

Definition set_meta_lifecycle (l : option Lifecycle) (m : RunMeta) : RunMeta :=
  {| meta_TraceID := meta_TraceID m; meta_PodName := meta_PodName m;
     meta_ActivationID := meta_ActivationID m; meta_ExecutionPhase := meta_ExecutionPhase m;
     meta_Lifecycle := l |}.

(** ** Before the action *)

(** What the request becomes: the decoded request with its stripped parameters,
    the tags of the measurement, the energy state, and the line for the
    action. *)
Record Prepared := {
  pp_req : runRequest;
  pp_meta : RunMeta;
  pp_energy : option EnergyState;
  pp_body : http_body
}.

(** [energy_trace_id] of the parameters, when it is a string. *)
Definition trace_param (value : option gomap) : string :=
  match v ← value; v !! "energy_trace_id"%string with Some (JStr s) => s | _ => ""%string end.

Definition prepare (body : http_body) : M ActionProxy Prepared :=
  podName ← getenv "HOSTNAME";
  let unmanaged req meta := {| pp_req := req; pp_meta := meta; pp_energy := None; pp_body := body |} in
  match body with
  | BodyInvalid _ => mret (unmanaged zero_request (new_meta podName))
  | BodyJson j =>
      match decode_struct run_request_fields j zero_request with
      | None => mret (unmanaged zero_request (new_meta podName))
      | Some req =>
          let trace := trace_param (rq_Value req) in
          let meta := {| meta_TraceID := trace; meta_PodName := podName;
                         meta_ActivationID := rq_ActivationID req; meta_ExecutionPhase := "";
                         meta_Lifecycle := None |} in
          extractStart ← now_mono;
          r ← ExtractEnergyState (default ∅ (rq_Value req));
          extractEnd ← now_mono;
          match r.1 with
          | None => mret (unmanaged req meta)
          | Some e =>
              let req := set_value (Some r.2) req in
              let e := with_action_name (shortActionName (rq_ActionName req)) e in
              let meta := {| meta_TraceID := if (trace =? "")%string then TraceID e else trace;
                             meta_PodName := podName; meta_ActivationID := rq_ActivationID req;
                             meta_ExecutionPhase := ExecutionPhase e;
                             meta_Lifecycle := Some (sidecar_lifecycle (extractEnd -! extractStart)) |} in
              mret {| pp_req := req; pp_meta := meta; pp_energy := Some e;
                      pp_body := if json_encodable (request_json req)
                                 then BodyJson (request_json req) else body |}
          end
      end
  end.

(** ** The action *)

(** A method of [ap.theExecutor]. *)
Definition with_executor {A} (m : M Proc A) : M ActionProxy A := λ env p w,
  match ap_theExecutor p with
  | None => Panic "nil pointer dereference" p w
  | Some x =>
      let back q := set_chan (pr_chan q) (set_executor (Some (pr_exec q)) p) in
      match m env {| pr_exec := x; pr_chan := ap_chan p |} w with
      | Done a q w' => Done a (back q) w'
      | Cut q w' => Cut (back q) w'
      | Panic msg q w' => Panic msg (back q) w'
      end
  end.

Definition pr_exec_lens : lens Proc Executor.
Proof. refine (Lens pr_exec set_pr_exec _ _); [done|by intros []]. Defined.

(** The monitor's instrumentation replaces the one of the extraction, whose cost
    it keeps. *)
Definition with_extract (extractNs : Z) (l : Lifecycle) : Lifecycle :=
  {| lc_MonitorSamples := lc_MonitorSamples l; lc_MonitorBusyNs := lc_MonitorBusyNs l;
     lc_SidecarExtractNs := extractNs; lc_SidecarInjectNs := lc_SidecarInjectNs l;
     lc_SidecarStateBytes := lc_SidecarStateBytes l; lc_KillRequestedAt := lc_KillRequestedAt l;
     lc_ProcessStoppedAt := lc_ProcessStoppedAt l; lc_KillCause := lc_KillCause l;
     lc_Cycles := lc_Cycles l |}.

Definition merge_lifecycle (l : option Lifecycle) (m : RunMeta) : RunMeta :=
  match l, meta_Lifecycle m with
  | None, _ => m
  | Some l, None => set_meta_lifecycle (Some l) m
  | Some l, Some x => set_meta_lifecycle (Some (with_extract (lc_SidecarExtractNs x) l)) m
  end.

(** ** The ends of an invocation *)

(** The snapshots the invocation started from. *)
Record Instant := { st_start : Z; st_energy : Z; st_cpu : CPUSnapshot }.

Definition killed_event (k : EnergyKillInfo) (e : EnergyState) (req : runRequest) (meta : RunMeta) :
    ExecutionKilledEvent :=
  {| ke_TraceID := TraceID e; ke_ReservationID := ReservationID e; ke_PauseID := ki_PauseID k;
     ke_ActionName := ResolvedActionName e; ke_ExecutionPhase := ExecutionPhase e;
     ke_EnergyBudgetExceeded := true;
     ke_EnergyConsumedJ := ki_EnergyConsumedJ k ⊕ ConsumedBeforeJ e;
     ke_EnergyOriginalArguments := rq_Value req; ke_ActivationID := meta_ActivationID meta |}.

Definition report_kill (st : Instant) (k : EnergyKillInfo) (e : EnergyState) (req : runRequest)
    (meta : RunMeta) : M ActionProxy () :=
  recordMetricsSyncWithFallback "/run" (st_start st) (st_energy st) (st_cpu st) (Some meta)
    (ki_EnergyConsumedJ k);;
  modify (set_executor None);;
  zoom proxy_chan (postExecutionKilled (killed_event k e req meta));;
  sendError 400 "energy budget exceeded: action killed".

(** [json.Unmarshal] of the answer into a map, then into an array: a map, [nil] for
    [null] and for an array; [None] when neither fits. *)
Definition answer_map (answer : http_body) : option (option gomap) :=
  match answer with
  | BodyJson (JObj l) => Some (Some (members_map l))
  | BodyJson JNull => Some None
  | BodyJson (JArr _) => Some None
  | _ => None
  end.

Definition set_inject (ns : Z) (bytes : option Z) (l : Lifecycle) : Lifecycle :=
  {| lc_MonitorSamples := lc_MonitorSamples l; lc_MonitorBusyNs := lc_MonitorBusyNs l;
     lc_SidecarExtractNs := lc_SidecarExtractNs l; lc_SidecarInjectNs := ns;
     lc_SidecarStateBytes := default (lc_SidecarStateBytes l) bytes;
     lc_KillRequestedAt := lc_KillRequestedAt l; lc_ProcessStoppedAt := lc_ProcessStoppedAt l;
     lc_KillCause := lc_KillCause l; lc_Cycles := lc_Cycles l |}.

(** The energy of this step, read again at the end of the action. *)
Definition step_energy (st : Instant) : M ActionProxy f64 :=
  reading ← readEnergy;
  let energyEnd := match reading with inl e => e | inr _ => 0 end in
  x ← gets ap_theExecutor;
  cpuEnd ← match x with
           | Some x => readCPUSnapshot (Pid x)
           | None => mret zero_snapshot
           end;
  detail ← asks (λ env, segmentedAttribution env (st_energy st) energyEnd (st_cpu st) cpuEnd (FreezeMarks x));
  mret (f64_of_Z (AttributedUJ detail) ⊘ f64_1e6).

(** The answer with the energy state of the next step; an encoding error leaves the
    answer as it was. *)
Definition reinject (st : Instant) (result : gomap) (e : EnergyState) (answer : json) (meta : RunMeta) :
    M ActionProxy (json * RunMeta) :=
  measuredJ ← step_energy st;
  injectStart ← now_mono;
  let updated := ReinjectEnergyState result (Some e) measuredJ in
  injectEnd ← now_mono;
  bytes ← asks (λ env, match updated with
                       | inl m => (λ j, Z.of_nat (String.length (env_json_text env j))) <$> m !! energyStateKey
                       | inr _ => None
                       end);
  let meta := set_meta_lifecycle (set_inject (injectEnd -! injectStart) bytes <$> meta_Lifecycle meta) meta in
  mret (match updated with
        | inl m => (json_of_map m, meta)
        | inr _ => (answer, meta)
        end).

(** A write that fails is followed by an error response. *)
Definition write_response (answer : json) : M ActionProxy () :=
  effect (λ _ _, tt) [EvRespond 200 answer];;
  err ← syscall "write" "response";
  match err with
  | Some _ => sendError 500 "Error writing response"
  | None => mret ()
  end.

Definition finish_run (st : Instant) (answer : http_body) (energy : option EnergyState) (meta : RunMeta) :
    M ActionProxy () :=
  match answer_map answer, answer with
  | Some objmap, BodyJson j =>
      r ← (match energy, objmap with
           | Some e, Some m => reinject st m e j meta
           | _, _ => mret (j, meta)
           end);
      recordMetricsSync "/run" (st_start st) (st_energy st) (st_cpu st) (Some r.2);;
      write_response r.1
  | _, _ => sendError 502 "The action did not return a dictionary or array."
  end.

(** ** The handler *)

Definition invoke (ticks polls : nat) (st : Instant) (body : http_body) : M ActionProxy () :=
  p ← prepare body;
  i ← with_executor (Interact ticks polls (pp_body p) (pp_energy p));
  let meta := merge_lifecycle (in_lifecycle i) (pp_meta p) in
  match in_killInfo i, in_energy i with
  | Some k, Some e => report_kill st k e (pp_req p) meta
  | Some _, None => panic "nil pointer dereference"
  | None, _ =>
      match in_answer i with
      | None => modify (set_executor None);; sendError 400 "command exited"
      | Some answer => finish_run st answer (in_energy i) meta
      end
  end.

Definition runHandler (ticks polls : nat) (request : http_body + goerr) : M ActionProxy () :=
  start ← now_wall;
  reading ← readEnergy;
  let energyStart := match reading with inl e => e | inr _ => 0 end in
  x ← gets ap_theExecutor;
  (match x with Some x => readCPUSnapshot (Pid x);; mret () | None => mret () end);;
  match request with
  | inr _ => sendError 400 "Error reading request body"
  | inl body =>
      match x with
      | None => sendError 500 "no action defined yet"
      | Some x =>
          cpuStart ← readCPUSnapshot (Pid x);
          exited ← with_executor (zoom pr_exec_lens Exited);
          if exited : bool then sendError 500 "command exited"
          else invoke ticks polls {| st_start := start; st_energy := energyStart; st_cpu := cpuStart |} body
      end
  end.

(** ** What the caller and the action see *)

#[global] Instance inner_dec e : Decision (inner e).
Proof. destruct e; simpl; apply _. Defined.

(** The lines to the action, the markers and the responses, newest first. *)
Definition visible (tr : list event) : list event := filter (λ e, ¬ inner e) tr.

Lemma visible_app tr tr' : visible (tr ++ tr') = visible tr ++ visible tr'.
Proof. apply filter_app. Qed.

Lemma visible_inner tr : Forall inner tr → visible tr = [].
Proof.
  unfold visible. induction 1 as [|e tr He _ IH]; [done|]. by rewrite (filter_cons_False _ e) by tauto.
Qed.

(** [shows P Q m]: what [m] shows satisfies [Q] when it returns, and [P] so far
    when it is cut short. *)
Definition shows {S A} (env : Env) (P : list event → Prop) (Q : A → list event → Prop) (m : M S A) : Prop :=
  ∀ s w, ∃ new, io_trace (out_io (m env s w)) = new ++ io_trace w ∧
    match m env s w with Done a _ _ => Q a (visible new) | _ => P (visible new) end.

Lemma shows_bind {S A B} env P (Q : B → list event → Prop) R (m : M S A) (k : A → M S B) :
  shows env P R m → (∀ a l, R a l → shows env (λ l', P (l' ++ l)) (λ b l', Q b (l' ++ l)) (k a)) →
  shows env P Q (m ≫= k).
Proof.
  intros Hm Hk s w. destruct (Hm s w) as (n1 & H1 & Hr). unfold mbind, M_bind.
  destruct (m env s w) as [a s' w'|s' w'|msg s' w']; simpl in *; [|by exists n1..].
  destruct (Hk a _ Hr s' w') as (n2 & H2 & Hq). exists (n2 ++ n1).
  rewrite H2, H1, app_assoc. split; [done|]. by rewrite visible_app.
Qed.

Lemma shows_emits {S A} env P (Q : A → list event → Prop) (m : M S A) :
  emits inner m → P [] → (∀ a, Q a []) → shows env P Q m.
Proof.
  intros Hm HP HQ s w. destruct (Hm env s w I) as [(new & Ht & Hf) _]. exists new.
  split; [done|]. rewrite visible_inner by done. by destruct (m env s w).
Qed.

(** Bodies the caller and the action see nothing of. *)
Lemma shows_inner {S A B} env P (Q : B → list event → Prop) (m : M S A) (k : A → M S B) :
  emits inner m → P [] → (∀ a, shows env P Q (k a)) → shows env P Q (m ≫= k).
Proof.
  intros Hm HP Hk. apply (shows_bind _ _ _ (λ _ l, l = [])); [by apply shows_emits|].
  intros a l -> s w. destruct (Hk a s w) as (new & Ht & H). exists new.
  split; [done|]. by rewrite app_nil_r.
Qed.

Lemma inwardly_emits {S A} (m : M S A) :
  (∀ env s w, inwardly w (out_io (m env s w))) → emits inner m.
Proof. intros H env s w _. split; [apply H|by destruct (m env s w)]. Qed.

Lemma emits_quiet_inner {S A} (m : M S A) : emits quiet m → emits inner m.
Proof. intros H. eapply emits_weaken; [exact H|apply quiet_inner]. Qed.

Section inner.
Context {S : Type}.

Lemma readEnergy_inner : emits inner (readEnergy : M S _).
Proof. apply emits_quiet_inner, readEnergy_quiet. Qed.
Lemma readCPUSnapshot_inner pid : emits inner (readCPUSnapshot pid : M S _).
Proof. apply emits_quiet_inner, readCPUSnapshot_quiet. Qed.
Lemma now_wall_inner : emits inner (now_wall : M S _).
Proof. apply emits_quiet_inner, now_wall_quiet. Qed.
End inner.

#[export] Hint Resolve readEnergy_inner readCPUSnapshot_inner now_wall_inner : emits.

Lemma prepare_quiet body : emits quiet (prepare body).
Proof.
  unfold prepare, ExtractEnergyState, logCorruptedEnergyState, safety. solve_emits ltac:(done).
Qed.

Lemma with_executor_io {A} (m : M Proc A) env p w x :
  ap_theExecutor p = Some x →
  out_io (with_executor m env p w) = out_io (m env {| pr_exec := x; pr_chan := ap_chan p |} w) ∧
  out_val (with_executor m env p w) = out_val (m env {| pr_exec := x; pr_chan := ap_chan p |} w).
Proof. unfold with_executor. intros ->. by destruct (m env _ w). Qed.

Lemma with_executor_inner {A} (m : M Proc A) : emits inner m → emits inner (with_executor m).
Proof.
  intros Hm env p w _. unfold with_executor. destruct (ap_theExecutor p) as [x|]; [|by split; [exists []|]].
  destruct (Hm env {| pr_exec := x; pr_chan := ap_chan p |} w I) as [Ht _].
  by destruct (m env _ w).
Qed.

Lemma exited_inner : emits inner (with_executor (zoom pr_exec_lens Exited)).
Proof.
  apply with_executor_inner, emits_zoom. unfold Exited, flag. solve_emits ltac:(done).
Qed.

Lemma pushed_inwardly env endpoint e w w' : pushed env endpoint e w w' → inwardly w w'.
Proof.
  unfold pushed. case_match; [|intros ->; apply inwardly_refl].
  intros (ok & new & Ht & Hf & _). rewrite app_assoc in Ht. eexists. split; [exact Ht|].
  apply Forall_app. split; [destruct ok; by repeat constructor|].
  eapply Forall_impl; [exact Hf|]. by intros [].
Qed.

Lemma measure_inner endpoint start energyStart cpuStart meta fallbackJ :
  emits inner (measure endpoint start energyStart cpuStart meta fallbackJ).
Proof.
  unfold measure, final_snapshot, readCPUSnapshotFromCgroup, readCgroupV2CPUUsec, read_file,
    logEnergyAttributionFallbackUsed, safety. solve_emits ltac:(done).
Qed.

Lemma push_or_spawn_inner sync endpoint e : emits inner (push_or_spawn sync endpoint e).
Proof.
  apply inwardly_emits. intros env p w. unfold push_or_spawn. destruct sync; [|apply inwardly_refl].
  destruct (pushMetrics_spec endpoint e env p w) as (w' & -> & Hp). by eapply pushed_inwardly.
Qed.

Lemma record_inner endpoint start energyStart cpuStart meta sync fallbackJ :
  emits inner (recordMetricsImpl endpoint start energyStart cpuStart meta sync fallbackJ).
Proof.
  pose proof measure_inner. pose proof push_or_spawn_inner. unfold recordMetricsImpl.
  solve_emits ltac:(done).
Qed.

Lemma post_killed_inner event : emits inner (postExecutionKilled event).
Proof.
  apply inwardly_emits. intros env c w.
  destruct (json_encodable (killed_json event)) eqn:He.
  - destruct (postExecutionKilled_spec event env c w He)
      as (ok & c' & w' & new & -> & Ht & Hf & _). simpl. rewrite app_assoc in Ht.
    eexists. split; [exact Ht|]. apply Forall_app. split; [destruct ok; by repeat constructor|].
    eapply Forall_impl; [exact Hf|]. by intros [].
  - unfold postExecutionKilled. rewrite He. apply inwardly_refl.
Qed.

Lemma reinject_inner st result e answer meta : emits inner (reinject st result e answer meta).
Proof. unfold reinject, step_energy. solve_emits ltac:(done). Qed.

(** ** Theorems: the conversation *)

(** What an invocation that has reached the action shows, newest first. *)
Definition told (line : http_body) : list event := [EvGuard "stderr"; EvGuard "stdout"; EvStdin line].

(** The conversations of one request: refused before the action, or one line to
    the action and one response; a response whose write fails is followed by
    an error. *)
Inductive conversation : option http_body → list event → Prop :=
  | conv_refused code j : code ∈ [400; 500] → conversation None [EvRespond code j]
  | conv_answered line code j :
      code ∈ [200; 400; 502] → conversation (Some line) (EvRespond code j :: told line)
  | conv_lost line j j' :
      conversation (Some line) (EvRespond 500 j' :: EvRespond 200 j :: told line).

(** A request under way has not been answered, or its last write is being
    attempted. *)
Inductive under_way : list event → Prop :=
  | way_before : under_way []
  | way_action line : under_way [EvStdin line]
  | way_after line : under_way (told line).

Lemma interact_shows env ticks polls input energy :
  shows env under_way (λ _ l, l = told input) (Interact ticks polls input energy).
Proof.
  intros q w. rewrite interact_unfold. cbv zeta. set (w1 := advance env 0 [EvStdin input] w).
  destruct (monitored_part_inwardly ticks polls energy env (restart q) w1 eq_refl) as (new & Ht & Hf).
  destruct (monitored_part ticks polls energy env (restart q) w1); simpl in *; rewrite Ht.
  2, 3: exists (new ++ [EvStdin input]); rewrite <-app_assoc; split; [done|];
    rewrite visible_app, visible_inner by done; apply way_action.
  exists ([EvGuard "stderr"; EvGuard "stdout"] ++ new ++ [EvStdin input]).
  split; [by rewrite <-!app_assoc|]. by rewrite !visible_app, (visible_inner new) by done.
Qed.

Lemma sendError_shows {S} env (line : http_body) code cause :
  code ∈ [200; 400; 502] →
  shows (S:=S) env (λ l, under_way (l ++ told line)) (λ _ l, conversation (Some line) (l ++ told line))
    (sendError code cause).
Proof. intros Hc s w. eexists [_]. split; [done|]. by apply conv_answered. Qed.

Lemma finish_run_shows env line st answer energy meta :
  shows env (λ l, under_way (l ++ told line)) (λ _ l, conversation (Some line) (l ++ told line))
    (finish_run st answer energy meta).
Proof.
  pose proof (way_after line : under_way ([] ++ told line)) as Hw. pose proof reinject_inner.
  unfold finish_run, recordMetricsSync. destruct (answer_map answer); [|apply sendError_shows; set_solver].
  destruct answer as [j|e]; [|apply sendError_shows; set_solver].
  apply shows_inner; [solve_emits ltac:(done)|done|]. intros r.
  apply shows_inner; [apply record_inner|done|]. intros _. unfold write_response.
  intros p w. run. unfold syscall. run. case_match.
  - eexists [_; _; _]. split; [done|]. apply conv_lost.
  - eexists [_; _]. split; [done|]. apply conv_answered. set_solver.
Qed.

Lemma report_kill_shows env line st k e req meta :
  shows env (λ l, under_way (l ++ told line)) (λ _ l, conversation (Some line) (l ++ told line))
    (report_kill st k e req meta).
Proof.
  pose proof (way_after line : under_way ([] ++ told line)) as Hw.
  unfold report_kill, recordMetricsSyncWithFallback.
  apply shows_inner; [apply record_inner|done|]. intros _.
  apply shows_inner; [apply emits_modify|done|]. intros _.
  apply shows_inner; [apply emits_zoom, post_killed_inner|done|]. intros _.
  apply sendError_shows. set_solver.
Qed.

(** What is sent to the action for a request. *)
Definition line_of (env : Env) (p : ActionProxy) (w : io) (body : http_body) : option http_body :=
  pp_body <$> out_val (prepare body env p w).

(** A body nothing is seen of, with the value it returned. *)
Lemma shows_val {S A} env P (m : M S A) :
  emits inner m → P [] →
  shows env P (λ a l, l = [] ∧ ∃ s w, out_val (m env s w) = Some a) m.
Proof.
  intros Hm HP s w. destruct (Hm env s w I) as [(new & Ht & Hf) _]. exists new.
  split; [done|]. rewrite visible_inner by done.
  destruct (m env s w) eqn:Hr; [|done..]. split; [done|]. exists s, w. by rewrite Hr.
Qed.

Lemma with_executor_shows {A} env P (Q : A → list event → Prop) (m : M Proc A) :
  shows env P Q m → P [] → shows env P Q (with_executor m).
Proof.
  intros Hm HP p w. unfold with_executor. destruct (ap_theExecutor p) as [x|]; [|by exists []].
  destruct (Hm {| pr_exec := x; pr_chan := ap_chan p |} w) as (new & Ht & Hq). exists new.
  by destruct (m env _ w).
Qed.

(** The conversation about a request that has reached the action. *)
Definition about (env : Env) (body : http_body) (l : list event) : Prop :=
  ∃ x, conversation (Some x) l ∧ ∃ p w, line_of env p w body = Some x.

Lemma invoke_shows env ticks polls st body :
  shows env under_way (λ _ l, about env body l) (invoke ticks polls st body).
Proof.
  unfold invoke. eapply shows_bind; [apply shows_val; [apply emits_quiet_inner, prepare_quiet|apply way_before]|].
  intros prep l [-> (p1 & w1 & Hp)].
  assert (Hline : line_of env p1 w1 body = Some (pp_body prep)) by (unfold line_of; by rewrite Hp).
  assert (Habout : ∀ l, conversation (Some (pp_body prep)) l → about env body l) by (intros l Hc; eexists; eauto).
  apply (shows_bind _ _ _ (λ _ l, l = told (pp_body prep) ++ [])).
  { apply with_executor_shows; [|apply way_before]. intros q w.
    destruct (interact_shows env ticks polls (pp_body prep) (pp_energy prep) q w) as (new & Ht & Hq).
    exists new. split; [exact Ht|]. destruct (Interact _ _ _ _ env q w) as [i q' w'| |];
      rewrite app_nil_r; exact Hq. }
  intros i l ->. rewrite app_nil_r. assert (Hend : ∀ m : M ActionProxy (),
    shows env (λ l, under_way (l ++ told (pp_body prep)))
      (λ _ l, conversation (Some (pp_body prep)) (l ++ told (pp_body prep))) m →
    shows env (λ l, under_way ((l ++ told (pp_body prep)) ++ []))
      (λ _ l, about env body ((l ++ told (pp_body prep)) ++ [])) m).
  { intros m Hm s w. destruct (Hm s w) as (new & Ht & Hq). exists new. split; [done|].
    rewrite app_nil_r. destruct (m env s w); auto. }
  destruct (in_killInfo i) as [k|], (in_energy i) as [e|]; apply Hend; try apply report_kill_shows.
  - intros s w. exists []. split; [done|]. apply way_after.
  - destruct (in_answer i); [apply finish_run_shows|].
    apply shows_inner; [apply emits_modify|apply way_after|]. intros _. apply sendError_shows. set_solver.
  - destruct (in_answer i); [apply finish_run_shows|].
    apply shows_inner; [apply emits_modify|apply way_after|]. intros _. apply sendError_shows. set_solver.
Qed.

Lemma run_conversation_spec ticks polls request env p w :
  ∃ new, io_trace (out_io (runHandler ticks polls request env p w)) = new ++ io_trace w ∧
    match runHandler ticks polls request env p w with
    | Done _ _ _ =>
        ∃ line, conversation line (visible new) ∧
          (∀ x, line = Some x → ∃ body p1 w1, request = inl body ∧ line_of env p1 w1 body = Some x)
    | _ => under_way (visible new)
    end.
Proof.
  assert (H : shows env under_way (λ _ l, ∃ line, conversation line l ∧
    (∀ x, line = Some x → ∃ body p1 w1, request = inl body ∧ line_of env p1 w1 body = Some x))
    (runHandler ticks polls request)).
  { assert (Hrefuse : ∀ code cause, code ∈ [400; 500] → shows env under_way
      (λ _ l, ∃ line, conversation line l ∧
        (∀ x, line = Some x → ∃ body p1 w1, request = inl body ∧ line_of env p1 w1 body = Some x))
      (sendError (S:=ActionProxy) code cause)).
    { intros code cause Hc s w1. eexists [_]. split; [done|]. eexists None. split; [by apply conv_refused|done]. }
    unfold runHandler. apply shows_inner; [auto with emits|apply way_before|]. intros start.
    apply shows_inner; [auto with emits|apply way_before|]. intros reading.
    apply shows_inner; [auto with emits|apply way_before|]. intros x.
    apply shows_inner; [solve_emits ltac:(done)|apply way_before|]. intros _.
    destruct request as [body|]; [|apply Hrefuse; set_solver].
    destruct x as [x|]; [|apply Hrefuse; set_solver].
    apply shows_inner; [auto with emits|apply way_before|]. intros cpu.
    apply shows_inner; [apply exited_inner|apply way_before|]. intros [].
    - apply Hrefuse. set_solver.
    - intros s w1. destruct (invoke_shows env ticks polls
        {| st_start := start; st_energy := match reading with inl e => e | inr _ => 0 end; st_cpu := cpu |}
        body s w1) as (new & Ht & Hq).
      exists new. split; [done|]. destruct (invoke _ _ _ _ env s w1); [|done..].
      destruct Hq as (line & Hc & p1 & w2 & Hl). exists (Some line). split; [done|].
      intros ? [= <-]. eauto. }
  exact (H p w).
Qed.

(** C9: every request gets exactly one response and the action at most one line: a
    refused request is answered 400 or 500 and the action hears nothing; otherwise
    the action gets one line, the logs one marker each, and only then the caller
    its one response (when writing a 200 fails, a 500 is attempted after it). A
    request under way has not been answered. *)
Theorem run_conversation ticks polls request env p w :
  ∃ new, io_trace (out_io (runHandler ticks polls request env p w)) = new ++ io_trace w ∧
    match runHandler ticks polls request env p w with
    | Done _ _ _ =>
        ∃ line, conversation line (visible new) ∧
          (∀ x, line = Some x → ∃ body p1 w1, request = inl body ∧ line_of env p1 w1 body = Some x)
    | _ => under_way (visible new)
    end.
Proof. apply run_conversation_spec. Qed.

(** ** Theorems: what the action is given *)

Lemma members_map_encodable l (m : gomap) :
  forallb (λ kv, json_encodable kv.2) l = true → (∀ k v, m !! k = Some v → json_encodable v = true) →
  ∀ k v, foldl (λ m kv, <[kv.1 := kv.2]> m) m l !! k = Some v → json_encodable v = true.
Proof.
  revert m. induction l as [|[k' v'] l IH]; intros m Hl Hm; simpl in *; [exact Hm|].
  apply andb_true_iff in Hl as [Hv Hl]. apply IH; [done|]. intros k v.
  destruct (decide (k' = k)) as [->|]; [rewrite lookup_insert_eq; naive_solver|].
  rewrite lookup_insert_ne by done. apply Hm.
Qed.

Lemma map_encodable (m : gomap) :
  (∀ k v, m !! k = Some v → json_encodable v = true) → json_encodable (json_of_map m) = true.
Proof.
  intros Hm. simpl. apply forallb_forall. intros [k v] Hin%list_elem_of_In%elem_of_sorted_members.
  simpl. eauto.
Qed.

(** The parameters of a parsed request have a JSON text. *)
Definition value_encodable (r : runRequest) : Prop :=
  ∀ m k v, rq_Value r = Some m → m !! k = Some v → json_encodable v = true.

Lemma decode_member_encodable kv r r' :
  json_encodable kv.2 = true → value_encodable r →
  decode_member run_request_fields (Some r) kv = Some r' → value_encodable r'.
Proof.
  intros Hkv Hr. unfold decode_member. destruct (find_field _ _) as [f|] eqn:Hf; [|by intros [= <-]].
  assert (Hin : f ∈ run_request_fields).
  { unfold find_field in Hf. apply list_elem_of_In. destruct (List.find _ _) eqn:H1 in Hf; simplify_eq;
      by eapply List.find_some. }
  apply elem_of_cons in Hin as [->|[->|[->|[]%elem_of_nil]%elem_of_cons]%elem_of_cons]; simpl;
    destruct (kv.2) as [| | | | | |l]; intros; simplify_eq; try done.
  intros m k v [= <-] Hk. eapply members_map_encodable; [exact Hkv| |exact Hk].
  destruct (rq_Value r) eqn:Hv; simpl; [|by intros ? ?; rewrite lookup_empty]. intros. by eapply Hr.
Qed.

Lemma decode_encodable j req :
  json_encodable j = true → decode_struct run_request_fields j zero_request = Some req → value_encodable req.
Proof.
  assert (Hz : value_encodable zero_request) by done.
  destruct j as [| | | | | |l]; simpl; try done; [by intros _ [= <-]|]. revert Hz. generalize zero_request.
  induction l as [|kv l IH]; intros r Hr Hl Hd; cbn [decode_struct foldl forallb] in *; [by simplify_eq|].
  apply andb_true_iff in Hl as [Hkv Hl].
  destruct (decode_member run_request_fields (Some r) kv) as [r'|] eqn:Hm.
  - eapply (IH r'); [by eapply decode_member_encodable|done..].
  - rewrite decode_members_none in Hd. done.
Qed.

(** The parameters shown to the business code: one carrier is removed, the one that is
    read. *)
Definition stripped (value shown : gomap) : Prop :=
  ∀ k, shown !! k =
    if decide (is_Some (value !! firstStepAnchorKey))
    then (if decide (k ∈ energyParamKeys.*1) then None else value !! k)
    else (if decide (k = energyStateKey) then None else value !! k).

Lemma extract_stripped {S} params env (s : S) w :
  ∃ st shown w', ExtractEnergyState params env s w = Done (st, shown) s w' ∧ stripped params shown.
Proof.
  destruct (extract_spec params env s w) as (st & cleaned & w' & Hr & -> & _).
  eexists _, _, _. split; [exact Hr|]. intros k.
  destruct (decide (is_Some _)); [apply move_params_cleaned|].
  case_decide; [subst; apply lookup_delete_eq|by apply lookup_delete_ne].
Qed.

Lemma stripped_encodable value shown :
  stripped value shown → (∀ k v, value !! k = Some v → json_encodable v = true) →
  ∀ k v, shown !! k = Some v → json_encodable v = true.
Proof. intros Hs Hv k v. rewrite Hs. repeat case_decide; try done; apply Hv. Qed.

(** C29: what the action is given of a managed step is the request, under its name
    and its activation, with nothing changed in [value] but the carrier the energy
    state was read from: the known [energy_*] parameters are gone when
    [energy_trace_id] is one of them (a [__energy_state] beside them stays), the
    member [__energy_state] is gone otherwise ([energy_*] parameters without
    [energy_trace_id] stay). An unmanaged request reaches the action as it came.
    *)
Theorem action_sees_stripped_parameters j req env p w :
  json_encodable j = true → decode_struct run_request_fields j zero_request = Some req →
  ∃ prep w', prepare (BodyJson j) env p w = Done prep p w' ∧
    match pp_energy prep with
    | None => pp_body prep = BodyJson j
    | Some e => ∃ shown, stripped (default ∅ (rq_Value req)) shown ∧
        pp_body prep = BodyJson (request_json (set_value (Some shown) req)) ∧
        pp_req prep = set_value (Some shown) req ∧
        ResolvedActionName e = shortActionName (rq_ActionName req)
    end.
Proof.
  intros Hj Hd. unfold prepare. rewrite Hd. run.
  destruct (extract_stripped (default ∅ (rq_Value req)) env p w) as (st & shown & w' & Hr & Hs).
  rewrite (run_done _ _ _ _ _ _ _ _ Hr). run.
  destruct st as [e|]; run; [|by eexists _, _]. eexists _, _. split; [reflexivity|]. simpl.
  exists shown. split; [done|]. split; [|done].
  assert (He : json_encodable (json_of_map shown) = true).
  { apply map_encodable. eapply stripped_encodable; [exact Hs|].
    pose proof (decode_encodable j req Hj Hd) as Hv.
    destruct (rq_Value req) as [m|] eqn:Hm; simpl; [|by intros ? ?; rewrite lookup_empty].
    intros k v. by apply Hv. }
  simpl in He. by rewrite He.
Qed.

(** ** Theorems: the ends of an invocation *)

(** C10: a killed step is settled before it is announced, when JSON can carry the
    announcement: its measurement (after the pending [/init] one) has been
    delivered, or reported lost, before the first post of EXECUTION_KILLED; the
    process is forgotten; the event carries the energy of the step and of the
    steps before it and the stripped parameters; the 400 to the caller comes last.
    *)
Theorem kill_is_measured_then_announced st k e req meta env p w :
  let event := killed_event k e req meta in
  json_encodable (killed_json event) = true →
  ∃ entry w1 w2 w3 ok new p' w5,
    measure "/run" (st_start st) (st_energy st) (st_cpu st) (Some meta) (ki_EnergyConsumedJ k) env p w =
      Done entry p w1 ∧
    match ap_pendingInitEntry p with
    | Some pending => pushed env "/init" (tag_init entry pending) w1 w2
    | None => w2 = w1
    end ∧
    pushed env "/run" entry w2 w3 ∧
    report_kill st k e req meta env p w = Done tt p' w5 ∧
    ap_theExecutor p' = None ∧ ap_pendingInitEntry p' = None ∧
    io_trace w5 =
      EvRespond 400 (JObj [("error", JStr "energy budget exceeded: action killed")]) ::
      (if ok : bool then [] else [EvSafety "EXECUTION_KILLED_UNDELIVERED" "critical"]) ++ new ++ io_trace w3 ∧
    Forall (delivering (events_url env) (killed_json event)) new ∧
    delivery ok_2xx (Z.to_nat (killed_attempts env)) (rev (answers new)) ok.
Proof.
  intros event He. destruct (run_record_spec (st_start st) (st_energy st) (st_cpu st) (Some meta)
    (ki_EnergyConsumedJ k) env p w) as (entry & w1 & w2 & w3 & Hm & Hr & Hi & Hp).
  unfold report_kill. rewrite (run_done _ _ _ _ _ _ _ _ Hr). rewrite run_modify.
  set (q := set_executor None (recorded entry p)).
  destruct (postExecutionKilled_spec event env (ap_chan q) w3 He)
    as (ok & c & w4 & new & Hk & Ht & Hf & Hd & _).
  assert (Hz : zoom proxy_chan (postExecutionKilled event) env q w3 = Done tt (set_chan c q) w4)
    by (unfold zoom; change (view proxy_chan q) with (ap_chan q); by rewrite Hk).
  fold event. rewrite (run_done _ _ _ _ _ _ _ _ Hz).
  eexists entry, w1, w2, w3, ok, new, _, _. split; [done|]. split; [done|]. split; [done|].
  split; [reflexivity|]. split; [done|]. split; [done|]. simpl. by rewrite Ht.
Qed.

(** The request the next step of a sequence receives: the result of the previous
    one is its [value]. *)
Definition next_request (id name : string) (result : json) : json :=
  JObj [("activation_id", JStr id); ("value", result); ("action_name", JStr name)]%string.

Lemma next_request_decodes id name l :
  decode_struct run_request_fields (next_request id name (JObj l)) zero_request =
  Some {| rq_ActivationID := id; rq_Value := Some (members_map l); rq_ActionName := name |}.
Proof. done. Qed.

(** The energy state crosses a sequence: what a step answers, given to the next
    step as its parameters, makes the runtime recover the state of the first, with
    the energy of the step added and the threshold it ended under, and shows the
    business code exactly what the first step's code returned. *)
Theorem sequence_carries_energy st l e meta env p w measuredJ w1 id name env' p' w' :
  step_energy st env p w = Done measuredJ p w1 →
  let updated := with_consumed (ConsumedBeforeJ e ⊕ measuredJ) e in
  storable updated → members_map l !! firstStepAnchorKey = None →
  ∃ result meta' w2 prep w3,
    reinject st (members_map l) e (JObj l) meta env p w = Done (result, meta') p w2 ∧
    prepare (BodyJson (next_request id name result)) env' p' w' = Done prep p' w3 ∧
    pp_energy prep = Some (with_action_name (shortActionName name) updated) ∧
    rq_Value (pp_req prep) = Some (delete energyStateKey (members_map l)).
Proof.
  intros Hm updated Hs Ha.
  unfold reinject. rewrite (run_done _ _ _ _ _ _ _ _ Hm). run. unfold ReinjectEnergyState.
  fold updated. rewrite encode_state_storable by done.
  eexists _, _, _, _, _. split; [reflexivity|].
  unfold prepare, json_of_map. rewrite next_request_decodes, members_sorted_members. run.
  unfold ExtractEnergyState. rewrite lookup_insert_ne, Ha, lookup_insert_eq by done. run.
  rewrite decode_encode by done. run. split; [reflexivity|]. simpl. split.
  - by destruct updated.
  - by rewrite delete_insert_eq.
Qed.

(** Answers the caller may get back. *)
Definition container (j : json) : bool :=
  match j with JObj _ | JArr _ | JNull => true | _ => false end.

(** What follows a response: the write, and an error if it failed. *)
Definition written (post : list event) : Prop :=
  ∃ s, post = [EvSyscall "write" "response"] ∨
       post = [EvRespond 500 (JObj [("error"%string, JStr s)]); EvSyscall "write" "response"].

Lemma write_response_spec j env p w :
  ∃ w' post, write_response j env p w = Done tt p w' ∧
    io_trace w' = post ++ EvRespond 200 j :: io_trace w ∧ written post.
Proof.
  unfold write_response, syscall. run. case_match.
  - eexists _, [_; _]. split; [reflexivity|]. split; [done|]. eexists. by right.
  - eexists _, [_]. split; [reflexivity|]. split; [done|]. exists ""%string. by left.
Qed.

Lemma reinject_reads st m e j meta : reads (reinject st m e j meta).
Proof.
  pose proof (λ S, @readEnergy_reads S). pose proof (λ S pid, @readCPUSnapshot_reads S pid).
  unfold reinject, step_energy. solve_reads.
Qed.

(** C30: an invocation that ends is settled before it is answered: the answer of
    the action, with the energy state if it is the object of a managed step and
    untouched otherwise, is sent with 200 once its measurement (after the pending
    [/init] one) has been delivered or reported lost; an answer that is neither an
    object nor an array gets 502 and no measurement. *)
Theorem answer_is_measured_then_sent st answer energy meta env p w :
  ∃ p' w', finish_run st answer energy meta env p w = Done tt p' w' ∧
    match answer with
    | BodyJson j =>
        if container j then
          ∃ j' meta' w0 entry w1 w2 w3 post,
            match energy, j with
            | Some e, JObj l => reinject st (members_map l) e j meta env p w = Done (j', meta') p w0
            | _, _ => j' = j ∧ meta' = meta ∧ w0 = w
            end ∧
            measure "/run" (st_start st) (st_energy st) (st_cpu st) (Some meta') f64_zero env p w0 =
              Done entry p w1 ∧
            match ap_pendingInitEntry p with
            | Some pending => pushed env "/init" (tag_init entry pending) w1 w2
            | None => w2 = w1
            end ∧
            pushed env "/run" entry w2 w3 ∧
            io_trace w' = post ++ EvRespond 200 j' :: io_trace w3 ∧ written post
        else p' = p ∧ io_trace w' = EvRespond 502
          (JObj [("error", JStr "The action did not return a dictionary or array.")]) :: io_trace w
    | BodyInvalid _ => p' = p ∧ io_trace w' = EvRespond 502
        (JObj [("error", JStr "The action did not return a dictionary or array.")]) :: io_trace w
    end.
Proof.
  assert (Hend : ∀ j' (meta' : RunMeta) w0, ∃ entry w1 w2 w3 p' w' post,
    measure "/run" (st_start st) (st_energy st) (st_cpu st) (Some meta') f64_zero env p w0 = Done entry p w1 ∧
    match ap_pendingInitEntry p with
    | Some pending => pushed env "/init" (tag_init entry pending) w1 w2
    | None => w2 = w1
    end ∧
    pushed env "/run" entry w2 w3 ∧
    (recordMetricsSync "/run" (st_start st) (st_energy st) (st_cpu st) (Some meta') ≫= λ _,
      write_response j') env p w0 = Done tt p' w' ∧
    io_trace w' = post ++ EvRespond 200 j' :: io_trace w3 ∧ written post).
  { intros j' meta' w0. destruct (run_record_spec (st_start st) (st_energy st) (st_cpu st) (Some meta')
      f64_zero env p w0) as (entry & w1 & w2 & w3 & Hm & Hr & Hi & Hp).
    destruct (write_response_spec j' env (recorded entry p) w3) as (w' & post & Hw & Ht & Hpost).
    exists entry, w1, w2, w3, (recorded entry p), w', post. repeat (split; [done|]).
    split; [|done]. unfold recordMetricsSync. unfold recordMetricsSyncWithFallback in Hr.
    by rewrite (run_done _ _ _ _ _ _ _ _ Hr). }
  unfold finish_run. destruct answer as [j|err]; [|by eexists _, _].
  destruct j as [| | | | |l|l]; simpl; try (by eexists _, _).
  - destruct (Hend JNull meta w) as (entry & w1 & w2 & w3 & p' & w' & post & ? & ? & ? & Hr & ?).
    exists p', w'. split; [by destruct energy; rewrite run_bind_ret|].
    eexists _, meta, w, entry, w1, w2, w3, post. by destruct energy.
  - destruct (Hend (JArr l) meta w) as (entry & w1 & w2 & w3 & p' & w' & post & ? & ? & ? & Hr & ?).
    exists p', w'. split; [by destruct energy; rewrite run_bind_ret|].
    eexists _, meta, w, entry, w1, w2, w3, post. by destruct energy.
  - destruct energy as [e|].
    + destruct (reinject_reads st (members_map l) e (JObj l) meta env p w) as ([j' meta'] & w0 & Hj).
      destruct (Hend j' meta' w0) as (entry & w1 & w2 & w3 & p' & w' & post & ? & ? & ? & Hr & ?).
      exists p', w'. split; [by rewrite (run_done _ _ _ _ _ _ _ _ Hj)|].
      eexists _, meta', w0, entry, w1, w2, w3, post. done.
    + destruct (Hend (JObj l) meta w) as (entry & w1 & w2 & w3 & p' & w' & post & ? & ? & ? & Hr & ?).
      exists p', w'. split; [by rewrite run_bind_ret|]. eexists _, meta, w, entry, w1, w2, w3, post. done.
Qed.

(** ** Sample requests *)

Definition sample_proxy : ActionProxy :=
  {| ap_initialized := true; ap_baseDir := "./action"; ap_compiler := ""; ap_currentDir := 1;
     ap_theExecutor := Some sample_executor; ap_env := ∅; ap_metrics := Some (NewMetrics 1000);
     ap_pendingInitEntry := Some sample_entry; ap_chan := mon_chan sample_mon; ap_execCounter := 1 |}%string.

Definition first_request : json :=
  JObj [("activation_id", JStr "a1"); ("action_name", JStr "/guest/order/pay");
        ("value", JObj [("amount", JNum (f64_of_Z 7)); ("energy_trace_id", JStr "t1");
                        ("energy_execution_threshold_j", JNum (f64_of_Z 9))])]%string.

Definition first_req : runRequest :=
  default zero_request (decode_struct run_request_fields first_request zero_request).

Lemma action_sees_stripped_parameters_witness :
  ∃ prep w', prepare (BodyJson first_request) (sample_site kill_answer) sample_proxy io_start =
      Done prep sample_proxy w' ∧
    match pp_energy prep with
    | None => pp_body prep = BodyJson first_request
    | Some e => ∃ shown, stripped (default ∅ (rq_Value first_req)) shown ∧
        pp_body prep = BodyJson (request_json (set_value (Some shown) first_req)) ∧
        pp_req prep = set_value (Some shown) first_req ∧
        ResolvedActionName e = shortActionName (rq_ActionName first_req)
    end.
Proof.
  exact (action_sees_stripped_parameters first_request first_req (sample_site kill_answer) sample_proxy
    io_start eq_refl eq_refl).
Defined.

Definition sample_kill_info : EnergyKillInfo :=
  {| ki_EnergyConsumedJ := f64_of_Z 3; ki_PauseID := "pause-00ff" |}%string.

Definition sample_instant : Instant :=
  {| st_start := 1; st_energy := 1000; st_cpu := zero_snapshot |}.

Lemma kill_is_measured_then_announced_witness :
  ∃ entry w2 w3 p' w5,
    pushed (sample_site kill_answer) "/run" entry w2 w3 ∧
    report_kill sample_instant sample_kill_info (spent "COMPENSATABLE") first_req (new_meta "pod")
      (sample_site kill_answer) sample_proxy io_start = Done tt p' w5 ∧
    ap_theExecutor p' = None ∧ ap_pendingInitEntry p' = None.
Proof.
  destruct (kill_is_measured_then_announced sample_instant sample_kill_info (spent "COMPENSATABLE") first_req
    (new_meta "pod") (sample_site kill_answer) sample_proxy io_start)
    as (entry & w1 & w2 & w3 & ok & new & p' & w5 & _ & _ & Hp & Hr & Hx & Hi & _);
    [vm_compute; reflexivity|].
  exists entry, w2, w3, p', w5. split; [exact Hp|]. split; [exact Hr|]. split; [exact Hx|exact Hi].
Defined.

Lemma sequence_carries_energy_witness :
  ∃ measuredJ result prep w3,
    prepare (BodyJson (next_request "a2" "/guest/order/ship" result)) (sample_site kill_answer) sample_proxy
      io_start = Done prep sample_proxy w3 ∧
    pp_energy prep = Some (with_action_name (shortActionName "/guest/order/ship")
      (with_consumed (f64_of_Z 3 ⊕ measuredJ) (spent "COMPENSATABLE"))) ∧
    rq_Value (pp_req prep) = Some (delete energyStateKey (members_map [("done", JBool true)]%string)).
Proof.
  assert (Hm : ∃ w1, step_energy sample_instant (sample_site kill_answer) sample_proxy io_start =
    Done f64_zero sample_proxy w1) by (eexists; vm_compute; reflexivity).
  destruct Hm as (w1 & Hm).
  destruct (sequence_carries_energy sample_instant [("done", JBool true)]%string (spent "COMPENSATABLE")
    (new_meta "pod") (sample_site kill_answer) sample_proxy io_start f64_zero w1 "a2" "/guest/order/ship"
    (sample_site kill_answer) sample_proxy io_start Hm) as (result & meta' & w2 & prep & w3 & _ & Hp & He & Hv);
    [apply (bool_decide_unpack _); vm_compute; reflexivity|vm_compute; reflexivity|].
  exists f64_zero, result, prep, w3. split; [exact Hp|]. split; [exact He|exact Hv].
Defined.
