(* ===== verification/Progress.v ===== *)
(** * Progress: what ends, and what is needed for it

    The safety theorems of the other files hold for unfinished runs too; this
    file says which runs finish.  A run of the monitor ends once it is told to
    stop, so an invocation, and with it a request to [/run], is answered; the
    pause cycle of an UNKILLABLE step ends once the scheduler grants the
    resume, and never ends if a resume failed before. *)

From S2P Require Import Prelude Float64 GoStrings Json Effects Rapl Instrumentation Segments.
From S2P Require Import Freezer EnergyState Channel Monitor Payload Recording Executor RunHandler.

Local Open Scope Z_scope.
Local Open Scope go_scope.

(** ** The environment is used up *)

Section ages.
Context {S : Type}.

Lemma ages_snapshot pid : ages (readCPUSnapshot pid : M S _).
Proof.
  assert (H2 : ∀ lines, ages (ticks_v2 lines : M S _)).
  { induction lines as [|l lines IH]; cbn [ticks_v2]; [auto with ages|].
    unfold readCgroupV2CPUUsec, read_file. solve_ages. }
  assert (H1 : ∀ lines, ages (ticks_v1 lines : M S _)).
  { induction lines as [|l lines IH]; cbn [ticks_v1]; [auto with ages|]. unfold read_file. solve_ages. }
  unfold readCPUSnapshot, readProcessTicks, now_wall, read_file. solve_ages.
Qed.

Lemma ages_energy : ages (readEnergy : M S _).
Proof. unfold readEnergy, read_file. solve_ages. Qed.

Lemma ages_control path file value ctx field want tv :
  ages (control path file value ctx field want tv : M S _).
Proof.
  assert (Hl : ∀ fuel d, ages (wait_loop fuel path field want d : M S _)).
  { induction fuel as [|fuel IH]; intros d; cbn [wait_loop]; [auto with ages|].
    unfold readEventField, read_file. solve_ages. }
  unfold control, write_file, cgroupTimeout, waitForEventField. solve_ages.
Qed.

Lemma ages_post_id : ages (newPauseID : M S _).
Proof. unfold newPauseID, now_wall. solve_ages. Qed.
End ages.

#[local] Hint Resolve ages_snapshot ages_energy ages_control ages_post_id : ages.
#[local] Hint Extern 1 (ages now_wall) => unfold now_wall : ages.
#[local] Hint Extern 1 (ages (safety _ _)) => unfold safety : ages.

Lemma ages_freeze p : ages (freezeExecution p).
Proof. unfold freezeExecution, freeze. solve_ages. Qed.
Lemma ages_resume p : ages (resumeExecution p).
Proof. unfold resumeExecution, unfreeze. solve_ages. Qed.
Lemma ages_kill p : ages (killExecution p).
Proof.
  assert (Hw : ages waiter_wait).
  { intros env a w. unfold waiter_wait. repeat case_match; simpl; lia. }
  assert (Hb : ∀ b, ages (wait_budget b)).
  { intros b env a w. unfold wait_budget. repeat case_match; simpl; lia. }
  unfold killExecution, kill, killConfirmWaitTimeout, logSafetyKillConfirmTimeout. solve_ages.
Qed.

#[local] Hint Resolve ages_freeze ages_resume ages_kill : ages.

Lemma ages_segments path pid :
  ages (closeSegmentAtFreeze path pid) ∧ ages (refineFrozenSegment path pid) ∧
  ages (openSegmentAtResume path pid).
Proof.
  unfold closeSegmentAtFreeze, refineFrozenSegment, openSegmentAtResume, segmentSnapshot, cpuSnapshot,
    readCPUSnapshotFromCgroup, readCgroupV2CPUUsec, logSegmentMarkMissing, now_wall, read_file.
  repeat split; solve_ages.
Qed.

Lemma ages_http url body early : ages (http_answer url body early).
Proof. intros env c w. unfold http_answer. repeat case_match; simpl; lia. Qed.

Lemma ages_dial addr : ages (schedulerDialContext addr).
Proof.
  assert (Ho : ages others).
  { intros env c w. unfold others. destruct (env_others env _ _) as [[? ?] ?]. simpl. lia. }
  assert (Hc : ∀ cb, ages (callback_now cb)) by (by intros cb env c w).
  assert (Hr : ∀ n host, ages (resolve_loop n host)).
  { induction n as [|n IH]; intros host; cbn [resolve_loop]; [auto with ages|]. unfold resolveOnce. solve_ages. }
  unfold schedulerDialContext, dial, schedulerAddressResolveMaxAttempts, positiveIntEnv. solve_ages.
Qed.

#[local] Hint Resolve ages_http ages_dial : ages.

Lemma ages_paused event maxMs : ages (postExecutionPaused event maxMs).
Proof.
  assert (Hc : ∀ cb, ages (callback_now cb)) by (by intros cb env c w).
  assert (Hf : ∀ e u, ages (finish_call e u)).
  { intros e u env c w. unfold finish_call. destruct (ch_rec c); [|done]. by destruct (finish _ _ _ _). }
  unfold postExecutionPaused, client_do, start_call, pausedEventTimeout, schedulerChannelTimeoutMarginMs,
    schedulerEventsEndpoint, schedulerURL, positiveIntEnv.
  solve_ages.
Qed.

#[local] Hint Resolve ages_paused : ages.
#[local] Hint Extern 1 (ages (closeSegmentAtFreeze _ _)) => apply ages_segments : ages.
#[local] Hint Extern 1 (ages (refineFrozenSegment _ _)) => apply ages_segments : ages.
#[local] Hint Extern 1 (ages (openSegmentAtResume _ _)) => apply ages_segments : ages.

Lemma ages_refine consumed : ages (refineCycleWhileFrozen consumed).
Proof. unfold refineCycleWhileFrozen. solve_ages. Qed.
Lemma ages_kill_step p cause : ages (kill_step p cause).
Proof. unfold kill_step. solve_ages. Qed.
#[local] Hint Resolve ages_refine ages_kill_step : ages.

Lemma ages_retry u consumed p name severity : ages (killOrRetry u consumed p name severity).
Proof. unfold killOrRetry, logSafetyUnkillable, unkillableRepollInterval, positiveIntEnv. solve_ages. Qed.
Lemma ages_resume_step energy p : ages (resume_step energy p).
Proof. unfold resume_step. solve_ages. Qed.
#[local] Hint Resolve ages_retry ages_resume_step : ages.

Lemma ages_pause_loop polls energy u event : ages (pause_loop polls energy u event).
Proof.
  induction polls as [|polls IH]; cbn [pause_loop]; [auto with ages|].
  unfold logSafetyUnkillable, unkillableRepollInterval, positiveIntEnv. solve_ages.
Qed.
#[local] Hint Resolve ages_pause_loop : ages.

Lemma ages_tick polls energy actionName : ages (monitor_tick polls energy actionName).
Proof.
  unfold monitor_tick, runPauseCycle, pause_body, now, logSafetyUnkillable. solve_ages.
Qed.

(** ** The monitor ends when it is told to *)

(** From the [n]-th effect on, a [select] finds the monitor's [stop] closed. *)
Definition stops_by (env : Env) (n : nat) : Prop := ∀ i, (n ≤ i)%nat → env_flag env i = true.

(** A step the monitor may kill, or an action it does not monitor. *)
Definition killable (energy : option EnergyState) : Prop :=
  match energy with
  | Some e => isNonInterruptibleForThisStep (Some e) = false ∨ monitored (Some e) = false
  | None => True
  end.

Definition sampling_interval (env : Env) : Z :=
  let v := env_getenv env "ENERGY_MONITOR_INTERVAL_MS" in
  (if (v =? "")%string then 100 else positive_ms v 100) *! millisecond.

Section ordinary.
Context (env : Env) (Hbudget : 0 < kill_budget env).

Lemma tick_ends polls energy actionName s w :
  isNonInterruptibleForThisStep (Some energy) = false →
  ∃ next s' w', monitor_tick (Datatypes.S polls) energy actionName env s w = Done next s' w' ∧
    ∀ e, next = Some e → isNonInterruptibleForThisStep (Some e) = false.
Proof.
  intros Hu. unfold monitor_tick, now_wall. rewrite Hu. run. bind_step as reading.
  destruct reading as [energyNow|e]; run; [|eexists _, _, _; split; [done|]; by intros e' [= <-]].
  bind_step as cpuNow. run.
  case_match; [eexists _, _, _; split; [done|]; by intros e [= <-]|]. run.
  destruct (PauseEnabled energy); cbn [negb].
  - match goal with |- context [(runPauseCycle ?a ?b ?c ?d ?e ?f ≫= _) env ?s0 ?w0] =>
      destruct (ordinary_cycle polls b c d e f env s0 w0 Hu Hbudget) as (r & s1 & w1 & new & Hr & _) end.
    rewrite (run_done _ _ _ _ _ _ _ _ Hr). destruct r as [[thr killed] pid].
    destruct killed; run; (eexists _, _, _; split; [done|]); [done|]. by intros e [= <-].
  - match goal with |- context [(kill_step ?p ?c ≫= _) env ?s0 ?w0] =>
      destruct (kill_done env Hbudget p c s0 w0) as (s1 & w1 & H1 & _) end.
    rewrite (run_done _ _ _ _ _ _ _ _ H1). run. by eexists _, _, _.
Qed.

Lemma loop_ends n ticks polls actionName : stops_by env n → ∀ energy s w,
  isNonInterruptibleForThisStep (Some energy) = false → (n - io_step w < ticks)%nat →
  ∃ s' w', monitor_loop ticks (Datatypes.S polls) energy actionName env s w = Done tt s' w'.
Proof.
  intros Hstop. induction ticks as [|ticks IH]; intros energy s w Hu Hn; [lia|].
  cbn [monitor_loop]. unfold flag. run.
  destruct (env_flag env (io_step w)) eqn:Hf; [by eexists _, _|].
  assert (Hw : (io_step w < n)%nat).
  { destruct (Nat.lt_ge_cases (io_step w) n) as [|Hge]; [done|]. rewrite (Hstop _ Hge) in Hf. done. }
  match goal with |- context [(monitor_tick ?a ?b ?c ≫= _) env ?s0 ?w0] =>
    destruct (tick_ends polls energy actionName s0 w0 Hu) as (next & s1 & w1 & Ht & Hnext);
    pose proof (ages_tick a b c env s0 w0) as Ha end.
  rewrite Ht in Ha. rewrite (run_done _ _ _ _ _ _ _ _ Ht). simpl in Ha.
  destruct next as [e|]; [|by eexists _, _]. apply IH; [by apply Hnext|]. lia.
Qed.

Lemma monitor_ends n ticks polls energy s w :
  stops_by env n → (n < ticks)%nat → 0 < sampling_interval env →
  isNonInterruptibleForThisStep (Some energy) = false →
  ∃ s' w', monitorEnergy ticks (Datatypes.S polls) energy env s w = Done tt s' w'.
Proof.
  intros Hstop Hn Hi Hu. unfold monitorEnergy. bind_step as reading.
  destruct reading as [energyStart|e]; [|by eexists _, _]. run. bind_step as cpu. run.
  unfold energyMonitorInterval, positiveIntEnv. run. fold (sampling_interval env).
  rewrite (proj2 (Z.leb_gt _ _) Hi). eapply loop_ends; [done..|lia].
Qed.

(** ** An invocation ends *)

Lemma interact_ends n ticks polls input energy q w :
  stops_by env n → (n < ticks)%nat → 0 < sampling_interval env → killable energy →
  ∃ i q' w', Interact ticks (Datatypes.S polls) input energy env q w = Done i q' w' ∧
    (is_Some (in_killInfo i) → is_Some (in_energy i)).
Proof.
  intros Hstop Hn Hi Hk. rewrite interact_unfold. cbv zeta. set (w1 := advance env 0 [EvStdin input] w).
  destruct (monitored_part_spec ticks (Datatypes.S polls) energy env (restart q) w1)
    as (w2 & _ & [[_ ->]|(e & -> & He & ->)]); [eexists _, _, _; split; [done|]; by intros []|].
  destruct Hk as [Hu|Hu]; [|congruence].
  destruct (monitor_ends n ticks polls e (mon_init (restart q)) w2 Hstop Hn Hi Hu) as (m & w3 & ->).
  eexists _, _, _. split; [done|]. intros _. by eexists.
Qed.

End ordinary.

(** The announcement of a kill comes to an end. *)
Lemma killed_ends event env c w : ∃ c' w', postExecutionKilled event env c w = Done tt c' w'.
Proof.
  destruct (json_encodable (killed_json event)) eqn:He.
  - destruct (postExecutionKilled_spec event env c w He) as (? & c' & w' & ? & -> & _). eauto.
  - unfold postExecutionKilled. rewrite He. by eexists _, _.
Qed.

Lemma killed_zoom_ends event env p w :
  ∃ c w', zoom proxy_chan (postExecutionKilled event) env p w = Done tt (set_chan c p) w'.
Proof.
  destruct (killed_ends event env (ap_chan p) w) as (c & w' & Hk). unfold zoom.
  change (view proxy_chan p) with (ap_chan p). rewrite Hk. by eexists _, _.
Qed.

Lemma report_kill_ends st k e req meta env p w :
  ∃ p' w', report_kill st k e req meta env p w = Done tt p' w'.
Proof.
  destruct (run_record_spec (st_start st) (st_energy st) (st_cpu st) (Some meta)
    (ki_EnergyConsumedJ k) env p w) as (entry & w1 & w2 & w3 & _ & Hr & _).
  unfold report_kill. rewrite (run_done _ _ _ _ _ _ _ _ Hr). rewrite run_modify.
  match goal with |- context [(zoom proxy_chan (postExecutionKilled ?ev) ≫= _) env ?q ?w0] =>
    destruct (killed_zoom_ends ev env q w0) as (c & w4 & Hk) end.
  rewrite (run_done _ _ _ _ _ _ _ _ Hk). by eexists _, _.
Qed.

(** The answer, with the energy state put back or as it was. *)
Lemma answer_ends st answer objmap energy meta env p w :
  ∃ r w', (match energy, objmap with
           | Some e, Some m => reinject st m e answer meta
           | _, _ => mret (answer, meta)
           end) env p w = Done r p w'.
Proof. destruct energy as [e|], objmap as [m|]; [apply reinject_reads|by eexists _, _..]. Qed.

Lemma finish_run_ends st answer energy meta env p w :
  ∃ p' w', finish_run st answer energy meta env p w = Done tt p' w'.
Proof.
  unfold finish_run, recordMetricsSync. destruct (answer_map answer) as [objmap|]; [|by eexists _, _].
  destruct answer as [j|]; [|by eexists _, _].
  destruct (answer_ends st j objmap energy meta env p w) as ([j' meta'] & w1 & Hr).
  rewrite (run_done _ _ _ _ _ _ _ _ Hr).
  destruct (run_record_spec (st_start st) (st_energy st) (st_cpu st) (Some meta') f64_zero env p w1)
    as (entry & w2 & w3 & w4 & _ & Hrec & _). unfold recordMetricsSyncWithFallback in Hrec.
  rewrite (run_done _ _ _ _ _ _ _ _ Hrec).
  destruct (write_response_spec j' env (recorded entry p) w4) as (w5 & post & Hw & _). by eexists _, _.
Qed.

(** The energy state a request carries, whenever it is read. *)
Definition extracted (params : gomap) : option EnergyState :=
  match params !! firstStepAnchorKey with
  | Some _ => decodeEnergyStateMap (foldl move_param (∅, params) energyParamKeys).1
  | None => match params !! energyStateKey with
            | Some (JObj l) => decodeEnergyStateMap (members_map l)
            | _ => None
            end
  end.

Definition energy_of (body : http_body) : option EnergyState :=
  match body with
  | BodyInvalid _ => None
  | BodyJson j =>
      req ← decode_struct run_request_fields j zero_request;
      with_action_name (shortActionName (rq_ActionName req)) <$> extracted (default ∅ (rq_Value req))
  end.

Lemma extract_value {S} params env (s : S) w :
  ∃ cleaned w', ExtractEnergyState params env s w = Done (extracted params, cleaned) s w'.
Proof.
  unfold ExtractEnergyState, extracted, logCorruptedEnergyState, safety.
  destruct (params !! firstStepAnchorKey).
  - destruct (foldl move_param (∅, params) energyParamKeys). by eexists _, _.
  - destruct (params !! energyStateKey) as [[]|]; try by eexists _, _.
    destruct (decodeEnergyStateMap _); by eexists _, _.
Qed.

Lemma prepare_ends body env p w :
  ∃ prep w', prepare body env p w = Done prep p w' ∧ pp_energy prep = energy_of body.
Proof.
  unfold prepare, energy_of. destruct body as [j|]; [|by eexists _, _]. rewrite run_getenv.
  destruct (decode_struct _ _ _) as [req|]; [|by eexists _, _]. rewrite run_now_mono.
  destruct (extract_value (default ∅ (rq_Value req)) env p w) as (cleaned & w1 & Hr).
  rewrite (run_done _ _ _ _ _ _ _ _ Hr), run_now_mono. simpl.
  destruct (extracted _); by eexists _, _.
Qed.

Section answered.
Context (env : Env) (Hbudget : 0 < kill_budget env) (Hinterval : 0 < sampling_interval env).

Lemma invoke_ends n ticks polls st body p w :
  stops_by env n → (n < ticks)%nat → is_Some (ap_theExecutor p) → killable (energy_of body) →
  ∃ p' w', invoke ticks (Datatypes.S polls) st body env p w = Done tt p' w'.
Proof.
  intros Hstop Hn [x Hx] Hk. unfold invoke.
  destruct (prepare_ends body env p w) as (prep & w1 & Hp & He). rewrite <-He in Hk.
  rewrite (run_done _ _ _ _ _ _ _ _ Hp).
  destruct (interact_ends env Hbudget n ticks polls (pp_body prep) (pp_energy prep)
    {| pr_exec := x; pr_chan := ap_chan p |} w1 Hstop Hn Hinterval Hk) as (i & q & w2 & Hint & Hsome).
  assert (Hw : ∃ p2, with_executor (Interact ticks (Datatypes.S polls) (pp_body prep) (pp_energy prep)) env p w1
    = Done i p2 w2) by (unfold with_executor; rewrite Hx, Hint; by eexists).
  destruct Hw as (p2 & Hw). rewrite (run_done _ _ _ _ _ _ _ _ Hw).
  destruct (in_killInfo i) as [k|].
  - destruct (Hsome (mk_is_Some _ _ eq_refl)) as [e ->]. apply report_kill_ends.
  - destruct (in_answer i); [|destruct (in_energy i); by eexists _, _].
    destruct (in_energy i); apply finish_run_ends.
Qed.

Lemma run_ends n ticks polls request p w :
  stops_by env n → (n < ticks)%nat →
  match request with inl body => killable (energy_of body) | inr _ => True end →
  ∃ p' w', runHandler ticks (Datatypes.S polls) request env p w = Done tt p' w'.
Proof.
  intros Hstop Hn Hk.
  pose proof (λ S, @readEnergy_reads S). pose proof (λ S pid, @readCPUSnapshot_reads S pid).
  unfold runHandler, now_wall. rewrite run_effect. bind_step as reading. rewrite run_gets.
  match goal with |- context [(?m ≫= ?k) env p ?w0] =>
    destruct (bind_reads m k env p w0) as ([] & w1 & _ & ->); [destruct (ap_theExecutor p); solve_reads|] end.
  destruct request as [body|e]; [|by eexists _, _].
  destruct (ap_theExecutor p) as [y|] eqn:Hx; [|by eexists _, _].
  bind_step as cpu.
  assert (He : ∀ w2, ∃ b p1 w3, with_executor (zoom pr_exec_lens Exited) env p w2 = Done b p1 w3 ∧
    is_Some (ap_theExecutor p1)).
  { intros w2. unfold with_executor, zoom, Exited. rewrite Hx. simpl. unfold flag. run.
    destruct (ac_reaped _); [by eexists _, _, _|]. run.
    destruct (env_flag env _); run; by eexists _, _, _. }
  match goal with |- context [(with_executor (zoom pr_exec_lens Exited) ≫= _) env p ?w2] =>
    destruct (He w2) as (b & p1 & w3 & Hr & Hsome) end. rewrite (run_done _ _ _ _ _ _ _ _ Hr).
  destruct b; [by eexists _, _|]. by eapply invoke_ends.
Qed.
End answered.

(** ** Theorems: a request is answered *)

(** C5: a request to [/run] is answered: with a budget on the wait for a killed
    process, and an action that answers or exits, every request that carries a
    killable step or no energy state comes to an end, whatever the kernel, the
    scheduler and the collector do, and its conversation is complete: the caller
    has got its response. *)
Theorem run_is_answered n ticks polls request env p w :
  0 < kill_budget env → 0 < sampling_interval env → stops_by env n → (n < ticks)%nat →
  match request with inl body => killable (energy_of body) | inr _ => True end →
  ∃ p' w' new line, runHandler ticks (Datatypes.S polls) request env p w = Done tt p' w' ∧
    io_trace w' = new ++ io_trace w ∧ conversation line (visible new).
Proof.
  intros Hb Hi Hstop Hn Hk.
  destruct (run_ends env Hb Hi n ticks polls request p w Hstop Hn Hk) as (p' & w' & Hr).
  destruct (run_conversation_spec ticks (Datatypes.S polls) request env p w) as (new & Ht & Hc).
  rewrite Hr in Ht, Hc. destruct Hc as (line & Hc & _). by exists p', w', new, line.
Qed.

(** ** The pause cycle of an UNKILLABLE step *)

(** The kernel thaws the cgroup whenever it is asked to. *)
Definition thaws (env : Env) (path : string) : Prop :=
  (∀ i, env_write env i (freeze_file path) "0" = None) ∧
  ∀ i, ∃ d, env_read env i (path_join [path; "cgroup.events"]%string) = inl d ∧
    event_field "frozen" (str_split newline d) = Some "0"%string.

(** From the [n]-th effect on the scheduler is reached in time and grants the resume. *)
Definition grants_by (env : Env) (n : nat) (timeout : Z) (event : ExecutionPausedEvent) : Prop :=
  ∀ i, (n ≤ i)%nat → env_conn_reused env i = true ∧ 2 * Z.of_N (env_elapsed env i) ≤ timeout ∧
    ∃ status j command, env_http env i (events_url env) (paused_json event) = HttpResp status (BodyJson j) ∧
      decode_struct command_fields j zero_command = Some command ∧
      cmd_Command command = "RESUME_EXECUTION"%string ∧ cmd_PauseID command = pe_PauseID event.

Definition frozen_in (pauseID : string) (s : Mon) : Prop :=
  ac_state (mon_ctl s) = StateFrozen ∧ ac_lastPauseID (mon_ctl s) = pauseID.

Lemma resume_obeyed p env a w :
  thaws env (ac_path a) → ac_state a = StateFrozen → ac_lastPauseID a = p →
  ∃ w', resumeExecution p env a w = Done None (set_pause StateRunning p (set_state StateResuming a)) w'.
Proof.
  intros [Hw Hr] Hs Hp. unfold resumeExecution. run. rewrite Hs, Hp, String.eqb_refl. simpl.
  unfold unfreeze, control, write_file, cgroupTimeout, waitForEventField. run.
  unfold freeze_file in Hw. rewrite Hw. run.
  match goal with |- context [wait_fuel ?t] => set (fuel := wait_fuel t); assert (Hf : ∃ k, fuel = Datatypes.S k)
    by (exists (pred fuel); unfold fuel, wait_fuel; lia) end.
  destruct Hf as [k ->]. cbn [wait_loop]. unfold readEventField, read_file. run.
  match goal with |- context [env_read env ?i _] => destruct (Hr i) as (d & -> & He) end.
  rewrite He. run. by eexists.
Qed.

Lemma resume_step_obeyed energy pauseID env s w :
  thaws env (ac_path (mon_ctl s)) → frozen_in pauseID s →
  ∃ s' w', resume_step energy pauseID env s w = Done None s' w' ∧ ac_state (mon_ctl s') = StateRunning.
Proof.
  intros Ht [Hs Hp]. unfold resume_step, now_wall.
  destruct (refine_done env (ConsumedBeforeJ energy) s w) as (s1 & w1 & H1 & _ & Hc).
  rewrite (run_done _ _ _ _ _ _ _ _ H1). rewrite <-Hc in Ht, Hs, Hp. run.
  match goal with |- context [(zoom ctl_lens _ ≫= _) env ?s0 ?w0] =>
    destruct (resume_obeyed pauseID env (mon_ctl s0) w0 Ht Hs Hp) as (w2 & H2);
    rewrite (run_done _ _ _ _ _ _ _ _ (zoom_done env ctl_lens _ s0 w0 _ _ _ H2)) end.
  run.
  match goal with |- context [(zoom seg_lens (openSegmentAtResume ?a ?b) ≫= _) env ?s0 ?w0] =>
    destruct (openSegmentAtResume_spec a b env (view seg_lens s0) w0) as (b' & w5 & Hopen);
    assert (Ho : ∃ sg, openSegmentAtResume a b env (view seg_lens s0) w0 = Done b' sg w5) end.
  { destruct (frozen _); [destruct Hopen as (? & ? & Hopen & _)|]; by eexists. }
  destruct Ho as (sg & Ho).
  rewrite (run_done _ _ _ _ _ _ _ _ (zoom_done env seg_lens _ _ _ _ _ _ Ho)). run. by eexists _, _.
Qed.

(** A re-poll leaves the controller alone and uses up an effect. *)
Lemma repoll_ends consumed pauseID name severity env s w :
  ∃ w', killOrRetry true consumed pauseID name severity env s w = Done true s w' ∧
    (io_step w < io_step w')%nat.
Proof.
  unfold killOrRetry, logSafetyUnkillable, safety, unkillableRepollInterval, positiveIntEnv. run.
  eexists. split; [done|]. simpl. lia.
Qed.

Lemma granted_answer env n event maxMs c w :
  grants_by env n (paused_timeout env maxMs) event → (n ≤ io_step w)%nat →
  json_encodable (paused_json event) = true → env_url env (events_url env) = None →
  ∃ command t c' w', postExecutionPaused event maxMs env c w = Done (Some command, t, None) c' w' ∧
    (∃ i status j, env_http env i (events_url env) (paused_json event) = HttpResp status (BodyJson j) ∧
      decode_struct command_fields j zero_command = Some command) ∧
    cmd_Command command = "RESUME_EXECUTION"%string ∧ cmd_PauseID command = pe_PauseID event.
Proof.
  intros Hg Hn He Hu. unfold postExecutionPaused. rewrite He. cbn [negb]. run.
  unfold pausedEventTimeout, schedulerChannelTimeoutMarginMs, positiveIntEnv, schedulerEventsEndpoint, schedulerURL. run.
  fold (margin_ms env). fold (paused_timeout env maxMs). fold (events_url env). rewrite Hu. run.
  unfold start_call, client_do. run. destruct (Hg (io_step w) Hn) as (-> & He1 & _). run.
  set (timeout := paused_timeout env maxMs) in *. set (c0 := set_deadline _ _).
  assert (Hd : ch_deadline c0 = if 0 <? timeout then Some (io_clock w + timeout) else None) by done.
  assert (Hcb : ∃ c1, callback_now (NoteGotConn true) env c0 (advance env 0 [] w) = Done tt c1 (advance env 0 [] w) ∧
    ch_deadline c1 = ch_deadline c0) by (eexists; split; [reflexivity|]; by destruct (expired _ _)).
  destruct Hcb as (c1 & Hcb & Hd1). rewrite (run_done _ _ _ _ _ _ _ _ Hcb). run.
  assert (Hn1 : (n ≤ io_step (advance env 0 [] w))%nat) by (simpl; lia).
  destruct (Hg _ Hn1) as (_ & He2 & status & j & command & Hh & Hj & Hcmd & Hid). simpl in He2, Hh.
  assert (Ha : ∃ w2, http_answer (events_url env) (paused_json event) None env c1 (advance env 0 [] w) =
    Done (HttpResp status (BodyJson j)) c1 w2).
  { unfold http_answer. rewrite Hd1, Hd. simpl. rewrite Hh.
    destruct (0 <? timeout) eqn:H0; [|by eexists].
    destruct (Z.ltb_spec (io_clock w + timeout)
      (io_clock w + 0 + Z.of_N (env_elapsed env (io_step w)) + 0 + Z.of_N (env_elapsed env (S (io_step w)))));
      [lia|by eexists]. }
  destruct Ha as (w2 & Ha). rewrite (run_done _ _ _ _ _ _ _ _ Ha). run. rewrite Hj.
  destruct (finish_call_done None false env c1 w2) as (t & c2 & Hf). rewrite (run_done _ _ _ _ _ _ _ _ Hf).
  run. eexists _, _, _, _. split; [done|]. by split; [eexists _, _, _|].
Qed.

(** A genuine RESUME_EXECUTION for the pause of [event]. *)
Definition grants (event : ExecutionPausedEvent) (command : SchedulerCommand) : Prop :=
  cmd_Command command = "RESUME_EXECUTION"%string ∧ cmd_PauseID command = pe_PauseID event.

(** One poll of an UNKILLABLE step: the resume is tried on a genuine
    RESUME_EXECUTION; on anything else the loop goes round. *)
Lemma unkillable_poll polls energy event env s w :
  ∃ s1 w1, mon_ctl s1 = mon_ctl s ∧
    ((∃ command t c w2, postExecutionPaused event (MaxPauseDurationMs energy) env (mon_chan s) w =
        Done (Some command, t, None) c w2 ∧ grants event command ∧ (io_step w ≤ io_step w1)%nat ∧
      pause_loop (Datatypes.S polls) energy true event env s w =
        (err ← resume_step energy (pe_PauseID event);
         match err with
         | Some _ =>
             retry ← killOrRetry true (ConsumedBeforeJ energy) (pe_PauseID event) "RESUME_FAILED" "critical";
             if retry : bool then pause_loop polls energy true event else mret (f64_zero, true, pe_PauseID event)
         | None => mret (cmd_NewExecutionThresholdJ command, false, pe_PauseID event)
         end) env s1 w1) ∨
     ((∀ command t c w2, postExecutionPaused event (MaxPauseDurationMs energy) env (mon_chan s) w =
        Done (Some command, t, None) c w2 → ¬ grants event command) ∧ (io_step w < io_step w1)%nat ∧
      pause_loop (Datatypes.S polls) energy true event env s w = pause_loop polls energy true event env s1 w1)).
Proof.
  pose proof (ages_paused event (MaxPauseDurationMs energy) env (mon_chan s) w) as Hage.
  destruct (postExecutionPaused_spec event (MaxPauseDurationMs energy) env (mon_chan s) w)
    as (cmd & t & err & ch & w1 & Hrun & Hiff & _). rewrite Hrun in *. simpl in Hage.
  cbn [pause_loop]. run. rewrite (run_done _ _ _ _ _ _ _ _ (zoom_done env chan_lens _ s w _ _ _ Hrun)). run.
  match goal with |- context [upd_cycle ?f ?x] => set (s1 := upd_cycle f x) end.
  assert (Hc1 : mon_ctl s1 = mon_ctl s) by done. clearbody s1.
  assert (Hretry : ∀ name severity, ∃ w2, (io_step w < io_step w2)%nat ∧
      (retry ← killOrRetry true (ConsumedBeforeJ energy) (pe_PauseID event) name severity;
       if retry : bool then pause_loop polls energy true event else mret (f64_zero, true, pe_PauseID event)) env s1 w1 =
      pause_loop polls energy true event env s1 w2).
  { intros name severity.
    destruct (repoll_ends (ConsumedBeforeJ energy) (pe_PauseID event) name severity env s1 w1) as (w2 & Hk & Hl).
    exists w2. rewrite (run_done _ _ _ _ _ _ _ _ Hk). split; [lia|done]. }
  destruct err as [e|].
  { destruct (Hretry "PAUSE_CHANNEL_FAILED" "warning")%string as (w2 & Hl & He). exists s1, w2.
    split; [done|]. right. split; [by intros ? ? ? ? [=]|done]. }
  destruct cmd as [command|]; [|by destruct (proj1 Hiff eq_refl)].
  destruct (String.eqb_spec (cmd_PauseID command) (pe_PauseID event)) as [Hid|Hid]; cbn [negb].
  2: { destruct (Hretry "PAUSE_ID_MISMATCH" "warning")%string as (w2 & Hl & He). exists s1, w2.
       split; [done|]. right. split; [intros ? ? ? ? [= <-] [_ ?]; congruence|done]. }
  destruct (String.eqb_spec (cmd_Command command) "RESUME_EXECUTION") as [Hcmd|Hcmd].
  { exists s1, w1. split; [done|]. left. exists command, t, ch, w1. done. }
  assert (Hno : ∀ command' t' c' w', Done (Some command, t, @None goerr) ch w1 = Done (Some command', t', None) c' w' →
    ¬ grants event command') by (intros ? ? ? ? [= <-] [? _]; congruence).
  destruct (cmd_Command command =? "WAIT_EXECUTION")%string; cbn [negb].
  { unfold unkillableRepollInterval, positiveIntEnv. run.
    eexists (upd_cycle (cycle_outcome "queued_wait") s1), _. split; [exact Hc1|].
    right. split; [done|]. split; [|reflexivity]. simpl. lia. }
  destruct (cmd_Command command =? "KILL_EXECUTION")%string.
  { unfold logSafetyUnkillable, safety, unkillableRepollInterval, positiveIntEnv. run. eexists s1, _.
    split; [exact Hc1|]. right. split; [done|]. split; [|reflexivity]. simpl. lia. }
  destruct (Hretry "UNKNOWN_SCHEDULER_COMMAND" "warning")%string as (w2 & Hl & He). exists s1, w2.
  split; [done|]. by right.
Qed.

(** An UNKILLABLE step frozen by a pause is resumed once the scheduler grants it:
    whatever was answered or failed before, from the moment the scheduler is
    reached and answers RESUME_EXECUTION for this pause, the cycle ends and the
    step runs again, provided the kernel thaws when asked to. *)
Theorem granted_step_resumes n polls energy event env s w :
  thaws env (ac_path (mon_ctl s)) → frozen_in (pe_PauseID event) s →
  grants_by env n (paused_timeout env (MaxPauseDurationMs energy)) event →
  json_encodable (paused_json event) = true → env_url env (events_url env) = None →
  (n < polls)%nat →
  ∃ thr s' w', pause_loop polls energy true event env s w = Done (thr, false, pe_PauseID event) s' w' ∧
    ac_state (mon_ctl s') = StateRunning.
Proof.
  intros Ht Hf Hg He Hu Hn. assert (Hm : (n - io_step w < polls)%nat) by lia. clear Hn.
  revert s w Ht Hf Hm. induction polls as [|polls IH]; intros s w Ht Hf Hm; [lia|].
  destruct (unkillable_poll polls energy event env s w) as (s1 & w1 & Hc & [H|(Hno & Hl & ->)]).
  - destruct H as (command & t & c & w2 & _ & _ & _ & ->). unfold frozen_in in Hf. rewrite <-Hc in Ht, Hf.
    destruct (resume_step_obeyed energy (pe_PauseID event) env s1 w1 Ht Hf) as (s2 & w3 & Hr & Hs).
    rewrite (run_done _ _ _ _ _ _ _ _ Hr). by eexists _, _, _.
  - destruct (Nat.lt_ge_cases (io_step w) n) as [|Hge].
    + apply IH; [by rewrite Hc|by unfold frozen_in; rewrite Hc|lia].
    + destruct (granted_answer env n event (MaxPauseDurationMs energy) (mon_chan s) w Hg Hge He Hu)
        as (command & t & c & w2 & Hp & _ & Hgr). by destruct (Hno _ _ _ _ Hp).
Qed.

(** A lost controller leaves its cgroup alone. *)
Definition not_write (e : event) : Prop := match e with EvWrite _ _ => False | _ => True end.

Definition lost_inv (c : ActivationController) (w0 : io) (s : Mon) (w : io) : Prop :=
  mon_ctl s = c ∧ ∃ new, io_trace w = new ++ io_trace w0 ∧ Forall not_write new.

Lemma lost_inv_step env u first c w0 s w s' w' :
  ac_state c = StateUnknown →
  mon_step env u first (s, w) (s', w') → lost_inv c w0 s w → lost_inv c w0 s' w'.
Proof.
  intros Hst Hs [Hc (new & Ht & Hf)].
  assert (Hmore : ∀ new', io_trace w' = new' ++ io_trace w → Forall quiet new' →
    ∃ new, io_trace w' = new ++ io_trace w0 ∧ Forall not_write new).
  { intros new' Ht' Hq. exists (new' ++ new). rewrite Ht', Ht, app_assoc. split; [done|].
    apply Forall_app. split; [|done]. eapply Forall_impl; [exact Hq|]. by intros []. }
  assert (Hidle : ∀ o p, ∃ r, call o p env (mon_ctl s) w = Done r (mon_ctl s) w).
  { intros o p. destruct (call_idle o p env (mon_ctl s) w) as (r & Hr & _); [|by eexists].
    intros Ha. rewrite Hc in Ha. destruct o; simpl in Ha; rewrite Hst in Ha; [done|by destruct Ha..]. }
  destruct (mon_step_traced _ _ _ _ _ _ _ Hs) as [Hc' (n' & Ht' & Hq)|url event r n' Hc' Ht' Hn _|o p r Hr _ _|p Hr _].
  - split; [congruence|]. by eapply Hmore.
  - split; [congruence|]. exists (EvPost url (paused_json event) r :: n' ++ new). rewrite Ht', Ht, app_assoc. split; [done|].
    constructor; [done|]. apply Forall_app. split; [|done]. eapply Forall_impl; [exact Hn|]. by intros [].
  - destruct (Hidle o p) as (r' & Hr'). rewrite Hr in Hr'. injection Hr' as _ Hc' ->. split; [congruence|]. by exists new.
  - destruct (Hidle OpKill p) as (r' & Hr'). simpl in Hr'. by rewrite Hr in Hr'.
Qed.

Lemma lost_loop_waits polls energy event env s w :
  ac_state (mon_ctl s) = StateUnknown →
  ∃ s' w', pause_loop polls energy true event env s w = Cut s' w'.
Proof.
  revert s w. induction polls as [|polls IH]; intros s w Hs; [by eexists _, _|].
  destruct (unkillable_poll polls energy event env s w) as (s1 & w1 & Hc & [H|(_ & _ & ->)]);
    [|apply IH; congruence].
  destruct H as (command & t & c & w2 & _ & _ & _ & ->). rewrite <-Hc in Hs.
  destruct (refine_done env (ConsumedBeforeJ energy) s1 w1) as (s2 & w3 & H2 & _ & Hc2). rewrite <-Hc2 in Hs.
  assert (Hr : ∃ e w4, resume_step energy (pe_PauseID event) env s1 w1 = Done (Some e) s2 w4).
  { unfold resume_step, now_wall. rewrite (run_done _ _ _ _ _ _ _ _ H2). run.
    assert (Hz : ∃ e, zoom ctl_lens (resumeExecution (pe_PauseID event)) env s2 (advance env 0 [] w3) =
      Done (Some e) s2 (advance env 0 [] w3)).
    { unfold zoom, resumeExecution. simpl. run. rewrite Hs. run.
      eexists. by destruct s2. }
    destruct Hz as (e & Hz). rewrite (run_done _ _ _ _ _ _ _ _ Hz). by eexists _, _. }
  destruct Hr as (e & w4 & Hr). rewrite (run_done _ _ _ _ _ _ _ _ Hr).
  destruct (repoll_ends (ConsumedBeforeJ energy) (pe_PauseID event) "RESUME_FAILED" "critical" env s2 w4)
    as (w5 & Hk & _). rewrite (run_done _ _ _ _ _ _ _ _ Hk). by apply IH.
Qed.

(** C39: but a step whose thaw failed once is never resumed: the controller is
    UNKNOWN and refuses every later resume, so the cycle asks for ever, whatever
    the scheduler grants and even if the kernel recovers; the cgroup is not
    touched again. *)
Theorem lost_unkillable_step_waits_for_ever polls energy event env s w :
  ac_state (mon_ctl s) = StateUnknown →
  ∃ s' w' new, pause_loop polls energy true event env s w = Cut s' w' ∧ mon_ctl s' = mon_ctl s ∧
    io_trace w' = new ++ io_trace w ∧ Forall not_write new.
Proof.
  intros Hs. destruct (lost_loop_waits polls energy event env s w Hs) as (s' & w' & Hr).
  destruct (pause_loop_path env true (0, zero_snapshot) true polls energy event eq_refl s w) as [Hp _];
    [by rewrite Hs|].
  pose proof (mon_rtc_ind _ _ _ (lost_inv (mon_ctl s) w) _ _
    (λ s1 w1 s2 w2, lost_inv_step env true _ (mon_ctl s) w s1 w1 s2 w2 Hs) Hp) as (Hc & new & Ht & Hf);
    [split; [done|]; by exists []|].
  rewrite Hr in *. by exists s', w', new.
Qed.

(** ** Sample runs *)

(** An action that answers by the 20th effect. *)
Definition patient_site : Env :=
  sample_env_flags [("KILL_CONFIRM_WAIT_TIMEOUT_MS", "10")]%string [(energy_file, "1000")]%string
    (λ _, None) (λ _, HttpErr EDeadline) (λ i, (20 <=? Z.of_nat i)%Z) (Some (BodyJson (JObj []))).

Lemma run_is_answered_witness :
  ∃ p' w' new line, runHandler 21 1 (inl (BodyJson first_request)) patient_site sample_proxy io_start =
      Done tt p' w' ∧ io_trace w' = new ++ [] ∧ conversation line (visible new).
Proof.
  apply (run_is_answered 20 21 0 (inl (BodyJson first_request)) patient_site sample_proxy io_start).
  - apply (bool_decide_unpack _). vm_compute. reflexivity.
  - apply (bool_decide_unpack _). vm_compute. reflexivity.
  - intros i Hi. apply Z.leb_le. lia.
  - lia.
  - vm_compute. left. reflexivity.
Defined.

Definition resume_answer : http_result :=
  HttpResp 200 (BodyJson (JObj [("command", JStr "RESUME_EXECUTION"); ("pause_id", JStr "pause-1");
                                ("new_execution_threshold_j", JNum (f64_of_Z 9))]))%string.

(** A kernel that thaws, and a scheduler reached over a pooled connection. *)
Definition granting_site : Env :=
  sample_env [] [(energy_file, "1000"); ("/c/cgroup.events", "populated 1" +:+ String newline "frozen 0")]%string
    (λ _, None) (λ _, resume_answer) true None.

Definition pooled (env : Env) : Env := with_world (env_read env) true NOther None env.

Definition frozen_mon : Mon := set_ctl (set_pause StateFrozen "pause-1" (mon_ctl sample_mon)) sample_mon.

Definition frozen_event : ExecutionPausedEvent :=
  {| pe_TraceID := "t1"; pe_ReservationID := "r1"; pe_PauseID := "pause-1"; pe_ActionName := "pay";
     pe_ExecutionPhase := "forward"; pe_EnergyConsumedJ := f64_of_Z 3; pe_PauseRequestedAt := f64_of_Z 1;
     pe_PauseEffectiveAt := f64_of_Z 1; pe_FreezeLatencyMs := f64_of_Z 1 |}%string.

Lemma granted_step_resumes_witness :
  ∃ thr s' w', pause_loop 1 (spent "UNKILLABLE") true frozen_event (pooled granting_site) frozen_mon io_start =
      Done (thr, false, "pause-1"%string) s' w' ∧ ac_state (mon_ctl s') = StateRunning.
Proof.
  apply (granted_step_resumes 0 1 (spent "UNKILLABLE") frozen_event (pooled granting_site) frozen_mon io_start).
  - split; [by intros i|]. intros i. eexists. split; vm_compute; reflexivity.
  - by split.
  - intros i _. split; [done|]. split; [apply (bool_decide_unpack _); vm_compute; reflexivity|].
    eexists _, _, _. split; [vm_compute; reflexivity|]. split; [vm_compute; reflexivity|]. by split.
  - vm_compute. reflexivity.
  - reflexivity.
  - lia.
Defined.

Lemma lost_unkillable_step_waits_for_ever_witness :
  ∃ s' w' new, pause_loop 3 (spent "UNKILLABLE") true frozen_event (pooled granting_site)
      (set_ctl (set_state StateUnknown (mon_ctl frozen_mon)) frozen_mon) io_start = Cut s' w' ∧
    io_trace w' = new ++ [] ∧ Forall not_write new.
Proof.
  destruct (lost_unkillable_step_waits_for_ever 3 (spent "UNKILLABLE") frozen_event (pooled granting_site)
    (set_ctl (set_state StateUnknown (mon_ctl frozen_mon)) frozen_mon) io_start eq_refl)
    as (s' & w' & new & Hr & _ & Ht & Hf).
  exists s', w', new. split; [exact Hr|]. split; [exact Ht|exact Hf].
Defined.
