(* ===== verification/Threshold.v ===== *)
(** * The threshold a step ends under ([openwhisk/energyMonitor.go])

    The energy budget of a step is raised by the scheduler only: the state an
    invocation hands to the next step carries the threshold it was given, or the
    one of a RESUME_EXECUTION the scheduler answered during this invocation to one
    of its EXECUTION_PAUSED events, for the same pause. *)

From S2P Require Import Prelude Float64 GoStrings Json Effects Rapl Instrumentation Segments.
From S2P Require Import Freezer EnergyState Channel Monitor Payload Recording Executor RunHandler Progress.

Local Open Scope Z_scope.

(** ** What was granted *)

(** The scheduler's answer to an EXECUTION_PAUSED for the reservation of [energy]:
    resume this pause under [x]. *)
Definition of_step (energy : EnergyState) (paused : ExecutionPausedEvent) : Prop :=
  pe_TraceID paused = TraceID energy ∧ pe_ReservationID paused = ReservationID energy.

Definition grant (energy : EnergyState) (x : f64) (e : event) : Prop :=
  ∃ url paused r command, e = EvPost url (paused_json paused) r ∧ of_step energy paused ∧
    decision r = Some command ∧
    cmd_Command command = "RESUME_EXECUTION"%string ∧ cmd_PauseID command = pe_PauseID paused ∧
    cmd_NewExecutionThresholdJ command = x.

Section granted.
Context (env : Env) (first : EnergyState) (w0 : io).

(** Since [w0], [x] was granted, or is the threshold the step began with. *)
Definition granted (w : io) (x : f64) : Prop :=
  ∃ new, io_trace w = new ++ io_trace w0 ∧ (x = ExecutionThresholdJ first ∨ ∃ e, e ∈ new ∧ grant first x e).

Definition extends (w w' : io) : Prop := ∃ new, io_trace w' = new ++ io_trace w.

Lemma extends_refl w : extends w w.
Proof. by exists []. Qed.

Lemma extends_trans w1 w2 w3 : extends w1 w2 → extends w2 w3 → extends w1 w3.
Proof. intros [n1 H1] [n2 H2]. exists (n2 ++ n1). by rewrite H2, H1, app_assoc. Qed.

Lemma granted_extends w w' x : extends w w' → granted w x → granted w' x.
Proof.
  intros [n1 H1] (new & Ht & Hx). exists (n1 ++ new). rewrite H1, Ht, app_assoc. split; [done|].
  destruct Hx as [?|(e & Hin & He)]; [by left|]. right. exists e. split; [set_solver|done].
Qed.

(** The result cells an invocation hands back. *)
Definition cells (s : Mon) : bool * f64 := (res_thresholdUpdated (mon_res s), res_thresholdJ (mon_res s)).

(** ** Following a body *)

Lemma emits_any {S A} φ (m : M S A) : emits φ m → emits (λ _, True) m.
Proof. intros Hm. by eapply triple_weaken. Qed.

(** [gives Q m s w]: the trace grows, and [Q] holds if [m] returns. *)
Definition gives {A} (Q : A → Mon → io → Prop) (m : M Mon A) (s : Mon) (w : io) : Prop :=
  extends w (out_io (m env s w)) ∧
  match m env s w with Done a s' w' => extends w w' → Q a s' w' | _ => True end.

Lemma gives_bind {A B} (Q : B → Mon → io → Prop) (m : M Mon A) k s w :
  gives (λ a s' w', gives Q (k a) s' w') m s w → gives Q (m ≫= k) s w.
Proof.
  unfold gives, mbind, M_bind. destruct (m env s w) as [a s' w'|s' w'|msg s' w']; simpl; [|done..].
  intros [He Hk]. destruct (Hk He) as [He' Hq]. split; [exact (extends_trans _ _ _ He He')|].
  revert He' Hq. destruct (k a env s' w'); try done. simpl. auto.
Qed.

Lemma gives_weaken {A} (Q Q' : A → Mon → io → Prop) m s w :
  gives Q m s w → (∀ a s' w', extends w w' → Q a s' w' → Q' a s' w') → gives Q' m s w.
Proof. intros [He Hq] H. split; [done|]. destruct (m env s w); auto. Qed.

Lemma gives_ret {A} (Q : A → Mon → io → Prop) a s w : Q a s w → gives Q (mret a) s w.
Proof. intros HQ. split; [apply extends_refl|]. intros _. exact HQ. Qed.

Lemma gives_reads {A} (Q : A → Mon → io → Prop) (m : M Mon A) s w :
  reads m → emits (λ _, True) m → (∀ a w', extends w w' → Q a s w') → gives Q m s w.
Proof.
  intros Hr Hm H. destruct (Hm env s w I) as [(new & Ht & _) _]. destruct (Hr env s w) as (a & w' & Hd).
  unfold gives. rewrite Hd in *. simpl in *. split; [by exists new|]. auto.
Qed.

Lemma gives_zoom {T A} (l : lens Mon T) (Q : A → Mon → io → Prop) (m : M T A) s w :
  (∀ t s, mon_res (put l t s) = mon_res s) → emits (λ _, True) m →
  (∀ a s' w', extends w w' → mon_res s' = mon_res s → Q a s' w') → gives Q (zoom l m) s w.
Proof.
  intros Hl Hm H. destruct (Hm env (view l s) w I) as [(new & Ht & _) _].
  unfold gives, zoom. destruct (m env (view l s) w); simpl in *; (split; [by exists new|]); try done.
  intros He. apply H; [done|apply Hl].
Qed.

Lemma gives_modify (Q : () → Mon → io → Prop) f s w : Q tt (f s) w → gives Q (modify f) s w.
Proof. intros HQ. split; [apply extends_refl|]. intros _. exact HQ. Qed.

Lemma gives_gets {A B} Q (f : Mon → A) (k : A → M Mon B) s w : gives Q (k (f s)) s w → gives Q (gets f ≫= k) s w.
Proof. exact id. Qed.
Lemma gives_get {B} Q (k : Mon → M Mon B) s w : gives Q (k s) s w → gives Q (get ≫= k) s w.
Proof. exact id. Qed.
Lemma gives_now_mono {B} Q (k : Z → M Mon B) s w : gives Q (k (io_clock w)) s w → gives Q (now_mono ≫= k) s w.
Proof. exact id. Qed.
Lemma gives_asks {A B} Q (f : Env → A) (k : A → M Mon B) s w : gives Q (k (f env)) s w → gives Q (asks f ≫= k) s w.
Proof. exact id. Qed.

(** ** The parts of a cycle *)

Lemma cells_res s s' : mon_res s' = mon_res s → cells s' = cells s.
Proof. unfold cells. by intros ->. Qed.

Lemma refine_gives consumed Q s w :
  (∀ s' w', extends w w' → cells s' = cells s → Q tt s' w') → gives Q (refineCycleWhileFrozen consumed) s w.
Proof.
  intros H. unfold refineCycleWhileFrozen. apply gives_gets, gives_gets, gives_bind.
  apply gives_zoom; [done|apply (emits_any quiet), refine_quiet|]. intros r s1 w1 He1 Hr1. case_match.
  - apply gives_ret, H; [done|by apply cells_res].
  - apply gives_get, gives_modify, H; [done|]. by apply cells_res.
Qed.

Lemma call_emits o p : emits (λ _, True) (call o p).
Proof. eapply emits_any, inwardly_emits. intros env' a w. apply call_inwardly. Qed.

Lemma kill_gives pauseID cause Q s w :
  (∀ s' w', extends w w' → cells s' = cells s → Q tt s' w') → gives Q (kill_step pauseID cause) s w.
Proof.
  intros H. unfold kill_step. apply gives_bind, gives_reads; [auto with reads|by eapply emits_any, now_wall_quiet|].
  intros requested w1 He1. apply gives_bind.
  apply gives_zoom; [done|exact (call_emits OpKill pauseID)|]. intros _ s2 w2 He2 Hr2.
  apply gives_bind, gives_reads; [auto with reads|by eapply emits_any, now_wall_quiet|]. intros stopped w3 He3.
  apply gives_modify, H; [eauto using extends_trans|]. unfold cells. simpl. by rewrite Hr2.
Qed.

Lemma retry_gives u consumed pauseID name severity Q s w :
  (∀ b s' w', extends w w' → cells s' = cells s → Q b s' w') →
  gives Q (killOrRetry u consumed pauseID name severity) s w.
Proof.
  intros H. unfold killOrRetry. destruct u.
  - unfold logSafetyUnkillable.
    apply gives_bind, gives_reads; [auto with reads|by eapply emits_any, safety_quiet|]. intros [] w1 He1.
    apply gives_bind, gives_reads; [auto with reads|by eapply emits_any, repoll_quiet|]. intros i w2 He2.
    apply gives_bind, gives_reads; [auto with reads|by eapply emits_any, sleep_quiet|]. intros [] w3 He3.
    apply gives_ret, H; [eauto using extends_trans|done].
  - apply gives_bind, refine_gives. intros s1 w1 He1 Hc1. apply gives_bind, kill_gives. intros s2 w2 He2 Hc2.
    apply gives_ret, H; [eauto using extends_trans|congruence].
Qed.

Lemma resume_gives energy pauseID Q s w :
  (∀ r s' w', extends w w' → cells s' = cells s → Q r s' w') → gives Q (resume_step energy pauseID) s w.
Proof.
  intros H. unfold resume_step. apply gives_bind, refine_gives. intros s1 w1 He1 Hc1.
  apply gives_bind, gives_reads; [auto with reads|by eapply emits_any, now_wall_quiet|]. intros requested w2 He2.
  apply gives_bind, gives_zoom; [done|exact (call_emits OpResume pauseID)|]. intros [e|] s3 w3 He3 Hr3.
  { apply gives_ret, H; [eauto using extends_trans|]. rewrite (cells_res _ _ Hr3). exact Hc1. }
  apply gives_bind, gives_reads; [auto with reads|by eapply emits_any, now_wall_quiet|]. intros effective w4 He4.
  apply gives_bind, gives_modify, gives_gets, gives_gets, gives_bind.
  apply gives_zoom; [done|apply (emits_any quiet), open_quiet|]. intros b s5 w5 He5 Hr5.
  apply gives_bind, gives_modify, gives_ret, H; [eauto 10 using extends_trans|].
  transitivity (cells s1); [|exact Hc1]. unfold cells. simpl. rewrite Hr5. simpl. by rewrite Hr3.
Qed.

(** What a cycle may end with: a kill, or a threshold that was granted. *)
Definition cycle_fair (s : Mon) (r : cycle_result) (s' : Mon) (w' : io) : Prop :=
  cells s' = cells s ∧ (r.1.2 = true ∨ granted w' r.1.1).

Lemma post_gives paused maxMs Q s w :
  extends w0 w → of_step first paused →
  (∀ cmd t err s' w', extends w w' → cells s' = cells s →
    (∀ command, cmd = Some command → cmd_Command command = "RESUME_EXECUTION"%string →
       cmd_PauseID command = pe_PauseID paused → granted w' (cmd_NewExecutionThresholdJ command)) →
    Q (cmd, t, err) s' w') →
  gives Q (zoom chan_lens (postExecutionPaused paused maxMs)) s w.
Proof.
  intros [n0 H0] Hof H. destruct (postExecutionPaused_spec paused maxMs env (mon_chan s) w)
    as (cmd & t & err & c' & w' & Hr & _ & Hc).
  unfold gives, zoom. change (view chan_lens s) with (mon_chan s). rewrite Hr. simpl.
  assert (He : extends w w').
  { destruct Hc as [[-> _]|(r & new & Ht & _)]; [apply extends_refl|].
    exists (EvPost (events_url env) (paused_json paused) r :: new). exact Ht. }
  split; [done|]. intros _. apply H; [done|done|]. intros command -> Hres Hp.
  destruct Hc as [[_ [=]]|(r & new & Ht & _ & Hd & _)].
  exists (EvPost (events_url env) (paused_json paused) r :: new ++ n0).
  rewrite Ht, H0. simpl. rewrite app_assoc. split; [done|]. right. eexists. split; [by left|].
  exists (events_url env), paused, r, command. repeat (split; [done|]). done.
Qed.

Lemma pause_loop_gives polls energy u paused : of_step first paused → ∀ s w,
  extends w0 w → gives (cycle_fair s) (pause_loop polls energy u paused) s w.
Proof.
  intros Hof. induction polls as [|polls IH]; intros s w H0; cbn [pause_loop]; [split; [apply extends_refl|done]|].
  set (again := pause_loop polls energy u paused) in *.
  assert (Hagain : ∀ s' w', extends w0 w' → cells s' = cells s → gives (cycle_fair s) again s' w').
  { intros s' w' H1 Hc. eapply gives_weaken; [by apply IH|]. intros r s2 w2 _ [Hc2 Hr]. split; [congruence|done]. }
  assert (Hkr : ∀ name severity s' w', extends w0 w' → cells s' = cells s →
    gives (cycle_fair s) (retry ← killOrRetry u (ConsumedBeforeJ energy) (pe_PauseID paused) name severity;
       if retry : bool then again else mret (f64_zero, true, pe_PauseID paused)) s' w').
  { intros name severity s' w' H1 Hc. apply gives_bind, retry_gives. intros [] s2 w2 He2 Hc2.
    - apply Hagain; [by eapply extends_trans|congruence].
    - apply gives_ret. split; [congruence|by left]. }
  assert (Hpoll : ∀ s' w', extends w0 w' → cells s' = cells s →
    gives (cycle_fair s) (interval ← unkillableRepollInterval; sleep interval;; again) s' w').
  { intros s' w' H1 Hc. apply gives_bind, gives_reads; [auto with reads|by eapply emits_any, repoll_quiet|].
    intros i w2 He2. apply gives_bind, gives_reads; [auto with reads|by eapply emits_any, sleep_quiet|].
    intros [] w3 He3. apply Hagain; [eauto using extends_trans|done]. }
  clearbody again. apply gives_now_mono, gives_bind, post_gives; [done|done|]. intros cmd t err s1 w1 He1 Hc1 Hg.
  assert (H1 : extends w0 w1) by by eapply extends_trans.
  apply gives_now_mono, gives_bind, gives_modify. cbn [fst snd].
  set (s2 := upd_cycle _ s1). assert (Hc2 : cells s2 = cells s) by exact Hc1. clearbody s2.
  destruct err as [e|]; [by apply Hkr|].
  destruct cmd as [command|]; [|split; [apply extends_refl|done]].
  destruct (String.eqb_spec (cmd_PauseID command) (pe_PauseID paused)) as [Hp|]; [|by apply Hkr].
  cbn [negb]. destruct (String.eqb_spec (cmd_Command command) "RESUME_EXECUTION") as [Hc|].
  { apply gives_bind, resume_gives. intros [e|] s3 w3 He3 Hc3.
    - apply Hkr; [by eapply extends_trans|congruence].
    - apply gives_ret. split; [congruence|]. right. eapply granted_extends; [exact He3|]. by apply Hg. }
  destruct (cmd_Command command =? "WAIT_EXECUTION")%string.
  { destruct u; cbn [negb]; [|by apply Hkr]. apply gives_bind, gives_modify. by apply Hpoll. }
  destruct (cmd_Command command =? "KILL_EXECUTION")%string; [|by apply Hkr].
  destruct u.
  - unfold logSafetyUnkillable.
    apply gives_bind, gives_reads; [auto with reads|by eapply emits_any, safety_quiet|].
    intros [] w3 He3. apply Hpoll; [by eapply extends_trans|done].
  - apply gives_bind, refine_gives. intros s3 w3 He3 Hc3. apply gives_bind, kill_gives. intros s4 w4 He4 Hc4.
    apply gives_ret. split; [congruence|by left].
Qed.

Lemma pause_body_gives polls energy actionName stepJ pauseID s w :
  TraceID energy = TraceID first → ReservationID energy = ReservationID first →
  extends w0 w → granted w (ExecutionThresholdJ energy) →
  gives (cycle_fair s) (pause_body polls energy actionName stepJ pauseID) s w.
Proof.
  intros Ht Hres H0 Hg. unfold pause_body. apply gives_bind, gives_reads; [auto with reads|by eapply emits_any, now_quiet|].
  intros requested w1 He1. apply gives_bind, gives_zoom; [done|exact (call_emits OpFreeze pauseID)|].
  intros [e|] s2 w2 He2 Hr2.
  - destruct (isNonInterruptibleForThisStep (Some energy)).
    + unfold logSafetyUnkillable. apply gives_bind, gives_reads; [auto with reads|by eapply emits_any, safety_quiet|].
      intros [] w3 He3. apply gives_ret. split; [by apply cells_res|]. right.
      eapply granted_extends; [|exact Hg]. eauto using extends_trans.
    + apply gives_bind, kill_gives. intros s3 w3 He3 Hc3. apply gives_ret.
      split; [rewrite Hc3; by apply cells_res|by left].
  - apply gives_bind, gives_reads; [auto with reads|by eapply emits_any, now_quiet|]. intros effective w3 He3.
    apply gives_gets, gives_gets, gives_bind, gives_zoom; [done|apply (emits_any quiet), close_quiet|].
    intros closed s4 w4 He4 Hr4. apply gives_get, gives_bind, gives_modify.
    eapply gives_weaken; [apply pause_loop_gives; [done|eauto 10 using extends_trans]|].
    intros r s5 w5 _ [Hc5 Hr]. split; [|done]. rewrite Hc5. unfold cells. simpl. by rewrite Hr4, Hr2.
Qed.

Lemma run_cycle_gives polls energy actionName stepJ detectedAt energyJ s w :
  TraceID energy = TraceID first → ReservationID energy = ReservationID first →
  extends w0 w → granted w (ExecutionThresholdJ energy) →
  gives (cycle_fair s) (runPauseCycle polls energy actionName stepJ detectedAt energyJ) s w.
Proof.
  intros Ht Hres H0 Hg. unfold runPauseCycle.
  apply gives_bind, gives_reads; [auto with reads|by eapply emits_any, newPauseID_quiet|]. intros pauseID w1 He1.
  apply gives_bind, gives_modify, gives_bind.
  eapply gives_weaken; [apply pause_body_gives; [done|done|by eapply extends_trans|by eapply granted_extends]|].
  intros r s2 w2 _ [Hc2 Hr2]. apply gives_gets, gives_bind, gives_modify, gives_ret. by split.
Qed.

(** The cells hold a granted threshold, or none. *)
Definition fair (s : Mon) (w : io) : Prop := (cells s).1 = true → granted w (cells s).2.

Lemma fair_cells s w s' w' : fair s w → extends w w' → cells s' = cells s → fair s' w'.
Proof. unfold fair. intros Hf He -> Hu. eapply granted_extends; [exact He|by apply Hf]. Qed.

(** The step goes on under a granted threshold. *)
Definition tick_fair (next : option EnergyState) (s' : Mon) (w' : io) : Prop :=
  fair s' w' ∧ ∀ e, next = Some e →
    TraceID e = TraceID first ∧ ReservationID e = ReservationID first ∧ granted w' (ExecutionThresholdJ e).

Lemma tick_gives polls energy actionName s w :
  TraceID energy = TraceID first → ReservationID energy = ReservationID first →
  extends w0 w → granted w (ExecutionThresholdJ energy) → fair s w →
  gives tick_fair (monitor_tick polls energy actionName) s w.
Proof.
  intros Ht Hres H0 Hg Hf.
  assert (Hsame : ∀ s' w', extends w w' → cells s' = cells s → tick_fair (Some energy) s' w').
  { intros s' w' He Hc. split; [by eapply fair_cells|]. intros e [= <-].
    split; [done|]. split; [done|]. by eapply granted_extends. }
  unfold monitor_tick. apply gives_now_mono.
  apply gives_bind, gives_reads; [auto with reads|by eapply emits_any, readEnergy_quiet|].
  intros [energyNow|e] w1 He1; [|apply gives_now_mono, gives_bind, gives_modify, gives_ret; by apply Hsame].
  apply gives_gets, gives_bind, gives_reads; [auto with reads|by eapply emits_any, readCPUSnapshot_quiet|].
  intros cpuNow w2 He2. apply gives_gets, gives_asks, gives_now_mono, gives_bind, gives_modify.
  set (s2 := upd_res _ s). assert (Hc2 : cells s2 = cells s) by done. clearbody s2.
  assert (He12 : extends w w2) by by eapply extends_trans.
  case_match; [by apply gives_ret, Hsame|].
  apply gives_bind, gives_reads; [auto with reads|by eapply emits_any, now_wall_quiet|]. intros detectedAt w3 He3.
  assert (He : extends w w3) by by eapply extends_trans.
  assert (Hend : ∀ s' w', extends w3 w' → cells s' = cells s → tick_fair None s' w').
  { intros s' w' He4 Hc4. split; [|done]. eapply fair_cells; [exact Hf|by eapply extends_trans|done]. }
  destruct (PauseEnabled energy); cbn [negb].
  - apply gives_bind. eapply gives_weaken; [apply run_cycle_gives; [done|done|by eapply extends_trans|by eapply granted_extends]|].
    intros [[thr killed] pid] s4 w4 He4 [Hc4 Hr4]. simpl in Hr4. destruct killed.
    + apply gives_gets, gives_bind, gives_modify, gives_ret, Hend; [done|].
      transitivity (cells s4); [done|congruence].
    + destruct Hr4 as [[=]|Hthr]. apply gives_bind, gives_modify, gives_ret.
      split; [by intros _|]. intros e [= <-]. done.
  - destruct (isNonInterruptibleForThisStep (Some energy)).
    + unfold logSafetyUnkillable. apply gives_bind, gives_reads; [auto with reads|by eapply emits_any, safety_quiet|].
      intros [] w4 He4. by apply gives_ret, Hend.
    + apply gives_bind, kill_gives. intros s4 w4 He4 Hc4. apply gives_bind, gives_modify, gives_ret, Hend; [done|].
      transitivity (cells s4); [done|congruence].
Qed.

Lemma loop_gives ticks polls actionName : ∀ energy s w,
  TraceID energy = TraceID first → ReservationID energy = ReservationID first →
  extends w0 w → granted w (ExecutionThresholdJ energy) → fair s w →
  gives (λ _ s' w', fair s' w') (monitor_loop ticks polls energy actionName) s w.
Proof.
  induction ticks as [|ticks IH]; intros energy s w Ht Hres H0 Hg Hf; cbn [monitor_loop];
    [split; [apply extends_refl|done]|].
  apply gives_bind, gives_reads; [unfold flag; auto with reads|unfold flag; solve_emits ltac:(done)|]. intros [] w1 He1.
  { apply gives_ret. by eapply fair_cells. }
  apply gives_bind. eapply gives_weaken; [apply tick_gives; [done|done|by eapply extends_trans|by eapply granted_extends|
    by eapply fair_cells]|]. intros [e|] s2 w2 He2 [Hf2 Hn]; [|by apply gives_ret].
  destruct (Hn e eq_refl) as (? & ? & ?). apply IH; [done|done|eauto using extends_trans|done|done].
Qed.

Lemma monitor_gives ticks polls s w :
  w0 = w → res_thresholdUpdated (mon_res s) = false →
  gives (λ _ s' w', fair s' w') (monitorEnergy ticks polls first) s w.
Proof.
  intros <- Hu. assert (H0 : granted w0 (ExecutionThresholdJ first)) by (exists []; split; [done|by left]).
  assert (Hf : ∀ s' w', cells s' = cells s → fair s' w')
    by (intros s' w' Hc; unfold fair; rewrite Hc; unfold cells; simpl; congruence).
  unfold monitorEnergy. apply gives_bind, gives_reads; [auto with reads|by eapply emits_any, readEnergy_quiet|].
  intros [energyStart|e] w1 He1; [|by apply gives_ret, Hf].
  apply gives_gets, gives_bind, gives_reads; [auto with reads|by eapply emits_any, readCPUSnapshot_quiet|].
  intros cpu w2 He2. apply gives_bind, gives_modify, gives_bind, gives_reads;
    [unfold energyMonitorInterval, positiveIntEnv; solve_reads
    |unfold energyMonitorInterval, positiveIntEnv; solve_emits ltac:(done)|].
  intros interval w3 He3. assert (He : extends w0 w3) by eauto using extends_trans.
  case_match; [split; [apply extends_refl|done]|].
  apply loop_gives; [done|done|exact He|exact (granted_extends _ _ _ He H0)|by apply Hf].
Qed.
End granted.

(** ** Theorem *)

Lemma threshold_granted_spec ticks polls input energy env q w i q' w' :
  Interact ticks polls input (Some energy) env q w = Done i q' w' →
  ∃ x new, in_energy i = Some (with_threshold x energy) ∧ io_trace w' = new ++ io_trace w ∧
    (x = ExecutionThresholdJ energy ∨ ∃ e, e ∈ new ∧ grant energy x e).
Proof.
  rewrite interact_unfold. cbv zeta. set (w1 := advance env 0 [EvStdin input] w).
  destruct (monitored_part_spec ticks polls (Some energy) env (restart q) w1)
    as (w2 & (n2 & H2 & _) & Hm).
  assert (Hend : ∀ r w3, granted energy w2 w3 (if res_thresholdUpdated r then res_thresholdJ r else ExecutionThresholdJ energy) →
    ∀ w4, io_trace w4 = [EvGuard "stderr"; EvGuard "stdout"] ++ io_trace w3 →
    ∃ x new, Some (final_energy r energy) = Some (with_threshold x energy) ∧ io_trace w4 = new ++ io_trace w ∧
      (x = ExecutionThresholdJ energy ∨ ∃ e, e ∈ new ∧ grant energy x e)).
  { intros r w3 (new & H3 & Hx) w4 H4. eexists _, ([EvGuard "stderr"; EvGuard "stdout"] ++ new ++ n2 ++ [EvStdin input]).
    split; [|split; [|destruct Hx as [Hx|(e & Hin & He)]; [by left; exact Hx|right; exists e; split; [set_solver|exact He]]]].
    - unfold final_energy, finalThreshold. destruct (res_thresholdUpdated r); [done|]. by rewrite <-with_threshold_same.
    - rewrite H4, H3, H2. unfold w1. simpl. by rewrite <-!app_assoc. }
  destruct Hm as [[_ ->]|(e & [= <-] & _ & ->)].
  - intros [= <- <- <-]. eexists (ExecutionThresholdJ energy), ([EvGuard "stderr"; EvGuard "stdout"] ++ n2 ++ [EvStdin input]).
    simpl. split; [by rewrite <-with_threshold_same|]. split; [|by left]. rewrite H2. by rewrite <-app_assoc.
  - destruct (monitor_gives env energy w2 ticks polls (mon_init (restart q)) w2 eq_refl eq_refl) as [He Hf].
    destruct (monitorEnergy ticks polls energy env (mon_init (restart q)) w2) as [[] m w3| |]; [|done..].
    intros [= <- <- <-]. apply (Hend (mon_res m) w3); [|done]. specialize (Hf He). unfold fair, cells in Hf. simpl in Hf.
    destruct (res_thresholdUpdated (mon_res m)); [by apply Hf|]. destruct He as [new He]. exists new. split; [done|by left].
Qed.

(** C8: a step never ends under a threshold of its own making: the energy state an
    invocation hands on is the one it was given, under the same threshold or under
    the one of a RESUME_EXECUTION the scheduler answered, during this invocation
    and for this reservation, to an EXECUTION_PAUSED for the same pause. *)
Theorem threshold_is_granted ticks polls input energy env q w i q' w' :
  Interact ticks polls input (Some energy) env q w = Done i q' w' →
  ∃ x new, in_energy i = Some (with_threshold x energy) ∧ io_trace w' = new ++ io_trace w ∧
    (x = ExecutionThresholdJ energy ∨ ∃ e, e ∈ new ∧ grant energy x e).
Proof. apply threshold_granted_spec. Qed.

(** ** A step resumed under a higher threshold *)

Definition granting_proc : Proc := {| pr_exec := sample_executor; pr_chan := mon_chan sample_mon |}.

Definition raise_answer : http_result :=
  HttpResp 200 (BodyJson (JObj [("command", JStr "RESUME_EXECUTION"); ("pause_id", JStr "pause-00ff");
                                ("new_execution_threshold_j", JNum (f64_of_Z 9))]))%string.

(** A site whose cgroup is seen frozen until instant [k], and whose action answers
    after a few ticks. *)
Definition obeying (k : nat) : Env :=
  let env := sample_env_flags [] [(energy_file, "1000")]%string (λ _, None) (λ _, raise_answer)
               (λ i, bool_decide (k + 6 < i)%nat) (Some (BodyJson (JObj []))) in
  with_world (λ i path,
    if (path =? "/c/cgroup.events")%string
    then inl ("populated 1" +:+ nl +:+ (if bool_decide (i < k)%nat then "frozen 1" else "frozen 0"))%string
    else env_read env i path) true NOther None env.

Lemma threshold_is_granted_witness :
  ∃ q' w' e new, io_trace w' = new ++ [] ∧ e ∈ new ∧ grant (spent "COMPENSATABLE") (f64_of_Z 9) e ∧
    ∃ i, Interact 9 9 (BodyJson JNull) (Some (spent "COMPENSATABLE")) (obeying 16) granting_proc io_start =
      Done i q' w'.
Proof.
  assert (Hr : ∃ i q' w', Interact 9 9 (BodyJson JNull) (Some (spent "COMPENSATABLE")) (obeying 16)
    granting_proc io_start = Done i q' w' ∧ ExecutionThresholdJ <$> in_energy i = Some (f64_of_Z 9))
    by (eexists _, _, _; split; vm_compute; reflexivity).
  destruct Hr as (i & q' & w' & Hr & Hi).
  destruct (threshold_is_granted 9 9 (BodyJson JNull) (spent "COMPENSATABLE") (obeying 16) granting_proc io_start
    i q' w' Hr) as (x & new & Hx & Ht & Hg).
  rewrite Hx in Hi. injection Hi as Hi. simpl in Hi. subst x.
  destruct Hg as [Hg|(e & Hin & Hg)]; [vm_compute in Hg; discriminate Hg|].
  exists q', w', e, new. split; [exact Ht|]. split; [exact Hin|]. split; [exact Hg|]. exists i. exact Hr.
Defined.
