(* ===== verification/Licence.v ===== *)
(** * What a request may do to the world

    The handler, the action's process, its monitor and the two channels together:
    every file a [/run] request writes, every post it sends and every answer of a
    kill, and what it needed to be entitled to it.  The protocol of the monitor
    ([Monitor]) is lifted through [Interact] and [runHandler]. *)

From S2P Require Import Prelude Float64 GoStrings Json Effects Rapl Instrumentation Segments.
From S2P Require Import Freezer EnergyState Channel Monitor Payload Recording Executor RunHandler Progress.

Local Open Scope Z_scope.

(** ** Entitlement *)

(** The step of the request may be killed: it is monitored and not UNKILLABLE. *)
Definition mortal (energy : option EnergyState) : bool :=
  monitored energy && negb (isNonInterruptibleForThisStep energy).

(** The answer to a request whose step was killed. *)
Definition killed_answer : json := JObj [("error", JStr "energy budget exceeded: action killed")]%string.

(** What an event of a request takes, [before] being the trace it comes after: the
    cgroup's files are written for a monitored step only, as the protocol of the
    monitor allows; the scheduler is told of a pause of a monitored step or of the
    death of a mortal one, anybody else is sent measurements; the caller is told of
    a kill when the step is mortal. *)
Definition licensed (energy : option EnergyState) (path : string) (e : event) (before : list event) : Prop :=
  match e with
  | EvWrite f v =>
      monitored energy = true ∧ entitled (negb (mortal energy)) path f v before
  | EvPost _ body _ =>
      (monitored energy = true ∧ ∃ event, body = paused_json event) ∨
      (mortal energy = true ∧ ∃ event, body = killed_json event) ∨
      ∃ endpoint entry, body = collectorPayload endpoint entry
  | EvRespond code j => code = 400 → j = killed_answer → mortal energy = true
  | _ => True
  end.

(** ** Growth of the trace under a licence *)

Section growth.
Context (G : event → list event → Prop).

Definition grows (w w' : io) : Prop :=
  ∃ new, io_trace w' = new ++ io_trace w ∧ ∀ l1 e l2, new = l1 ++ e :: l2 → G e (l2 ++ io_trace w).

Lemma grows_refl w : grows w w.
Proof. exists []. split; [done|]. by intros [|x l] e l2. Qed.

Lemma growth_trans w1 w2 w3 : grows w1 w2 → grows w2 w3 → grows w1 w3.
Proof.
  intros (n1 & H1 & G1) (n2 & H2 & G2). exists (n2 ++ n1). rewrite H2, H1, app_assoc. split; [done|].
  intros l1 e l2 [(k & -> & Hk)|(k & -> & ->)]%app_eq_inv; [|by apply (G1 k e l2)].
  destruct k as [|x k]; simplify_eq/=; [by apply (G1 [] e l2)|]. rewrite <-app_assoc, <-H1. by eapply G2.
Qed.

Lemma grows_free w w' new :
  io_trace w' = new ++ io_trace w → Forall (λ e, ∀ tr, G e tr) new → grows w w'.
Proof.
  intros Ht Hf. exists new. split; [done|]. intros l1 e l2 ->.
  apply (proj1 (Forall_forall _ _) Hf). set_solver.
Qed.

Lemma grows_emits {S A} φ (m : M S A) env s w :
  emits φ m → (∀ e, φ e → ∀ tr, G e tr) → grows w (out_io (m env s w)).
Proof.
  intros Hm Hφ. destruct (Hm env s w I) as [(new & Ht & Hf) _]. eapply grows_free; [done|].
  by eapply Forall_impl.
Qed.

(** [acts_under Q m]: from here on [m] grows the trace under the licence; [Q] holds
    of what it returns. *)
Definition acts_under {S A} (Q : A → S → io → Prop) (o : outcome S A) (w : io) : Prop :=
  grows w (out_io o) ∧ match o with Done a s' w' => Q a s' w' | _ => True end.

Lemma under_bind {S A B} (Q : B → S → io → Prop) (m : M S A) (k : A → M S B) env s w :
  acts_under (λ a s' w', acts_under Q (k a env s' w') w') (m env s w) w → acts_under Q ((m ≫= k) env s w) w.
Proof.
  unfold acts_under, mbind, M_bind. destruct (m env s w) as [a s' w'|s' w'|msg s' w']; simpl; [|done..].
  intros (H1 & H2 & H3). split; [by eapply growth_trans|done].
Qed.

Lemma under_weaken {S A} (Q Q' : A → S → io → Prop) (o : outcome S A) w :
  acts_under Q o w → (∀ a s' w', Q a s' w' → Q' a s' w') → acts_under Q' o w.
Proof. intros [H1 H2] HQ. split; [done|]. destruct o; auto. Qed.

Lemma under_emits {S A} φ (Q : A → S → io → Prop) (m : M S A) env s w :
  emits φ m → (∀ e, φ e → ∀ tr, G e tr) → (∀ a s' w', Q a s' w') → acts_under Q (m env s w) w.
Proof. intros Hm Hφ HQ. split; [by eapply grows_emits|]. by destruct (m env s w). Qed.

Lemma under_reads {S A} φ (Q : A → S → io → Prop) (m : M S A) env s w :
  reads m → emits φ m → (∀ e, φ e → ∀ tr, G e tr) → (∀ a w', Q a s w') → acts_under Q (m env s w) w.
Proof.
  intros Hr Hm Hφ HQ. destruct (Hr env s w) as (a & w' & Hd). split; [by eapply grows_emits|].
  by rewrite Hd.
Qed.
End growth.

(** ** The monitor *)

Section monitor.
Context (env : Env) (energy : EnergyState) (path : string) (Hm : monitored (Some energy) = true).

Let u := isNonInterruptibleForThisStep (Some energy).
Let G := licensed (Some energy) path.

Lemma mortal_class : negb (mortal (Some energy)) = u.
Proof. unfold mortal, u. rewrite Hm. by destruct (isNonInterruptibleForThisStep _). Qed.

Lemma quiet_free e : quiet e → ∀ tr, G e tr.
Proof. by destruct e. Qed.

(** An extension by at most one write, which was entitled, and posts of pauses. *)
Lemma step_grows first s w s' w' :
  mon_step env u first (s, w) (s', w') → ac_path (mon_ctl s) = path →
  grows G w w' ∧ ac_path (mon_ctl s') = path.
Proof.
  intros Hs%mon_step_traced Hp. destruct (traced_writes _ _ _ _ _ _ Hs) as (Hp' & new & Ht & Hw).
  split; [|congruence]. rewrite Hp in Hw.
  assert (Hposts : ∀ url body r, EvPost url body r ∈ new → ∃ event, body = paused_json event).
  { assert (Hq : ∀ n, Forall quiet n → ∀ url body r, EvPost url body r ∉ n).
    { intros n Hn url body r Hin. by apply (proj1 (Forall_forall _ _) Hn) in Hin. }
    assert (Hwr : ∀ o p n, Forall quiet n → ∀ url body r, EvPost url body r ∉ n ++ [op_write o p]).
    { intros o p n Hn url body r [Hin|Hin%list_elem_of_singleton]%elem_of_app; [by eapply Hq|by destruct o]. }
    intros url body r Hin.
    destruct Hs as [_ (n & H & Hn)|url' event r' n _ H Hn _|o p r' Hc _ _|p Hc _].
    - rewrite H in Ht. apply app_inv_tail in Ht as <-. by apply Hq in Hin.
    - rewrite H, app_comm_cons in Ht. apply app_inv_tail in Ht as <-.
      apply elem_of_cons in Hin as [[= _ -> _]|Hin]; [by eexists|].
      exfalso. apply (Hq n) in Hin; [done|]. eapply Forall_impl; [exact Hn|apply dialing_quiet].
    - apply call_spec in Hc as (_ & _ & [[_ ->]|(_ & n & H & Hn)]).
      + change (io_trace w) with ([] ++ io_trace w) in Ht at 1. apply app_inv_tail in Ht as <-. by apply elem_of_nil in Hin.
      + rewrite H, cons_middle, app_assoc in Ht. apply app_inv_tail in Ht as <-. by apply Hwr in Hin.
    - apply blocked_kill_spec in Hc as (_ & _ & n & H & Hn).
      rewrite H, cons_middle, app_assoc in Ht. apply app_inv_tail in Ht as <-. by apply Hwr in Hin. }
  assert (Hin : ∀ e, e ∈ new → inner e).
  { intros e. destruct (traced_inwardly _ _ _ _ _ _ Hs) as (n & H & Hn). rewrite H in Ht.
    apply app_inv_tail in Ht as <-. by apply Forall_forall. }
  exists new. split; [done|]. intros l1 e l2 Heq.
  specialize (Hin e ltac:(rewrite Heq; set_solver)). destruct e; try done.
  - split; [done|]. rewrite mortal_class. destruct (Hw _ _ _ _ Heq) as (-> & H). exact H.
  - left. split; [done|]. eapply Hposts. rewrite Heq. apply elem_of_app. right. by left.
Qed.

Lemma monitor_grows ticks polls s w :
  fresh s → ac_path (mon_ctl s) = path → grows G w (out_io (monitorEnergy ticks polls energy env s w)).
Proof.
  intros [Hmk Hr] Hp. destruct (monitor_path env _ _ ticks polls energy s w eq_refl eq_refl Hmk Hr) as [Hrt _].
  apply (mon_rtc_ind _ _ _ (λ s' w', grows G w w' ∧ ac_path (mon_ctl s') = path) _ _) in Hrt; [apply Hrt| |].
  - intros s1 w1 s2 w2 Hs [Hg Hp1]. destruct (step_grows _ _ _ _ _ Hs Hp1) as [Hg2 Hp2].
    split; [by eapply growth_trans|done].
  - split; [apply grows_refl|done].
Qed.
End monitor.

(** ** One invocation *)

Lemma quiet_licensed energy path e : quiet e → ∀ tr, licensed energy path e tr.
Proof. by destruct e. Qed.

Lemma quietly_grows energy path w w' : quietly w w' → grows (licensed energy path) w w'.
Proof.
  intros (new & Ht & Hf). eapply grows_free; [done|]. eapply Forall_impl; [exact Hf|apply quiet_licensed].
Qed.

(** An invocation of an executor: its cgroup is the licensed one, and a kill is
    reported of a mortal step only. *)
Lemma interact_licensed ticks polls input energy env q w :
  acts_under (licensed energy (ac_path (ex_ctl (pr_exec q))))
    (λ i _ _, is_Some (in_killInfo i) → mortal energy = true)
    (Interact ticks polls input energy env q w) w.
Proof.
  set (path := ac_path (ex_ctl (pr_exec q))). rewrite interact_unfold. cbv zeta.
  set (w1 := advance env 0 [EvStdin input] w).
  assert (H1 : grows (licensed energy path) w w1).
  { eapply (grows_free _ _ _ [_]); [done|]. by repeat constructor. }
  assert (H3 : ∀ w3, grows (licensed energy path) w3
    (advance env 0 [EvGuard "stderr"] (advance env 0 [EvGuard "stdout"] (advance env 0 [] w3)))).
  { intros w3. eapply (grows_free _ _ _ [_; _]); [done|]. by repeat constructor. }
  destruct (monitored_part_spec ticks polls energy env (restart q) w1)
    as (w2 & Hq%(quietly_grows energy path) & [[Hn ->]|(e & -> & Hm & ->)]).
  { split; [|by intros [? [=]]]. simpl. eapply growth_trans; [exact H1|]. by eapply growth_trans. }
  assert (Hf : fresh (mon_init (restart q))) by done.
  pose proof (monitor_grows env e path Hm ticks polls (mon_init (restart q)) w2 Hf eq_refl) as Hg.
  destruct (monitor_path env _ _ ticks polls e (mon_init (restart q)) w2 eq_refl eq_refl eq_refl eq_refl) as [_ Hs].
  assert (Hmortal : isNonInterruptibleForThisStep (Some e) = false → mortal (Some e) = true)
    by (unfold mortal; rewrite Hm; by intros ->).
  destruct (monitorEnergy ticks polls e env (mon_init (restart q)) w2) as [r m w3|m w3|msg m w3]; simpl in *;
    (split; [do 2 (eapply growth_trans; [eassumption|]); try exact Hg; by eapply growth_trans|done || idtac]).
  destruct Hs as [Hs _]. simpl. unfold kill_info. destruct (res_killed (mon_res m)) eqn:Hk; [|by intros [? [=]]].
  intros _. apply Hmortal, (Hs Hk).
Qed.

(** ** The handler *)

(** Measurements are free to go, and so are answers that do not tell of a kill. *)
Definition free (e : event) : Prop :=
  match e with
  | EvWrite _ _ => False
  | EvRespond code j => code = 400 → j = killed_answer → False
  | EvPost _ body _ => ∃ endpoint entry, body = collectorPayload endpoint entry
  | _ => True
  end.

Lemma free_licensed energy path e : free e → ∀ tr, licensed energy path e tr.
Proof. destruct e; simpl; auto; naive_solver. Qed.

Lemma emits_free {S A} (m : M S A) : emits quiet m → emits free m.
Proof. intros Hm. eapply emits_weaken; [exact Hm|]. by intros []. Qed.

Lemma delivering_free url endpoint entry e : delivering url (collectorPayload endpoint entry) e → free e.
Proof. destruct e; simpl; try done. intros [_ ->]. eauto. Qed.

Lemma push_free sync endpoint e : emits free (push_or_spawn sync endpoint e).
Proof.
  intros env p w _. split; [|by destruct (push_or_spawn _ _ _ _ _ _)]. unfold push_or_spawn.
  destruct sync; [|by exists []]. destruct (pushMetrics_spec endpoint e env p w) as (w' & -> & Hp). simpl.
  unfold pushed in Hp. case_match; [|subst; by exists []]. destruct Hp as (ok & new & Ht & Hf & _).
  rewrite app_assoc in Ht. eexists. split; [exact Ht|]. apply Forall_app.
  split; [destruct ok; by repeat constructor|]. eapply Forall_impl; [exact Hf|apply delivering_free].
Qed.

Lemma record_free endpoint start energyStart cpuStart meta sync fallbackJ :
  emits free (recordMetricsImpl endpoint start energyStart cpuStart meta sync fallbackJ).
Proof.
  pose proof push_free. assert (Hm : ∀ S, emits free (readEnergy : M S _)) by (intros; apply emits_free, readEnergy_quiet).
  assert (Hf : emits free (measure endpoint start energyStart cpuStart meta fallbackJ)).
  { unfold measure, final_snapshot, readCPUSnapshotFromCgroup, readCgroupV2CPUUsec, read_file,
      logEnergyAttributionFallbackUsed, safety, now_wall. solve_emits ltac:(done). }
  unfold recordMetricsImpl. solve_emits ltac:(done).
Qed.

Lemma sendError_free {S} code cause :
  cause ≠ "energy budget exceeded: action killed"%string → emits free (sendError code cause : M S ()).
Proof. intros Hc. apply emits_effect. repeat constructor. intros _ [= H]. done. Qed.

Lemma finish_free st answer energy meta : emits free (finish_run st answer energy meta).
Proof.
  pose proof record_free. assert (Hm : ∀ S, emits free (readEnergy : M S _)) by (intros; apply emits_free, readEnergy_quiet).
  assert (Hc : ∀ S pid, emits free (readCPUSnapshot pid : M S _)) by (intros; apply emits_free, readCPUSnapshot_quiet).
  assert (He : emits free (sendError 502 "The action did not return a dictionary or array." : M ActionProxy ()))
    by by apply sendError_free.
  assert (Hw : ∀ j, emits free (write_response j)).
  { intros j. unfold write_response, syscall. solve_emits ltac:(done). by apply sendError_free. }
  unfold finish_run, recordMetricsSync, reinject, step_energy. solve_emits ltac:(done).
Qed.

Lemma killed_post_licensed energy path event env c w :
  mortal energy = true → grows (licensed energy path) w (out_io (postExecutionKilled event env c w)).
Proof.
  intros Hm. destruct (json_encodable (killed_json event)) eqn:He.
  - destruct (postExecutionKilled_spec event env c w He) as (ok & c' & w' & new & -> & Ht & Hf & _). simpl.
    rewrite app_assoc in Ht. eapply grows_free; [exact Ht|]. apply Forall_app.
    split; [destruct ok; by repeat constructor|]. eapply Forall_impl; [exact Hf|].
    intros []; simpl; try done. intros [_ ->] _. right. left. eauto.
  - unfold postExecutionKilled. rewrite He. apply grows_refl.
Qed.

Lemma report_kill_licensed energy path st k e req meta env p w :
  mortal energy = true → grows (licensed energy path) w (out_io (report_kill st k e req meta env p w)).
Proof.
  intros Hm. assert (H : acts_under (licensed energy path) (λ _ _ _, True) (report_kill st k e req meta env p w) w); [|apply H].
  unfold report_kill, recordMetricsSyncWithFallback.
  apply under_bind, (under_emits _ free); [apply record_free|apply free_licensed|]. intros _ p1 w1.
  apply under_bind, (under_emits _ free); [apply emits_modify|apply free_licensed|]. intros _ p2 w2.
  apply under_bind. split.
  - pose proof (killed_post_licensed energy path (killed_event k e req meta) env (ap_chan p2) w2 Hm) as H.
    unfold zoom. simpl. by destruct (postExecutionKilled _ _ _ _).
  - unfold zoom. case_match; [|done..]. eapply (under_emits _ (λ e, ∃ code j, e = EvRespond code j)); [|by intros _ (? & ? & ->) tr _ _|done].
    apply emits_effect. repeat constructor. by eexists _, _.
Qed.

Lemma invoke_licensed ticks polls st body env p w x :
  ap_theExecutor p = Some x →
  grows (licensed (energy_of body) (ac_path (ex_ctl x))) w (out_io (invoke ticks polls st body env p w)).
Proof.
  intros Hx. set (energy := energy_of body). set (path := ac_path _).
  assert (H : acts_under (licensed energy path) (λ _ _ _, True) (invoke ticks polls st body env p w) w); [|apply H].
  unfold invoke. apply under_bind.
  destruct (prepare_ends body env p w) as (prep & w1 & Hp & He). fold energy in He.
  split; [eapply (grows_emits _ quiet); [apply prepare_quiet|apply quiet_licensed]|]. rewrite Hp, He.
  apply under_bind. pose proof (interact_licensed ticks polls (pp_body prep) energy env
    {| pr_exec := x; pr_chan := ap_chan p |} w1) as [Hg Hk]. unfold with_executor. rewrite Hx.
  destruct (Interact _ _ _ _ env _ w1) as [i q w2|q w2|msg q w2]; simpl in Hg; [|by split..].
  split; [exact Hg|]. destruct (in_killInfo i) as [k|].
  - specialize (Hk (mk_is_Some _ _ eq_refl)). destruct (in_energy i); [|split; [apply grows_refl|done]].
    split; [by apply report_kill_licensed|]. by case_match.
  - destruct (in_answer i).
    + eapply (under_emits _ free); [destruct (in_energy i); apply finish_free|apply free_licensed|done].
    + eapply (under_emits _ free); [|apply free_licensed|done].
      destruct (in_energy i); (apply emits_bind; [apply emits_modify|]); intros _; by apply sendError_free.
Qed.

(** The energy state of a request, and the cgroup of the action it reaches. *)
Definition carried (request : http_body + goerr) : option EnergyState :=
  match request with inl body => energy_of body | inr _ => None end.

Definition action_path (p : ActionProxy) : string :=
  match ap_theExecutor p with Some x => ac_path (ex_ctl x) | None => ""%string end.

Lemma exited_same_path env p w x :
  ap_theExecutor p = Some x →
  ∃ b x' p' w', with_executor (zoom pr_exec_lens Exited) env p w = Done b p' w' ∧
    ap_theExecutor p' = Some x' ∧ ac_path (ex_ctl x') = ac_path (ex_ctl x) ∧ quietly w w'.
Proof.
  intros Hx. unfold with_executor, zoom, Exited, flag. rewrite Hx. simpl. run.
  destruct (ac_reaped _); [|run; destruct (env_flag env _)]; run; eexists _, _, _, _;
    (split; [reflexivity|]); (split; [reflexivity|]); (split; [done|]); by exists [].
Qed.

(** ** Theorems *)

Lemma request_is_licensed_spec ticks polls request env p w :
  ∃ new, io_trace (out_io (runHandler ticks polls request env p w)) = new ++ io_trace w ∧
    ∀ l1 e l2, new = l1 ++ e :: l2 → licensed (carried request) (action_path p) e (l2 ++ io_trace w).
Proof.
  set (G := licensed (carried request) (action_path p)).
  assert (H : acts_under G (λ _ _ _, True) (runHandler ticks polls request env p w) w); [|apply H].
  assert (Hq : ∀ e, quiet e → ∀ tr, G e tr) by apply quiet_licensed.
  assert (Hr : ∀ code cause p' w', code ≠ 400 ∨ cause ≠ "energy budget exceeded: action killed"%string →
    acts_under G (λ _ _ _, True) ((sendError code cause : M ActionProxy ()) env p' w') w').
  { intros code cause p' w' Hc. split; [|done]. eapply (grows_free _ _ _ [_]); [done|]. repeat constructor.
    intros tr Hcode [= Hcause]. by destruct Hc. }
  pose proof (λ S, @readEnergy_reads S). pose proof (λ S pid, @readCPUSnapshot_reads S pid).
  pose proof (λ S, @readEnergy_quiet S). pose proof (λ S pid, @readCPUSnapshot_quiet S pid).
  unfold runHandler.
  apply under_bind, (under_reads _ quiet); [unfold now_wall; solve_reads|apply now_wall_quiet|done|]. intros start w1.
  apply under_bind, (under_reads _ quiet); [done|done|done|]. intros reading w2.
  rewrite run_gets. unfold action_path in *.
  apply under_bind, (under_reads _ quiet); [destruct (ap_theExecutor p); solve_reads
    |destruct (ap_theExecutor p); solve_emits ltac:(done)|done|]. intros _ w3.
  destruct request as [body|e]; [|apply Hr; by right].
  destruct (ap_theExecutor p) as [x|] eqn:Hx; [|apply Hr; by left].
  apply under_bind, (under_reads _ quiet); [done|done|done|]. intros cpu w4.
  destruct (exited_same_path env p w4 x Hx) as (b & x' & p' & w5 & He & Hx' & Hp & Hw).
  apply under_bind. split; [rewrite He; by apply quietly_grows|]. rewrite He.
  destruct b; [apply Hr; by left|].
  split; [unfold G; rewrite <-Hp; by apply invoke_licensed|by case_match].
Qed.

(** C1: every effect of a [/run] request outside the action is one it was entitled
    to, on every path, finished or not, whatever the request, the state the action
    was left in, the kernel and the scheduler: the files it writes are the
    [cgroup.freeze] and [cgroup.kill] of its own action and only for a monitored
    step; a thaw comes after a RESUME_EXECUTION for the pause last posted; the
    cgroup is killed, EXECUTION_KILLED posted and the caller told of a kill only
    if the step is monitored and not UNKILLABLE; every other post is the pause of
    a monitored step or a measurement. *)
Theorem request_is_licensed ticks polls request env p w :
  ∃ new, io_trace (out_io (runHandler ticks polls request env p w)) = new ++ io_trace w ∧
    ∀ l1 e l2, new = l1 ++ e :: l2 → licensed (carried request) (action_path p) e (l2 ++ io_trace w).
Proof. apply request_is_licensed_spec. Qed.

(** A kill of the action, its announcement and its answer. *)
Definition of_kill (path : string) (e : event) : Prop :=
  match e with
  | EvWrite f _ => f ≠ freeze_file path
  | EvPost _ body _ => ∃ event, body = killed_json event
  | EvRespond code j => code = 400 ∧ j = killed_answer
  | _ => False
  end.

(** A request whose step is UNKILLABLE, not monitored or absent never kills: it writes
    no file but [cgroup.freeze], announces no kill and answers none. *)
Corollary immortal_request_never_kills ticks polls request env p w :
  mortal (carried request) = false →
  ∃ new, io_trace (out_io (runHandler ticks polls request env p w)) = new ++ io_trace w ∧
    Forall (λ e, ¬ of_kill (action_path p) e) new.
Proof.
  intros Hm. destruct (request_is_licensed_spec ticks polls request env p w) as (new & Ht & Hl).
  exists new. split; [done|]. apply Forall_forall. intros e (l1 & l2 & Heq)%list_elem_of_split Hk.
  specialize (Hl _ _ _ Heq). destruct e; simpl in Hl, Hk; try done; rewrite Hm in Hl.
  - destruct Hl as [_ [[? _]|[[? _]|[? _]]]]; done.
  - destruct Hk as [event ->]. destruct Hl as [[_ [event' [=]]]|[[? _]|(endpoint & entry & [=])]]; done.
  - destruct Hk as [Hc Hj]. by specialize (Hl Hc Hj).
Qed.

(** ** Samples *)

(** A request for [pay], at its threshold from the start, of a class. *)
Definition pay_request (class : string) : json :=
  JObj [("activation_id", JStr "a1"); ("action_name", JStr "/guest/order/pay");
        ("value", JObj [("amount", JNum (f64_of_Z 7)); ("energy_trace_id", JStr "t1");
                        ("energy_execution_threshold_j", JNum (f64_of_Z 2));
                        ("energy_consumed_before_j", JNum (f64_of_Z 3)); ("energy_pause_enabled", JBool true);
                        ("energy_interruption_class", JObj [("pay", JStr class)])])]%string.

(** What is done to the cgroup and said, newest first. *)
Definition deeds (tr : list event) : list (string * json) :=
  omap (λ e, match e with
             | EvWrite f v => Some (f, JStr v)
             | EvPost _ (JObj ((_, JStr name) :: _)) _ => Some (name, JNull)
             | EvRespond _ j => Some ("response"%string, j)
             | _ => None
             end) tr.

Definition served_deeds (class : string) : list (string * json) :=
  deeds (io_trace (out_io (runHandler 2 2 (inl (BodyJson (pay_request class))) (sample_site kill_answer)
    sample_proxy io_start))).

Example mortal_request_is_killed :
  served_deeds "COMPENSATABLE" =
  [("response", killed_answer); ("EXECUTION_KILLED", JNull); ("/c/cgroup.kill", JStr "1");
   ("EXECUTION_PAUSED", JNull); ("/c/cgroup.freeze", JStr "1")]%string.
Proof. vm_compute. reflexivity. Qed.

(** The scheduler asks for the death of an UNKILLABLE step at each poll, in vain. *)
Example immortal_request_waits :
  served_deeds "UNKILLABLE" =
  [("EXECUTION_PAUSED", JNull); ("EXECUTION_PAUSED", JNull); ("/c/cgroup.freeze", JStr "1")]%string.
Proof. vm_compute. reflexivity. Qed.

(** ** Witness *)

Lemma immortal_request_never_kills_witness :
  ∃ new, io_trace (out_io (runHandler 2 2 (inl (BodyJson (pay_request "UNKILLABLE"))) (sample_site kill_answer)
      sample_proxy io_start)) = new ++ [] ∧
    Forall (λ e, ¬ of_kill "/c" e) new.
Proof.
  apply (immortal_request_never_kills 2 2 (inl (BodyJson (pay_request "UNKILLABLE"))) (sample_site kill_answer)
    sample_proxy io_start). vm_compute. reflexivity.
Defined.
