(* ===== verification/Sequence.v ===== *)
(** * A sequence of steps

    The energy state from one [/run] request of a sequence to the next, through the
    whole handler: what the state of the next request is, whatever happened to the
    step, and what a sequence of any length has accounted for at its end. *)

From S2P Require Import Prelude Float64 GoStrings Json Effects Rapl Instrumentation Segments.
From S2P Require Import Freezer EnergyState Channel Monitor Payload Recording Executor RunHandler Progress Threshold Licence.

Local Open Scope Z_scope.
Local Open Scope go_scope.

(** ** From an answer to the next request *)

(** Counts that survive the wire. *)
Definition counted (e : EnergyState) : Prop :=
  0 ≤ MaxPauseDurationMs e < 2 ^ 49 ∧ 0 ≤ MaxPauseCount e < 2 ^ 49.

#[global] Instance counted_dec e : Decision (counted e).
Proof. unfold counted. apply _. Defined.

(** The state a step hands on: its threshold [x], its energy [m], the next action's name. *)
Definition handed (x m : f64) (name : string) (e : EnergyState) : EnergyState :=
  with_action_name (shortActionName name) (with_consumed (ConsumedBeforeJ e ⊕ m) (with_threshold x e)).

(** The members by which a result would be taken for a state. *)
Definition plain (m : gomap) : Prop := m !! firstStepAnchorKey = None ∧ m !! energyStateKey = None.

Lemma plain_unmanaged m : plain m → extracted m = None.
Proof. unfold extracted. by intros [-> ->]. Qed.

Lemma next_energy id name j :
  energy_of (BodyJson (next_request id name j)) =
  match j with
  | JObj l => with_action_name (shortActionName name) <$> extracted (members_map l)
  | _ => None
  end.
Proof. by destruct j. Qed.

Lemma encode_unstorable s j :
  encode_state s = Some j → f64_is_finite (ExecutionThresholdJ s) = true ∧ f64_is_finite (ConsumedBeforeJ s) = true.
Proof.
  unfold encode_state. cbn [json_encodable encode_members forallb snd].
  by destruct (f64_is_finite (ExecutionThresholdJ s)), (f64_is_finite (ConsumedBeforeJ s)).
Qed.

(** The answer of a managed step given to the next one: its state, unless an energy is
    not finite, which JSON cannot say; then the state is lost. *)
Lemma reinject_next st l x e meta env p w j meta' p' w' id name :
  reinject st (members_map l) (with_threshold x e) (JObj l) meta env p w = Done (j, meta') p' w' →
  counted e → plain (members_map l) →
  ∃ m w1, step_energy st env p w = Done m p w1 ∧
    energy_of (BodyJson (next_request id name j)) =
      if f64_is_finite x && f64_is_finite (ConsumedBeforeJ e ⊕ m) then Some (handed x m name e) else None.
Proof.
  intros Hr [Hc1 Hc2] Hp. unfold reinject in Hr.
  assert (Hs : ∃ m w1, step_energy st env p w = Done m p w1).
  { pose proof (λ S, @readEnergy_reads S). pose proof (λ S pid, @readCPUSnapshot_reads S pid).
    assert (Hs : reads (step_energy st)) by (unfold step_energy; solve_reads). apply Hs. }
  destruct Hs as (m & w1 & Hm). exists m, w1. split; [done|].
  rewrite next_energy, (run_done _ _ _ _ _ _ _ _ Hm) in *. revert Hr. run. unfold ReinjectEnergyState.
  set (updated := with_consumed _ _).
  destruct (f64_is_finite x && f64_is_finite (ConsumedBeforeJ e ⊕ m)) eqn:Hf.
  - apply andb_true_iff in Hf as [Hx Hm']. assert (Hst : storable updated) by done.
    rewrite encode_state_storable by done. intros [= <- _ _ _]. unfold json_of_map.
    rewrite members_sorted_members. destruct Hp as [Ha _]. unfold extracted.
    rewrite lookup_insert_ne, Ha, lookup_insert_eq by done. by rewrite decode_encode.
  - destruct (encode_state updated) as [raw|] eqn:He.
    { apply encode_unstorable in He as [H1 H2]. unfold updated in H1, H2. simpl in H1, H2. by rewrite H1, H2 in Hf. }
    intros [= <- _ _ _]. by rewrite plain_unmanaged.
Qed.

(** ** The answer of a request *)

(** What a finished invocation answers with 200, when it began to be finished in [w]. *)
Definition produced (st : Instant) (answer : http_body) (energy : option EnergyState) (env : Env)
    (p : ActionProxy) (w : io) (j : json) : Prop :=
  ∃ meta, match answer with
  | BodyJson (JObj l) =>
      match energy with
      | Some e => ∃ meta' p' w', reinject st (members_map l) e (JObj l) meta env p w = Done (j, meta') p' w'
      | None => j = JObj l
      end
  | BodyJson j' => j = j' ∧ answer_map answer = Some None
  | BodyInvalid _ => False
  end.

(** Nothing but the answer is a 200. *)
Definition unsaid (e : event) : Prop := match e with EvRespond code _ => code ≠ 200 | _ => True end.

Section answer.
Context (G : event → list event → Prop) (Hfree : ∀ e, unsaid e → ∀ tr, G e tr).

Lemma inner_unsaid e : inner e → unsaid e.
Proof. by destruct e. Qed.

Lemma inner_free e : inner e → ∀ tr, G e tr.
Proof. intros He. by apply Hfree, inner_unsaid. Qed.

Lemma refusal_under {S} code cause env (s : S) w :
  code ≠ 200 → acts_under G (λ _ _ _, True) (sendError code cause env s w) w.
Proof. intros Hc. split; [|done]. eapply (grows_free _ _ _ [_]); [done|]. repeat constructor. by apply Hfree. Qed.

Lemma write_under j env p w :
  (∀ n, G (EvRespond 200 j) (n ++ io_trace w)) → acts_under G (λ _ _ _, True) (write_response j env p w) w.
Proof.
  intros Hj. split; [|by case_match]. destruct (write_response_spec j env p w) as (w' & post & -> & Ht & Hp). simpl.
  exists (post ++ [EvRespond 200 j]). rewrite <-app_assoc. split; [done|]. intros l1 e l2 Heq.
  assert (Hin : e ∈ post ∨ e = EvRespond 200 j) by
    (assert (Hin : e ∈ post ++ [EvRespond 200 j]) by (rewrite Heq; set_solver); set_solver).
  destruct Hin as [Hin| ->]; [|done]. apply Hfree. destruct Hp as (s & [-> | ->]); set_unfold; naive_solver.
Qed.

(** How an invocation ends: its 200, if any, is what it produced. *)
Lemma finish_under st answer energy meta env p w :
  (∀ j n, produced st answer energy env p w j → G (EvRespond 200 j) (n ++ io_trace w)) →
  acts_under G (λ _ _ _, True) (finish_run st answer energy meta env p w) w.
Proof.
  intros Hj. unfold finish_run, recordMetricsSync.
  assert (Hend : ∀ m, emits inner m →
    (∀ r p1 w1, m env p w = Done r p1 w1 → produced st answer energy env p w r.1) →
    acts_under G (λ _ _ _, True) ((r ← m; recordMetricsImpl "/run" (st_start st) (st_energy st) (st_cpu st) (Some r.2)
      true f64_zero;; write_response r.1) env p w) w).
  { intros m Hm Hp. apply under_bind. destruct (Hm env p w I) as [(n1 & H1 & _) _].
    split; [eapply grows_emits; [exact Hm|apply inner_free]|].
    destruct (m env p w) as [r p1 w1| |]; [|done..]. apply under_bind.
    pose proof (record_inner "/run" (st_start st) (st_energy st) (st_cpu st) (Some r.2) true f64_zero) as Hr.
    destruct (Hr env p1 w1 I) as [(n2 & H2 & _) _]. split; [eapply grows_emits; [exact Hr|apply inner_free]|].
    destruct (recordMetricsImpl _ _ _ _ _ _ _ env p1 w1) as [[] p2 w2| |]; [|done..]. apply write_under.
    intros n. simpl in H1, H2. rewrite H2, H1, !app_assoc. by eapply Hj, Hp. }
  destruct answer as [j|err]; [|by apply refusal_under].
  destruct j as [| | | | |l|l]; cbn [answer_map]; try by apply refusal_under.
  - apply Hend; [destruct energy; apply emits_ret|]. intros r p1 w1 Hr. exists meta. destruct energy; by injection Hr as <- _ _.
  - apply Hend; [destruct energy; apply emits_ret|]. intros r p1 w1 Hr. exists meta. destruct energy; by injection Hr as <- _ _.
  - destruct energy as [e|]; apply Hend; [apply reinject_inner| |apply emits_ret|].
    + intros [j meta'] p1 w1 Hr. by eexists meta, _, _, _.
    + intros r p1 w1 [= <- _ _]. by exists meta.
Qed.

(** The snapshots of an invocation, taken one after the other between [start] and [w1]. *)
Definition begun (env : Env) (start : list event) (st : Instant) (w1 : io) : Prop :=
  ∃ (p : ActionProxy) n reading pid wa wa' wb wb',
    io_trace wa = n ++ start ∧ extends wa wb ∧ extends wb w1 ∧
    readEnergy env p wa = Done reading p wa' ∧
    st_energy st = match reading with inl e => e | inr _ => 0 end ∧
    readCPUSnapshot pid env p wb = Done (st_cpu st) p wb'.

(** Where a 200 comes from: the action ran to its answer, was not killed, and the
    invocation finished with it. *)
Definition answered (body : http_body) (env : Env) (start : list event) (e : event) (tr : list event) : Prop :=
  ∀ j, e = EvRespond 200 j →
    ∃ ticks polls input q w1 i q' w2 st p2 answer n1 n2,
      io_trace w1 = n1 ++ start ∧ tr = n2 ++ io_trace w2 ∧ begun env start st w1 ∧
      Interact ticks polls input (energy_of body) env q w1 = Done i q' w2 ∧
      in_killInfo i = None ∧ in_answer i = Some answer ∧
      produced st answer (in_energy i) env p2 w2 j.
End answer.

Lemma answered_free body env start e : unsaid e → ∀ tr, answered body env start e tr.
Proof. intros He tr j ->. done. Qed.

Lemma report_unsaid st k e req meta : emits unsaid (report_kill st k e req meta).
Proof.
  assert (Hr : emits unsaid (recordMetricsSyncWithFallback "/run" (st_start st) (st_energy st) (st_cpu st) (Some meta)
    (ki_EnergyConsumedJ k))) by (eapply emits_weaken; [apply record_inner|apply inner_unsaid]).
  assert (Hk : emits unsaid (postExecutionKilled (killed_event k e req meta)))
    by (eapply emits_weaken; [apply post_killed_inner|apply inner_unsaid]).
  unfold report_kill, sendError. solve_emits ltac:(done).
Qed.

Lemma invoke_answered ticks polls st body env p w start x :
  ap_theExecutor p = Some x → (∃ n, io_trace w = n ++ start) → begun env start st w →
  grows (answered body env start) w (out_io (invoke ticks polls st body env p w)).
Proof.
  intros Hx [n0 H0] (pb & nb & rb & pid & wa & wa' & wb & wb' & Hwa & Hab & Hbw & Hbegun).
  set (G := answered body env start). pose proof (answered_free body env start) as Hfree.
  assert (Hi : ∀ e, inner e → ∀ tr, G e tr) by (intros e He; by apply Hfree, inner_unsaid).
  assert (H : acts_under G (λ _ _ _, True) (invoke ticks polls st body env p w) w); [|apply H].
  unfold invoke. apply under_bind. destruct (prepare_ends body env p w) as (prep & w1 & Hp & He).
  pose proof (prepare_quiet body) as Hpq. destruct (Hpq env p w I) as [(n1 & H1 & _) _].
  split; [eapply grows_emits; [exact (emits_quiet_inner _ Hpq)|done]|]. rewrite Hp in *. simpl in H1. rewrite He.
  apply under_bind. unfold with_executor. rewrite Hx.
  pose proof (interact_conversation ticks polls (pp_body prep) (energy_of body) env
    {| pr_exec := x; pr_chan := ap_chan p |} w1) as (n2 & Hn2 & Hc).
  destruct (Interact _ _ _ _ env _ w1) as [i q w2|q w2|msg q w2] eqn:Hint; simpl in Hc.
  all: assert (Hline : Forall (λ e, ∀ tr, G e tr) (n2 ++ [EvStdin (pp_body prep)])) by
    (apply Forall_app; split; [eapply Forall_impl; [exact Hn2|exact Hi]|repeat constructor; by apply Hfree]).
  2, 3: split; [apply (grows_free _ _ _ (n2 ++ [EvStdin (pp_body prep)])); [by rewrite <-app_assoc|done]|done].
  destruct Hc as [Hc _]. split.
  { apply (grows_free _ _ _ ([EvGuard "stderr"; EvGuard "stdout"] ++ n2 ++ [EvStdin (pp_body prep)])).
    - simpl. by rewrite Hc, <-app_assoc.
    - apply Forall_app. split; [repeat constructor; by apply Hfree|done]. }
  destruct (in_killInfo i) as [k|] eqn:Hk.
  - destruct (in_energy i); [|split; [apply grows_refl|done]].
    apply (under_emits _ unsaid); [apply report_unsaid|done|done].
  - destruct (in_answer i) as [answer|] eqn:Ha.
    + assert (Hf : acts_under G (λ _ _ _, True) (finish_run st answer (in_energy i) (merge_lifecycle (in_lifecycle i) (pp_meta prep))
        env (set_chan (pr_chan q) (set_executor (Some (pr_exec q)) p)) w2) w2); [|by destruct (in_energy i)].
      apply finish_under; [done|]. intros j n Hprod j' [= <-].
      eexists _, _, _, _, w1, i, q, w2, st, _, answer, (n1 ++ n0), n.
      split; [by rewrite H1, H0, app_assoc|]. split; [done|]. split; [|by split; [exact Hint|]].
      exists pb, nb, rb, pid, wa, wa', wb, wb'. split; [done|]. split; [done|]. split; [|done].
      eapply extends_trans; [exact Hbw|by exists n1].
    + apply (under_emits _ unsaid); [|done|done].
      destruct (in_energy i); unfold sendError; solve_emits ltac:(done).
Qed.

Lemma run_answered ticks polls body env p w :
  grows (answered body env (io_trace w)) w (out_io (runHandler ticks polls (inl body) env p w)).
Proof.
  set (G := answered body env (io_trace w)). pose proof (answered_free body env (io_trace w)) as Hfree.
  assert (Hi : ∀ e, inner e → ∀ tr, G e tr) by (intros e He; by apply Hfree, inner_unsaid).
  assert (H : acts_under G (λ _ _ _, True) (runHandler ticks polls (inl body) env p w) w); [|apply H].
  assert (Hb : ∀ {A} (m : M ActionProxy A) k w1, reads m → emits inner m → extends w w1 →
    (∀ a w2, m env p w1 = Done a p w2 → extends w1 w2 → extends w w2 →
       acts_under G (λ _ _ _, True) ((k a : M ActionProxy ()) env p w2) w2) →
    acts_under G (λ _ _ _, True) ((m ≫= k) env p w1) w1).
  { intros A m k w1 Hr Hm Hw Hk. destruct (bind_reads m k env p w1 Hr) as (a & w2 & Hd & ->).
    destruct (Hm env p w1 I) as [(n & Hn & Hf) _]. rewrite Hd in Hn. simpl in Hn.
    assert (Hw12 : extends w1 w2) by by exists n.
    destruct (Hk a w2 Hd Hw12 (extends_trans _ _ _ Hw Hw12)) as [Hg _]. split; [|by case_match]. eapply growth_trans; [|exact Hg].
    eapply grows_free; [exact Hn|]. eapply Forall_impl; [exact Hf|exact Hi]. }
  pose proof (λ S, @readEnergy_reads S). pose proof (λ S pid, @readCPUSnapshot_reads S pid).
  unfold runHandler. apply Hb; [unfold now_wall; solve_reads|auto with emits|apply extends_refl|]. intros start w1 _ _ H1.
  apply Hb; [done|auto with emits|done|]. intros reading w2 He2 H12 H2. rewrite run_gets.
  apply Hb; [destruct (ap_theExecutor p); solve_reads|destruct (ap_theExecutor p); solve_emits ltac:(done)|done|].
  intros _ w3 _ H23 H3. destruct (ap_theExecutor p) as [x|] eqn:Hx; [|by apply refusal_under].
  apply Hb; [done|auto with emits|done|]. intros cpu w4 Hc4 H34 H4.
  destruct (exited_same_path env p w4 x Hx) as (b & x' & p' & w5 & He & Hx' & _ & new & Hn & Hf).
  apply under_bind. rewrite He. split.
  { eapply grows_free; [exact Hn|]. eapply Forall_impl; [exact Hf|]. intros e Hq. by apply Hi, quiet_inner. }
  destruct b; [by apply refusal_under|]. split; [|by case_match]. eapply invoke_answered; [done| |].
  - eapply extends_trans; [exact H4|by exists new].
  - destruct H1 as [n1 H1]. exists p, n1, reading, (Pid x), w1, w2, w3, w4. split; [done|].
    split; [by eapply extends_trans|]. split; [eapply extends_trans; [exact H34|by exists new]|]. by split.
Qed.

(** ** One step *)

(** The action's answers have no members that would be taken for a state. *)
Definition tame (env : Env) : Prop :=
  ∀ i l, env_action env i = Some (BodyJson (JObj l)) → plain (members_map l).

(** A request as it was served: its world, what had happened before, what it did. *)
Record served := { sv_env : Env; sv_before : list event; sv_new : list event }.

(** A moment of a request. *)
Definition during (v : served) (w : io) : Prop := ∃ n1 n2, sv_new v = n1 ++ n2 ∧ io_trace w = n2 ++ sv_before v.

(** The energy the runtime measures for a step: from the snapshots it took before the
    action to readings after it, all in the course of this request. *)
Definition measured (v : served) (m : f64) : Prop :=
  ∃ st p w w', step_energy st (sv_env v) p w = Done m p w' ∧ during v w ∧
    ∃ (pb : ActionProxy) reading pid wa wa' wb wb',
      during v wa ∧ readEnergy (sv_env v) pb wa = Done reading pb wa' ∧
      st_energy st = match reading with inl e => e | inr _ => 0 end ∧
      during v wb ∧ readCPUSnapshot pid (sv_env v) pb wb = Done (st_cpu st) pb wb'.

Lemma during_before v w1 w2 n : during v w2 → extends w1 w2 → io_trace w1 = n ++ sv_before v → during v w1.
Proof.
  intros (n1 & n2 & Hn & H2) [k Hk] H1. exists (n1 ++ k), n. split; [|done].
  rewrite Hk, H1, app_assoc in H2. apply app_inv_tail in H2 as <-. by rewrite <-app_assoc.
Qed.

(** The request [body] was served as [v] says and answered 200 with [j]. *)
Definition answers_with (v : served) (body : http_body) (j : json) : Prop :=
  EvRespond 200 j ∈ sv_new v ∧
  ∃ ticks polls p w, io_trace w = sv_before v ∧
    io_trace (out_io (runHandler ticks polls (inl body) (sv_env v) p w)) = sv_new v ++ sv_before v.

Lemma run_answer v body j :
  answers_with v body j →
  ∃ i n2 st p2 w2 answer, (∀ ev, ev ∈ n2 → ev ∈ sv_new v) ∧ during v w2 ∧
    (∃ ticks polls input q w1 q', Interact ticks polls input (energy_of body) (sv_env v) q w1 = Done i q' w2 ∧
       io_trace w2 = n2 ++ io_trace w1 ∧ during v w1 ∧ begun (sv_env v) (sv_before v) st w1) ∧
    (∃ at_, env_action (sv_env v) at_ = Some answer) ∧ produced st answer (in_energy i) (sv_env v) p2 w2 j.
Proof.
  destruct v as [env start new]. simpl. intros [(l1 & l2 & Heq)%list_elem_of_split (ticks & polls & p & w & Hw & Ht)].
  simpl in *. destruct (run_answered ticks polls body env p w) as (n & Hn & Hg).
  rewrite Ht, <-Hw in Hn. apply app_inv_tail in Hn as <-.
  destruct (Hg _ _ _ Heq j eq_refl) as (tk & pl & input & q & w1 & i & q' & w2 & st & p2 & answer & n1 & n2 &
    H1 & H2 & Hb & Hint & Hk & Ha & Hp). rewrite Hw in *.
  pose proof (interact_conversation tk pl input (energy_of body) env q w1) as (m & _ & Hc). rewrite Hint in Hc.
  destruct Hc as [Hc [at_ Hat]].
  set (n3 := [EvGuard "stderr"; EvGuard "stdout"] ++ m ++ [EvStdin input]).
  assert (H3 : io_trace w2 = n3 ++ io_trace w1) by (rewrite Hc; unfold n3; by rewrite <-!app_assoc).
  rewrite H3, H1, !app_assoc in H2. apply app_inv_tail in H2.
  assert (Hd2 : during {| sv_env := env; sv_before := start; sv_new := new |} w2).
  { exists (l1 ++ EvRespond 200 j :: n2), (n3 ++ n1). clearbody n3. cbn [sv_new sv_before]. split; [rewrite Heq, H2; by rewrite <-!app_assoc|].
    rewrite H3, H1. apply app_assoc. }
  exists i, n3, st, p2, w2, answer. split; [intros ev Hev; rewrite Heq, H2; set_solver|]. split; [done|].
  split; [|split; [exists at_; congruence|done]].
  exists tk, pl, input, q, w1, q'. split; [done|]. split; [done|]. split; [|done].
  eapply during_before; [exact Hd2|by exists n3|exact H1].
Qed.

Lemma step_measured v st w1 p w :
  begun (sv_env v) (sv_before v) st w1 → during v w1 → during v w →
  ∃ m w', measured v m ∧ step_energy st (sv_env v) p w = Done m p w'.
Proof.
  intros (pb & n & reading & pid & wa & wa' & wb & wb' & Hwa & [k Hab] & Hbw & Hr & Hst & Hc) H1 Hw.
  pose proof (λ S, @readEnergy_reads S). pose proof (λ S pid, @readCPUSnapshot_reads S pid).
  assert (Hs : reads (step_energy st)) by (unfold step_energy; solve_reads).
  destruct (Hs (sv_env v) p w) as (m & w' & Hm). exists m, w'. split; [|done].
  exists st, p, w, w'. split; [done|]. split; [done|]. exists pb, reading, pid, wa, wa', wb, wb'.
  assert (Hb : io_trace wb = (k ++ n) ++ sv_before v) by (by rewrite Hab, Hwa, app_assoc).
  split; [|split; [done|split; [done|split; [|done]]]].
  - eapply during_before; [exact H1| |exact Hwa]. eapply extends_trans; [by exists k|exact Hbw].
  - exact (during_before v wb w1 _ H1 Hbw Hb).
Qed.

(** What the next request of a sequence inherits of an answer. *)
Lemma step_inherits v body j id name :
  tame (sv_env v) → answers_with v body j →
  let next := energy_of (BodyJson (next_request id name j)) in
  match energy_of body with
  | None => next = None
  | Some e => counted e →
      ∃ x m, (x = ExecutionThresholdJ e ∨ ∃ ev, ev ∈ sv_new v ∧ grant e x ev) ∧ measured v m ∧
        next = match j with
               | JObj _ => if f64_is_finite x && f64_is_finite (ConsumedBeforeJ e ⊕ m) then Some (handed x m name e) else None
               | _ => None
               end
  end.
Proof.
  intros Htame Hv next. unfold next. clear next.
  destruct (run_answer _ _ _ Hv) as (i & n2 & st & p2 & w2 & answer & Hnew & Hd2 &
    (tk & pl & input & q & w1 & q' & Hint & Hw2 & Hd1 & Hb) & [at_ Hat] & [meta Hprod]).
  destruct (energy_of body) as [e|].
  - intros Hc. destruct (threshold_granted_spec _ _ _ _ _ _ _ _ _ _ Hint) as (x & n & Hx & Hn & Hg).
    rewrite Hw2 in Hn. apply app_inv_tail in Hn as <-.
    assert (Hx' : x = ExecutionThresholdJ e ∨ ∃ ev, ev ∈ sv_new v ∧ grant e x ev) by naive_solver.
    rewrite Hx in Hprod. destruct (step_measured v st w1 p2 w2 Hb Hd1 Hd2) as (m & w3 & Hm & Hs). exists x, m.
    split; [done|]. split; [done|]. rewrite next_energy in *.
    destruct answer as [[| | | | | |l]|]; simpl in Hprod; [by destruct Hprod as [-> ?]..| |done].
    destruct Hprod as (meta' & p' & w' & Hr).
    destruct (reinject_next _ _ _ _ _ _ _ _ _ _ _ _ id name Hr Hc (Htame _ _ Hat)) as (m' & w4 & Hm' & Hnext).
    rewrite Hs in Hm'. simplify_eq. rewrite next_energy in Hnext.
    assert (Hj : ∃ l', j = JObj l').
    { revert Hr. unfold reinject. rewrite (run_done _ _ _ _ _ _ _ _ Hs). run. unfold ReinjectEnergyState.
      destruct (encode_state _); intros [= <- _ _ _]; [unfold json_of_map|]; by eexists. }
    by destruct Hj as [l' ->].
  - destruct (unmonitored_action_is_untouched tk pl input None (sv_env v) q w1 eq_refl) as (i' & w3 & n & Hr & _ & _ & _ & He).
    rewrite Hint in Hr. simplify_eq. rewrite He in Hprod. rewrite next_energy.
    destruct answer as [[| | | | | |l]|]; simpl in Hprod; [by destruct Hprod as [-> ?]..| |done].
    subst j. by rewrite plain_unmanaged by by eapply Htame.
Qed.

(** ** Sequences of any length *)

(** [sequence vs body last]: served as [vs] say, the steps from the request [body] to the
    request [last], each answered 200 by a runtime of its own, in any state and world, and
    each passed on to a next action. *)
Inductive sequence : list served → http_body → http_body → Prop :=
  | seq_start body : sequence [] body body
  | seq_step v vs body j id name last :
      tame (sv_env v) → answers_with v body j → sequence vs (BodyJson (next_request id name j)) last →
      sequence (v :: vs) body last.

(** What a step hands on unchanged. *)
Definition identity (e : EnergyState) : string * string * string * bool * string * Z * Z * option (gmap string string) :=
  (TraceID e, ReservationID e, ExecutionPhase e, PauseEnabled e, PauseMode e, MaxPauseDurationMs e, MaxPauseCount e,
   InterruptionClass e).

Lemma identity_handed x m name e : identity (handed x m name e) = identity e.
Proof. done. Qed.

Lemma grant_identity e e' x ev : identity e' = identity e → grant e' x ev → grant e x ev.
Proof.
  unfold identity, grant, of_step. intros Hid (url & paused & r & command & -> & [H1 H2] & Hr).
  exists url, paused, r, command. split; [done|]. split; [split; congruence|done].
Qed.

Lemma sequence_unmanaged vs body last : sequence vs body last → energy_of body = None → energy_of last = None.
Proof.
  induction 1 as [|v vs body j id name last Htame Hv _ IH]; [done|]. intros He.
  pose proof (step_inherits v body j id name Htame Hv) as H. rewrite He in H. by apply IH.
Qed.

(** C13: the books of a sequence balance: after any number of steps, served by any
    runtimes, whose actions answer without the members of an energy state
    ([tame]), and from counts below 2^49 ([counted]), the state the next step is
    given has consumed what the first had plus the measured energies of all the
    steps, added in their order; it is for the same trace, reservation, phase and
    pause settings; and its threshold is the first step's or one the scheduler
    granted to this reservation during one of the steps. *)
Theorem sequence_accounts vs body last e e' :
  sequence vs body last → energy_of body = Some e → counted e → energy_of last = Some e' →
  ∃ ms, Forall2 measured vs ms ∧
    ConsumedBeforeJ e' = foldl f64_add (ConsumedBeforeJ e) ms ∧ identity e' = identity e ∧
    (ExecutionThresholdJ e' = ExecutionThresholdJ e ∨
     ∃ v ev, v ∈ vs ∧ ev ∈ sv_new v ∧ grant e (ExecutionThresholdJ e') ev).
Proof.
  intros Hs. revert e. induction Hs as [body|v vs body j id name last Htame Hv Hs IH];
    intros e He Hc Hl; [rewrite He in Hl; injection Hl as <-; exists []; by split_and!; [..|left]|].
  pose proof (step_inherits v body j id name Htame Hv) as Hn. rewrite He in Hn.
  destruct (Hn Hc) as (x & m & Hx & Hm & Hnext).
  assert (Hh : energy_of (BodyJson (next_request id name j)) = Some (handed x m name e)).
  { destruct j as [| | | | | |l]; try (by rewrite (sequence_unmanaged _ _ _ Hs Hnext) in Hl).
    destruct (_ && _); [done|]. by rewrite (sequence_unmanaged _ _ _ Hs Hnext) in Hl. }
  destruct (IH _ Hh Hc Hl) as (ms & Hms & Hsum & Hid & Hthr).
  exists (m :: ms). split; [by constructor|]. split; [exact Hsum|]. split; [exact Hid|].
  destruct Hthr as [->|(v' & ev & Hv' & Hev & Hg)]; [destruct Hx as [->|(ev & Hev & Hg)]; [by left|]|]; right.
  - exists v, ev. split; [by left|]. split; [exact Hev|exact Hg].
  - exists v', ev. split; [by right|]. split; [exact Hev|]. by eapply grant_identity, Hg.
Qed.

(** ** A sequence of two steps *)

(** A counter that grows, a process that uses all of the CPU time, an action that
    answers once the monitor has looked a few times. *)
Definition working : Env :=
  let env := sample_env_flags [] [] (λ _, None) (λ _, HttpErr EDeadline) (λ i, bool_decide (30 < i)%nat)
               (Some (BodyJson (JObj [("done"%string, JBool true)]))) in
  with_world (λ i path,
    if (path =? energy_file)%string then inl (pretty (50000 * Z.of_nat i))
    else if (path =? "/proc/42/cgroup")%string then inl ("0::/c" +:+ nl)%string
    else inl ("usage_usec " +:+ pretty (1000000 * Z.of_nat i))%string) true NOther None env.

Definition served_once (body : json) : list event :=
  io_trace (out_io (runHandler 9 9 (inl (BodyJson body)) working sample_proxy io_start)).

Definition said (tr : list event) : option json :=
  head (omap (λ e, match e with EvRespond 200 j => Some j | _ => None end) tr).

Lemma said_in tr j : said tr = Some j → EvRespond 200 j ∈ tr.
Proof.
  unfold said. intros Hh. assert (Hj : j ∈ omap (λ e, match e with EvRespond 200 j => Some j | _ => None end) tr).
  { destruct (omap _ tr); simplify_eq/=. by left. }
  apply list_elem_of_omap in Hj as (e & He & Hm). destruct e; try done. repeat case_match; by simplify_eq.
Qed.

Definition passed_on (id name : string) (body : json) : json :=
  next_request id name (default JNull (said (served_once body))).

Definition as_served (body : json) : served := {| sv_env := working; sv_before := []; sv_new := served_once body |}.

Lemma working_step vs body id name last :
  is_Some (said (served_once body)) → sequence vs (BodyJson (passed_on id name body)) last →
  sequence (as_served body :: vs) (BodyJson body) last.
Proof.
  intros [j Hj] Hs. unfold passed_on in Hs. rewrite Hj in Hs. simpl in Hs.
  eapply seq_step; [| |exact Hs]; [intros i l [= <-]; by split|].
  split; [by apply said_in|]. exists 9%nat, 9%nat, sample_proxy, io_start. split; [done|]. simpl. by rewrite app_nil_r.
Qed.

Definition second_request : json := passed_on "a2" "/guest/order/ship" first_request.
Definition third_request : json := passed_on "a3" "/guest/order/bill" second_request.

Lemma sequence_accounts_witness :
  ∃ m1 m2 e', measured (as_served first_request) m1 ∧ measured (as_served second_request) m2 ∧
    energy_of (BodyJson third_request) = Some e' ∧ ConsumedBeforeJ e' = f64_add (f64_add f64_zero m1) m2 ∧
    f64_ltb f64_zero (ConsumedBeforeJ e') = true ∧ TraceID e' = "t1"%string.
Proof.
  assert (Hs : sequence [as_served first_request; as_served second_request] (BodyJson first_request)
    (BodyJson third_request)).
  { apply (working_step _ first_request "a2" "/guest/order/ship"); [vm_compute; by eexists|].
    apply (working_step _ second_request "a3" "/guest/order/bill"); [vm_compute; by eexists|]. apply seq_start. }
  assert (He : ∃ e, energy_of (BodyJson first_request) = Some e ∧ counted e ∧ ConsumedBeforeJ e = f64_zero ∧ TraceID e = "t1"%string)
    by (eexists; split; [vm_compute; reflexivity|]; split; [apply (bool_decide_unpack _); vm_compute; reflexivity|]; by split).
  destruct He as (e & He & Hc & H0 & Hid).
  assert (He' : ∃ e', energy_of (BodyJson third_request) = Some e' ∧ f64_ltb f64_zero (ConsumedBeforeJ e') = true)
    by (eexists; split; [vm_compute; reflexivity|]; vm_compute; reflexivity).
  destruct He' as (e' & He' & Hpos).
  destruct (sequence_accounts _ _ _ e e' Hs He Hc He') as (ms & Hms & Hsum & Hi & _).
  inversion Hms as [|? m1 ? l1 H1 Hl1]; subst. inversion Hl1 as [|? m2 ? l2 H2 Hl2]; subst. inversion Hl2; subst.
  exists m1, m2, e'. split; [exact H1|]. split; [exact H2|]. split; [exact He'|].
  split; [rewrite Hsum, H0; reflexivity|]. split; [exact Hpos|]. injection Hi as Ht _. rewrite Ht. exact Hid.
Defined.
