(* ===== verification/Launcher.v ===== *)
(** * The launcher ([golang1.22/lib/launcher.go])

    The program at the other end of the pipe: compiled into every Go action, it
    acknowledges its start, then answers each line the proxy writes with one
    line, calling the user's [Main].  The launchers of golang1.23 and
    golang1.24 are the same file; [common/gobuild.py.launcher.go] is the older
    one, without the version check and the acknowledgement.

    [Main] is a parameter: any function of the number of the call, the process
    environment and the payload.  Member names are ASCII ([strings.ToUpper]);
    debug output is left out. *)

From S2P Require Import Prelude Float64 GoStrings Json Effects Rapl Instrumentation Segments.
From S2P Require Import Freezer EnergyState Channel Monitor Payload Recording Executor RunHandler.

Local Open Scope Z_scope.

(** ** The user's function *)

Inductive kind := KMap | KSlice | KArray | KInterface | KOther.

#[global] Instance kind_dec : EqDecision kind.
Proof. solve_decision. Defined.

(** What [Main] is called with: a map, possibly [nil], or a slice. *)
Inductive payload := PMap (m : option gomap) | PSlice (l : list json).

Inductive result :=
  | Returns (j : json)
  | Unencodable (err : string)    (** a value [json.Marshal] refuses *)
  | Crashes.

Record UserMain := {
  um_param : kind;
  um_result : kind;
  um_call : nat → gmap string string → payload → result
}.

(** [funcMain.Call] panics when the value is not assignable to the parameter. *)
Definition assignable (k : kind) (p : payload) : bool :=
  match k, p with
  | KMap, PMap _ | KSlice, PSlice _ | KInterface, _ => true
  | _, _ => false
  end.

Definition call_main (um : UserMain) (n : nat) (e : gmap string string) (p : payload) : result :=
  if assignable (um_param um) p then um_call um n e p else Crashes.

(** ** One line *)

(** What the launcher writes: the encoding of a value, or its own error line. *)
Inductive line := LValue (j : json) | LError (msg : string).

(** The text before the quoted message of an error line. *)
Definition error_head : string := "{ error: ".

Definition ack_line : line := LValue (JObj [("ok"%string, JBool true)]).

(** How a reader that decodes JSON takes a line: the key of an error line is not
    quoted, so the line is no JSON text. *)
Definition line_body (l : line) : http_body :=
  match l with
  | LValue j => BodyJson j
  | LError _ => BodyInvalid (EMsg "invalid character 'e' looking for beginning of object key string")
  end.

(** The first character of an object's text after the brace and the blanks: a
    quote or the closing brace in JSON. *)
Fixpoint after_blanks (s : string) : option ascii :=
  match s with
  | EmptyString => None
  | String a rest => if (a =? " ")%char then after_blanks rest else Some a
  end.

Example error_line_is_no_json :
  match error_head with
  | String "{" rest => after_blanks rest = Some "e"%char
  | _ => False
  end.
Proof. reflexivity. Qed.

Definition upper (a : ascii) : ascii :=
  let n := nat_of_ascii a in
  if ((97 <=? n) && (n <=? 122))%nat then ascii_of_nat (n - 32) else a.

Fixpoint upper_string (s : string) : string :=
  match s with EmptyString => "" | String a r => String (upper a) (upper_string r) end.

(** [os.Setenv], whose error is ignored: a name with [=] or a NUL, or a value with a
    NUL, is refused. *)
Definition settable (k v : string) : bool :=
  str_all (λ a, negb (a =? "=")%char && negb (a =? "000")%char) k &&
  str_all (λ a, negb (a =? "000")%char) v.

Definition Setenv (k v : string) (e : gmap string string) : gmap string string :=
  if settable k v then <[k := v]> e else e.

Definition ow_name (k : string) : string := "__OW_" +:+ upper_string k.

Definition set_var (e : gmap string string) (kv : string * json) : gmap string string :=
  if (kv.1 =? "value")%string then e
  else match kv.2 with JStr s => Setenv (ow_name kv.1) s e | _ => e end.

Definition set_vars (input : gomap) (e : gmap string string) : gmap string string :=
  foldl set_var e (map_to_list input).

Definition payload_of (input : gomap) : payload :=
  match input !! "value"%string with
  | Some (JObj l) => PMap (Some (members_map l))
  | Some (JArr l) => PSlice l
  | _ => PMap None
  end.

(** [json.Unmarshal] into a [map[string]interface{}]: [null] leaves it [nil]. *)
Definition input_of (inbuf : http_body) : gomap + string :=
  match inbuf with
  | BodyJson (JObj l) => inl (members_map l)
  | BodyJson JNull => inl ∅
  | BodyJson _ => inr "json: cannot unmarshal into Go value of type map[string]interface {}"%string
  | BodyInvalid _ => inr "invalid character"%string
  end.

(** The answer to a result. *)
Definition answer_line (r : result) : option line :=
  match r with
  | Returns j => Some (if json_encodable j then LValue j else LError "json: unsupported value")
  | Unencodable err => Some (LError err)
  | Crashes => None
  end.

Record Launcher := { la_calls : nat; la_env : gmap string string }.

(** One round of the read-eval-print loop: the line written and the state after it;
    [None] when the process dies. *)
Definition serve_line (um : UserMain) (inbuf : http_body) (l : Launcher) : option (line * Launcher) :=
  match input_of inbuf with
  | inr err => Some (LError err, l)
  | inl input =>
      let e := set_vars input (la_env l) in
      r ← answer_line (call_main um (la_calls l) e (payload_of input));
      Some (r, {| la_calls := S (la_calls l); la_env := e |})
  end.

(** All rounds until the input ends or the process dies: the lines written. *)
Fixpoint serve (um : UserMain) (lines : list http_body) (l : Launcher) : list line :=
  match lines with
  | [] => []
  | inbuf :: lines =>
      match serve_line um inbuf l with
      | Some (out, l) => out :: serve um lines l
      | None => []
      end
  end.

(** ** The program *)

Definition result_allowed (k : kind) : bool :=
  bool_decide (k = KMap) || bool_decide (k = KSlice) || bool_decide (k = KArray).

(** What is written to file descriptor 3. *)
Definition main (OwExecutionEnv : string) (um : UserMain) (e : gmap string string) (lines : list http_body) :
    list line :=
  if negb (OwExecutionEnv =? "")%string &&
     negb (OwExecutionEnv =? default "" (e !! "__OW_EXECUTION_ENV"))%string then []
  else if negb (result_allowed (um_result um)) then []
  else ack_line :: serve um lines {| la_calls := 0; la_env := e |}.

Definition main_common (um : UserMain) (e : gmap string string) (lines : list http_body) : list line :=
  if negb (result_allowed (um_result um)) then []
  else serve um lines {| la_calls := 0; la_env := e |}.

(** ** The lines written, one by one *)

(** The lines that are decoded, the others being answered by an error line. *)
Definition inputs (lines : list http_body) : list gomap :=
  omap (λ inbuf, match input_of inbuf with inl input => Some input | inr _ => None end) lines.

(** The environment an action has after some inputs: it is never cleared. *)
Definition env_after (e : gmap string string) (ins : list gomap) : gmap string string := foldl (λ e input, set_vars input e) e ins.

(** The reply to a line, after [n] calls and in an environment. *)
Definition reply_to (um : UserMain) (n : nat) (e : gmap string string) (inbuf : http_body) : option line :=
  match input_of inbuf with
  | inr err => Some (LError err)
  | inl input => answer_line (call_main um n (set_vars input e) (payload_of input))
  end.

Lemma serve_line_reply um inbuf l : fst <$> serve_line um inbuf l = reply_to um (la_calls l) (la_env l) inbuf.
Proof. unfold serve_line, reply_to. destruct (input_of inbuf) as [input|err]; [|done]. by destruct (answer_line _). Qed.

Lemma serve_line_state um inbuf l out l' :
  serve_line um inbuf l = Some (out, l') →
  la_calls l' = (la_calls l + length (inputs [inbuf]))%nat ∧ la_env l' = env_after (la_env l) (inputs [inbuf]).
Proof.
  unfold serve_line, inputs. simpl. destruct (input_of inbuf) as [input|err].
  - destruct (answer_line _); simpl; [|done]. intros [= _ <-]. simpl. split; [lia|done].
  - intros [= _ <-]. simpl. split; [lia|done].
Qed.

Lemma inputs_cons inbuf lines : inputs (inbuf :: lines) = inputs [inbuf] ++ inputs lines.
Proof. unfold inputs. simpl. by destruct (input_of inbuf). Qed.

(** As long as every line before was answered, a line is answered by its reply. *)
Lemma serve_lookup um lines l i inbuf :
  lines !! i = Some inbuf → (∀ k, (k < i)%nat → is_Some (serve um lines l !! k)) →
  serve um lines l !! i =
  reply_to um (la_calls l + length (inputs (take i lines))) (env_after (la_env l) (inputs (take i lines))) inbuf.
Proof.
  revert l i. induction lines as [|b lines IH]; intros l i Hi Hb; [done|]. destruct i as [|i].
  - injection Hi as ->. cbn [serve take]. rewrite Nat.add_0_r, <-serve_line_reply. by destruct (serve_line um inbuf l) as [[out l']|].
  - cbn [serve] in *. destruct (serve_line um b l) as [[out l']|] eqn:Hs; [|by destruct (Hb 0%nat ltac:(lia))].
    destruct (serve_line_state _ _ _ _ _ Hs) as [Hc He]. cbn [take]. rewrite inputs_cons, length_app. simpl.
    rewrite (IH l' i Hi), Hc, He; [|intros k Hk; by apply (Hb (S k)); lia].
    unfold env_after. by rewrite foldl_app, Nat.add_assoc.
Qed.

Lemma length_serve um lines l : (length (serve um lines l) ≤ length lines)%nat.
Proof. revert l. induction lines as [|b lines IH]; intros l; [done|]. simpl. destruct (serve_line um b l) as [[out l']|]; simpl; [|lia]. specialize (IH l'). lia. Qed.

(** Whether the launcher gets to its loop. *)
Definition launches (OwExecutionEnv : string) (um : UserMain) (e : gmap string string) : bool :=
  ((OwExecutionEnv =? "")%string || (OwExecutionEnv =? default "" (e !! "__OW_EXECUTION_ENV"))%string) &&
  result_allowed (um_result um).

Lemma main_launches ee um e lines :
  main ee um e lines = if launches ee um e then ack_line :: serve um lines {| la_calls := 0; la_env := e |} else [].
Proof.
  unfold main, launches. rewrite <-negb_orb. destruct (_ || _); simpl; [|done]. by destruct (result_allowed _).
Qed.

(** C40: what the proxy reads of an action compiled with this launcher. Its start,
    if it waits for the acknowledgement, is told success exactly when the program
    is run in the environment it was compiled for and [Main] gives an object or an
    array; then the n-th line after the acknowledgement answers the n-th line
    written: by an error line if that is no JSON object, otherwise by what [Main]
    makes of its payload at that call, in the environment that all the activations
    so far have left; a crash ends the output there, and nothing is written that
    answers no line. *)
Theorem launcher_answers_each_line ee um e lines :
  let out := main ee um e lines in
  (ack_error (line_body <$> out !! 0%nat) = None ↔ launches ee um e = true) ∧
  (length out ≤ S (length lines))%nat ∧
  ∀ i inbuf, lines !! i = Some inbuf → is_Some (out !! i) →
    out !! S i = reply_to um (length (inputs (take i lines))) (env_after e (inputs (take i lines))) inbuf.
Proof.
  simpl. rewrite main_launches. destruct (launches ee um e).
  - split; [done|]. split; [simpl; pose proof (length_serve um lines {| la_calls := 0; la_env := e |}); lia|].
    intros i inbuf Hi Hbefore. cbn [lookup list_lookup]. change (serve um lines {| la_calls := 0; la_env := e |} !! i =
      reply_to um (length (inputs (take i lines))) (env_after e (inputs (take i lines))) inbuf).
    rewrite (serve_lookup um lines _ i inbuf Hi); [done|]. intros k Hk. apply lookup_lt_is_Some. apply lookup_lt_is_Some in Hbefore.
    simpl in Hbefore. lia.
  - split; [done|]. split; [simpl; lia|]. intros i inbuf _ [x Hx]. by rewrite lookup_nil in Hx.
Qed.

(** ** The environment of the action *)

Lemma foldl_set_var_other l e n :
  (∀ k s, (k, JStr s) ∈ l → k ≠ "value"%string → ow_name k ≠ n) → foldl set_var e l !! n = e !! n.
Proof.
  revert e. induction l as [|[k v] l IH]; intros e Hn; [done|]. simpl.
  rewrite IH by (intros k' s' Hk'; apply (Hn k' s'); by right). unfold set_var. simpl.
  destruct (String.eqb_spec k "value"); [done|]. destruct v; try done.
  unfold Setenv. case_match; [|done]. apply lookup_insert_ne. eapply Hn; [by left|done].
Qed.

Lemma set_vars_other input e n :
  (∀ k s, input !! k = Some (JStr s) → k ≠ "value"%string → ow_name k ≠ n) →
  set_vars input e !! n = e !! n.
Proof. intros Hn. apply foldl_set_var_other. intros k s ?%elem_of_map_to_list. eauto. Qed.

Lemma set_vars_member input e k s :
  input !! k = Some (JStr s) → k ≠ "value"%string → settable (ow_name k) s = true →
  (∀ k' s', input !! k' = Some (JStr s') → ow_name k' = ow_name k → k' = k) →
  set_vars input e !! ow_name k = Some s.
Proof.
  unfold set_vars. intros Hk Hv Hs Hinj.
  assert (Hin : (k, JStr s) ∈ map_to_list input) by by apply elem_of_map_to_list.
  assert (Hl : ∀ k' s', (k', JStr s') ∈ map_to_list input → ow_name k' = ow_name k → k' = k)
    by (intros k' s' ?%elem_of_map_to_list; eauto).
  pose proof (NoDup_fst_map_to_list input) as Hnd.
  apply list_elem_of_split in Hin as (l1 & l2 & Heq). rewrite Heq in *. rewrite foldl_app. simpl.
  rewrite foldl_set_var_other.
  - unfold set_var. simpl. rewrite (proj2 (String.eqb_neq _ _) Hv). unfold Setenv. rewrite Hs. apply lookup_insert_eq.
  - intros k' s' Hr _ Hname. rewrite fmap_app in Hnd. apply NoDup_app in Hnd as (_ & _ & Hnd).
    apply NoDup_cons in Hnd as [Hnd _]. apply Hnd, list_elem_of_fmap. exists (k', JStr s'). split; [|done].
    simpl. symmetry. apply (Hl k' s'); [|done]. apply elem_of_app. right. by right.
Qed.

(** The action of a managed step sees the activation and the name of this step,
    and for everything else of the request (namespace, key, deadline, transaction)
    what an earlier activation left: the re-encoded request carries no other
    member. *)
Theorem managed_step_keeps_old_context um req l out l' :
  settable "__OW_ACTIVATION_ID" (rq_ActivationID req) = true →
  settable "__OW_ACTION_NAME" (rq_ActionName req) = true →
  serve_line um (BodyJson (request_json req)) l = Some (out, l') →
  la_env l' !! "__OW_ACTIVATION_ID"%string = Some (rq_ActivationID req) ∧
  la_env l' !! "__OW_ACTION_NAME"%string = Some (rq_ActionName req) ∧
  ∀ n, n ≠ "__OW_ACTIVATION_ID"%string → n ≠ "__OW_ACTION_NAME"%string → la_env l' !! n = la_env l !! n.
Proof.
  intros Hid Hname. unfold serve_line, request_json. simpl.
  set (v := match rq_Value req with Some m => json_of_map m | None => JNull end).
  set (input := members_map _).
  assert (Hin : ∀ k j, input !! k = Some j ↔ (k, j) ∈ [("activation_id", JStr (rq_ActivationID req));
    ("value", v); ("action_name", JStr (rq_ActionName req))]%string).
  { intros k j. apply members_map_spec. repeat constructor; set_solver. }
  clearbody input v. destruct (answer_line _); [|done]. simpl. intros [= _ <-]. simpl.
  assert (Hinj : ∀ k s, input !! k = Some (JStr s) → k ≠ "value"%string →
    k = "activation_id"%string ∨ k = "action_name"%string).
  { intros k s Hk Hv. apply Hin in Hk. set_solver. }
  assert (Hone : ∀ k k' s, input !! k' = Some (JStr s) → k = "activation_id"%string ∨ k = "action_name"%string →
    ow_name k' = ow_name k → k' = k).
  { intros k k' s Hk Hor Heq. apply Hin in Hk.
    assert (Hc : k' = "activation_id"%string ∨ k' = "value"%string ∨ k' = "action_name"%string) by set_solver.
    by destruct Hc as [->|[->| ->]], Hor as [->| ->]. }
  split; [|split].
  - apply (set_vars_member input _ "activation_id"); [apply Hin; set_solver|done|done|]. eauto.
  - apply (set_vars_member input _ "action_name"); [apply Hin; set_solver|done|done|]. eauto.
  - intros n H1 H2. apply set_vars_other. intros k s Hk Hv. destruct (Hinj k s Hk Hv) as [->| ->]; intros Heq; [apply H1|apply H2]; by rewrite <-Heq.
Qed.

(** ** The proxy and the launcher *)

(** With a launcher at the other end, a start that waits for the acknowledgement
    succeeds as soon as the process is in its cgroup. *)
Theorem launcher_is_acknowledged env x w :
  (∀ i, env_syscall env i "open" (ac_path (ex_ctl x)) = None) →
  (∀ i, env_syscall env i "clone_into_cgroup" (ac_path (ex_ctl x)) = None) →
  (∀ i, env_action env i = Some (line_body ack_line)) →
  ∃ x' w', Start true env x w = Done None x' w' ∧ ac_state (ex_ctl x') = StateRunning.
Proof.
  intros Hopen Hclone Hack. unfold Start, Freezer.Start, syscall, zoom. run.
  unfold mbind at 1, M_bind. run. rewrite Hopen. run. rewrite Hclone. run. rewrite Hack. by eexists _, _.
Qed.

(** Whatever goes wrong in the launcher, the caller is told the same: a line it
    cannot decode and a result it cannot encode are answered by an error line
    which is no JSON, and the proxy answers 502 without the launcher's message and
    without a measurement. *)
Theorem launcher_errors_are_lost um inbuf l st energy meta env p w :
  (∃ err, input_of inbuf = inr err) ∨
  (∃ input err, input_of inbuf = inl input ∧
     call_main um (la_calls l) (set_vars input (la_env l)) (payload_of input) = Unencodable err) →
  ∃ msg l' w', serve_line um inbuf l = Some (LError msg, l') ∧
    finish_run st (line_body (LError msg)) energy meta env p w = Done tt p w' ∧
    io_trace w' = EvRespond 502
      (JObj [("error", JStr "The action did not return a dictionary or array.")]) :: io_trace w.
Proof.
  intros [(err & He)|(input & err & He & Hc)]; unfold serve_line; rewrite He; [by eexists _, _, _|].
  rewrite Hc. by eexists _, _, _.
Qed.

(** ** Witnesses *)

(** The user's function answers the number of the call. *)
Definition counting_main : UserMain :=
  {| um_param := KMap; um_result := KMap;
     um_call := λ n _ _, Returns (JObj [("calls"%string, JNum (f64_of_Z (Z.of_nat n)))]) |}.

Definition failing_main : UserMain :=
  {| um_param := KMap; um_result := KMap;
     um_call := λ _ _ _, Unencodable "json: unsupported type: func()"%string |}.

Definition old_env : gmap string string := {["__OW_NAMESPACE"%string := "alice"%string]}.

Definition fresh : Launcher := {| la_calls := 0; la_env := old_env |}.

Definition empty_line : http_body := BodyJson (JObj []).

Definition pay_request : runRequest :=
  {| rq_ActionName := "pay"; rq_ActivationID := "a1"; rq_Value := Some ∅ |}%string.

Example array_parameter_crashes :
  serve counting_main [empty_line; BodyJson (JObj [("value", JArr [])]%string); empty_line] fresh =
  [LValue (JObj [("calls"%string, JNum (f64_of_Z 0))])].
Proof. vm_compute. reflexivity. Qed.

Example wrong_environment_is_silent :
  main "openwhisk/action-golang-v1.22" counting_main ∅ [empty_line] = [].
Proof. vm_compute. reflexivity. Qed.

(** A line that is no object, then two activations. *)
Lemma launcher_answers_each_line_witness :
  main "" counting_main old_env [BodyJson (JArr []); empty_line; empty_line] !! 3%nat =
  Some (LValue (JObj [("calls"%string, JNum (f64_of_Z 1))])).
Proof.
  destruct (launcher_answers_each_line "" counting_main old_env [BodyJson (JArr []); empty_line; empty_line]) as (_ & _ & H).
  rewrite (H 2%nat empty_line); [vm_compute; reflexivity|reflexivity|]. vm_compute. by eexists.
Defined.

Lemma managed_step_keeps_old_context_witness :
  ∃ out l', serve_line counting_main (BodyJson (request_json pay_request)) fresh = Some (out, l') ∧
    la_env l' !! "__OW_ACTIVATION_ID"%string = Some "a1"%string ∧
    la_env l' !! "__OW_NAMESPACE"%string = Some "alice"%string.
Proof.
  eexists _, _. split; [vm_compute; reflexivity|].
  destruct (managed_step_keeps_old_context counting_main pay_request fresh _ _ eq_refl eq_refl eq_refl)
    as (Hid & _ & Hrest).
  split; [exact Hid|]. refine (eq_trans (Hrest _ _ _) _); [discriminate|discriminate|]. vm_compute. reflexivity.
Defined.

Definition acking_site : Env :=
  sample_env [] [] (λ _, None) (λ _, HttpErr (EMsg "refused")) true (Some (line_body ack_line)).

Lemma launcher_is_acknowledged_witness :
  ∃ x' w', Start true acking_site sample_executor io_start = Done None x' w' ∧
    ac_state (ex_ctl x') = StateRunning.
Proof. apply (launcher_is_acknowledged acking_site sample_executor io_start); by intros i. Defined.

Lemma launcher_errors_are_lost_witness :
  ∃ msg l' w', serve_line failing_main empty_line fresh = Some (LError msg, l') ∧
    finish_run sample_instant (line_body (LError msg)) None (new_meta "p") acking_site sample_proxy io_start =
      Done tt sample_proxy w' ∧
    io_trace w' = EvRespond 502
      (JObj [("error", JStr "The action did not return a dictionary or array.")])%string :: io_trace io_start.
Proof.
  apply (launcher_errors_are_lost failing_main empty_line fresh sample_instant None (new_meta "p") acking_site sample_proxy
    io_start).
  right. eexists _, _. split; vm_compute; reflexivity.
Defined.
