(* ===== verification/InitHandler.v ===== *)
(** * Installing an action ([openwhisk/extractor.go], [openwhisk/compiler.go],
    [openwhisk/initHandler.go], [openwhisk/actionProxy.go])

    The [/init] handler: the code of the action is decoded, laid out under a
    new directory, compiled if it is source, and started; the environment of
    the action is put together on the way. *)

From S2P Require Import Prelude Float64 GoStrings Json Effects Rapl Instrumentation Segments.
From S2P Require Import Freezer EnergyState Paths Archives Channel Monitor Payload Recording Executor RunHandler.

Local Open Scope Z_scope.
Local Open Scope go_scope.

(** ** [base64.StdEncoding] *)

Definition b64_val (a : ascii) : option Z :=
  let n := Z.of_nat (nat_of_ascii a) in
  if (65 <=? n) && (n <=? 90) then Some (n - 65)
  else if (97 <=? n) && (n <=? 122) then Some (n - 71)
  else if (48 <=? n) && (n <=? 57) then Some (n + 4)
  else if n =? 43 then Some 62
  else if n =? 47 then Some 63 else None.

Definition byte_of (z : Z) : ascii := ascii_of_nat (Z.to_nat (Z.land z 255)).

(** Groups of four; only the last one may be padded, with its spare bits ignored. *)
Fixpoint b64_groups (l : list ascii) : option string :=
  match l with
  | [] => Some ""%string
  | a :: b :: c :: d :: rest =>
      a' ← b64_val a; b' ← b64_val b;
      let first := byte_of (Z.lor (Z.shiftl a' 2) (Z.shiftr b' 4)) in
      if (c =? "=")%char then
        match rest with
        | [] => if (d =? "=")%char then Some (String first "") else None
        | _ => None
        end
      else
        c' ← b64_val c;
        let second := byte_of (Z.lor (Z.shiftl b' 4) (Z.shiftr c' 2)) in
        if (d =? "=")%char then
          match rest with [] => Some (String first (String second "")) | _ => None end
        else
          d' ← b64_val d;
          let third := byte_of (Z.lor (Z.shiftl c' 6) d') in
          tail ← b64_groups rest;
          Some (String first (String second (String third tail)))
  | _ => None
  end%string.

(** Line ends are skipped anywhere. *)
Definition base64_decode (s : string) : option string :=
  b64_groups (List.filter (λ a, negb ((a =? "010")%char || (a =? "013")%char)) (String.list_ascii_of_string s)).

Example base64_ex :
  base64_decode "cGFja2FnZQ==" = Some "package"%string ∧ base64_decode "cGFja2Fn" = Some "packag"%string ∧
  base64_decode "cGFja2FnZQ=" = None ∧ base64_decode "cG=ja2Fn" = None.
Proof. by vm_compute. Qed.

(** ** Directories *)

(** [highestDir]: the highest numeric name, 0 if there is none. *)
Definition highest (names : list string) : Z :=
  foldl (λ max name, match atoi name with
                     | Some n => if max <? n then n else max
                     | None => max
                     end) 0 names.

Definition highestDir {S} (dir : string) : M S Z :=
  files ← effect (λ env i, env_readdir env i dir) [EvRead dir];
  mret (match files with inl names => highest names | inr _ => 0 end).

Definition action_dir (base : string) (n : Z) (sub : string) : string :=
  (base +:+ "/" +:+ pretty n +:+ "/" +:+ sub)%string.

(** ** The proxy's fields *)

Definition upd_proxy (initialized : bool) (currentDir : Z) (e : gmap string string) (p : ActionProxy) : ActionProxy :=
  {| ap_initialized := initialized; ap_baseDir := ap_baseDir p; ap_compiler := ap_compiler p;
     ap_currentDir := currentDir; ap_theExecutor := ap_theExecutor p; ap_env := e;
     ap_metrics := ap_metrics p; ap_pendingInitEntry := ap_pendingInitEntry p; ap_chan := ap_chan p;
     ap_execCounter := ap_execCounter p |}.

Definition set_initialized (b : bool) (p : ActionProxy) := upd_proxy b (ap_currentDir p) (ap_env p) p.
Definition set_currentDir (n : Z) (p : ActionProxy) := upd_proxy (ap_initialized p) n (ap_env p) p.
Definition set_env (e : gmap string string) (p : ActionProxy) :=
  upd_proxy (ap_initialized p) (ap_currentDir p) e p.

(** [NewActionProxy]; the address of the scheduler is resolved in the background. *)
Definition NewActionProxy {S} (baseDir compiler : string) (chan : Chan) : M S ActionProxy :=
  syscall "mkdir" baseDir;;
  warmed ← run_in (λ _, chan) (λ _ s, s) warmSchedulerAddress;
  n ← highestDir baseDir;
  mret {| ap_initialized := false; ap_baseDir := baseDir; ap_compiler := compiler; ap_currentDir := n;
          ap_theExecutor := None; ap_env := ∅; ap_metrics := Some (NewMetrics 1000);
          ap_pendingInitEntry := None; ap_chan := warmed.2; ap_execCounter := 0 |}.

(** ** The environment of the action *)

Definition Version : string := "1.17.1".

(** One entry of [os.Environ]: [None] is the index out of range of an entry without
    [=]. *)
Definition ow_var (v : string) (e : gmap string string) : option (gmap string string) :=
  if has_prefix v "__OW_" then
    match str_split "=" v with
    | k :: x :: _ => Some (<[k := x]> e)
    | _ => None
    end
  else Some e.

Fixpoint ow_vars (environ : list string) (e : gmap string string) : option (gmap string string) :=
  match environ with
  | [] => Some e
  | v :: rest => match ow_var v e with Some e => ow_vars rest e | None => None end
  end.

(** A payload variable: a string as it is, anything else as its JSON text. *)
Definition payload_var (env : Env) (j : json) : option string :=
  match j with
  | JStr s => Some s
  | _ => if json_encodable j then Some (env_json_text env j) else None
  end.

Definition SetEnv (payload : gomap) : M ActionProxy () :=
  e ← gets ap_env;
  let e := <["__OW_PROXY_VERSION" := Version]> e in
  ee ← getenv "OW_EXECUTION_ENV";
  let e := if (ee =? "")%string then e else <["__OW_EXECUTION_ENV" := ee]> e in
  wa ← getenv "OW_WAIT_FOR_ACK";
  let e := if (wa =? "")%string then e else <["__OW_WAIT_FOR_ACK" := wa]> e in
  environ ← asks env_environ;
  match ow_vars environ e with
  | None => panic "index out of range"
  | Some e =>
      vars ← asks (λ env, omap (payload_var env) payload);
      modify (set_env (vars ∪ e))
  end%string.

(** ** Extraction *)

Definition ExtractAction (buf suffix : string) : M ActionProxy (string * option goerr) :=
  if (buf =? "")%string then mret (""%string, Some (EMsg "no file"))
  else
    modify (λ p, set_currentDir (ap_currentDir p +! 1) p);;
    p ← get;
    let newDir := action_dir (ap_baseDir p) (ap_currentDir p) suffix in
    mkdir_all newDir;;
    let file := (newDir +:+ "/exec")%string in
    if IsZip buf then
      jar ← getenv "OW_SAVE_JAR";
      if negb (jar =? "")%string then
        let jarFile := (newDir +:+ "/" +:+ jar)%string in
        err ← UnzipOrSaveJar buf newDir jarFile; mret (jarFile, err)
      else err ← Unzip buf newDir; mret (file, err)
    else if IsGz buf then err ← UnTar buf newDir; mret (file, err)
    else err ← write_file file buf; mret (file, err).

Definition isCompiled {S} (file : string) : M S bool :=
  missing ← syscall "stat" file;
  match missing with
  | Some _ => mret false
  | None =>
      buf ← read_file file;
      goos ← asks env_goos;
      mret (match buf with inl buf => IsExecutable buf goos | inr _ => false end)
  end.

Definition env_list (e : gmap string string) : list string :=
  (λ kv, (kv.1 +:+ "=" +:+ kv.2)%string) <$> map_to_list e.

Definition CompileAction (main srcDir binDir : string) : M ActionProxy (option goerr) :=
  p ← get;
  if (ap_compiler p =? "")%string then mret (Some (EMsg "No compiler defined"))
  else
    path ← getenv "PATH";
    let command := [ap_compiler p; main; srcDir; binDir] in
    let environ := ("PATH=" +:+ path)%string :: env_list (ap_env p) in
    r ← effect (λ env i, env_compile env i command environ) [EvSyscall "exec" (str_join " " command)];
    mret (if negb (r.1 =? "")%string then Some (EMsg r.1) else r.2).

(** [os.IsNotExist] *)
Definition is_not_exist (err : option goerr) : bool :=
  match err with Some (EMsg s) => (s =? "ENOENT")%string | _ => false end.

Definition ExtractAndCompile (buf main : string) : M ActionProxy (string * option goerr) :=
  r ← ExtractAction buf "src";
  match r.2 with
  | Some err => mret (""%string, Some err)
  | None =>
      let file := r.1 in
      if (file =? "")%string then mret (""%string, Some (EMsg "empty filename"))
      else
        let parent := path_dir (path_dir file) in
        let srcDir := path_join [parent; "src"%string] in
        let binDir := path_join [parent; "bin"%string] in
        let binFile := path_join [binDir; "exec"%string] in
        compiler ← gets ap_compiler;
        ready ← (if (compiler =? "")%string then mret true else isCompiled file);
        if ready : bool then
          syscall ("rename " +:+ srcDir) binDir;;
          mret (binFile, None)
        else
          syscall "mkdir" binDir;;
          err ← CompileAction main srcDir binDir;
          match err with
          | Some err => mret (""%string, Some err)
          | None =>
              err ← syscall "stat" binFile;
              mret (if is_not_exist err then (""%string, Some (EMsg "cannot compile")) else (binFile, None))
          end
  end.

(** ** Starting the latest action *)

(** [fmt.Sprintf] of the version check and of the executable. *)
Definition start_executor (x : Executor) : M ActionProxy (option goerr * Executor) :=
  ack ← getenv "OW_WAIT_FOR_ACK";
  run_in (λ _, x) (λ _ p, p) (Start (negb (ack =? "")%string)).

Definition check_version (highest : Z) : M ActionProxy (option goerr) :=
  execEnv ← getenv "OW_EXECUTION_ENV";
  if (execEnv =? "")%string then mret None
  else
    base ← gets ap_baseDir;
    data ← read_file (action_dir base highest "bin/exec.env");
    mret (match data with
          | inr err => Some err
          | inl d => if (trim_space d =? execEnv)%string then None
                     else Some (EMsg "Execution environment version mismatch. See logs for details.")
          end).

Definition StartLatestAction : M ActionProxy (option goerr) :=
  base ← gets ap_baseDir;
  n ← highestDir base;
  if n =? 0 then
    modify (set_executor None);;
    mret (Some (EMsg "no valid actions available"))
  else
    mismatch ← check_version n;
    match mismatch with
    | Some err => mret (Some err)
    | None =>
        curExecutor ← gets ap_theExecutor;
        let executable := action_dir base n "bin/exec" in
        syscall "chmod" executable;;
        e ← gets ap_env;
        newExecutor ← NewExecutor executable e;
        match newExecutor with
        | None => panic "nil pointer dereference"
        | Some x =>
            r ← start_executor x;
            match r.1 with
            | None =>
                modify (set_executor (Some r.2));;
                match curExecutor with
                | Some old => run_in (λ _, old) (λ _ p, p) Stop;; mret None
                | None => mret None
                end
            | Some err =>
                debugging ← asks env_debugging;
                (if debugging : bool then mret ()
                 else syscall "removeall" ("./action/" +:+ pretty n +:+ "/");; mret ());;
                mret (Some err)
            end
        end
    end%string.

(** ** The [/init] handler *)

Record initBodyRequest := {
  ib_Code : string;
  ib_Binary : bool;
  ib_Main : string;
  ib_Env : option gomap
}.

Definition zero_init : initBodyRequest :=
  {| ib_Code := ""; ib_Binary := false; ib_Main := ""; ib_Env := None |}.

Definition init_body_fields : list (field initBodyRequest) :=
  [str_field "code" (λ x r, Build_initBodyRequest x (ib_Binary r) (ib_Main r) (ib_Env r));
   bool_field "binary" (λ x r, Build_initBodyRequest (ib_Code r) x (ib_Main r) (ib_Env r));
   str_field "main" (λ x r, Build_initBodyRequest (ib_Code r) (ib_Binary r) x (ib_Env r));
   map_field "env" ib_Env (λ x r, Build_initBodyRequest (ib_Code r) (ib_Binary r) (ib_Main r) x)].

(** A nested struct: decoded into the one already there. *)
Definition init_request_fields : list (field initBodyRequest) :=
  [Field "value" (λ j r, decode_struct init_body_fields j r)].

Definition sendOK {S} : M S () := effect (λ _ _, tt) [EvRespond 200 (JObj [("ok"%string, JBool true)])].

Definition goerr_text (e : goerr) : string :=
  match e with EMsg s => s | EWrap ctx _ => ctx | ENet _ s => s | _ => "" end.

(** An installation error: reported to the caller, or to the action's logs when
    [OW_LOG_INIT_ERROR] is set. *)
Definition init_error (prefix : string) (err : goerr) (short : string) : M ActionProxy () :=
  logged ← getenv "OW_LOG_INIT_ERROR";
  if (logged =? "")%string then sendError 502 (prefix +:+ goerr_text err)
  else
    effect (λ _ _, tt) [EvLogLine "stderr" (goerr_text err)];;
    effect (λ _ _, tt) [EvGuard "stdout"];;
    effect (λ _ _, tt) [EvGuard "stderr"];;
    sendError 502 short.

(** The bytes of the action. *)
Definition init_code (request : initBodyRequest) : option string :=
  if ib_Binary request then base64_decode (ib_Code request) else Some (ib_Code request).

(** From a decoded request with its code: install, start, record. *)
Definition install (start energyStart : Z) (cpuStart : CPUSnapshot) (buf main : string) : M ActionProxy () :=
  r ← ExtractAndCompile buf main;
  match r.2 with
  | Some err =>
      init_error "" err "The action failed to generate or locate a binary. See logs for details."
  | None =>
      err ← StartLatestAction;
      match err with
      | Some err => init_error "cannot start action: " err "Cannot start action. Check logs for details."
      | None =>
          modify (set_initialized true);;
          sendOK;;
          podName ← getenv "HOSTNAME";
          recordMetrics "/init" start energyStart cpuStart (Some (new_meta podName))
      end
  end.

Definition initHandler (request : http_body + goerr) : M ActionProxy () :=
  start ← now_wall;
  reading ← readEnergy;
  let energyStart := match reading with inl e => e | inr _ => 0 end in
  cpuStart ← readCPUSnapshot 0;
  initialized ← gets ap_initialized;
  debugging ← asks env_debugging;
  if initialized && negb debugging then sendError 403 "Cannot initialize the action more than once."
  else
    match request with
    | inr err => sendError 400 (goerr_text err)
    | inl (BodyInvalid _) => sendError 400 "Error unmarshaling request"
    | inl (BodyJson j) =>
        match decode_struct init_request_fields j zero_init with
        | None => sendError 400 "Error unmarshaling request"
        | Some request =>
            if (ib_Code request =? "")%string then sendError 403 "Missing main/no code to execute."
            else
              SetEnv (default ∅ (ib_Env request));;
              let main := if (ib_Main request =? "")%string then "main"%string else ib_Main request in
              match init_code request with
              | None => sendError 400 "cannot decode the request"
              | Some buf => install start energyStart cpuStart buf main
              end
        end
    end.

(** ** Dispatch *)

(** The record of an entry in [/metric], with the tags of [Entry]. *)
Definition entry_json (e : Entry) : json :=
  JObj
   ([("start", JInt (en_Start e)); ("end", JInt (en_End e)); ("energy_start", JInt (en_EnergyStart e));
     ("energy_end", JInt (en_EnergyEnd e)); ("energy_attributed_uj", JInt (en_EnergyAttributed e))]%string ++
    omit_int "cpu_process_usec" (en_CPUProcessUsec e) ++
    omit_int "cpu_capacity_usec" (en_CPUCapacityUsec e) ++
    omit_f64 "cpu_ratio" (en_CPURatio e) ++
    [("energy_trace_id", JStr (en_TraceID e)); ("pod_name", JStr (en_PodName e));
     ("activation_id", JStr (en_ActivationID e))]%string ++
    omit_str "execution_phase" (en_ExecutionPhase e) ++
    omit_ptr (λ l, JObj (lifecycle_members l)) "lifecycle" (en_Lifecycle e)).

Definition metricHandler : M ActionProxy () :=
  m ← gets ap_metrics;
  match m with
  | None => effect (λ _ _, tt) [EvRespond 503 (JStr "metrics not initialized")]
  | Some m =>
      effect (λ _ _, tt) [EvRespond 200 (json_of_map ((λ l, JArr (entry_json <$> l)) <$> Snapshot m))]
  end.

(** Another path gets the empty answer of [net/http]. *)
Definition ServeHTTP (ticks polls : nat) (path : string) (request : http_body + goerr) : M ActionProxy () :=
  if (path =? "/init")%string then initHandler request
  else if (path =? "/run")%string then runHandler ticks polls request
  else if (path =? "/metric")%string then metricHandler
  else mret ().

(** ** What an installation may do *)

(** The parts of the proxy an installation leaves alone until it succeeds: when no
    action was there before, none is there. *)
Definition idle (cur : option Executor) (pending : option Entry) (store : option Metrics) (p : ActionProxy) : Prop :=
  ap_initialized p = false ∧ (cur = None → ap_theExecutor p = None) ∧
  ap_pendingInitEntry p = pending ∧ ap_metrics p = store.

Section idle.
Context (cur : option Executor) (pending : option Entry) (store : option Metrics).
Local Abbreviation calm := (safe (idle cur pending store) inner).

Lemma unzip_inner {S} src dest : emits inner (Unzip src dest : M S _).
Proof.
  assert (Hl : ∀ l, emits inner (extract_all dest l : M S _)).
  { induction l as [|f l IH]; cbn [extract_all]; [auto with emits|].
    unfold extract_zip_entry, mkdir_all, syscall, write_file. solve_emits ltac:(done). }
  unfold Unzip, mkdir_all, syscall. solve_emits ltac:(done).
Qed.

Lemma untar_inner {S} src dest : emits inner (UnTar src dest : M S _).
Proof.
  assert (Hl : ∀ l last, emits inner (untar_all dest l last : M S _)).
  { intros l last. induction l as [|h l IH]; cbn [untar_all]; [auto with emits|].
    unfold extract_tar_entry, syscall, write_file. solve_emits ltac:(done). }
  unfold UnTar, mkdir_all, syscall. solve_emits ltac:(done).
Qed.

(** Extractions do not know the proxy. *)
Definition stateless {S A} (m : M S A) : Prop := ∀ env s w, out_st (m env s w) = s.

Lemma safe_stateless {S A} (I : S → Prop) φ (m : M S A) : stateless m → emits φ m → safe I φ m.
Proof.
  intros Hst He env s w Hs. destruct (He env s w Logic.I) as [Ht _]. split; [done|].
  specialize (Hst env s w). by destruct (m env s w); simpl in *; subst.
Qed.

Lemma stateless_bind {S A B} (m : M S A) (k : A → M S B) :
  stateless m → (∀ a, stateless (k a)) → stateless (m ≫= k).
Proof.
  intros Hm Hk env s w. specialize (Hm env s w). unfold mbind, M_bind.
  destruct (m env s w); simpl in *; subst; [apply Hk|done..].
Qed.

Lemma stateless_reads {S A} (m : M S A) : reads m → stateless m.
Proof. intros H env s w. by destruct (H env s w) as (a & w' & ->). Qed.

Lemma unzip_stateless {S} src dest : stateless (Unzip src dest : M S _).
Proof.
  assert (Hl : ∀ l, reads (extract_all dest l : M S _)).
  { induction l as [|f l IH]; cbn [extract_all]; [auto with reads|].
    unfold extract_zip_entry, mkdir_all. solve_reads. }
  unfold Unzip. apply stateless_bind; [by apply stateless_reads; auto with reads|]. intros r.
  apply stateless_bind; [apply stateless_reads; unfold mkdir_all; auto with reads|]. intros _.
  destruct r as [l|]; [|by intros env s w]. apply stateless_reads. solve_reads.
Qed.

Lemma untar_reads {S} src dest : reads (UnTar src dest : M S _).
Proof.
  assert (Hl : ∀ l last, reads (untar_all dest l last : M S _)).
  { intros l last. induction l as [|h l IH]; cbn [untar_all]; [auto with reads|].
    unfold extract_tar_entry. solve_reads. }
  unfold UnTar, mkdir_all. solve_reads.
Qed.

Lemma calm_unzip src dest : calm (Unzip src dest).
Proof. apply safe_stateless; [apply unzip_stateless|apply unzip_inner]. Qed.
Lemma calm_untar src dest : calm (UnTar src dest).
Proof. apply safe_reads; [apply untar_reads|apply untar_inner]. Qed.

#[local] Hint Resolve calm_unzip calm_untar : safe.

Lemma calm_extract buf suffix : calm (ExtractAction buf suffix).
Proof.
  unfold ExtractAction, UnzipOrSaveJar, mkdir_all, syscall, write_file. solve_safe ltac:(done). done.
Qed.

Lemma calm_setenv payload : calm (SetEnv payload).
Proof. unfold SetEnv. solve_safe ltac:(done). done. Qed.

#[local] Hint Resolve calm_extract calm_setenv : safe.

Lemma calm_compile buf main : calm (ExtractAndCompile buf main).
Proof.
  unfold ExtractAndCompile, isCompiled, CompileAction, syscall, read_file. solve_safe ltac:(done).
Qed.

Lemma calm_new command e : calm (NewExecutor command e).
Proof.
  unfold NewExecutor, NewActivationController, newCgroupHandle, cgroupBaseDir, ownCgroupRelativePath,
    cgroupMountRoot, syscall, read_file. solve_safe ltac:(done). done.
Qed.

(** A body on a state of its own leaves the proxy alone. *)
Lemma calm_run_in {T A} (x : T) (m : M T A) : emits inner m → calm (run_in (λ _, x) (λ _ p, p) m).
Proof.
  intros Hm env p w Hp. destruct (Hm env x w Logic.I) as [Ht _]. unfold run_in.
  by destruct (m env x w).
Qed.

Lemma start_inner ack : emits inner (Start ack).
Proof.
  unfold Start, Freezer.Start, Exited, flag, syscall. solve_emits ltac:(done).
Qed.

Lemma stop_inner : emits inner Stop.
Proof.
  assert (Hk : emits inner (killExecution "")).
  { apply inwardly_emits. intros env a w. exact (call_inwardly OpKill "" env a w). }
  unfold Stop, Close, remove, syscall. solve_emits ltac:(done).
Qed.

(** ** How an installation ends *)

(** [ends Pre Q m]: from a state in [Pre], if [m] returns, its value, the state and
    what it showed satisfy [Q]; if it waits or panics, nobody has been answered
    and nothing is installed. *)
Definition ends {A} (env : Env) (Pre : ActionProxy → Prop) (Q : A → ActionProxy → list event → Prop)
    (m : M ActionProxy A) : Prop :=
  ∀ p w, Pre p → ∃ new, io_trace (out_io (m env p w)) = new ++ io_trace w ∧
    match m env p w with
    | Done a p' _ => Q a p' (visible new)
    | Cut p' _ | Panic _ p' _ => idle cur pending store p' ∧ visible new = []
    end.

Lemma ends_bind {A B} env Pre R (Q : B → ActionProxy → list event → Prop) (m : M ActionProxy A)
    (k : A → M ActionProxy B) :
  ends env Pre R m → (∀ a p l, R a p l → l = []) → (∀ a l, ends env (λ p, R a p l) (λ b p l', Q b p (l' ++ l)) (k a)) →
  ends env Pre Q (m ≫= k).
Proof.
  intros Hm Hl Hk p w Hp. destruct (Hm p w Hp) as (n1 & H1 & Hr). unfold mbind, M_bind.
  destruct (m env p w) as [a p' w'|p' w'|msg p' w']; simpl in *; [|by exists n1..].
  destruct (Hk a _ p' w' Hr) as (n2 & H2 & Hq). exists (n2 ++ n1).
  rewrite H2, H1, app_assoc. split; [done|]. apply Hl in Hr. rewrite visible_app.
  rewrite Hr, app_nil_r in *. by destruct (k a env p' w').
Qed.

Lemma ends_idle {B A} env (Q : B → ActionProxy → list event → Prop) (m : M ActionProxy A)
    (k : A → M ActionProxy B) :
  calm m → (∀ a, ends env (idle cur pending store) Q (k a)) → ends env (idle cur pending store) Q (m ≫= k).
Proof.
  intros Hm Hk p w Hp. destruct (Hm env p w Hp) as [(n1 & H1 & Hf) Hr]. unfold mbind, M_bind.
  destruct (m env p w) as [a p' w'|p' w'|msg p' w']; simpl in *;
    [|exists n1; split; [done|]; split; [done|by apply visible_inner]..].
  destruct (Hk a p' w' Hr) as (n2 & H2 & Hq). exists (n2 ++ n1).
  rewrite H2, H1, app_assoc. split; [done|]. by rewrite visible_app, (visible_inner n1), app_nil_r.
Qed.

(** The start of the latest action: a running process on success. *)
Definition live (p : ActionProxy) : Prop :=
  ∃ x, ap_theExecutor p = Some x ∧ ac_state (ex_ctl x) = StateRunning.

Lemma start_executor_spec x :
  triple (idle cur pending store) inner (start_executor x)
    (λ r p, (r.1 = None → ac_state (ex_ctl r.2) = StateRunning) ∧ idle cur pending store p)
    (idle cur pending store).
Proof.
  intros env p w Hp. unfold start_executor. run.
  set (ack := negb (env_getenv env "OW_WAIT_FOR_ACK" =? "")%string).
  destruct (start_inner ack env x w Logic.I) as [Ht _]. pose proof (start_spec ack env x w) as Hs.
  unfold run_in. destruct (Start ack env x w) as [r x' w'| |]; simpl in *; [|by split..].
  split; [done|]. split; [|done]. intros ->. by destruct (Hs x' w' eq_refl).
Qed.

(** The action is there, and nothing else has changed yet. *)
Definition fitted (p : ActionProxy) : Prop :=
  live p ∧ ap_initialized p = false ∧ ap_pendingInitEntry p = pending ∧ ap_metrics p = store.

(** What the start leaves behind. *)
Definition started (r : option goerr) (p : ActionProxy) : Prop :=
  match r with None => fitted p | Some _ => idle cur pending store p end.

Local Abbreviation starts m := (triple (idle cur pending store) inner m started (idle cur pending store)).

Lemma starts_bind {A} (m : M ActionProxy A) k : calm m → (∀ a, starts (k a)) → starts (m ≫= k).
Proof. intros Hm Hk. eapply triple_bind; [exact Hm|exact Hk]. Qed.

(** The new action takes the place of the old one, which is stopped. *)
Lemma replace_starts old x :
  ac_state (ex_ctl x) = StateRunning → (cur = None → old = None) →
  starts (modify (set_executor (Some x));;
          match old with
          | Some o => run_in (λ _, o) (λ _ p, p) Stop;; mret None
          | None => mret None
          end).
Proof.
  intros Hx Hold. destruct old as [o|].
  - eapply (triple_bind _ _ _ _ (λ _ p, fitted p ∧ idle cur pending store p)).
    { apply triple_modify. intros p (Hi & _ & Hr). split; [split; [by exists x|done]|].
      split; [done|]. split; [|done]. intros Hc. discriminate (Hold Hc). }
    intros []. eapply (triple_bind _ _ _ _ (λ _, fitted)); [|intros a; by apply (triple_ret _ _ None)].
    intros env p w [Hf Hp]. destruct (stop_inner env o w Logic.I) as [Ht _]. unfold run_in.
    by destruct (Stop env o w).
  - eapply (triple_bind _ _ _ _ (λ _, fitted)); [|intros []; by apply triple_ret].
    apply triple_modify. intros p (Hi & _ & Hr). split; [by exists x|done].
Qed.

Lemma latest_starts : starts StartLatestAction.
Proof.
  unfold StartLatestAction. apply starts_bind; [auto with safe|]. intros base.
  apply starts_bind; [unfold highestDir; solve_safe ltac:(done)|]. intros n.
  case_match.
  { apply starts_bind; [apply safe_modify; by intros p (? & _ & ?)|]. intros _. by apply triple_ret. }
  apply starts_bind; [unfold check_version, read_file; solve_safe ltac:(done)|].
  intros [err|]; [by apply triple_ret|].
  eapply triple_bind; [apply triple_gets|]. intros old.
  apply triple_weaken with (P := λ p, (cur = None → old = None) ∧ idle cur pending store p)
    (φ := inner) (Q := started) (R := idle cur pending store);
    [|intros p [-> Hp]; split; [apply Hp|exact Hp]|done..].
  apply triple_pure. intros Hold. apply starts_bind; [unfold syscall; solve_safe ltac:(done)|]. intros _.
  apply starts_bind; [auto with safe|]. intros e. apply starts_bind; [apply calm_new|].
  intros [x|]; [|by apply triple_panic].
  eapply triple_bind; [apply start_executor_spec|]. intros [[err|] x']; simpl.
  - eapply triple_weaken with (P := idle cur pending store); [|by intros p [_ ?]|by auto..].
    apply starts_bind; [auto with safe|]. intros debugging.
    apply starts_bind; [unfold syscall; solve_safe ltac:(done)|]. intros _. by apply triple_ret.
  - apply triple_pure. intros Hlive. by apply replace_starts; [apply Hlive|].
Qed.

(** ** Theorems: the outcome of [/init] *)

Definition installed (p : ActionProxy) (shown : list event) : Prop :=
  shown = [EvRespond 200 (JObj [("ok"%string, JBool true)])] ∧
  ap_initialized p = true ∧ live p ∧ is_Some (ap_pendingInitEntry p).

Definition refused (p : ActionProxy) (shown : list event) : Prop :=
  idle cur pending store p ∧
  ∃ code j, code ∈ [400; 403; 502] ∧
    (shown = [EvRespond code j] ∨
     ∃ line, shown = [EvRespond code j; EvGuard "stderr"; EvGuard "stdout"; EvLogLine "stderr" line]).

Definition init_end (_ : ()) (p : ActionProxy) (shown : list event) : Prop :=
  installed p shown ∨ refused p shown.

Lemma error_ends env code cause :
  code ∈ [400; 403; 502] → ends env (idle cur pending store) init_end (sendError code cause).
Proof.
  intros Hc p w Hp. eexists [_]. split; [done|]. right. split; [done|]. eexists _, _. split; [done|]. by left.
Qed.

Lemma init_error_ends env prefix err short :
  ends env (idle cur pending store) init_end (init_error prefix err short).
Proof.
  unfold init_error. apply ends_idle; [auto with safe|]. intros logged.
  case_match; [apply error_ends; set_solver|]. intros p w Hp. eexists [_; _; _; _].
  split; [done|]. right. split; [done|]. eexists 502, _. split; [set_solver|]. right. by eexists.
Qed.

Lemma finish_init_ends env start energyStart cpuStart :
  ends env fitted init_end
    (modify (set_initialized true);; sendOK;; podName ← getenv "HOSTNAME";
     recordMetrics "/init" start energyStart cpuStart (Some (new_meta podName))).
Proof.
  intros p w [(x & Hx & Hl) Hp]. unfold sendOK, recordMetrics, recordMetricsImpl. run.
  match goal with |- context [(measure ?a ?b ?c ?d ?e ?f ≫= _) env ?s0 ?w0] =>
    destruct (measure_inner a b c d e f env s0 w0 Logic.I) as [(new & Ht & Hf) _];
    destruct (measure_reads a b c d e f env s0 w0) as (entry & w1 & Hm) end.
  rewrite (run_done _ _ _ _ _ _ _ _ Hm). rewrite Hm in Ht. run. simpl in Ht.
  exists (new ++ [EvRespond 200 (JObj [("ok"%string, JBool true)])]). rewrite Ht, <-app_assoc.
  split; [done|]. left. split; [by rewrite visible_app, visible_inner|].
  split; [done|]. split; [by exists x|done].
Qed.

Lemma install_ends env start energyStart cpuStart buf main :
  ends env (idle cur pending store) init_end (install start energyStart cpuStart buf main).
Proof.
  unfold install. apply ends_idle; [apply calm_compile|]. intros [file [err|]]; simpl; [apply init_error_ends|].
  apply (ends_bind _ _ (λ r p l, started r p ∧ l = [])).
  { intros p w Hp. destruct (latest_starts env p w Hp) as [(n1 & H1 & Hf) Hr].
    exists n1. split; [done|]. rewrite visible_inner by done. by destruct (StartLatestAction env p w). }
  { by intros a p l []. }
  intros [err|] l p w [Hs ->]; simpl in Hs.
  - destruct (init_error_ends env "cannot start action: " err
      "Cannot start action. Check logs for details." p w Hs) as (new & Ht & Hq).
    exists new. split; [done|]. by rewrite app_nil_r.
  - destruct (finish_init_ends env start energyStart cpuStart p w Hs) as (new & Ht & Hq).
    exists new. split; [done|]. by rewrite app_nil_r.
Qed.

Lemma init_ends request env : ends env (idle cur pending store) init_end (initHandler request).
Proof.
  unfold initHandler.
  apply ends_idle; [unfold now_wall; solve_safe ltac:(done)|]. intros start.
  apply ends_idle; [apply safe_reads; auto with reads; apply readEnergy_inner|]. intros reading.
  apply ends_idle; [apply safe_reads; auto with reads; apply readCPUSnapshot_inner|]. intros cpu.
  apply ends_idle; [auto with safe|]. intros initialized. apply ends_idle; [auto with safe|]. intros debugging.
  case_match; [apply error_ends; set_solver|].
  destruct request as [[j|e]|e]; [|apply error_ends; set_solver..].
  destruct (decode_struct init_request_fields j zero_init) as [r|]; [|apply error_ends; set_solver].
  case_match; [apply error_ends; set_solver|].
  apply ends_idle; [apply calm_setenv|]. intros _.
  destruct (init_code r); [apply install_ends|apply error_ends; set_solver].
Qed.
End idle.

(** A container is initialized once: a further [/init] is answered 403 and changes
    nothing, whatever it carries. *)
Theorem second_init_is_refused request env p w :
  ap_initialized p = true → env_debugging env = false →
  ∃ w' new, initHandler request env p w = Done tt p w' ∧ io_trace w' = new ++ io_trace w ∧
    visible new = [EvRespond 403 (JObj [("error", JStr "Cannot initialize the action more than once.")])] ∧
    Forall (λ e, match e with EvRead _ | EvRespond _ _ => True | _ => False end) new.
Proof.
  intros Hp Hd.
  pose proof (λ S, @readEnergy_reads S). pose proof (λ S pid, @readCPUSnapshot_reads S pid).
  set (φ := λ e, match e with EvRead _ => True | _ => False end).
  assert (He : emits φ (readEnergy : M ActionProxy _)) by (unfold readEnergy, read_file; solve_emits ltac:(done)).
  assert (Hc : emits φ (readCPUSnapshot 0 : M ActionProxy _)).
  { unfold readCPUSnapshot, readProcessTicks, now_wall. change (0 <=? 0) with true. cbn match.
    solve_emits ltac:(done). }
  unfold initHandler, now_wall. rewrite run_effect. set (w0 := advance env 0 [] w).
  destruct (readEnergy_reads env p w0) as (reading & w1 & Hr).
  destruct (He env p w0 Logic.I) as [(n1 & T1 & F1) _]. rewrite Hr in T1.
  rewrite (run_done _ _ _ _ _ _ _ _ Hr).
  destruct (readCPUSnapshot_reads 0 env p w1) as (cpu & w2 & Hs).
  destruct (Hc env p w1 Logic.I) as [(n2 & T2 & F2) _]. rewrite Hs in T2.
  rewrite (run_done _ _ _ _ _ _ _ _ Hs). rewrite run_gets, run_asks, Hp, Hd. cbn [negb andb].
  simpl in T1, T2.
  assert (Hin : Forall inner (n2 ++ n1))
    by (apply Forall_app; split; [eapply Forall_impl; [exact F2|]|eapply Forall_impl; [exact F1|]]; by intros []).
  eexists _, (EvRespond 403 _ :: n2 ++ n1). split; [reflexivity|]. simpl. rewrite T2, T1, app_assoc.
  split; [done|]. split.
  - change (visible (?e :: ?l)) with (visible ([e] ++ l)). by rewrite visible_app, (visible_inner (n2 ++ n1)).
  - constructor; [done|]. apply Forall_app; split; [eapply Forall_impl; [exact F2|]|eapply Forall_impl; [exact F1|]];
      by intros [].
Qed.

(** C34: an [/init] that returns answers exactly once. On a container that is
    initialized already (outside of [-debug], where it may be initialized again)
    it answers 403 and changes nothing. On another one it answers 200, and then
    the proxy is initialized, its action is running, and the measurement of
    [/init] waits for the first [/run]; or an error, and then the proxy is still
    uninitialized, holds no measurement of this attempt and has no action if it
    had none. One that waits for the action's acknowledgement or panics has
    answered nobody and has installed nothing. *)
Theorem init_outcome request env p w :
  ap_initialized p && env_debugging env = false →
  let cur := ap_theExecutor p in let pending := ap_pendingInitEntry p in let store := ap_metrics p in
  ∃ new, io_trace (out_io (initHandler request env p w)) = new ++ io_trace w ∧
    if ap_initialized p then
      out_val (initHandler request env p w) = Some () ∧ out_st (initHandler request env p w) = p ∧
      visible new = [EvRespond 403 (JObj [("error", JStr "Cannot initialize the action more than once.")])]
    else
      match initHandler request env p w with
      | Done _ p' _ => installed p' (visible new) ∨ refused cur pending store p' (visible new)
      | Cut p' _ | Panic _ p' _ => idle cur pending store p' ∧ visible new = []
      end.
Proof.
  intros Hd cur pending store. destruct (ap_initialized p) eqn:Hp; [|by apply (init_ends cur pending store request env p w)].
  destruct (second_init_is_refused request env p w Hp Hd) as (w' & new & Hr & Ht & Hv & _). exists new. by rewrite Hr.
Qed.

(** ** Theorems: directories and environment *)

Lemma highest_from names : ∀ max,
  let r := foldl (λ max name, match atoi name with
                              | Some n => if max <? n then n else max
                              | None => max
                              end) max names in
  max ≤ r ∧ (∀ name n, name ∈ names → atoi name = Some n → n ≤ r) ∧
  (r = max ∨ ∃ name, name ∈ names ∧ atoi name = Some r).
Proof.
  induction names as [|name names IH]; intros max; simpl; [split; [lia|]; split; [set_solver|by left]|].
  set (m := match atoi name with Some n => if max <? n then n else max | None => max end).
  destruct (IH m) as (H1 & H2 & H3).
  assert (Hm : max ≤ m ∧ (∀ n, atoi name = Some n → n ≤ m) ∧ (m = max ∨ atoi name = Some m)).
  { subst m. destruct (atoi name) as [n|]; [|split; [lia|split; [done|by left]]].
    destruct (Z.ltb_spec max n); (split; [lia|]); (split; [intros ? [= <-]; lia|]); auto. }
  destruct Hm as (Hm1 & Hm2 & Hm3). split; [lia|]. split.
  - intros x n [->|Hx]%elem_of_cons Ha; [specialize (Hm2 n Ha); lia|eauto].
  - destruct H3 as [->|(x & Hx & Ha)]; [|right; exists x; set_solver].
    destruct Hm3 as [->|Ha]; [by left|right; exists name; set_solver].
Qed.

(** The directory started is the newest one: the highest numeric name among the
    directory's entries, and 0, for which nothing is started, only if no entry has
    a positive number for name. *)
Theorem highest_is_newest names :
  0 ≤ highest names ∧
  (∀ name n, name ∈ names → atoi name = Some n → n ≤ highest names) ∧
  (highest names = 0 ∨ ∃ name, name ∈ names ∧ atoi name = Some (highest names)).
Proof. apply highest_from. Qed.

(** The name of a variable keeps the prefix of its entry. *)
Lemma split_prefix c pre : ∀ v x l,
  str_all (λ a, negb (a =? c)%char) pre = true → has_prefix v pre = true → str_split c v = x :: l →
  has_prefix x pre = true.
Proof.
  induction pre as [|a pre IH]; intros v x l Hp Hv Hs; [by destruct x|].
  destruct v as [|b v]; [done|]. unfold has_prefix in *. simpl in Hv, Hp. apply andb_true_iff in Hp as [Ha Hp].
  destruct (ascii_dec a b) as [<-|]; [|done]. simpl in Hs. apply negb_true_iff in Ha. rewrite Ha in Hs.
  destruct (str_split c v) as [|h t] eqn:Hv'; simplify_eq; [by destruct (split_nonempty c v)|].
  simpl. destruct (ascii_dec a a); [|done]. by eapply IH.
Qed.

(** What a payload variable becomes: a string of the [/init] payload reaches the
    action as it is, over anything the container's own environment says; a
    variable neither the payload nor the runtime sets is unchanged. *)
Theorem payload_wins payload env p w p' w' :
  SetEnv payload env p w = Done tt p' w' →
  (∀ k s, payload !! k = Some (JStr s) → ap_env p' !! k = Some s) ∧
  (∀ k, payload !! k = None → has_prefix k "__OW_" = false → ap_env p' !! k = ap_env p !! k) ∧
  ap_theExecutor p' = ap_theExecutor p.
Proof.
  unfold SetEnv. run.
  match goal with |- context [ow_vars _ ?e] => set (e0 := e) end.
  assert (He0 : ∀ k, has_prefix k "__OW_" = false → e0 !! k = ap_env p !! k).
  { intros k Hk. subst e0. repeat case_match; rewrite ?lookup_insert_ne by (by intros <-); done. }
  clearbody e0. destruct (ow_vars (env_environ env) e0) as [e|] eqn:He; run; [|done].
  intros [= <- <-]. simpl. split; [|split; [|done]].
  - intros k s Hk. apply lookup_union_Some_l. by rewrite lookup_omap, Hk.
  - intros k Hn Hk. rewrite lookup_union_r by (by rewrite lookup_omap, Hn).
    rewrite <-He0 by done. clear He0. revert e0 He. induction (env_environ env) as [|v rest IH]; intros e0 He; simpl in He.
    + by simplify_eq.
    + unfold ow_var in He. destruct (has_prefix v "__OW_") eqn:Hv; [|by apply IH].
      destruct (str_split "=" v) as [|x [|y l]] eqn:Hs; [done..|].
      rewrite (IH _ He). rewrite lookup_insert_ne; [done|]. intros <-.
      by rewrite (split_prefix "=" "__OW_" v x (y :: l) eq_refl Hv Hs) in Hk.
Qed.

(** An environment variable whose value holds an [=] reaches the action cut short. *)
Example env_value_is_cut :
  ow_vars ["__OW_API_HOST=https://h/?a=b"%string] ∅ = Some {["__OW_API_HOST" := "https://h/?a"]}%string.
Proof. apply (bool_decide_unpack _). vm_compute. reflexivity. Qed.

(** ** Sample installations *)

Definition fresh_proxy : ActionProxy :=
  {| ap_initialized := false; ap_baseDir := "./action"; ap_compiler := ""; ap_currentDir := 0;
     ap_theExecutor := None; ap_env := ∅; ap_metrics := Some (NewMetrics 1000);
     ap_pendingInitEntry := None; ap_chan := mon_chan sample_mon; ap_execCounter := 0 |}%string.

Definition pod : Env :=
  sample_env [("CGROUP_BASE_DIR", "/sys/fs/cgroup/ow"); ("OW_WAIT_FOR_ACK", "1")]%string [] (λ _, None)
    (λ _, HttpErr EDeadline) false (Some (BodyJson (JObj [("ok"%string, JBool true)]))).

Definition init_request : http_body + goerr :=
  inl (BodyJson (JObj [("value", JObj [("code", JStr "#!/bin/sh"); ("main", JStr "main")])]%string)).

Example pod_installs :
  visible (io_trace (out_io (initHandler init_request pod fresh_proxy io_start))) =
    [EvRespond 200 (JObj [("ok"%string, JBool true)])].
Proof. vm_compute. reflexivity. Qed.

Lemma init_outcome_witness :
  (∃ new, io_trace (out_io (initHandler init_request pod fresh_proxy io_start)) = new ++ [] ∧
    match initHandler init_request pod fresh_proxy io_start with
    | Done _ p' _ => installed p' (visible new) ∨ refused None None (Some (NewMetrics 1000)) p' (visible new)
    | _ => True
    end) ∧
  out_st (initHandler init_request pod sample_proxy io_start) = sample_proxy.
Proof.
  split; [exact (init_outcome init_request pod fresh_proxy io_start eq_refl)|].
  by destruct (init_outcome init_request pod sample_proxy io_start eq_refl) as (new & _ & _ & H & _).
Defined.

Lemma second_init_is_refused_witness :
  ∃ w' new, initHandler init_request pod sample_proxy io_start = Done tt sample_proxy w' ∧
    io_trace w' = new ++ [] ∧
    visible new = [EvRespond 403 (JObj [("error", JStr "Cannot initialize the action more than once.")])]%string.
Proof.
  destruct (second_init_is_refused init_request pod sample_proxy io_start eq_refl eq_refl)
    as (w' & new & Hr & Ht & Hv & _).
  exists w', new. split; [exact Hr|]. split; [exact Ht|exact Hv].
Defined.

Lemma payload_wins_witness :
  ∃ p', ap_env p' !! "TOKEN"%string = Some "secret"%string.
Proof.
  assert (H : ∃ p' w', SetEnv {["TOKEN"%string := JStr "secret"]} pod fresh_proxy io_start = Done tt p' w')
    by (eexists _, _; vm_compute; reflexivity).
  destruct H as (p' & w' & Hr). exists p'.
  destruct (payload_wins {["TOKEN"%string := JStr "secret"]} pod fresh_proxy io_start p' w' Hr) as (H & _).
  apply H. apply lookup_singleton_eq.
Defined.

(** Without a cgroup for the activation an installed action does not fail to start, it
    crashes the handler: [NewExecutor] gives [nil], and the start dereferences
    it. *)
Example missing_cgroup_crashes_start : ∃ p' w',
  StartLatestAction (sample_env [] [] (λ _, None) (λ _, HttpErr EDeadline) false None) fresh_proxy io_start =
  Panic "nil pointer dereference" p' w'.
Proof. eexists _, _. vm_compute. reflexivity. Qed.
