(* ===== verification/Container.v ===== *)
(** * The life of a container ([ServeHTTP] of [openwhisk/actionProxy.go])

    The requests a proxy serves over its life, one after the other, in any order
    and with any content.  The abstract specification is a small state machine on
    the stage of the container; the theorems show that the handlers implement it,
    and what follows for whole histories.

    A handler that panics is recovered by [net/http] and one that waits for ever is
    left behind: the next request finds the state they left.  The proxy does not
    run in debug mode, where an initialization can be repeated. *)

From S2P Require Import Prelude Float64 GoStrings Json Effects Rapl Instrumentation Segments.
From S2P Require Import Freezer EnergyState Channel Monitor Payload Recording Executor RunHandler.
From S2P Require Import Progress InitHandler.

Local Open Scope Z_scope.

(** ** The specification *)

(** [Alive owed], [Dead owed]: the measurement of [/init] has not been handed over
    yet. *)
Inductive stage := Blank | Alive (owed : bool) | Dead (owed : bool).

#[global] Instance stage_dec : EqDecision stage.
Proof. solve_decision. Defined.

Definition alive (s : stage) : bool := match s with Alive _ => true | _ => false end.

(** What one request does, with the status the caller gets; [None] when nobody is
    answered. *)
Inductive life : stage → string → option Z → stage → Prop :=
  | life_installed : life Blank "/init" (Some 200) (Alive true)
  | life_refused c : c ∈ [400; 403; 502] → life Blank "/init" (Some c) Blank
  | life_stuck : life Blank "/init" None Blank
  | life_again s : s ≠ Blank → life s "/init" (Some 403) s
  | life_unserved s c : alive s = false → c ∈ [400; 500] → life s "/run" (Some c) s
  | life_bad o c : c ∈ [400; 500; 502] → life (Alive o) "/run" (Some c) (Alive o)
  | life_served o : life (Alive o) "/run" (Some 200) (Alive false)
  | life_killed o : life (Alive o) "/run" (Some 400) (Dead false)
  | life_exited o : life (Alive o) "/run" (Some 400) (Dead o)
  | life_waiting o : life (Alive o) "/run" None (Alive o)
  | life_metric s c : c ∈ [200; 503] → life s "/metric" (Some c) s
  | life_other s path : path ∉ ["/init"; "/run"; "/metric"]%string → life s path None s.

(** A whole life. *)
Inductive lives : stage → list (string * option Z) → stage → Prop :=
  | lives_start s : lives s [] s
  | lives_next s h s' path c s'' : lives s h s' → life s' path c s'' → lives s (h ++ [(path, c)]) s''.

(** ** The implementation *)

Definition stage_of (p : ActionProxy) : stage :=
  if ap_initialized p then
    let owed := bool_decide (is_Some (ap_pendingInitEntry p)) in
    match ap_theExecutor p with Some _ => Alive owed | None => Dead owed end
  else Blank.

(** Before an initialization there is neither an action nor a measurement. *)
Definition proxy_ok (p : ActionProxy) : Prop :=
  ap_initialized p = false → ap_theExecutor p = None ∧ ap_pendingInitEntry p = None.

(** The status of a request: the first response, the oldest of the trace. *)
Fixpoint status (new : list event) : option Z :=
  match new with
  | [] => None
  | e :: rest =>
      match status rest with
      | Some c => Some c
      | None => match e with EvRespond c _ => Some c | _ => None end
      end
  end.

(** The part of the trace a request has added. *)
Definition added (w w' : io) : list event :=
  take (length (io_trace w') - length (io_trace w)) (io_trace w').

Section history.
Context (env : Env).

Inductive history : ActionProxy → io → list (string * option Z) → ActionProxy → io → Prop :=
  | history_start p w : history p w [] p w
  | history_next p w h p' w' ticks polls path request :
      history p w h p' w' →
      let r := ServeHTTP ticks polls path request env p' w' in
      history p w (h ++ [(path, status (added w' (out_io r)))]) (out_st r) (out_io r).
End history.

(** ** Statuses *)

Lemma added_new w w' new : io_trace w' = new ++ io_trace w → added w w' = new.
Proof.
  intros Ht. unfold added. rewrite Ht, length_app.
  replace (length new + length (io_trace w) - length (io_trace w))%nat with (length new) by lia.
  apply take_app_length.
Qed.

Lemma status_visible new : status (visible new) = status new.
Proof.
  induction new as [|e new IH]; [done|]. unfold visible in *. cbn [status]. rewrite filter_cons.
  case_decide as He; cbn [status]; rewrite IH; [done|].
  destruct (status new); [done|]. by destruct e; simpl in He.
Qed.

Lemma status_app l l' : status (l ++ l') = match status l' with Some c => Some c | None => status l end.
Proof. induction l as [|e l IH]; simpl; [by destruct (status l')|]. rewrite IH. by destruct (status l'). Qed.

Lemma status_inner l : Forall inner l → status l = None.
Proof. intros Hl. by rewrite <-status_visible, visible_inner. Qed.

(** ** One request *)

(** [answers env m p w c p']: run from [p], [m] answers [c] and leaves [p']; [None] when it
    does not answer. *)
Definition answers {A} (env : Env) (m : M ActionProxy A) (p : ActionProxy) (w : io) (c : option Z)
    (p' : ActionProxy) : Prop :=
  ∃ new, io_trace (out_io (m env p w)) = new ++ io_trace w ∧ status new = c ∧ out_st (m env p w) = p'.

(** A body that gets no answer of its own. *)
Lemma answers_bind {A B} env (m : M ActionProxy A) (k : A → M ActionProxy B) p w a p1 w1 c p' :
  answers env m p w None p1 → m env p w = Done a p1 w1 → answers env (k a) p1 w1 c p' →
  answers env (m ≫= k) p w c p'.
Proof.
  intros (n1 & H1 & Hs1 & _) Hr (n2 & H2 & Hs2 & Hp). unfold answers. rewrite (run_done _ _ _ _ _ _ _ _ Hr).
  rewrite Hr in H1. exists (n2 ++ n1). simpl in H1. rewrite H2, H1, app_assoc. split; [done|].
  split; [|done]. by rewrite status_app, Hs1.
Qed.

Lemma answers_inner {A B} env (m : M ActionProxy A) (k : A → M ActionProxy B) p w a p1 w1 c p' :
  emits inner m → m env p w = Done a p1 w1 → answers env (k a) p1 w1 c p' → answers env (m ≫= k) p w c p'.
Proof.
  intros Hm Hr. apply answers_bind; [|done]. destruct (Hm env p w I) as [(new & Ht & Hf) _].
  exists new. rewrite Hr in *. split; [done|]. split; [by apply status_inner|done].
Qed.

Lemma answers_modify {B} env f (k : () → M ActionProxy B) p w c p' :
  answers env (k tt) (f p) w c p' → answers env (modify f ≫= k) p w c p'.
Proof. intros (new & Ht & H). exists new. by rewrite run_modify. Qed.

Lemma answers_reads {A B} env (m : M ActionProxy A) (k : A → M ActionProxy B) p w c p' :
  emits inner m → reads m → (∀ a w1, answers env (k a) p w1 c p') → answers env (m ≫= k) p w c p'.
Proof. intros Hm Hr Hk. destruct (Hr env p w) as (a & w1 & H1). by eapply answers_inner. Qed.

Lemma sendError_answers env code cause p w : answers env (sendError code cause) p w (Some code) p.
Proof. by eexists [_]. Qed.

(** ** A request to [/run] *)

Section run.
Context (env : Env).

Lemma report_kill_answers st k e req meta p w :
  ∃ entry chan, answers env (report_kill st k e req meta) p w (Some 400)
    (set_chan chan (set_executor None (recorded entry p))).
Proof.
  destruct (run_record_spec (st_start st) (st_energy st) (st_cpu st) (Some meta)
    (ki_EnergyConsumedJ k) env p w) as (entry & w1 & w2 & w3 & _ & Hr & _).
  set (q := set_executor None (recorded entry p)).
  destruct (killed_zoom_ends (killed_event k e req meta) env q w3) as (c & w4 & Hk).
  exists entry, c. unfold report_kill. unfold recordMetricsSyncWithFallback in *.
  eapply answers_inner; [apply record_inner|exact Hr|].
  apply answers_modify. fold q.
  eapply answers_inner; [apply emits_zoom, post_killed_inner|exact Hk|]. apply sendError_answers.
Qed.

Lemma finish_run_answers st answer energy meta p w :
  answers env (finish_run st answer energy meta) p w (Some 502) p ∨
  ∃ entry, answers env (finish_run st answer energy meta) p w (Some 200) (recorded entry p).
Proof.
  unfold finish_run, recordMetricsSync.
  destruct (answer_map answer) as [objmap|]; [|left; apply sendError_answers].
  destruct answer as [j|]; [|left; apply sendError_answers]. right.
  destruct (answer_ends st j objmap energy meta env p w) as ([j' meta'] & w1 & Hr).
  destruct (run_record_spec (st_start st) (st_energy st) (st_cpu st) (Some meta') f64_zero env p w1)
    as (entry & w2 & w3 & w4 & _ & Hrec & _). unfold recordMetricsSyncWithFallback in Hrec.
  destruct (write_response_spec j' env (recorded entry p) w4) as (w5 & post & Hw & Ht & Hp).
  exists entry. pose proof reinject_inner.
  eapply answers_inner; [|exact Hr|]; [solve_emits ltac:(done)|].
  eapply answers_inner; [apply record_inner|exact Hrec|]. simpl.
  exists (post ++ [EvRespond 200 j']). rewrite Hw, <-app_assoc. split; [done|]. split; [|done].
  by rewrite status_app.
Qed.

(** The invocation itself says nothing to the caller. *)
Lemma interact_silent ticks polls input energy p w :
  ∃ new, io_trace (out_io (with_executor (Interact ticks polls input energy) env p w)) = new ++ io_trace w ∧
    status new = None.
Proof.
  assert (Hs : shows env under_way (λ _, under_way) (with_executor (Interact ticks polls input energy))).
  { apply with_executor_shows; [|apply way_before]. intros q w1.
    destruct (interact_shows env ticks polls input energy q w1) as (new & Ht & Hq). exists new.
    split; [done|]. destruct (Interact _ _ _ _ env q w1); [|done..]. rewrite Hq. apply way_after. }
  destruct (Hs p w) as (new & Ht & Hq). exists new. split; [done|].
  rewrite <-status_visible. assert (Hu : under_way (visible new)) by by destruct (with_executor _ env p w).
  by destruct Hu.
Qed.

(** From [p], the body leads from stage [s] to the stage of the state it leaves. *)
Definition leads {A} (s : stage) (m : M ActionProxy A) (p : ActionProxy) (w : io) : Prop :=
  ∃ c p', answers env m p w c p' ∧ life s "/run" c (stage_of p') ∧ ap_initialized p' = true.

Lemma leads_inner {A B} s (m : M ActionProxy A) (k : A → M ActionProxy B) p w a p1 w1 :
  emits inner m → m env p w = Done a p1 w1 → leads s (k a) p1 w1 → leads s (m ≫= k) p w.
Proof. intros Hm Hr (c & p' & Ha & H). exists c, p'. split; [by eapply answers_inner|done]. Qed.

Lemma leads_reads {A B} s (m : M ActionProxy A) (k : A → M ActionProxy B) p w :
  emits inner m → reads m → (∀ a w1, leads s (k a) p w1) → leads s (m ≫= k) p w.
Proof. intros Hm Hr Hk. destruct (Hr env p w) as (a & w1 & H1). by eapply leads_inner. Qed.

Lemma leads_refused s code cause p w :
  stage_of p = s → ap_initialized p = true → life s "/run" (Some code) s →
  leads s (sendError code cause) p w.
Proof. intros <- Hi Hl. eexists _, p. split; [apply sendError_answers|done]. Qed.

(** A method of the executor changes the executor and the channel only, whether it
    returns or not. *)
Lemma leads_executor {A B} o (m : M Proc A) (k : A → M ActionProxy B) p w :
  stage_of p = Alive o → ap_initialized p = true →
  (∃ new, io_trace (out_io (with_executor m env p w)) = new ++ io_trace w ∧ status new = None) →
  (∀ a p1 w1, stage_of p1 = Alive o → ap_initialized p1 = true → leads (Alive o) (k a) p1 w1) →
  leads (Alive o) (with_executor m ≫= k) p w.
Proof.
  intros Hs Hi (new & Ht & Hn) Hk.
  assert (Hp : stage_of (out_st (with_executor m env p w)) = Alive o ∧
    ap_initialized (out_st (with_executor m env p w)) = true).
  { unfold stage_of in *. rewrite Hi in *. unfold with_executor. destruct (ap_theExecutor p); [|done].
    destruct (m env _ w); simpl; by rewrite Hi. }
  unfold leads, answers, mbind, M_bind. destruct (with_executor m env p w) as [a p1 w1|p1 w1|msg p1 w1]; simpl in *.
  - destruct (Hk a p1 w1) as (c & p' & (n2 & H2 & Hs2 & Hp2) & H); [apply Hp..|]. exists c, p'. split; [|done].
    exists (n2 ++ new). rewrite H2, Ht, app_assoc. split; [done|]. split; [|done]. by rewrite status_app, Hn.
  - exists None, p1. split; [by exists new|]. rewrite (proj1 Hp). split; [apply life_waiting|apply Hp].
  - exists None, p1. split; [by exists new|]. rewrite (proj1 Hp). split; [apply life_waiting|apply Hp].
Qed.

(** What may follow the invocation. *)
Lemma finish_leads o st answer energy meta p w :
  stage_of p = Alive o → ap_initialized p = true → leads (Alive o) (finish_run st answer energy meta) p w.
Proof.
  intros Hs Hi. destruct (finish_run_answers st answer energy meta p w) as [Ha|[entry Ha]].
  - eexists _, _. split; [exact Ha|]. split; [|done]. rewrite Hs. apply life_bad. set_solver.
  - eexists _, _. split; [exact Ha|]. split; [|done]. unfold stage_of in *. simpl. rewrite Hi in *.
    destruct (ap_theExecutor p); [|done]. injection Hs as <-. apply life_served.
Qed.

Lemma kill_leads o st k e req meta p w :
  ap_initialized p = true → leads (Alive o) (report_kill st k e req meta) p w.
Proof.
  intros Hi. destruct (report_kill_answers st k e req meta p w) as (entry & chan & Ha).
  eexists _, _. split; [exact Ha|]. split; [|done]. unfold stage_of. simpl. rewrite Hi. apply life_killed.
Qed.

Lemma exit_leads o cause p w :
  stage_of p = Alive o → ap_initialized p = true →
  leads (Alive o) (modify (set_executor None);; sendError 400 cause) p w.
Proof.
  intros Hs Hi. exists (Some 400), (set_executor None p). split; [apply answers_modify, sendError_answers|].
  split; [|done]. unfold stage_of in *. simpl. rewrite Hi in *. destruct (ap_theExecutor p); [|done].
  injection Hs as ->. apply life_exited.
Qed.

Lemma invoke_leads o ticks polls st body p w :
  stage_of p = Alive o → ap_initialized p = true → leads (Alive o) (invoke ticks polls st body) p w.
Proof.
  intros Hs Hi. unfold invoke. destruct (prepare_ends body env p w) as (prep & w1 & Hp & _).
  eapply leads_inner; [apply emits_quiet_inner, prepare_quiet|exact Hp|].
  apply leads_executor; [done|done|apply interact_silent|]. clear p w w1 Hs Hi Hp. intros i p w Hs Hi.
  assert (Hend : leads (Alive o) (match in_answer i with
    | Some answer => finish_run st answer (in_energy i) (merge_lifecycle (in_lifecycle i) (pp_meta prep))
    | None => modify (set_executor None);; sendError 400 "command exited" end) p w)
    by (destruct (in_answer i); [by apply finish_leads|by apply exit_leads]).
  destruct (in_killInfo i); [|by destruct (in_energy i)]. destruct (in_energy i); [by apply kill_leads|].
  exists None, p. split; [by exists []|]. rewrite Hs. split; [apply life_waiting|done].
Qed.

Lemma run_leads ticks polls request o p w :
  stage_of p = Alive o → ap_initialized p = true → leads (Alive o) (runHandler ticks polls request) p w.
Proof.
  intros Hs Hi. pose proof (λ S, @readEnergy_reads S). pose proof (λ S pid, @readCPUSnapshot_reads S pid).
  assert (Hx : ∃ x, ap_theExecutor p = Some x).
  { unfold stage_of in Hs. rewrite Hi in Hs. destruct (ap_theExecutor p); [by eexists|done]. }
  destruct Hx as [x Hx].
  assert (Hrefuse : ∀ code cause p1 w1, code ∈ [400; 500; 502] → stage_of p1 = Alive o → ap_initialized p1 = true →
    leads (Alive o) (sendError code cause) p1 w1)
    by (intros; apply leads_refused; [done..|by apply life_bad]).
  unfold runHandler, now_wall.
  apply leads_reads; [auto with emits|auto with reads|]. intros start w1.
  apply leads_reads; [auto with emits|auto with reads|]. intros reading w2.
  eapply leads_inner; [auto with emits|reflexivity|]. rewrite Hx.
  apply leads_reads; [solve_emits ltac:(done)|solve_reads|]. intros _ w3.
  destruct request as [body|]; [|apply Hrefuse; [set_solver|done..]].
  apply leads_reads; [auto with emits|auto with reads|]. intros cpu w4.
  apply leads_executor; [done|done| |].
  { destruct (exited_inner env p w4 I) as [(new & Ht & Hf) _]. exists new. split; [done|by apply status_inner]. }
  intros [] p1 w5 Hs1 Hi1; [apply Hrefuse; [set_solver|done..]|by apply invoke_leads].
Qed.
End run.

(** ** Requests that change nothing *)

(** [says env m p w l]: run from [p], [m] returns, changes nothing and shows [l]. *)
Definition says (env : Env) (m : M ActionProxy ()) (p : ActionProxy) (w : io) (l : list event) : Prop :=
  ∃ w' new, m env p w = Done tt p w' ∧ io_trace w' = new ++ io_trace w ∧ visible new = l.

Lemma says_inner {A} env (m : M ActionProxy A) (k : A → M ActionProxy ()) p w a w1 l :
  emits inner m → m env p w = Done a p w1 → says env (k a) p w1 l → says env (m ≫= k) p w l.
Proof.
  intros Hm Hr (w' & n2 & H2 & Ht & Hv). destruct (Hm env p w I) as [(n1 & H1 & Hf) _]. rewrite Hr in H1.
  exists w', (n2 ++ n1). rewrite (run_done _ _ _ _ _ _ _ _ Hr). simpl in H1. rewrite Ht, H1, app_assoc.
  split; [done|]. split; [done|]. by rewrite visible_app, (visible_inner n1), app_nil_r.
Qed.

Lemma says_reads {A} env (m : M ActionProxy A) (k : A → M ActionProxy ()) p w l :
  emits inner m → reads m → (∀ a w1, says env (k a) p w1 l) → says env (m ≫= k) p w l.
Proof. intros Hm Hr Hk. destruct (Hr env p w) as (a & w1 & H1). by eapply says_inner. Qed.

Lemma says_error env code cause p w :
  says env (sendError code cause) p w [EvRespond code (JObj [("error"%string, JStr cause)])].
Proof. by eexists _, [_]. Qed.

Lemma says_answers env m p w l : says env m p w l → answers env m p w (status l) p.
Proof.
  intros (w' & new & Hr & Ht & Hv). exists new. rewrite Hr. split; [done|]. split; [|done].
  by rewrite <-status_visible, Hv.
Qed.

(** Without an action, a request to [/run] is refused. *)
Lemma run_unserved env ticks polls request p w :
  ap_theExecutor p = None →
  ∃ c j, c ∈ [400; 500] ∧ says env (runHandler ticks polls request) p w [EvRespond c j].
Proof.
  intros Hx. pose proof (λ S, @readEnergy_reads S).
  assert (Hk : ∃ c j, c ∈ [400; 500] ∧ ∀ w, says env (match request with
    | inr _ => sendError 400 "Error reading request body"
    | inl _ => sendError 500 "no action defined yet" end) p w [EvRespond c j]).
  { destruct request; [exists 500|exists 400]; eexists; (split; [set_solver|]); intros w1; apply says_error. }
  destruct Hk as (c & j & Hc & Hk). exists c, j. split; [done|]. unfold runHandler, now_wall.
  apply says_reads; [auto with emits|auto with reads|]. intros start w1.
  apply says_reads; [auto with emits|auto with reads|]. intros reading w2.
  eapply says_inner; [auto with emits|reflexivity|]. rewrite Hx.
  apply says_reads; [auto with emits|auto with reads|]. intros _ w3.
  destruct request; apply Hk.
Qed.

(** An initialized container is not initialized again. *)
Lemma init_again env request p w :
  env_debugging env = false → ap_initialized p = true →
  ∃ j, says env (initHandler request) p w [EvRespond 403 j].
Proof.
  intros Hd Hi. destruct (second_init_is_refused request env p w Hi Hd) as (w' & new & Hr & Ht & Hv & _).
  eexists _, w', new. split; [done|]. by rewrite Hv.
Qed.

Lemma metric_says env p w : ∃ c j, c ∈ [200; 503] ∧ says env metricHandler p w [EvRespond c j].
Proof.
  unfold metricHandler, says. rewrite run_gets.
  destruct (ap_metrics p); (eexists _, _; split; [|by eexists _, [_]]; set_solver).
Qed.

(** ** One request *)

Section request.
Context (env : Env) (Hd : env_debugging env = false).

Definition obeys (p : ActionProxy) (path : string) (w : io) (r : outcome ActionProxy ()) : Prop :=
  ∃ new, io_trace (out_io r) = new ++ io_trace w ∧
    life (stage_of p) path (status new) (stage_of (out_st r)) ∧ proxy_ok (out_st r).

Lemma says_obeys p path w m l :
  says env m p w l → life (stage_of p) path (status l) (stage_of p) → proxy_ok p → obeys p path w (m env p w).
Proof. intros (new & Ht & Hs & Hp)%says_answers Hl Hok. exists new. by rewrite Hs, Hp. Qed.

Lemma init_obeys request p w : proxy_ok p → obeys p "/init" w (initHandler request env p w).
Proof.
  intros Hok. destruct (ap_initialized p) eqn:Hi.
  { destruct (init_again env request p w Hd Hi) as [j Hs]. eapply says_obeys; [exact Hs| |done].
    apply life_again. unfold stage_of. rewrite Hi. by destruct (ap_theExecutor p). }
  destruct (Hok Hi) as [Hx Hp].
  destruct (init_ends None None (ap_metrics p) request env p w) as (new & Ht & Hq); [done|].
  exists new. split; [done|]. rewrite <-status_visible.
  assert (Hblank : stage_of p = Blank) by (unfold stage_of; by rewrite Hi).
  assert (Hidle : ∀ p', idle None None (ap_metrics p) p' → stage_of p' = Blank ∧ proxy_ok p').
  { intros p' (Hi' & Hx' & Hp' & _). split; [unfold stage_of; by rewrite Hi'|]. split; [by apply Hx'|done]. }
  rewrite Hblank. destruct (initHandler request env p w) as [a p' w'|p' w'|msg p' w']; simpl.
  2, 3: destruct Hq as [Hq ->]; destruct (Hidle p' Hq) as [-> ?]; split; [apply life_stuck|done].
  destruct Hq as [(-> & Hi' & (x & Hx' & _) & Hp')|[Hq (code & j & Hc & Hv)]].
  - split; [|by intros ?; congruence]. unfold stage_of. rewrite Hi', Hx', bool_decide_true by done.
    apply life_installed.
  - destruct (Hidle p' Hq) as [-> ?]. split; [|done].
    assert (status (visible new) = Some code) as -> by (by destruct Hv as [->|[line ->]]).
    by apply life_refused.
Qed.

Lemma run_obeys ticks polls request p w : proxy_ok p → obeys p "/run" w (runHandler ticks polls request env p w).
Proof.
  intros Hok. destruct (ap_theExecutor p) as [x|] eqn:Hx.
  - assert (Hi : ap_initialized p = true).
    { destruct (ap_initialized p) eqn:Hi; [done|]. destruct (Hok Hi). congruence. }
    assert (Hs : ∃ o, stage_of p = Alive o) by (unfold stage_of; rewrite Hi, Hx; by eexists).
    destruct Hs as [o Hs].
    destruct (run_leads env ticks polls request o p w Hs Hi) as (c & p' & (new & Ht & Hc & Hp) & Hl & Hi').
    exists new. rewrite Hc, Hp, Hs. split; [done|]. split; [done|]. intros ?. congruence.
  - destruct (run_unserved env ticks polls request p w Hx) as (c & j & Hc & Hs).
    eapply says_obeys; [exact Hs| |done]. apply life_unserved; [|done].
    unfold stage_of. rewrite Hx. by destruct (ap_initialized p).
Qed.

Lemma request_obeys ticks polls path request p w :
  proxy_ok p → obeys p path w (ServeHTTP ticks polls path request env p w).
Proof.
  intros Hok. unfold ServeHTTP. destruct (String.eqb_spec path "/init") as [->|H1]; [by apply init_obeys|].
  destruct (String.eqb_spec path "/run") as [->|H2]; [by apply run_obeys|].
  destruct (String.eqb_spec path "/metric") as [->|H3].
  - destruct (metric_says env p w) as (c & j & Hc & Hs). eapply says_obeys; [exact Hs| |done]. by apply life_metric.
  - exists []. split; [done|]. split; [|done]. apply life_other. set_solver.
Qed.
End request.

(** ** Histories *)

Lemma lives_snoc s h x s' : lives s (h ++ [x]) s' ↔ ∃ m, lives s h m ∧ life m x.1 x.2 s'.
Proof.
  split; [|intros (m & H1 & H2); destruct x; by eapply lives_next].
  remember (h ++ [x]) as l eqn:Heq. intros Hl. revert h x Heq.
  destruct Hl as [s|s h0 m path c s' Hl Hx]; intros h x Heq; [by destruct (app_cons_not_nil h [] x)|].
  apply app_inj_tail in Heq as [-> <-]. by exists m.
Qed.

Lemma lives_nil s s' : lives s [] s' ↔ s' = s.
Proof.
  split; [|intros ->; constructor]. intros Hl. inversion Hl as [|? h m path c ? ? ? Heq]; simplify_eq; [done|].
  by destruct (app_cons_not_nil h [] (path, c)).
Qed.

Lemma lives_app s h1 h2 s' : lives s (h1 ++ h2) s' ↔ ∃ m, lives s h1 m ∧ lives m h2 s'.
Proof.
  revert s'. induction h2 as [|x h2 IH] using rev_ind; intros s'.
  - rewrite app_nil_r. setoid_rewrite lives_nil. naive_solver.
  - rewrite app_assoc, lives_snoc. setoid_rewrite lives_snoc. setoid_rewrite IH. naive_solver.
Qed.

Lemma lives_cons s x h s' : lives s (x :: h) s' ↔ ∃ m, life s x.1 x.2 m ∧ lives m h s'.
Proof.
  change (x :: h) with ([] ++ [x] ++ h). rewrite app_assoc, lives_app. setoid_rewrite lives_snoc.
  setoid_rewrite lives_nil. naive_solver.
Qed.

(** Once initialized, always initialized. *)
Lemma lives_initialized s h s' :
  lives s h s' → s ≠ Blank → s' ≠ Blank ∧ ∀ c, ("/init"%string, c) ∈ h → c = Some 403.
Proof.
  induction 1 as [s|s h s1 path c s2 Hl IH Hx]; intros Hs; [split; [done|set_solver]|].
  destruct (IH Hs) as [H1 Hc]. split; [by inversion Hx; simplify_eq|].
  intros c' [?|Hin%list_elem_of_singleton]%elem_of_app; [by apply Hc|]. by inversion Hx; simplify_eq; set_solver.
Qed.

(** Before the initialization, nothing is served. *)
Lemma lives_blank s h s' :
  lives s h s' → s' = Blank → s = Blank ∧ ∀ c, ("/run"%string, c) ∈ h → c ∈ [Some 400; Some 500].
Proof.
  induction 1 as [s|s h s1 path c s2 Hl IH Hx]; intros Hs; [split; [done|set_solver]|].
  assert (s1 = Blank) as -> by (inversion Hx; congruence). destruct (IH eq_refl) as [-> Hc].
  split; [done|]. intros c' [?|Hin%list_elem_of_singleton]%elem_of_app; [by apply Hc|].
  inversion Hx; simplify_eq; set_solver.
Qed.

(** The measurement of [/init] is owed until it is handed over, and then never
    again. *)
Lemma lives_owed h s s' : lives s h s' → s = Alive false → s' ∈ [Alive false; Dead false].
Proof.
  induction 1 as [s|s h s1 path c s2 Hl IH Hx]; intros ->; [set_solver|].
  specialize (IH eq_refl). inversion Hx; set_solver.
Qed.

Lemma history_obeys env p w h p' w' :
  env_debugging env = false → proxy_ok p → history env p w h p' w' →
  lives (stage_of p) h (stage_of p') ∧ proxy_ok p'.
Proof.
  intros Hd Hok. induction 1 as [p w|p w h p' w' ticks polls path request Hh IH r]; [split; [constructor|done]|].
  destruct (IH Hok) as [Hl Hok']. subst r.
  destruct (request_obeys env Hd ticks polls path request p' w' Hok') as (new & Ht & Hx & Hok'').
  split; [|done]. eapply lives_next; [exact Hl|]. by rewrite (added_new _ _ _ Ht).
Qed.

Lemma new_proxy_blank {S} base compiler chan env (s s' : S) w w' p :
  NewActionProxy base compiler chan env s w = Done p s' w' → stage_of p = Blank ∧ proxy_ok p.
Proof.
  unfold NewActionProxy, highestDir, syscall. run. unfold mbind, M_bind at 1, run_in.
  destruct (warmSchedulerAddress env chan _) as [[] c w1| |]; [|done..]. cbn. intros Hr. injection Hr as <- _ _. done.
Qed.

(** A request to a dead container. *)
Lemma dead_request env ticks polls path request p w :
  env_debugging env = false → ap_initialized p = true → ap_theExecutor p = None →
  ∃ w' new, ServeHTTP ticks polls path request env p w = Done tt p w' ∧ io_trace w' = new ++ io_trace w ∧
    (∀ line, EvStdin line ∉ new) ∧ (path = "/run"%string → status new ∈ [Some 400; Some 500]).
Proof.
  intros Hd Hi Hx.
  assert (Hsays : ∀ m c j, says env m p w [EvRespond c j] → (path = "/run"%string → c ∈ [400; 500]) →
    ∃ w' new, m env p w = Done tt p w' ∧ io_trace w' = new ++ io_trace w ∧
      (∀ line, EvStdin line ∉ new) ∧ (path = "/run"%string → status new ∈ [Some 400; Some 500])).
  { intros m c j (w' & new & Hr & Ht & Hv) Hc. exists w', new. split; [done|]. split; [done|]. split.
    - intros line Hin. assert (H : EvStdin line ∈ visible new) by (apply list_elem_of_filter; by split; [intros []|]).
      rewrite Hv in H. by apply list_elem_of_singleton in H.
    - intros Hp. rewrite <-status_visible, Hv. specialize (Hc Hp). simpl. set_solver. }
  unfold ServeHTTP. destruct (String.eqb_spec path "/init") as [->|H1].
  { destruct (init_again env request p w Hd Hi) as [j Hs]. by eapply Hsays. }
  destruct (String.eqb_spec path "/run") as [->|H2].
  { destruct (run_unserved env ticks polls request p w Hx) as (c & j & Hc & Hs). by eapply Hsays. }
  destruct (path =? "/metric")%string.
  { destruct (metric_says env p w) as (c & j & Hc & Hs). by eapply Hsays. }
  exists w, []. split; [done|]. split; [done|]. split; [intros; apply not_elem_of_nil|done].
Qed.

(** ** Theorems *)

Section container.
Context (env : Env) (Hd : env_debugging env = false).

(** C11: the container implements its specification (outside of [-debug]):
    whatever requests a fresh proxy gets, in whatever order, each status and each
    change of stage is one the state machine allows. *)
Theorem container_refines_lifecycle base compiler chan w0 p w h p' w' :
  NewActionProxy base compiler chan env () w0 = Done p () w →
  history env p w h p' w' → lives Blank h (stage_of p').
Proof.
  intros [Hb Hok]%new_proxy_blank Hh. rewrite <-Hb. by apply (history_obeys env p w h p' w').
Qed.

(** A container is initialized once in its life: before the [/init] that succeeds
    no [/run] is served, and after it every [/init] gets 403. *)
Theorem one_initialization base compiler chan w0 p w before after p' w' :
  NewActionProxy base compiler chan env () w0 = Done p () w →
  history env p w (before ++ ("/init"%string, Some 200) :: after) p' w' →
  (∀ c, ("/init"%string, c) ∈ before → c ≠ Some 200) ∧
  (∀ c, ("/run"%string, c) ∈ before → c ∈ [Some 400; Some 500]) ∧
  (∀ c, ("/init"%string, c) ∈ after → c = Some 403).
Proof.
  intros [Hb Hok]%new_proxy_blank Hh.
  destruct (history_obeys env p w _ p' w' Hd Hok Hh) as [Hl _]. rewrite Hb in Hl.
  apply lives_app in Hl as (m & H1 & (m' & Hx & H2)%lives_cons). inversion Hx; simplify_eq; [|set_solver].
  split; [|split; [by eapply lives_blank|by eapply lives_initialized]].
  intros c Hin ->. apply list_elem_of_split in Hin as (l1 & l2 & ->).
  apply lives_app in H1 as (m & H1 & (m' & Hx' & H3)%lives_cons). inversion Hx'; simplify_eq; [|set_solver].
  by destruct (lives_initialized _ _ _ H3) as [? _].
Qed.

(** The measurement of [/init] is handed over once: after the first answer to
    [/run] none is waiting, and none will ever wait again. *)
Theorem init_measured_once base compiler chan w0 p w before after p' w' :
  NewActionProxy base compiler chan env () w0 = Done p () w →
  history env p w (before ++ ("/run"%string, Some 200) :: after) p' w' →
  ap_pendingInitEntry p' = None.
Proof.
  intros [Hb Hok]%new_proxy_blank Hh.
  destruct (history_obeys env p w _ p' w' Hd Hok Hh) as [Hl _]. rewrite Hb in Hl.
  apply lives_app in Hl as (m & H1 & (m' & Hx & H2)%lives_cons).
  assert (Hm : m' = Alive false) by (inversion Hx; simplify_eq; set_solver).
  apply lives_owed in H2; [|done]. unfold stage_of in H2.
  destruct (ap_initialized p'), (ap_theExecutor p'), (ap_pendingInitEntry p'); simpl in H2; set_solver.
Qed.

(** C35: a container whose action is gone (killed for its energy, or exited) is
    gone, outside of [-debug]: its proxy never changes again, no action hears a
    thing, and every [/run] is refused. *)
Theorem dead_container_is_refused p w h p' w' :
  ap_initialized p = true → ap_theExecutor p = None → history env p w h p' w' →
  p' = p ∧ (∀ c, ("/run"%string, c) ∈ h → c ∈ [Some 400; Some 500]) ∧
  ∃ new, io_trace w' = new ++ io_trace w ∧ ∀ line, EvStdin line ∉ new.
Proof.
  intros Hi Hx. induction 1 as [p w|p w h p' w' ticks polls path request Hh IH r].
  { split; [done|]. split; [set_solver|]. exists []. split; [done|]. intros. apply not_elem_of_nil. }
  destruct (IH Hi Hx) as (-> & Hc & n1 & H1 & Hn1).
  destruct (dead_request env ticks polls path request p w' Hd Hi Hx) as (w2 & n2 & Hr & H2 & Hn2 & Hs).
  subst r. rewrite Hr. simpl. rewrite (added_new _ _ _ H2). split; [done|]. split.
  - intros c [?|Heq%list_elem_of_singleton]%elem_of_app; [by apply Hc|]. injection Heq as Hp' ->. by apply Hs.
  - exists (n2 ++ n1). rewrite H2, H1, app_assoc. split; [done|]. intros line [Hin|Hin]%elem_of_app; [by apply (Hn2 line)|by apply (Hn1 line)].
Qed.
End container.

(** ** Sample lives *)

(** The history of a list of requests, evaluated. *)
Definition serve_request (env : Env) (acc : list (string * option Z) * ActionProxy * io)
    (request : string * (http_body + goerr)) : list (string * option Z) * ActionProxy * io :=
  let '(h, p, w) := acc in
  let r := ServeHTTP 20 20 request.1 request.2 env p w in
  (h ++ [(request.1, status (added w (out_io r)))], out_st r, out_io r).

Lemma serve_requests_history env p w requests h p' w' :
  foldl (serve_request env) ([], p, w) requests = (h, p', w') → history env p w h p' w'.
Proof.
  revert h p' w'. induction requests as [|[path request] requests IH] using rev_ind; intros h p' w'.
  - intros [= <- <- <-]. constructor.
  - rewrite foldl_app. simpl. destruct (foldl _ _ requests) as [[h1 p1] w1].
    intros [= <- <- <-]. by apply history_next, IH.
Qed.

Definition new_pod : outcome () ActionProxy :=
  NewActionProxy "./action" "" (mon_chan sample_mon) pod () io_start.

(** The proxy of a fresh pod. *)
Definition pod_proxy : ActionProxy := default fresh_proxy (out_val new_pod).

Definition pod_requests : list (string * (http_body + goerr)) :=
  [("/run", inl (BodyJson (JObj []))); ("/init", inr (EMsg "EOF")); ("/init", init_request); ("/run", inl (BodyJson (JObj [])));
   ("/init", init_request); ("/metric", inl (BodyJson (JObj [])))]%string.

Definition pod_life : list (string * option Z) * ActionProxy * io :=
  foldl (serve_request pod) ([], pod_proxy, out_io new_pod) pod_requests.

Definition pod_history : list (string * option Z) :=
  [("/run", Some 500); ("/init", Some 400); ("/init", Some 200); ("/run", Some 200); ("/init", Some 403);
   ("/metric", Some 200)]%string.

Lemma pod_lives : history pod pod_proxy (out_io new_pod) pod_history pod_life.1.2 pod_life.2.
Proof.
  apply (serve_requests_history pod pod_proxy (out_io new_pod) pod_requests).
  change (foldl _ _ _) with pod_life. assert (H : pod_life.1.1 = pod_history) by (vm_compute; reflexivity).
  destruct pod_life as [[h p] w]. simpl in *. by rewrite H.
Qed.

Lemma container_refines_lifecycle_witness : lives Blank pod_history (stage_of pod_life.1.2).
Proof.
  apply (container_refines_lifecycle pod eq_refl "./action" "" (mon_chan sample_mon) io_start pod_proxy
    (out_io new_pod) pod_history pod_life.1.2 pod_life.2); [vm_compute; reflexivity|exact pod_lives].
Defined.

Lemma one_initialization_witness :
  Forall (λ x, x.1 = "/init"%string → x.2 = Some 403)
    [("/run", Some 200); ("/init", Some 403); ("/metric", Some 200)]%string.
Proof.
  apply Forall_forall. intros [path c] Hin Hp. simpl in Hp. subst path. revert c Hin.
  apply (one_initialization pod eq_refl "./action" "" (mon_chan sample_mon) io_start pod_proxy
    (out_io new_pod) [("/run", Some 500); ("/init", Some 400)]%string _ pod_life.1.2 pod_life.2);
    [vm_compute; reflexivity|exact pod_lives].
Defined.

Lemma init_measured_once_witness : ap_pendingInitEntry pod_life.1.2 = None.
Proof.
  apply (init_measured_once pod eq_refl "./action" "" (mon_chan sample_mon) io_start pod_proxy
    (out_io new_pod) [("/run", Some 500); ("/init", Some 400); ("/init", Some 200)]%string
    [("/init", Some 403); ("/metric", Some 200)]%string pod_life.1.2 pod_life.2);
    [vm_compute; reflexivity|exact pod_lives].
Defined.

Definition dead_proxy : ActionProxy := set_executor None (set_initialized true pod_proxy).

Definition dead_life : list (string * option Z) * ActionProxy * io :=
  foldl (serve_request pod) ([], dead_proxy, io_start) pod_requests.

Lemma dead_lives : history pod dead_proxy io_start dead_life.1.1 dead_life.1.2 dead_life.2.
Proof.
  apply (serve_requests_history pod dead_proxy io_start pod_requests). change (foldl _ _ _) with dead_life.
  by destruct dead_life as [[h p] w].
Qed.

Lemma dead_container_is_refused_witness : dead_life.1.2 = dead_proxy ∧ dead_life.1.1 !! 3%nat = Some ("/run"%string, Some 500).
Proof.
  split; [|vm_compute; reflexivity].
  exact (proj1 (dead_container_is_refused pod eq_refl dead_proxy io_start dead_life.1.1 dead_life.1.2 dead_life.2
    eq_refl eq_refl dead_lives)).
Defined.
