(* ===== verification/CommandLine.v ===== *)
(** * The command line ([main/proxy.go]; [ExtractAndCompileIO] and [Start] of
    [openwhisk/actionProxy.go])

    What the process does with its flags: print its version, compile the action read
    from the standard input and write it back as an archive, or serve requests until
    it is killed.  [log.Fatal] is the result [Some err]: the process exits with
    status 1. *)

From S2P Require Import Prelude Float64 GoStrings Json Effects Paths Archives Packing.
From S2P Require Import Freezer Channel Monitor Recording Executor RunHandler InitHandler Container.

Local Open Scope Z_scope.

(** ** Compiling on the fly *)

(** The variables of [-env], parsed; what is not an object gives none. *)
Definition env_vars (env : http_body) : gomap :=
  match env with BodyJson (JObj l) => members_map l | _ => ∅ end.

Definition ExtractAndCompileIO (input : string + goerr) (main : string) (env : http_body) :
    M ActionProxy (option goerr) :=
  match input with
  | inr err => mret (Some err)
  | inl buf =>
      SetEnv (env_vars env);;
      r ← ExtractAndCompile buf main;
      match r.2 with
      | Some err => mret (Some err)
      | None =>
          zip ← Zip (path_dir r.1);
          match zip with
          | inr err => mret (Some err)
          | inl zip => syscall "write stdout" zip
          end
      end
  end.

(** ** Serving *)

Record request := Request {
  rq_ticks : nat;
  rq_polls : nat;
  rq_path : string;
  rq_body : http_body + goerr
}.

(** [Start]: [net/http] recovers a handler that panics, and goes on beside one that
    waits; after the last of [requests] the server waits for another. *)
Fixpoint Start (requests : list request) : M ActionProxy (option goerr) :=
  match requests with
  | [] => blocked
  | r :: requests => λ env p w,
      let o := ServeHTTP (rq_ticks r) (rq_polls r) (rq_path r) (rq_body r) env p w in
      Start requests env (out_st o) (out_io o)
  end.

(** ** The process *)

Record flags := {
  fl_version : bool;
  fl_debug : bool;
  fl_compile : string;
  fl_env : http_body
}.

(** [os.Setenv] on the list of [os.Environ]. *)
Definition environ_set (name value : string) (environ : list string) : list string :=
  let mine v := has_prefix v (name +:+ "=") in
  let entry := (name +:+ "=" +:+ value)%string in
  if existsb mine environ then (λ v, if mine v then entry else v) <$> environ else environ ++ [entry].

(** The process after [-debug]. *)
Definition debugged (env : Env) : Env :=
  with_process (λ n, if (n =? "OW_DEBUG")%string then "1"%string else env_getenv env n)
    (environ_set "OW_DEBUG" "1" (env_environ env)) true env.

Definition in_debug {S A} (debug : bool) (m : M S A) : M S A :=
  λ env, m (if debug then debugged env else env).

(** The cache of the scheduler's address when the process starts. *)
Definition cold_chan : Chan :=
  {| ch_addr := no_address; ch_rec := None; ch_deadline := None |}.

(** The state is the proxy, once there is one; [goversion] is [runtime.Version]. *)
Definition main (goversion : string) (fl : flags) (stdin : string + goerr) (requests : list request) :
    M (option ActionProxy) (option goerr) :=
  if fl_version fl then
    syscall "write stdout" ("OpenWhisk ActionLoop Proxy v" +:+ Version +:+ ", built with " +:+ goversion +:+ String "010" "");;
    mret None
  else
    in_debug (fl_debug fl)
      (compiler ← getenv "OW_COMPILER";
       ap ← NewActionProxy "./action" compiler cold_chan;
       r ← run_in (λ _, ap) (λ p _, Some p)
             (if (fl_compile fl =? "")%string then Start requests
              else ExtractAndCompileIO stdin (fl_compile fl) (fl_env fl));
       mret r.1).

(** ** The standard output *)

Definition no_output (e : event) : Prop := match e with EvSyscall op _ => op ≠ "write stdout"%string | _ => True end.

Lemma unzip_silent {S} src dest : emits no_output (Unzip src dest : M S _).
Proof.
  assert (Hl : ∀ l, emits no_output (extract_all dest l : M S _)).
  { induction l as [|f l IH]; cbn [extract_all]; [auto with emits|].
    unfold extract_zip_entry, mkdir_all, syscall, write_file. solve_emits ltac:(done). }
  unfold Unzip, mkdir_all, syscall. solve_emits ltac:(done).
Qed.

Lemma untar_silent {S} src dest : emits no_output (UnTar src dest : M S _).
Proof.
  assert (Hl : ∀ l last, emits no_output (untar_all dest l last : M S _)).
  { intros l last. induction l as [|h l IH]; cbn [untar_all]; [auto with emits|].
    unfold extract_tar_entry, syscall, write_file. solve_emits ltac:(done). }
  unfold UnTar, mkdir_all, syscall. solve_emits ltac:(done).
Qed.

#[local] Hint Resolve unzip_silent untar_silent : emits.

Lemma compile_silent buf main : emits no_output (ExtractAndCompile buf main).
Proof.
  unfold ExtractAndCompile, ExtractAction, UnzipOrSaveJar, isCompiled, CompileAction, mkdir_all, syscall,
    read_file, write_file.
  solve_emits ltac:(done).
Qed.

Lemma setenv_silent vars : emits no_output (SetEnv vars).
Proof. unfold SetEnv. solve_emits ltac:(done). Qed.

(** What a body that has added [new] to the trace may have written: on success a whole
    archive, as its last act; otherwise nothing, unless it is that write that failed. *)
Definition printed {S} (env : Env) (o : outcome S (option goerr)) (new : list event) : Prop :=
  match o with
  | Done None _ _ => ∃ buf rest, new = EvSyscall "write stdout" buf :: rest ∧ Forall no_output rest
  | Done (Some err) _ _ =>
      Forall no_output new ∨
      ∃ buf rest i, new = EvSyscall "write stdout" buf :: rest ∧ Forall no_output rest ∧
        env_syscall env i "write stdout" buf = Some err
  | _ => Forall no_output new
  end.

Definition prints {S} (m : M S (option goerr)) : Prop := ∀ env s w,
  ∃ new, io_trace (out_io (m env s w)) = new ++ io_trace w ∧ printed env (m env s w) new.

Section prints.
Context {S : Type}.

Lemma printed_app env (o : outcome S (option goerr)) n2 n1 :
  printed env o n2 → Forall no_output n1 → printed env o (n2 ++ n1).
Proof.
  intros Ho Hn. destruct o as [[err|] s w|s w|msg s w]; simpl in *; [| |by apply Forall_app..].
  - destruct Ho as [Ho|(buf & rest & i & -> & Hr & He)]; [left; by apply Forall_app|right].
    exists buf, (rest ++ n1), i. split; [done|]. split; [by apply Forall_app|done].
  - destruct Ho as (buf & rest & -> & Hr). exists buf, (rest ++ n1). split; [done|]. by apply Forall_app.
Qed.

Lemma prints_bind {A} (m : M S A) k : emits no_output m → (∀ a, prints (k a)) → prints (m ≫= k).
Proof.
  intros Hm Hk env s w. destruct (Hm env s w Logic.I) as [(n1 & H1 & Hf) _]. unfold mbind, M_bind.
  destruct (m env s w) as [a s' w'|s' w'|msg s' w']; simpl in *; [|by exists n1..].
  destruct (Hk a env s' w') as (n2 & H2 & Hp). exists (n2 ++ n1). rewrite H2, H1, app_assoc.
  split; [done|]. by apply printed_app.
Qed.

Lemma prints_fail err : prints (mret (Some err) : M S _).
Proof. intros env s w. exists []. split; [done|]. by left. Qed.

Lemma prints_write buf : prints (syscall "write stdout" buf : M S _).
Proof.
  intros env s w. exists [EvSyscall "write stdout" buf]. split; [done|]. unfold syscall, effect, printed.
  destruct (env_syscall env (io_step w) "write stdout" buf) eqn:He; [right; exists buf, [], (io_step w); done|].
  by exists buf, [].
Qed.
End prints.

(** The compiler mode writes nothing but a whole archive: the only write to the
    standard output is the last thing it does, and a process that fails before,
    for whatever reason, has written nothing. *)
Theorem compile_mode_writes_once input main vars : prints (ExtractAndCompileIO input main vars).
Proof.
  unfold ExtractAndCompileIO. destruct input as [buf|err]; [|apply prints_fail].
  apply prints_bind; [apply setenv_silent|]. intros [].
  apply prints_bind; [apply compile_silent|]. intros [file [err|]]; [apply prints_fail|].
  apply prints_bind; [unfold Zip; solve_emits ltac:(done)|]. intros [zip|err]; [apply prints_write|apply prints_fail].
Qed.

(** ** What is written can be installed *)

(** [ExtractAction] of a zip, when no jar is kept. *)
Lemma extract_unzips buf suffix env q v :
  IsZip buf = true → env_getenv env "OW_SAVE_JAR" = ""%string →
  let q' := set_currentDir (ap_currentDir q +! 1)%go q in
  let dest := action_dir (ap_baseDir q') (ap_currentDir q') suffix in
  ExtractAction buf suffix env q v =
    (err ← Unzip buf dest; mret ((dest +:+ "/exec")%string, err)) env q' (advance env 0 [EvSyscall "mkdirall" dest] v).
Proof.
  intros Hz Hj q' dest. unfold ExtractAction, mkdir_all, syscall. destruct buf as [|a buf]; [done|].
  rewrite (proj2 (String.eqb_neq (String a buf) "")) by done. run. rewrite Hz. run. by rewrite Hj.
Qed.

(** C37: what the compiler mode writes installs what it compiled: when the action
    compiles and the directory of its executable can be read, the archive is
    written, and an [/init] that receives it lays out the same files, links and
    directories as the sources of its action. *)
Theorem compile_mode_roundtrip input main vars env p w file p2 w2 l :
  writable env →
  (SetEnv (env_vars vars);; ExtractAndCompile input main) env p w = Done (file, None) p2 w2 →
  path_elems (path_dir file) ≠ [] →
  env_tree env (io_step w2) (clean_path (path_dir file)) = NDir l → packable (NDir l) = true →
  (∀ entries, walk (clean_path (path_dir file)) (clean_path (path_dir file)) (NDir l) = inl entries →
     env_zip env (env_zip_bytes env entries) = Some entries ∧ IsZip (env_zip_bytes env entries) = true) →
  ∃ buf w3,
    ExtractAndCompileIO (inl input) main vars env p w = Done None p2 w3 ∧
    io_trace w3 = EvSyscall "write stdout" buf :: EvRead (clean_path (path_dir file)) :: io_trace w2 ∧
    ∀ q v fs, env_getenv env "OW_SAVE_JAR" = ""%string →
      let dest := action_dir (ap_baseDir q) (ap_currentDir q +! 1)%go "src" in
      path_elems dest ≠ [] → (∀ r, r ≠ [] → fs !! (path_elems dest ++ r) = None) →
      ∃ v' new,
        ExtractAction buf "src" env q v =
          Done ((dest +:+ "/exec")%string, None) (set_currentDir (ap_currentDir q +! 1)%go q) v' ∧
        io_trace v' = new ++ io_trace v ∧
        ∀ r o, r ≠ [] → (replay new fs !! (path_elems dest ++ r) = Some o ↔ (r, o) ∈ items [] (NDir l)).
Proof.
  intros Hw Hc Hd Ht Hp Hz. destruct (Hz _ (walk_root _ l (tidy_clean _ Hd) Hp)) as [Hzip Hmagic].
  set (buf := env_zip_bytes env (entry_of <$> tops l)) in *. exists buf, (advance env 0 [EvSyscall "write stdout" buf] (advance env 0 [EvRead (clean_path (path_dir file))] w2)).
  split; [|split; [reflexivity|]].
  - unfold ExtractAndCompileIO, mbind, M_bind in *.
    destruct (SetEnv (env_vars vars) env p w) as [[] p1 w1| |]; [|done..]. rewrite Hc. cbn [fst snd].
    rewrite (zip_packs _ l) by done. unfold syscall, effect. by rewrite (proj1 Hw).
  - intros q v fs Hj dest Hdest Hfs. rewrite extract_unzips by done. cbn zeta.
    set (q' := set_currentDir _ q). change (action_dir _ _ "src") with dest.
    destruct (unzip_lays buf dest l env q' (advance env 0 [EvSyscall "mkdirall" dest] v) Hdest Hp Hw Hzip)
      as (v' & new & Hu & Htr & Hr).
    exists v', (new ++ [EvSyscall "mkdirall" dest]). unfold mbind, M_bind. rewrite Hu.
    split; [done|]. split; [by rewrite Htr, <-app_assoc|]. intros r o Hne.
    rewrite items_root, replay_app by done. apply Hr; [|done]. by apply make_dirs_fresh.
Qed.

(** ** The serving process *)

Lemma start_serves env requests : ∀ p0 w0 h p w,
  history env p0 w0 h p w →
  ∃ h' p' w', Start requests env p w = Cut p' w' ∧ history env p0 w0 (h ++ h') p' w' ∧ h'.*1 = rq_path <$> requests.
Proof.
  induction requests as [|r requests IH]; intros p0 w0 h p w Hh; [exists [], p, w; by rewrite app_nil_r|].
  destruct (IH p0 w0 _ _ _ (history_next env _ _ _ _ _ (rq_ticks r) (rq_polls r) (rq_path r) (rq_body r) Hh))
    as (h' & p' & w' & Hs & Hh' & Hp).
  rewrite <-app_assoc in Hh'. eexists _, p', w'. split; [exact Hs|]. split; [exact Hh'|]. simpl. by f_equal.
Qed.

(** [NewActionProxy] always returns. *)
Lemma new_proxy_returns {S} base compiler chan env (s : S) w :
  ∃ p w', NewActionProxy base compiler chan env s w = Done p s w'.
Proof.
  unfold NewActionProxy, highestDir, syscall, warmSchedulerAddress, schedulerHostPort, schedulerURL. run.
  unfold mbind, M_bind, run_in. by repeat eexists.
Qed.

(** The process as it is started in a container: it never returns, serves each of its
    requests in turn, and its whole life is one the state machine of [Container]
    allows. *)
Theorem process_obeys_lifecycle goversion fl stdin requests env w0 :
  fl_version fl = false → fl_debug fl = false → fl_compile fl = ""%string → env_debugging env = false →
  ∃ h p w', main goversion fl stdin requests env None w0 = Cut (Some p) w' ∧
    h.*1 = rq_path <$> requests ∧ lives Blank h (stage_of p).
Proof.
  intros Hv Hdb Hc Hd. unfold main. rewrite Hv, Hdb, Hc. unfold in_debug. run.
  destruct (new_proxy_returns "./action" (env_getenv env "OW_COMPILER") cold_chan env (None : option ActionProxy) w0) as (p0 & w1 & Hn).
  destruct (start_serves env requests p0 w1 [] p0 w1 (history_start env p0 w1)) as (h & p & w' & Hs & Hh & Hp).
  exists h, p, w'. unfold mbind, M_bind, run_in. rewrite Hn, Hs. split; [done|]. split; [done|].
  destruct (new_proxy_blank _ _ _ _ _ _ _ _ _ Hn) as [Hb Hok]. rewrite <-Hb.
  by apply (history_obeys env p0 w1 h p w').
Qed.

(** [-version] prints one line and touches nothing else. *)
Example version_prints :
  io_trace (out_io (main "go1.22" {| fl_version := true; fl_debug := false; fl_compile := ""; fl_env := BodyInvalid EDeadline |}
    (inl "") [] pod None io_start)) =
  [EvSyscall "write stdout" ("OpenWhisk ActionLoop Proxy v1.17.1, built with go1.22" +:+ String "010" "")]%string.
Proof. reflexivity. Qed.

(** [-debug] lets an action be replaced: a second [/init] is accepted. *)
Definition serving (debug : bool) : flags :=
  {| fl_version := false; fl_debug := debug; fl_compile := ""; fl_env := BodyInvalid EDeadline |}.

Definition two_inits : list request := [Request 20 20 "/init" init_request; Request 20 20 "/init" init_request].

Definition answers_of (l : list event) : list Z :=
  omap (λ e, match e with EvRespond c _ => Some c | _ => None end) (rev l).

Example debug_mode_installs_twice :
  answers_of (io_trace (out_io (main "go1.22" (serving true) (inl "") two_inits pod None io_start))) = [200; 200] ∧
  answers_of (io_trace (out_io (main "go1.22" (serving false) (inl "") two_inits pod None io_start))) = [200; 403].
Proof. split; vm_compute; reflexivity. Qed.

Lemma process_obeys_lifecycle_witness :
  ∃ h p w', main "go1.22" (serving false) (inl "") two_inits pod None io_start = Cut (Some p) w' ∧
    h.*1 = ["/init"; "/init"]%string ∧ lives Blank h (stage_of p).
Proof. apply (process_obeys_lifecycle "go1.22" (serving false) (inl ""%string) two_inits pod io_start); reflexivity. Defined.

(** Compiling without a compiler: the script of the input is moved to [bin]. *)
Definition compiling_env : Env :=
  with_world (λ _ _, inl ""%string) false (NDir [("exec", NFile (inl "#!/bin/sh"))]%string)
    (Some [file_entry "exec" "#!/bin/sh"]) pod.

Definition compiled : outcome ActionProxy (string * option goerr) :=
  (SetEnv (env_vars (BodyJson (JObj [])));; ExtractAndCompile "#!/bin/sh" "main") compiling_env fresh_proxy io_start.

Definition compiled_bin : list (string * node) := [("exec", NFile (inl "#!/bin/sh"))]%string.

Lemma compiled_ok :
  compiled = Done ("action/1/bin/exec"%string, None) (out_st compiled) (out_io compiled).
Proof.
  assert (H : out_val compiled = Some ("action/1/bin/exec"%string, None)) by (vm_compute; reflexivity).
  destruct compiled; simpl in *; congruence.
Qed.

Lemma compile_mode_roundtrip_witness :
  ∃ buf w3,
    ExtractAndCompileIO (inl "#!/bin/sh"%string) "main" (BodyJson (JObj [])) compiling_env fresh_proxy io_start =
      Done None (out_st compiled) w3 ∧
    ∃ v' new,
      ExtractAction buf "src" compiling_env sample_proxy io_start =
        Done ("./action/2/src/exec"%string, None) (set_currentDir 2 sample_proxy) v' ∧
      io_trace v' = new ++ [] ∧
      ∀ r o, r ≠ [] →
        (replay new ∅ !! (["action"; "2"; "src"]%string ++ r) = Some o ↔ (r, o) ∈ items [] (NDir compiled_bin)).
Proof.
  destruct (compile_mode_roundtrip "#!/bin/sh" "main" (BodyJson (JObj [])) compiling_env fresh_proxy io_start
    "action/1/bin/exec" (out_st compiled) (out_io compiled) compiled_bin) as (buf & w3 & Hr & _ & Hx);
    [split; reflexivity|exact compiled_ok|discriminate|reflexivity|reflexivity|
     intros entries H; cbv in H |- *; by simplify_eq|].
  exists buf, w3. split; [exact Hr|].
  apply (Hx sample_proxy io_start ∅); [reflexivity|discriminate|]. intros; apply lookup_empty.
Defined.
