(* ===== verification/WaitOnce.v ===== *)
(** * [waitOnce] ([openwhisk/cgroupFreezer.go])

    [exec.Cmd.Wait] must not be called twice on a command; the reaper goroutine of
    [Start] and every kill want its result.  They share a [sync.Once]: here under any
    interleaving of any number of callers.  [cmd.Wait] returns when the process can
    be reaped, which may never happen: the process is the world of the pool, and it
    moves when it pleases. *)

From S2P Require Import Prelude Interleave Effects.

(** ** [waitOnce]: the process is waited for once *)

(** [sync.Once]: nobody has called, the function runs, it has returned. *)
Inductive once (A : Type) := Fresh | Busy | Over (r : A).
Arguments Fresh {A}. Arguments Busy {A}. Arguments Over {A} _.

(** A caller of [wait]: before [once.Do], inside [cmd.Wait], blocked in [once.Do] until
    the first returns, after it. *)
Inductive waiter (A : Type) := Calling | Inside | Blocked | Back (r : A).
Arguments Calling {A}. Arguments Inside {A}. Arguments Blocked {A}. Arguments Back {A} _.

(** [once] and [err]; the calls of [cmd.Wait]; whether the process can be reaped. *)
Record waitOnce := { wo_once : once (option goerr); wo_calls : nat; wo_gone : bool }.

Section wait_once.
Context (exit_status : option goerr).

Definition wait (w : waitOnce) (t : waiter (option goerr)) : list (waitOnce * waiter (option goerr)) :=
  match t with
  | Calling =>
      match wo_once w with
      | Fresh => [({| wo_once := Busy; wo_calls := S (wo_calls w); wo_gone := wo_gone w |}, Inside)]
      | Busy => [(w, Blocked)]
      | Over r => [(w, Back r)]
      end
  | Inside =>
      if wo_gone w then
        [({| wo_once := Over exit_status; wo_calls := wo_calls w; wo_gone := true |}, Back exit_status)]
      else []
  | Blocked => match wo_once w with Over r => [(w, Back r)] | _ => [] end
  | Back _ => []
  end.

(** The process dies and the kernel lets go of it. *)
Definition exits (w : waitOnce) : list waitOnce :=
  if wo_gone w then [] else [{| wo_once := wo_once w; wo_calls := wo_calls w; wo_gone := true |}].

Definition waiting : relation (waitOnce * list (waiter (option goerr))) := pstep exits wait.

(** A started process, and [n] goroutines about to wait for it. *)
Definition started (n : nat) : waitOnce * list (waiter (option goerr)) :=
  ({| wo_once := Fresh; wo_calls := 0; wo_gone := false |}, replicate n Calling).

Definition wait_inv (x : waitOnce * list (waiter (option goerr))) : Prop :=
  match wo_once x.1 with
  | Fresh => wo_calls x.1 = 0%nat ∧ ∀ t, t ∈ x.2 → t = Calling
  | Busy => wo_calls x.1 = 1%nat ∧ Inside ∈ x.2 ∧ ∀ r, Back r ∉ x.2
  | Over r => wo_calls x.1 = 1%nat ∧ wo_gone x.1 = true ∧ r = exit_status ∧ ∀ r, Back r ∈ x.2 → r = exit_status
  end.

Lemma elem_of_insert {A} (l : list A) i x y : x ∈ <[i := y]> l → x = y ∨ x ∈ l.
Proof.
  intros [j Hj]%list_elem_of_lookup. destruct (decide (i = j)) as [->|].
  - left. apply list_lookup_insert_Some in Hj as [(_ & <- & _)|[? _]]; done.
  - right. rewrite list_lookup_insert_ne in Hj by done. by eapply list_elem_of_lookup_2.
Qed.

Lemma wait_inv_step x y : wait_inv x → waiting x y → wait_inv y.
Proof.
  intros Hx Hs. destruct Hs as [s s' l Hs|[o n g] s' l i t t' Hi Ht].
  { unfold exits in Hs. destruct (wo_gone s) eqn:Hg; [by apply elem_of_nil in Hs|]. apply list_elem_of_singleton in Hs as ->.
    unfold wait_inv in *. simpl in *. destruct (wo_once s); [done|done|]. destruct Hx as (? & ? & _). congruence. }
  pose proof (list_elem_of_lookup_2 _ _ _ Hi) as Hin. pose proof (lookup_lt_Some _ _ _ Hi) as Hlt.
  assert (Hnew : t' ∈ <[i:=t']> l) by (apply list_elem_of_lookup; exists i; by apply list_lookup_insert_eq).
  assert (Hold : ∀ r, Back r ∈ <[i:=t']> l → t' = Back r ∨ Back r ∈ l) by (intros r [<-|?]%elem_of_insert; auto).
  unfold wait_inv, wait in *. simpl in *. destruct t as [| | |r].
  - destruct o as [| |r]; apply list_elem_of_singleton in Ht as [= -> ->]; simpl.
    + destruct Hx as [-> Hc]. split; [done|]. split; [done|]. intros r [?|Hr]%Hold; [done|]. by apply Hc in Hr.
    + destruct Hx as (-> & Hb & Hn). split; [done|]. split; [|intros r [?|?]%Hold; [done|by apply (Hn r)]].
      apply list_elem_of_lookup in Hb as [j Hj]. apply list_elem_of_lookup. exists j.
      rewrite list_lookup_insert_ne; [done|]. intros ->. congruence.
    + destruct Hx as (-> & -> & -> & Hn). do 3 (split; [done|]). intros r [[= <-]|?]%Hold; [done|by apply Hn].
  - destruct g; [|by apply elem_of_nil in Ht]. apply list_elem_of_singleton in Ht as [= -> ->]. simpl.
    destruct o as [| |r]; [by destruct Hx as [_ Hc]; apply Hc in Hin| |].
    + destruct Hx as (-> & _ & Hn). do 3 (split; [done|]). intros r [[= <-]|?]%Hold; [done|by destruct (Hn r)].
    + destruct Hx as (-> & _ & -> & Hn). do 3 (split; [done|]). intros r [[= <-]|?]%Hold; [done|by apply Hn].
  - destruct o as [| |r]; [by apply elem_of_nil in Ht..|]. apply list_elem_of_singleton in Ht as [= -> ->]. simpl.
    destruct Hx as (-> & -> & -> & Hn). do 3 (split; [done|]). intros r [[= <-]|?]%Hold; [done|by apply Hn].
  - by apply elem_of_nil in Ht.
Qed.

Lemma wait_inv_reachable n y : rtc waiting (started n) y → wait_inv y.
Proof.
  intros Hr. eapply (pool_invariant _ _ wait_inv); [apply wait_inv_step|exact Hr|]. split; [done|].
  intros t Ht. by apply elem_of_replicate in Ht as [-> _].
Qed.

Lemma gone_stays x y : rtc waiting x y → wo_gone x.1 = true → wo_gone y.1 = true.
Proof.
  apply (pool_invariant exits wait (λ x, wo_gone x.1 = true)). clear x y. intros x y Hx Hs.
  destruct Hs as [s s' l Hs|s s' l i t t' _ Ht]; simpl in *; [unfold exits in Hs; rewrite Hx in Hs; by apply elem_of_nil in Hs|].
  unfold wait in Ht. repeat case_match; set_solver.
Qed.

(** Each caller calls, and returns. *)
Lemma waiting_ends x : Acc (flip waiting) x.
Proof.
  apply (pool_ends exits wait (λ _, True) (λ _, True) (λ w, if wo_gone w then 0 else 1)
    (λ t, match t with Calling => 2 | Inside | Blocked => 1 | Back _ => 0 end))%nat; [| |done|by apply Forall_true].
  - intros s s' _ Hs. split; [done|]. unfold exits in Hs. destruct (wo_gone s); set_solver by lia.
  - intros s t s' t' _ _ Ht. do 2 (split; [done|]). unfold wait in Ht.
    destruct t; repeat case_match; try (by apply elem_of_nil in Ht); apply list_elem_of_singleton in Ht; simplify_eq/=; try lia; congruence.
Qed.

(** Who has not returned can move, once the process has gone. *)
Lemma gone_moves x t : wait_inv x → wo_gone x.1 = true → t ∈ x.2 → (∀ r, t ≠ Back r) → ∃ z, waiting x z.
Proof.
  destruct x as [[o k g] l]. unfold wait_inv. simpl. intros Hy -> Ht Hb.
  assert (Hgo : ∀ t s' t', t ∈ l → (s', t') ∈ wait {| wo_once := o; wo_calls := k; wo_gone := true |} t →
    ∃ z, waiting ({| wo_once := o; wo_calls := k; wo_gone := true |}, l) z).
  { intros u s' u' [i Hi]%list_elem_of_lookup Hm. eexists. by eapply ps_thread. }
  destruct o as [| |r].
  - destruct Hy as [_ Hc]. rewrite (Hc t Ht) in Ht. eapply Hgo; [exact Ht|]. by left.
  - destruct Hy as (_ & Hin & _). eapply Hgo; [exact Hin|]. by left.
  - destruct t as [| | |r']; [..|by destruct (Hb r')]; (eapply Hgo; [exact Ht|]; by left).
Qed.

(** C19: however many goroutines wait for the process (the reaper of [Start], the
    kills), [cmd.Wait] is called once; none of them returns before the process can
    be reaped, all return what [cmd.Wait] reported. As long as it cannot be reaped
    they wait, one in [cmd.Wait] and the others for it, with no bound; once it
    can, no schedule goes on for ever and none stops before every caller has
    returned. *)
Theorem process_is_waited_for_once n y :
  rtc waiting (started n) y →
  (wo_calls y.1 ≤ 1)%nat ∧
  (∀ r, Back r ∈ y.2 → r = exit_status ∧ wo_calls y.1 = 1%nat ∧ wo_gone y.1 = true) ∧
  (wo_gone y.1 = false → (∀ t, t ∈ y.2 → wait y.1 t = []) → ∀ t, t ∈ y.2 → t = Inside ∨ t = Blocked) ∧
  (wo_gone y.1 = true → Acc (flip waiting) y ∧
    ∀ z, rtc waiting y z → (∀ z', ¬ waiting z z') → ∀ t, t ∈ z.2 → t = Back exit_status).
Proof.
  intros Hr. pose proof (wait_inv_reachable n y Hr) as Hy.
  assert (Hback : ∀ r, Back r ∈ y.2 → r = exit_status ∧ wo_calls y.1 = 1%nat ∧ wo_gone y.1 = true).
  { intros r Hb. unfold wait_inv in Hy. destruct (wo_once y.1) as [| |r'];
      [by destruct Hy as [_ Hc]; apply Hc in Hb|by destruct Hy as (_ & _ & Hn); destruct (Hn r)|].
    destruct Hy as (-> & -> & -> & Hn). by rewrite (Hn r Hb). }
  split; [|split; [exact Hback|split]].
  - unfold wait_inv in Hy. destruct (wo_once y.1); destruct Hy as [-> _]; lia.
  - intros Hg Hstop t Ht. pose proof (Hstop t Ht) as Hw. destruct t as [| | |r]; [|by left|by right|].
    + unfold wait in Hw. by destruct (wo_once y.1).
    + apply Hback in Ht as (_ & _ & ?). congruence.
  - intros Hg. split; [apply waiting_ends|]. intros z Hz Hstop t Ht.
    assert (Hrz : rtc waiting (started n) z) by (by etrans). pose proof (wait_inv_reachable n z Hrz) as Hi.
    pose proof (gone_stays y z Hz Hg) as Hgz.
    destruct t as [| | |r]; [exfalso; destruct (gone_moves z _ Hi Hgz Ht) as [z' Hs]; [done|by apply (Hstop z')]..|].
    f_equal. unfold wait_inv in Hi. destruct (wo_once z.1); [by destruct Hi as [_ Hc]; apply Hc in Ht|by destruct Hi as (_ & _ & Hn); destruct (Hn r)|].
    destruct Hi as (_ & _ & _ & Hn). by apply Hn.
Qed.
End wait_once.

(** The reaper is inside and a kill waits for it; the process can be reaped at last. *)
Definition reaper_and_kill : waitOnce * list (waiter (option goerr)) :=
  ({| wo_once := Busy; wo_calls := 1; wo_gone := true |}, [Inside; Blocked]).

Lemma process_is_waited_for_once_witness :
  rtc (waiting None) (started 2) reaper_and_kill ∧
  ∀ z, rtc (waiting None) reaper_and_kill z → (∀ z', ¬ waiting None z z') → ∀ t, t ∈ z.2 → t = Back None.
Proof.
  assert (Hr : rtc (waiting None) (started 2) reaper_and_kill) by (by apply (runs_rtc [Thread 0 0; Thread 1 0; World 0])).
  split; [exact Hr|]. by apply (process_is_waited_for_once None 2 _ Hr).
Defined.
