(* ===== verification/Lock.v ===== *)
(** * The controller's mutex ([openwhisk/cgroupFreezer.go])

    Any number of goroutines call methods of one controller.  Here its methods are
    programs: each access to a field of the controller and each call of the kernel is
    a step of its own, and so are [a.mu.Lock] and [a.mu.Unlock], so a method that
    forgot the mutex would be interleaved with the others.  The methods take it first
    and give it back last, so the calls come out as a sequence of the calls of
    [Freezer], which is what the other files work with; and a kill that cannot have
    its process reaped keeps everybody out for ever. *)

From S2P Require Import Prelude Interleave GoStrings Effects Freezer.

Local Open Scope Z_scope.
Local Open Scope go_scope.

(** ** Programs over the controller *)

Inductive prog (A : Type) : Type :=
  | Ret (r : A)
  | Lock (k : prog A)                                          (** [a.mu.Lock()] *)
  | Unlock (k : prog A)                                        (** [a.mu.Unlock()] *)
  | Act {X : Type} (m : M ActivationController X) (k : X → prog A).
Arguments Ret {A} _. Arguments Lock {A} _. Arguments Unlock {A} _. Arguments Act {A X} _ _.

#[global] Instance prog_ret : MRet prog := @Ret.
#[global] Instance prog_bind : MBind prog := λ A B f, fix go p :=
  match p with
  | Ret r => f r
  | Lock k => Lock (go k)
  | Unlock k => Unlock (go k)
  | Act m k => Act m (λ x, go (k x))
  end.

#[global] Instance prog_fmap : FMap prog := λ A B f p, p ≫= λ x, Ret (f x).

Definition act {X} (m : M ActivationController X) : prog X := Act m Ret.

(** What a program does when nobody else runs. *)
Fixpoint alone {A} (p : prog A) : M ActivationController A :=
  match p with
  | Ret r => mret r
  | Lock k | Unlock k => alone k
  | Act m k => x ← m; alone (k x)
  end.

(** [a.mu.Lock(); defer a.mu.Unlock()]: the mutex is given back on every return. *)
Definition locking {A} (body : prog A) : prog A := Lock (r ← body; Unlock (Ret r)).

(** ** The methods, step by step *)

Definition store (st : RuntimeState) : prog () := act (modify (set_state st)).
Definition store_pause (p : string) : prog () := act (modify (λ a, set_pause (ac_state a) p a)).

(** [waitForEventField]'s loop: a reading of [cgroup.events], of the clock, a sleep. *)
Fixpoint wait_loop (fuel : nat) (path field want : string) (deadline : Z) : prog (option goerr) :=
  match fuel with
  | O => act blocked
  | Datatypes.S fuel =>
      got ← act (readEventField path field);
      match got with
      | inr e => mret (Some e)
      | inl got =>
          if (got =? want)%string then mret None
          else
            now ← act now_mono;
            if deadline <? now then mret (Some (EWaitTimeout field want got))
            else act (sleep poll_interval);; wait_loop fuel path field want deadline
      end
  end.

Definition control (path file value ctx field want timeoutVar : string) : prog (option goerr) :=
  err ← act (write_file (path_join [path; file]) value);
  match err with
  | Some e => mret (Some (EWrap ctx e))
  | None =>
      timeout ← act (cgroupTimeout timeoutVar 2000);
      now ← act now_mono;
      wait_loop (wait_fuel timeout) path field want (now + timeout)
  end.

Definition freeze (path : string) : prog (option goerr) :=
  control path "cgroup.freeze" "1" "write cgroup.freeze=1" "frozen" "1" "CGROUP_FREEZE_TIMEOUT_MS".

Definition unfreeze (path : string) : prog (option goerr) :=
  control path "cgroup.freeze" "0" "write cgroup.freeze=0" "frozen" "0" "CGROUP_RESUME_TIMEOUT_MS".

Definition kill (path : string) : prog (option goerr) :=
  control path "cgroup.kill" "1" "write cgroup.kill" "populated" "0" "CGROUP_KILL_TIMEOUT_MS".

Definition Start : prog (option goerr) := locking (
  path ← act (gets ac_path);
  err ← act (syscall "open" path);
  match err with
  | Some e => mret (Some (EWrap "open cgroup dir for CLONE_INTO_CGROUP" e))
  | None =>
      err ← act (syscall "clone_into_cgroup" path);
      match err with
      | Some e => mret (Some (EWrap "start process into cgroup" e))
      | None =>
          pid ← act (effect env_pid []);
          act (modify (λ a, {| ac_path := ac_path a; ac_cmd := Some pid; ac_state := ac_state a;
                               ac_reaped := ac_reaped a; ac_lastPauseID := ac_lastPauseID a |}));;
          store StateRunning;;
          mret None
      end
  end).

Definition State : prog RuntimeState := locking (act (gets ac_state)).
Definition Pid : prog Z := locking (cmd ← act (gets ac_cmd); mret (default 0 cmd)).
Definition CgroupPath : prog string := locking (act (gets ac_path)).

Definition Close : prog (option goerr) := locking (path ← act (gets ac_path); act (remove path)).

Definition freezeExecution (pauseID : string) : prog (option TransitionError) := locking (
  st ← act (gets ac_state);
  last ← act (gets ac_lastPauseID);
  if bool_decide (st = StateFrozen) && (last =? pauseID)%string then mret None
  else
    st ← act (gets ac_state);
    if negb (bool_decide (st = StateRunning)) then
      mret (Some (newTransitionError "freeze" st pauseID
        (EMsg "freezeExecution requires RUNNING (or an idempotent repeat of the current FROZEN pause_id)")))
    else
      store StateFreezing;;
      path ← act (gets ac_path);
      err ← freeze path;
      match err with
      | Some e =>
          store StateUnknown;;
          mret (Some (newTransitionError "freeze" StateFreezing pauseID e))
      | None => store StateFrozen;; store_pause pauseID;; mret None
      end).

Definition resumeExecution (pauseID : string) : prog (option TransitionError) := locking (
  st ← act (gets ac_state);
  last ← act (gets ac_lastPauseID);
  if bool_decide (st = StateRunning) && (last =? pauseID)%string then mret None
  else
    st ← act (gets ac_state);
    if negb (bool_decide (st = StateFrozen)) then
      mret (Some (newTransitionError "resume" st pauseID
        (EMsg "resumeExecution requires FROZEN (or an idempotent repeat of the pause_id just resumed)")))
    else
      last ← act (gets ac_lastPauseID);
      if negb (pauseID =? last)%string then
        mret (Some (newTransitionError "resume" st pauseID (EMsg "pause_id mismatch")))
      else
        store StateResuming;;
        path ← act (gets ac_path);
        err ← unfreeze path;
        match err with
        | Some e =>
            store StateUnknown;;
            mret (Some (newTransitionError "resume" StateResuming pauseID e))
        | None => store StateRunning;; store_pause pauseID;; mret None
        end).

Definition killExecution (pauseID : string) : prog (option TransitionError) := locking (
  st ← act (gets ac_state);
  if bool_decide (st = StateStopped) then mret None
  else if negb (bool_decide (st = StateRunning)) && negb (bool_decide (st = StateFrozen)) then
    mret (Some (newTransitionError "kill" st pauseID
      (EMsg "killExecution requires RUNNING or FROZEN")))
  else
    store StateKilling;;
    path ← act (gets ac_path);
    err ← kill path;
    match err with
    | Some e =>
        store StateUnknown;;
        mret (Some (newTransitionError "kill" StateKilling pauseID e))
    | None =>
        cmd ← act (gets ac_cmd);
        (match cmd with
         | None => mret ()
         | Some _ =>
             budget ← act killConfirmWaitTimeout;
             if 0 <? budget then
               reaped ← act (wait_budget budget);
               if reaped : bool then mret () else act logSafetyKillConfirmTimeout
             else act waiter_wait
         end);;
        store StateStopped;;
        store_pause pauseID;;
        mret None
    end).

(** Of [WaitForExit] the part under the mutex: it is given back before the wait. *)
Definition command : prog (option Z) := Lock (cmd ← act (gets ac_cmd); Unlock (Ret cmd)).

(** ** Calls *)

Inductive request := RqStart | RqControl (o : op) (pauseID : string) | RqState | RqPid | RqCgroupPath | RqClose | RqCommand.

Inductive reply :=
  | RpStart (err : option goerr) | RpControl (err : option TransitionError) | RpState (s : RuntimeState)
  | RpPid (pid : Z) | RpCgroupPath (path : string) | RpClose (err : option goerr) | RpCommand (cmd : option Z).

Definition method (rq : request) : prog reply :=
  match rq with
  | RqStart => RpStart <$> Start
  | RqControl OpFreeze p => RpControl <$> freezeExecution p
  | RqControl OpResume p => RpControl <$> resumeExecution p
  | RqControl OpKill p => RpControl <$> killExecution p
  | RqState => RpState <$> State
  | RqPid => RpPid <$> Pid
  | RqCgroupPath => RpCgroupPath <$> CgroupPath
  | RqClose => RpClose <$> Close
  | RqCommand => RpCommand <$> command
  end.

(** The same call as [Freezer] has it: one body. *)
Definition perform (rq : request) : M ActivationController reply :=
  match rq with
  | RqStart => err ← Freezer.Start; mret (RpStart err)
  | RqControl o pauseID => err ← call o pauseID; mret (RpControl err)
  | RqState => s ← gets ac_state; mret (RpState s)
  | RqPid => pid ← gets Freezer.Pid; mret (RpPid pid)
  | RqCgroupPath => path ← gets ac_path; mret (RpCgroupPath path)
  | RqClose => err ← Freezer.Close; mret (RpClose err)
  | RqCommand => cmd ← gets ac_cmd; mret (RpCommand cmd)
  end.

(** The controller, the world it acts on, and whether [a.mu] is held. *)
Record Guarded := { gd_ctl : ActivationController; gd_io : io; gd_held : bool }.

(** A goroutine that called a method, with what it still has to do; unwound by a panic. *)
Inductive caller := At (rq : request) (rest : prog reply) | Panicked (rq : request) (msg : string).

(** ** What a call does on its own *)

Lemma alone_bind {A B} (p : prog A) (f : A → prog B) env a w :
  alone (p ≫= f) env a w = (x ← alone p; alone (f x)) env a w.
Proof.
  revert a w. induction p as [r|k IH|k IH|X m k IH]; intros a w; [done|apply IH|apply IH|].
  simpl. unfold mbind, M_bind. destruct (m env a w) as [x a' w'| |]; [exact (IH x a' w')|done..].
Qed.

Lemma step_eq {A B} (m m' : M ActivationController A) (k k' : A → M ActivationController B) env a w :
  m env a w = m' env a w → (∀ x a' w', m env a w = Done x a' w' → k x env a' w' = k' x env a' w') →
  (m ≫= k) env a w = (m' ≫= k') env a w.
Proof. unfold mbind, M_bind. intros <- Hk. destruct (m env a w); [by apply Hk|done..]. Qed.

Lemma step_ret {A} (m : M ActivationController A) env a w : (m ≫= λ x, mret x) env a w = m env a w.
Proof. unfold mbind, M_bind. by destruct (m env a w). Qed.

Lemma alone_act {X B} (m : M ActivationController X) (f : X → prog B) env a w :
  alone (act m ≫= f) env a w = (x ← m; alone (f x)) env a w.
Proof. done. Qed.

Lemma alone_locking {A} (p : prog A) env a w : alone (locking p) env a w = alone p env a w.
Proof.
  unfold locking. cbn [alone]. rewrite alone_bind. unfold mbind, M_bind. simpl. by destruct (alone p env a w).
Qed.

Lemma alone_fmap {A B} (f : A → B) (p : prog A) env a w : alone (f <$> p) env a w = (x ← alone p; mret (f x)) env a w.
Proof. exact (alone_bind p (λ x, Ret (f x)) env a w). Qed.

Lemma wait_loop_alone fuel path field want deadline env a w :
  alone (wait_loop fuel path field want deadline) env a w = Freezer.wait_loop fuel path field want deadline env a w.
Proof.
  revert a w. induction fuel as [|fuel IH]; intros a w; [done|]. cbn [wait_loop Freezer.wait_loop]. rewrite alone_act.
  apply step_eq; [done|]. intros [got|e] a' w' Hr; [|done]. destruct (got =? want)%string; [done|].
  rewrite alone_act. run. destruct (deadline <? _); [done|]. run. apply IH.
Qed.

Lemma control_alone path file value ctx field want timeoutVar env a w :
  alone (control path file value ctx field want timeoutVar) env a w =
  Freezer.control path file value ctx field want timeoutVar env a w.
Proof.
  unfold control, Freezer.control, waitForEventField. rewrite alone_act. unfold write_file. run.
  destruct (env_write _ _ _ _); [done|]. unfold cgroupTimeout. run. apply wait_loop_alone.
Qed.
(** The stepwise methods are those of [Freezer] when nobody else runs. *)
Lemma start_alone env a w : alone Start env a w = Freezer.Start env a w.
Proof.
  unfold Start, Freezer.Start, store, syscall. rewrite alone_locking. run.
  destruct (env_syscall _ _ _ _); [done|]. run. by destruct (env_syscall _ _ _ _).
Qed.

#[local] Opaque control Freezer.control.

(** Steps through the accesses of a body up to its control file. *)
Ltac fields := rewrite ?alone_locking; repeat first [progress run | rewrite alone_bind].

Lemma freeze_alone p env a w : alone (freezeExecution p) env a w = Freezer.freezeExecution p env a w.
Proof.
  unfold freezeExecution, Freezer.freezeExecution, Freezer.freeze. fields. case_match; [done|]. fields. case_match; [done|].
  unfold store, freeze. fields. apply step_eq; [apply control_alone|]. by intros [e|] ? ? _.
Qed.

Lemma resume_alone p env a w : alone (resumeExecution p) env a w = Freezer.resumeExecution p env a w.
Proof.
  unfold resumeExecution, Freezer.resumeExecution, Freezer.unfreeze. fields. case_match; [done|]. fields. case_match; [done|].
  fields. case_match; [done|]. unfold store, unfreeze. fields. apply step_eq; [apply control_alone|]. by intros [e|] ? ? _.
Qed.

Lemma kill_alone p env a w : alone (killExecution p) env a w = Freezer.killExecution p env a w.
Proof.
  unfold killExecution, Freezer.killExecution, Freezer.kill. fields. case_match; [done|]. case_match; [done|].
  unfold store, kill. fields. apply step_eq; [apply control_alone|]. intros [e|] a' w' Hr; [done|].
  rewrite control_alone in Hr. match type of Hr with Freezer.control ?q ?f ?v ?c ?d ?n ?t env ?b w = _ =>
    destruct (control_spec q f v c d n t env b w) as (r & w2 & Hc & _) end.
  rewrite Hc in Hr. injection Hr as _ <- _. fields. apply step_eq; [|by intros [] a1 w1 _].
  destruct (ac_cmd a); [|done]. fields. apply step_eq; [done|]. intros budget a1 w1 _. destruct (0 <? budget); [|by fields; rewrite ?step_ret].
  fields. apply step_eq; [done|]. intros [] a2 w2' _; [done|]. by fields; rewrite step_ret.
Qed.

#[local] Transparent control Freezer.control.

Lemma method_alone rq env a w : alone (method rq) env a w = perform rq env a w.
Proof.
  destruct rq as [|[] p| | | | |]; cbn [method perform call]; rewrite alone_fmap;
    try (apply step_eq; [|done]; first [apply start_alone|apply freeze_alone|apply resume_alone|apply kill_alone]); try done.
Qed.

(** ** The discipline *)

(** Holds the mutex until its last step; takes it first; asks for it nowhere. *)
Fixpoint holding {A} (p : prog A) : Prop :=
  match p with
  | Ret _ | Lock _ => False
  | Unlock k => match k with Ret _ => True | _ => False end
  | Act _ k => ∀ x, holding (k x)
  end.

Definition guarded {A} (p : prog A) : Prop := match p with Lock k => holding k | _ => False end.

Fixpoint bare {A} (p : prog A) : Prop :=
  match p with Ret _ => True | Lock _ | Unlock _ => False | Act _ k => ∀ x, bare (k x) end.

Lemma bare_bind {A B} (p : prog A) (f : A → prog B) : bare p → (∀ x, bare (f x)) → bare (p ≫= f).
Proof. intros Hp Hf. induction p as [r|k IH|k IH|X m k IH]; simpl in *; [apply Hf|done..|]. intros x. by apply IH. Qed.

Lemma guarded_locking {A} (p : prog A) : bare p → guarded (locking p).
Proof.
  unfold guarded, locking. intros Hp. induction p as [r|k IH|k IH|X m k IH]; [done|done..|]. intros x. exact (IH x (Hp x)).
Qed.

Lemma holding_fmap {A B} (f : A → B) (p : prog A) : holding p → holding (f <$> p).
Proof.
  induction p as [r|k IH|k IH|X m k IH]; [done|done|by destruct k|]. intros Hp x. exact (IH x (Hp x)).
Qed.

Lemma guarded_fmap {A B} (f : A → B) (p : prog A) : guarded p → guarded (f <$> p).
Proof. destruct p as [|k| |]; try done. apply holding_fmap. Qed.

Lemma bare_wait_loop fuel path field want deadline : bare (wait_loop fuel path field want deadline).
Proof.
  induction fuel as [|fuel IH]; [by intros x|]. intros [got|e]; [|done]. cbn. destruct (got =? want)%string; [done|].
  intros now. destruct (deadline <? now); [done|]. intros _. exact IH.
Qed.

Lemma bare_control path file value ctx field want timeoutVar : bare (control path file value ctx field want timeoutVar).
Proof. intros [e|]; [exact I|]. intros timeout now. apply bare_wait_loop. Qed.

(** Every method takes the mutex before it touches the controller and gives it back when
    it has done. *)
Ltac bare := repeat first [done | apply bare_control | apply bare_bind | case_match | intros ? | progress simpl].

Lemma method_guarded rq : guarded (method rq).
Proof.
  destruct rq as [|[] p| | | | |]; apply guarded_fmap; first [apply guarded_locking; bare | done].
Qed.

Section calls.
Context (env : Env).

(** One step of one goroutine.  One that asks for a mutex somebody holds does not move,
    nor does one whose call of the kernel does not return; a panic runs the deferred
    [Unlock]. *)
Definition lock_moves (s : Guarded) (t : caller) : list (Guarded * caller) :=
  match t with
  | At rq (Lock k) =>
      if gd_held s then [] else [({| gd_ctl := gd_ctl s; gd_io := gd_io s; gd_held := true |}, At rq k)]
  | At rq (Unlock k) => [({| gd_ctl := gd_ctl s; gd_io := gd_io s; gd_held := false |}, At rq k)]
  | At rq (Act m k) =>
      match m env (gd_ctl s) (gd_io s) with
      | Done x a w => [({| gd_ctl := a; gd_io := w; gd_held := gd_held s |}, At rq (k x))]
      | Cut _ _ => []
      | Panic msg a w => [({| gd_ctl := a; gd_io := w; gd_held := false |}, Panicked rq msg)]
      end
  | _ => []
  end.

Definition contend : relation (Guarded * list caller) := pstep (λ _, []) lock_moves.

Definition callers (a : ActivationController) (w : io) (rqs : list request) : Guarded * list caller :=
  ({| gd_ctl := a; gd_io := w; gd_held := false |}, (λ rq, At rq (method rq)) <$> rqs).

(** A call of the kernel that does not return. *)
Definition blocks (s : Guarded) (p : prog reply) : Prop :=
  match p with
  | Act m _ => match m env (gd_ctl s) (gd_io s) with Cut _ _ => True | _ => False end
  | _ => False
  end.

(** Calls made one after the other, with who made them. *)
Inductive in_turn : list (nat * request * reply) → ActivationController → io → ActivationController → io → Prop :=
  | turn_none a w : in_turn [] a w a w
  | turn_next log i rq rp a w a1 w1 a2 w2 :
      in_turn log a w a1 w1 → perform rq env a1 w1 = Done rp a2 w2 → in_turn (log ++ [(i, rq, rp)]) a w a2 w2.


(** A call returns, but for a kill without a budget whose process is never reaped. *)
Lemma perform_ends rq a w :
  match perform rq env a w with
  | Done _ _ _ => True
  | Cut a' _ => kill_budget env ≤ 0 ∧ ac_state a' = StateKilling ∧ ∃ p, rq = RqControl OpKill p
  | Panic _ _ _ => False
  end.
Proof.
  destruct rq as [|o p| | | | |]; try exact I.
  - unfold perform, Freezer.Start, syscall. run. destruct (env_syscall _ _ _ _); run; [exact I|].
    destruct (env_syscall _ _ _ _); run; exact I.
  - cbn [perform]. unfold mbind, M_bind. pose proof (controller_step o p env a w) as H.
    destruct (call o p env a w) as [r a' w'|a' w'|msg a' w']; [exact I| |done].
    destruct H as (-> & Hb & Hs). eauto.
Qed.

(** ** One at a time *)

(** Not begun, or returned. *)
Definition outside (t : caller) : Prop :=
  match t with At rq p => p = method rq ∨ ∃ rp, p = Ret rp | Panicked _ _ => False end.

(** While the mutex is held one goroutine is inside, and what is left of its call does
    from here what the call does from where the last turn ended. *)
Definition one_inside (x : Guarded * list caller) (a1 : ActivationController) (w1 : io) : Prop :=
  if gd_held x.1 then
    ∃ i rq p, x.2 !! i = Some (At rq p) ∧ holding p ∧
      alone p env (gd_ctl x.1) (gd_io x.1) = perform rq env a1 w1 ∧
      ∀ j u, j ≠ i → x.2 !! j = Some u → outside u
  else gd_ctl x.1 = a1 ∧ gd_io x.1 = w1 ∧ ∀ j u, x.2 !! j = Some u → outside u.

Definition in_order (a : ActivationController) (w : io) (x : Guarded * list caller) : Prop :=
  ∃ log a1 w1, in_turn log a w a1 w1 ∧ NoDup log.*1.*1 ∧
    (∀ i rq rp, x.2 !! i = Some (At rq (Ret rp)) ↔ (i, rq, rp) ∈ log) ∧ one_inside x a1 w1.

Lemma method_not_ret rq rp : method rq ≠ Ret rp.
Proof. intros H. pose proof (method_guarded rq) as Hg. by rewrite H in Hg. Qed.

Lemma in_order_start a w rqs : in_order a w (callers a w rqs).
Proof.
  exists [], a, w. split; [constructor|]. split; [constructor|].
  assert (Hask : ∀ i t, (callers a w rqs).2 !! i = Some t → ∃ rq, t = At rq (method rq)).
  { intros i t (rq & -> & _)%list_lookup_fmap_Some. by eexists. }
  split; [|split; [done|split; [done|]]].
  - intros i rq rp. split; [|by intros ?%elem_of_nil]. intros (? & [= -> H])%Hask. by symmetry in H; apply method_not_ret in H.
  - intros i t (rq & ->)%Hask. by left.
Qed.

(** A move after which its goroutine has not returned leaves the turns as they are. *)
Lemma returned_same (l : list caller) i rq p p' :
  l !! i = Some (At rq p) → (∀ rp, p ≠ Ret rp) → (∀ rp, p' ≠ Ret rp) →
  ∀ j rq' rp, <[i := At rq p']> l !! j = Some (At rq' (Ret rp)) ↔ l !! j = Some (At rq' (Ret rp)).
Proof.
  intros Hi Hp Hp' j rq' rp. destruct (decide (i = j)) as [<-|Hne]; [|by rewrite list_lookup_insert_ne].
  rewrite list_lookup_insert_eq by by eapply lookup_lt_Some. rewrite Hi.
  split; intros [= _ H]; [by apply Hp' in H|by apply Hp in H].
Qed.

Lemma holding_not_ret (p : prog reply) rp : holding p → p ≠ Ret rp.
Proof. by intros Hp ->. Qed.

(** Somebody takes the mutex: he begins a call. *)
Lemma in_order_lock a w a1 w1 log l i rq :
  in_turn log a w a1 w1 → NoDup log.*1.*1 →
  (∀ j rq' rp, l !! j = Some (At rq' (Ret rp)) ↔ (j, rq', rp) ∈ log) →
  (∀ j u, l !! j = Some u → outside u) → ∀ k, l !! i = Some (At rq (Lock k)) →
  in_order a w ({| gd_ctl := a1; gd_io := w1; gd_held := true |}, <[i := At rq k]> l).
Proof.
  intros Hlog Hnd Hret Hout k Hi. destruct (Hout i _ Hi) as [Hk|(rp & [=])].
  pose proof (method_guarded rq) as Hg. rewrite <-Hk in Hg. simpl in Hg.
  exists log, a1, w1. split; [done|]. split; [done|]. split.
  - intros j rq' rp. simpl. rewrite (returned_same l i rq (Lock k) k Hi); [apply Hret|done|].
    intros rp'. by apply holding_not_ret.
  - exists i, rq, k. simpl. split; [by apply list_lookup_insert_eq; eapply lookup_lt_Some|]. split; [done|].
    split; [by rewrite <-method_alone, <-Hk|]. intros j u Hj Hu. rewrite list_lookup_insert_ne in Hu by done. by eapply Hout.
Qed.

(** The one inside gives it back: he has returned, his turn is over. *)
Lemma in_order_unlock a w a1 w1 log l i rq rp a2 w2 :
  in_turn log a w a1 w1 → NoDup log.*1.*1 →
  (∀ j rq' rp, l !! j = Some (At rq' (Ret rp)) ↔ (j, rq', rp) ∈ log) →
  (∀ j u, j ≠ i → l !! j = Some u → outside u) → l !! i = Some (At rq (Unlock (Ret rp))) →
  perform rq env a1 w1 = Done rp a2 w2 →
  in_order a w ({| gd_ctl := a2; gd_io := w2; gd_held := false |}, <[i := At rq (Ret rp)]> l).
Proof.
  intros Hlog Hnd Hret Hout Hi Hp. pose proof (lookup_lt_Some _ _ _ Hi) as Hlt.
  assert (Hfresh : ∀ rq' rp', (i, rq', rp') ∉ log) by (intros rq' rp' Hin; apply Hret in Hin; congruence).
  exists (log ++ [(i, rq, rp)]), a2, w2. split; [by eapply turn_next|]. split; [|split].
  - rewrite !fmap_app. apply NoDup_app. split; [done|]. split; [|apply NoDup_singleton].
    simpl. intros j Hj Hj'%list_elem_of_singleton. subst j. apply list_elem_of_fmap in Hj as ([j' rq'] & -> & Hj).
    apply list_elem_of_fmap in Hj as ([[j'' rq''] rp''] & [= -> ->] & Hj). by eapply Hfresh.
  - intros j rq' rp'. simpl. rewrite elem_of_app, list_elem_of_singleton. destruct (decide (j = i)) as [->|Hne].
    + rewrite list_lookup_insert_eq by done. split; [intros [= -> ->]; by right|].
      intros [Hin|[= -> ->]]; [by apply Hfresh in Hin|done].
    + rewrite list_lookup_insert_ne, Hret by done. split; [by left|]. intros [?|[= ? _ _]]; done.
  - split; [done|]. split; [done|]. simpl. intros j u Hj. destruct (decide (j = i)) as [->|Hne].
    + rewrite list_lookup_insert_eq in Hj by done. injection Hj as <-. right. by eexists.
    + rewrite list_lookup_insert_ne in Hj by done. by eapply Hout.
Qed.

(** Who is outside moves only to take the mutex. *)
Lemma outside_moves s t s' t' :
  outside t → (s', t') ∈ lock_moves s t →
  ∃ rq k, t = At rq (Lock k) ∧ gd_held s = false ∧ s' = {| gd_ctl := gd_ctl s; gd_io := gd_io s; gd_held := true |} ∧ t' = At rq k.
Proof.
  destruct t as [rq p|rq msg]; [|done]. intros [->|(rp & ->)] Hm; [|by apply elem_of_nil in Hm].
  pose proof (method_guarded rq) as Hg. destruct (method rq) as [|k| |]; try done. simpl in Hm.
  destruct (gd_held s); [by apply elem_of_nil in Hm|]. apply list_elem_of_singleton in Hm as [= -> ->]. by exists rq, k.
Qed.

Lemma in_order_step a w x y : in_order a w x → contend x y → in_order a w y.
Proof.
  intros (log & a1 & w1 & Hlog & Hnd & Hret & Hone) Hs.
  destruct Hs as [s s' l Hs|s s' l i t t' Hi Ht]; [by apply elem_of_nil in Hs|].
  unfold one_inside in Hone. simpl in *. destruct (gd_held s) eqn:Hh.
  - destruct Hone as (i' & rq & p & Hi' & Hp & Hal & Hout). destruct (decide (i = i')) as [->|Hne].
    2:{ destruct (outside_moves s t s' t' (Hout i t Hne Hi) Ht) as (? & ? & _ & ? & _). congruence. }
    rewrite Hi in Hi'. injection Hi' as ->. destruct p as [rp|k|k|X m k]; try done.
    + apply list_elem_of_singleton in Ht as [= -> ->]. destruct k as [rp| | |]; try done. simpl in Hal.
      apply (in_order_unlock a w a1 w1 log); try done; by rewrite <-Hal.
    + simpl in Ht, Hal. unfold mbind, M_bind in Hal. pose proof (perform_ends rq a1 w1) as He.
      destruct (m env (gd_ctl s) (gd_io s)) as [r a2 w2|a2 w2|msg a2 w2]; [|by apply elem_of_nil in Ht|by rewrite <-Hal in He].
      apply list_elem_of_singleton in Ht as [= -> ->]. exists log, a1, w1. split; [done|]. split; [done|]. split.
      * intros j rq' rp'. simpl. rewrite (returned_same l i' rq (Act m k) (k r) Hi); [apply Hret|done|].
        intros rp. by apply holding_not_ret.
      * unfold one_inside. simpl. rewrite Hh. exists i', rq, (k r). split; [by apply list_lookup_insert_eq; eapply lookup_lt_Some|].
        split; [done|]. split; [done|]. intros j u Hj Hu. rewrite list_lookup_insert_ne in Hu by done. by eapply Hout.
  - destruct Hone as (Ha & Hw & Hout).
    destruct (outside_moves s t s' t' (Hout i t Hi) Ht) as (rq & k & -> & _ & -> & ->). rewrite Ha, Hw.
    by eapply in_order_lock.
Qed.

Lemma in_order_reachable a w rqs x : rtc contend (callers a w rqs) x → in_order a w x.
Proof. intros Hr. exact (pool_invariant _ _ (in_order a w) _ _ (in_order_step a w) Hr (in_order_start a w rqs)). Qed.

(** A goroutine only goes down its program. *)
Definition goes_on (t' t : caller) : Prop :=
  match t with
  | At rq (Lock k) | At rq (Unlock k) => t' = At rq k
  | At rq (Act _ k) => (∃ x, t' = At rq (k x)) ∨ ∃ msg, t' = Panicked rq msg
  | _ => False
  end.

Lemma goes_on_ends t : Acc goes_on t.
Proof.
  assert (Hp : ∀ rq msg, Acc goes_on (Panicked rq msg)) by (intros rq msg; by constructor).
  destruct t as [rq p|rq msg]; [|done]. induction p as [r|k IH|k IH|X m k IH]; constructor; intros t' Ht; simpl in Ht;
    [done|by subst..|]. destruct Ht as [(x & ->)|(msg & ->)]; [apply IH|done].
Qed.

Lemma lock_moves_goes_on s t s' t' : (s', t') ∈ lock_moves s t → goes_on t' t.
Proof.
  destruct t as [rq [r|k|k|X m k]|rq msg]; simpl; intros Hm; try (by apply elem_of_nil in Hm).
  - destruct (gd_held s); [by apply elem_of_nil in Hm|]. by apply list_elem_of_singleton in Hm as [= _ ->].
  - by apply list_elem_of_singleton in Hm as [= _ ->].
  - destruct (m env _ _) as [x a w| |]; [|by apply elem_of_nil in Hm|];
      apply list_elem_of_singleton in Hm as [= _ ->]; [left|right]; by eexists.
Qed.

(** The one inside moves, unless the kernel does not answer. *)
Lemma holding_moves s rq p : holding p → ¬ blocks s p → ∃ r, r ∈ lock_moves s (At rq p).
Proof.
  intros Hp Hb. destruct p as [r|k|k|X m k]; [done..| |]; simpl in *; [eexists; by left|].
  destruct (m env _ _); [eexists; by left|done|eexists; by left].
Qed.

(** Only a kill without a budget waits inside for ever. *)
Lemma blocked_inside x a1 w1 rq p :
  alone p env (gd_ctl x) (gd_io x) = perform rq env a1 w1 → blocks x p →
  kill_budget env ≤ 0 ∧ ∃ pause, rq = RqControl OpKill pause.
Proof.
  intros Hal Hb. pose proof (perform_ends rq a1 w1) as He. destruct p as [r|k|k|X m k]; try done. simpl in *.
  unfold mbind, M_bind in Hal. destruct (m env (gd_ctl x) (gd_io x)); try done. rewrite <-Hal in He. tauto.
Qed.

(** ** Theorems *)

(** C16: the mutex makes calls that overlap a sequence of calls, though each of
    their accesses to the controller and the kernel is a step of its own: at any
    moment of any schedule the calls that have returned were made one after the
    other, each once and with the result it returned; no call has panicked; and
    either nobody holds the mutex and the controller is as the last of them left
    it, or one goroutine holds it and what is left of its call does from here what
    the whole call does from there. *)
Theorem overlapping_calls_serialize a w rqs x :
  rtc contend (callers a w rqs) x →
  ∃ log a1 w1, in_turn log a w a1 w1 ∧ NoDup log.*1.*1 ∧
    (∀ i rq rp, x.2 !! i = Some (At rq (Ret rp)) ↔ (i, rq, rp) ∈ log) ∧
    (∀ i rq msg, x.2 !! i ≠ Some (Panicked rq msg)) ∧
    if gd_held x.1 then
      ∃ i rq p, x.2 !! i = Some (At rq p) ∧ alone p env (gd_ctl x.1) (gd_io x.1) = perform rq env a1 w1
    else gd_ctl x.1 = a1 ∧ gd_io x.1 = w1.
Proof.
  intros Hr. destruct (in_order_reachable a w rqs x Hr) as (log & a1 & w1 & Hlog & Hnd & Hret & Hone).
  exists log, a1, w1. split; [done|]. split; [done|]. split; [done|]. unfold one_inside in Hone.
  destruct (gd_held x.1).
  - destruct Hone as (i & rq & p & Hi & _ & Hal & Hout). split; [|by exists i, rq, p].
    intros j rq' msg Hj. destruct (decide (j = i)) as [->|Hne]; [congruence|by apply (Hout _ _ Hne) in Hj].
  - destruct Hone as (Ha & Hw & Hout). split; [|done]. intros j rq' msg Hj. by apply Hout in Hj.
Qed.

(** C21: nobody passes a kill that waits: only a kill without a budget can wait
    inside for a call of the kernel that does not return (its process is not
    reaped); from then on no goroutine moves any more, and every other call that
    has not returned is still before its [Lock], were it only for the path of the
    cgroup. *)
Theorem waiting_kill_locks_everybody_out a w rqs x i rq p :
  rtc contend (callers a w rqs) x → x.2 !! i = Some (At rq p) → blocks x.1 p →
  kill_budget env ≤ 0 ∧ (∃ pause, rq = RqControl OpKill pause) ∧
  (∀ y, rtc contend x y → y = x) ∧
  ∀ j rq' q, j ≠ i → x.2 !! j = Some (At rq' q) → q = method rq' ∨ ∃ rp, q = Ret rp.
Proof.
  intros Hr Hi Hb. destruct (in_order_reachable a w rqs x Hr) as (log & a1 & w1 & _ & _ & _ & Hone).
  destruct x as [s l]. unfold one_inside in Hone. simpl in *.
  assert (Hno : ¬ outside (At rq p)).
  { intros [->|(rp & ->)]; [|done]. pose proof (method_guarded rq). by destruct (method rq). }
  destruct (gd_held s) eqn:Hh; [|destruct Hone as (_ & _ & Hout); by apply Hout in Hi].
  destruct Hone as (k & rq' & p' & Hk & _ & Hal & Hout). destruct (decide (i = k)) as [->|Hne]; [|by apply (Hout _ _ Hne) in Hi].
  rewrite Hi in Hk. injection Hk as <- <-. destruct (blocked_inside s a1 w1 rq p Hal Hb) as [Hbud Hkill].
  split; [done|]. split; [done|]. assert (Hstop : ∀ y, ¬ contend (s, l) y).
  { intros y Hs. inversion Hs as [? s' ? Hs'|? s' ? j t t' Hj Ht]; subst; [by apply elem_of_nil in Hs'|].
    destruct (decide (j = k)) as [->|Hne].
    - rewrite Hi in Hj. injection Hj as <-. destruct p as [r|q|q|X m q]; try done. simpl in *.
      destruct (m env _ _); [done|by apply elem_of_nil in Ht|done].
    - destruct (outside_moves s t s' t' (Hout j t Hne Hj) Ht) as (? & ? & _ & ? & _). congruence. }
  split; [by intros y [<-|(z & Hs & _)]%rtc_inv; [|apply Hstop in Hs]|]. intros j rq' q Hne Hj. exact (Hout j _ Hne Hj).
Qed.

(** Every schedule ends, and with a budget it ends with every call returned. *)
Theorem budgeted_calls_return a w rqs :
  Acc (flip contend) (callers a w rqs) ∧
  (0 < kill_budget env → ∀ x, rtc contend (callers a w rqs) x → (∀ y, ¬ contend x y) →
   ∀ i t, x.2 !! i = Some t → ∃ rq rp, t = At rq (Ret rp)).
Proof.
  split.
  { apply (pool_descends _ _ goes_on); [done|apply lock_moves_goes_on|]. apply Forall_true. intros. apply goes_on_ends. }
  intros Hb [s l] Hr Hstop. destruct (in_order_reachable a w rqs _ Hr) as (log & a1 & w1 & _ & _ & _ & Hone).
  unfold one_inside in Hone. simpl in *. destruct (gd_held s) eqn:Hh.
  - exfalso. destruct Hone as (i & rq & p & Hi & Hp & Hal & _).
    destruct (holding_moves s rq p Hp) as ([s' t'] & Hm); [|by eapply Hstop, ps_thread].
    intros Hbl. destruct (blocked_inside s a1 w1 rq p Hal Hbl). lia.
  - destruct Hone as (_ & _ & Hout). intros i t Hi. specialize (Hout i t Hi).
    destruct t as [rq p|rq msg]; [|done]. destruct Hout as [->|(rp & ->)]; [|by eexists _, _]. exfalso.
    pose proof (method_guarded rq) as Hg. destruct (method rq) as [|k| |] eqn:Hk; try done.
    eapply Hstop, ps_thread; [exact Hi|]. simpl. rewrite Hh. by left.
Qed.
End calls.

(** ** A kill whose process is never reaped *)

(** A kernel that empties the cgroup at once, but whose process stays a zombie. *)
Definition unreaped (env : Env) : Env :=
  {| env_getenv := env_getenv env; env_const := env_const env; env_read := env_read env;
     env_write := env_write env; env_syscall := env_syscall env; env_elapsed := env_elapsed env;
     env_wall := env_wall env; env_pid := env_pid env; env_reap := λ _, None; env_exit := env_exit env;
     env_rand := env_rand env; env_conn_reused := env_conn_reused env; env_lookup := env_lookup env;
     env_dial := env_dial env; env_http := env_http env; env_urlparse := env_urlparse env;
     env_url := env_url env; env_others := env_others env; env_flag := env_flag env;
     env_action := env_action env; env_environ := env_environ env; env_json_text := env_json_text env;
     env_self := env_self env; env_debugging := env_debugging env; env_goos := env_goos env;
     env_zip := env_zip env; env_zip_bytes := env_zip_bytes env; env_tree := env_tree env;
     env_targz := env_targz env; env_readdir := env_readdir env; env_compile := env_compile env |}.

(** As deployed, without a budget. *)
Definition zombie_kernel : Env :=
  unreaped (sample_env [] [("/c/cgroup.events", ("populated 0" +:+ String newline "frozen 1")%string)]
    (λ _, None) (λ _, HttpErr EDeadline) true None).


(** A monitor kills; an overlapping request, which has its answer, measures, and asks
    for the path of the cgroup ([recordMetricsImpl]). *)
Definition killed_and_asked : list request := [RqControl OpKill "p1"; RqCgroupPath].

(** The call of the kernel goroutine [i] waits in for ever. *)
Definition waits_for_ever (env : Env) (x : Guarded * list caller) (i : nat) : option request :=
  match x.2 !! i with
  | Some (At rq (Act m _)) => match m env (gd_ctl x.1) (gd_io x.1) with Cut _ _ => Some rq | _ => None end
  | _ => None
  end.

(** What goroutine [i] asks the mutex for. *)
Definition asks_for (x : Guarded * list caller) (i : nat) : option request :=
  match x.2 !! i with Some (At rq (Lock _)) => Some rq | _ => None end.

Example kill_locks_the_container :
  (λ x, (gd_held x.1, waits_for_ever zombie_kernel x 0, asks_for x 1)) <$>
    runs (λ _, []) (lock_moves zombie_kernel) (replicate 10 (Thread 0 0))
      (callers (sample_activation StateRunning) io_start killed_and_asked) =
  Some (true, Some (RqControl OpKill "p1"), Some RqCgroupPath).
Proof. vm_compute. reflexivity. Qed.

Lemma waits_for_ever_blocks env x i rq :
  waits_for_ever env x i = Some rq → ∃ p, x.2 !! i = Some (At rq p) ∧ blocks env x.1 p.
Proof.
  unfold waits_for_ever. destruct (x.2 !! i) as [[rq' p|]|]; try done. destruct p as [r|k|k|X m k]; try done.
  intros H. exists (Act m k). simpl. by destruct (m env _ _); simplify_eq.
Qed.

(** ** Without the mutex *)

(** The same methods with their [Lock] and [Unlock] taken out: a kill that comes while a
    freeze waits for the kernel finds FREEZING, which no order of the two calls gives. *)
Fixpoint unlocked {A} (p : prog A) : prog A :=
  match p with
  | Ret r => Ret r
  | Lock k | Unlock k => unlocked k
  | Act m k => Act m (λ x, unlocked (k x))
  end.

Definition freeze_and_kill : list request := [RqControl OpFreeze "p1"; RqControl OpKill "p2"].

(** What the goroutines have returned. *)
Definition returns (x : Guarded * list caller) : list (option reply) :=
  (λ t, match t with At _ (Ret rp) => Some rp | _ => None end) <$> x.2.

Example unlocked_calls_collide :
  returns <$> runs (λ _, []) (lock_moves obedient_kernel)
    (replicate 4 (Thread 0 0) ++ [Thread 1 0] ++ replicate 7 (Thread 0 0))
    ({| gd_ctl := sample_activation StateRunning; gd_io := io_start; gd_held := false |},
     (λ rq, At rq (unlocked (method rq))) <$> freeze_and_kill) =
  Some [Some (RpControl None);
        Some (RpControl (Some (newTransitionError "kill" StateFreezing "p2" (EMsg "killExecution requires RUNNING or FROZEN"))))].
Proof. vm_compute. reflexivity. Qed.

Example locked_calls_do_not :
  out_val ((call OpFreeze "p1";; call OpKill "p2") obedient_kernel (sample_activation StateRunning) io_start) = Some None ∧
  out_val ((call OpKill "p2") obedient_kernel (sample_activation StateRunning) io_start) = Some None.
Proof. split; vm_compute; reflexivity. Qed.

(** ** Witnesses *)

(** Who called, and what he was answered. *)
Definition answered (x : Guarded * list caller) (i : nat) : option (request * reply) :=
  match x.2 !! i with Some (At rq (Ret rp)) => Some (rq, rp) | _ => None end.

Lemma answered_returned x i rq rp : answered x i = Some (rq, rp) → x.2 !! i = Some (At rq (Ret rp)).
Proof. unfold answered. destruct (x.2 !! i) as [[rq' [r| | |]|]|]; try done. by intros [= -> ->]. Qed.

Example path_comes_second :
  (λ x, (answered x 0, answered x 1)) <$>
    runs (λ _, []) (lock_moves obedient_kernel) (replicate 13 (Thread 0 0) ++ replicate 3 (Thread 1 0))
      (callers (sample_activation StateRunning) io_start [RqControl OpFreeze "p1"; RqCgroupPath]) =
  Some (Some (RqControl OpFreeze "p1", RpControl None), Some (RqCgroupPath, RpCgroupPath "/c")).
Proof. vm_compute. reflexivity. Qed.

(** A schedule that runs gives a reachable pool. *)
Lemma scheduled {A} (f : Guarded * list caller → A) env cs a w rqs r :
  f <$> runs (λ _, []) (lock_moves env) cs (callers a w rqs) = Some r →
  ∃ x, rtc (contend env) (callers a w rqs) x ∧ f x = r.
Proof. intros (x & Hx & ->)%fmap_Some. exists x. split; [by eapply runs_rtc|done]. Qed.

Lemma overlapping_calls_serialize_witness :
  ∃ log a1 w1, in_turn obedient_kernel log (sample_activation StateRunning) io_start a1 w1 ∧
    (0%nat, RqControl OpFreeze "p1", RpControl None) ∈ log ∧ (1%nat, RqCgroupPath, RpCgroupPath "/c") ∈ log.
Proof.
  destruct (scheduled _ _ _ _ _ _ _ path_comes_second) as (x & Hr & [= H0 H1]).
  destruct (overlapping_calls_serialize obedient_kernel _ _ _ x Hr) as (log & a1 & w1 & Hlog & _ & Hret & _).
  exists log, a1, w1. split; [exact Hlog|]. split; apply Hret, answered_returned; assumption.
Defined.

Lemma waiting_kill_locks_everybody_out_witness :
  ∃ x, asks_for x 1 = Some RqCgroupPath ∧ ∀ y, rtc (contend zombie_kernel) x y → y = x.
Proof.
  destruct (scheduled _ _ _ _ _ _ _ kill_locks_the_container) as (x & Hr & [= _ Hk Ha]).
  destruct (waits_for_ever_blocks _ _ _ _ Hk) as (p & Hi & Hb). exists x. split; [exact Ha|].
  apply (waiting_kill_locks_everybody_out zombie_kernel _ _ _ x 0 (RqControl OpKill "p1") p Hr Hi Hb).
Defined.

Lemma budgeted_calls_return_witness :
  ∀ x, rtc (contend obedient_kernel) (callers (sample_activation StateRunning) io_start killed_and_asked) x →
    (∀ y, ¬ contend obedient_kernel x y) → ∀ i t, x.2 !! i = Some t → ∃ rq rp, t = At rq (Ret rp).
Proof.
  apply (budgeted_calls_return obedient_kernel (sample_activation StateRunning) io_start killed_and_asked).
  apply (bool_decide_unpack _). vm_compute. reflexivity.
Defined.
