(* ===== verification/Debug.v ===== *)
(** * Debug output ([openwhisk/debug.go])

    What [Debug] and [DebugLimit] write to the log, and when.  The callers' messages
    are not modelled: nothing the program does depends on them. *)

From S2P Require Import Prelude GoStrings Effects Paths.

Local Open Scope Z_scope.
Local Open Scope go_scope.

(** [Debug] with its message formatted: a line when [Debugging] is set. *)
Definition Debug {S} (message : string) : M S (option string) :=
  debugging ← asks env_debugging;
  mret (if debugging : bool then Some message else None).

(** [in[0:limit]] panics below 0; above the length the first branch is taken. *)
Definition DebugLimit {S} (msg data : string) (limit : Z) : M S (option string) :=
  if Z.of_nat (String.length data) <? limit then Debug (msg +:+ ":" +:+ data)
  else if limit <? 0 then panic "slice bounds out of range"
  else Debug (msg +:+ ":" +:+ String.substring 0 (Z.to_nat limit) data +:+ "...").

Lemma substring_start n s : (n ≤ String.length s)%nat →
  String.length (String.substring 0 n s) = n ∧ ∃ rest, s = String.substring 0 n s +:+ rest.
Proof.
  revert n. induction s as [|a s IH]; intros [|n] Hn; simpl in *; try lia.
  - split; [done|]. by exists ""%string.
  - split; [done|]. exists (String a s). by rewrite str_app_nil.
  - destruct (IH n ltac:(lia)) as [Hl [rest Hr]]. split; [by rewrite Hl|]. exists rest.
    by rewrite str_app_cons, <-Hr.
Qed.

(** However long the data, the line shows no more than its first [limit] bytes, and all
    of it when it is shorter; the call panics only for a negative limit. *)
Lemma debug_line_is_bounded {S} msg data limit env (s : S) w :
  env_debugging env = true → 0 ≤ limit →
  ∃ shown rest, data = shown +:+ rest ∧ Z.of_nat (String.length shown) ≤ limit ∧
    (Z.of_nat (String.length data) < limit → shown = data) ∧
    ∃ line, DebugLimit msg data limit env s w = Done (Some line) s w ∧
      line ∈ [msg +:+ ":" +:+ shown; msg +:+ ":" +:+ shown +:+ "..."].
Proof.
  intros Hd Hl. unfold DebugLimit, Debug. destruct (Z.ltb_spec (Z.of_nat (String.length data)) limit).
  - exists data, ""%string. split; [by rewrite str_app_nil_r|]. split; [lia|]. split; [done|].
    run. rewrite Hd. eexists. split; [done|]. set_solver.
  - destruct (Z.ltb_spec limit 0); [lia|].
    destruct (substring_start (Z.to_nat limit) data ltac:(lia)) as [Hlen [rest Hr]].
    eexists _, rest. split; [exact Hr|]. split; [lia|]. split; [lia|].
    run. rewrite Hd. eexists. split; [done|]. set_solver.
Qed.

Example debug_off : DebugLimit "received:" "{}" 120 (sample_env [] [] (λ _, None) (λ _, HttpErr EDeadline) false None) () io_start =
  Done None () io_start.
Proof. vm_compute. reflexivity. Qed.

Example received_prints_two_colons :
  (λ o, out_val o ≫= id) (DebugLimit "received:" "{}" 120
    (with_process (λ _, "")%string [] true (sample_env [] [] (λ _, None) (λ _, HttpErr EDeadline) false None)) () io_start) = Some "received::{}"%string.
Proof. vm_compute. reflexivity. Qed.
