(* ===== verification/Overlap.v ===== *)
(** * Overlapping requests ([openwhisk/runHandler.go], [openwhisk/executor.go])

    A container declared with a concurrency above one gets several [/run] at a time.
    They share the proxy and the one [Executor], its pipes, its marks and its
    [exited] channel; beside each handler run the reader goroutine of its [Interact]
    and its monitor.  The threads of the pool are activations, each with the program
    points of its three goroutines; an access to the shared state is a step of its
    own.

    A monitor looks at [stop] between two ticks of its timer only; what it notes in
    a tick, and how the tick ends, is arbitrary.  The library's sequential files model
    what a tick does ([Monitor]) and when its pause cycle ends ([Progress]).

    A read of the answers' pipe takes a whole line: the data race of several
    goroutines on one [bufio.Reader] is left out, so what goes wrong here goes wrong
    even with a sound reader.  The parent keeps the write end of that pipe open, so a
    reader sees no end of file when the process is gone.  A reading of
    [ap.theExecutor] under its own test for [nil] ([Pid], [FreezeMarks]) is one step; the
    uses without one ([Exited], [Interact]) are not. *)

From S2P Require Import Prelude Interleave Float64 GoStrings Json Effects Paths Rapl Instrumentation Segments.
From S2P Require Import Freezer EnergyState Channel Monitor.

Local Open Scope Z_scope.

(** ** The shared state *)

Definition nl : ascii := "010".

(** The first whole line of what has been written, and the rest. *)
Fixpoint first_line (s : string) : option (string * string) :=
  match s with
  | EmptyString => None
  | String a r =>
      if (a =? nl)%char then Some (""%string, r)
      else match first_line r with Some (l, rest) => Some (String a l, rest) | None => None end
  end.

Inductive push := PushInit (name : string) | PushRun (name : string).

Record Shared := {
  sh_slot : bool;                 (** [ap.theExecutor] is not [nil] *)
  sh_stdin : string;              (** written to the action, not read yet *)
  sh_stdout : list string;        (** answers not read yet *)
  sh_alive : bool;                (** the action's process *)
  sh_exited : bool;               (** [proc.exited] is closed *)
  sh_marks : list freezeMark;     (** [proc.marks] *)
  sh_owed : bool;                 (** [ap.pendingInitEntry] is not [nil] *)
  sh_pushes : list push           (** to the collector, newest first *)
}.

Definition set_slot b s := {| sh_slot := b; sh_stdin := sh_stdin s; sh_stdout := sh_stdout s; sh_alive := sh_alive s;
  sh_exited := sh_exited s; sh_marks := sh_marks s; sh_owed := sh_owed s; sh_pushes := sh_pushes s |}.
Definition set_pipes i o s := {| sh_slot := sh_slot s; sh_stdin := i; sh_stdout := o; sh_alive := sh_alive s;
  sh_exited := sh_exited s; sh_marks := sh_marks s; sh_owed := sh_owed s; sh_pushes := sh_pushes s |}.
Definition set_process a e s := {| sh_slot := sh_slot s; sh_stdin := sh_stdin s; sh_stdout := sh_stdout s; sh_alive := a;
  sh_exited := e; sh_marks := sh_marks s; sh_owed := sh_owed s; sh_pushes := sh_pushes s |}.
Definition set_shared_marks m s := {| sh_slot := sh_slot s; sh_stdin := sh_stdin s; sh_stdout := sh_stdout s; sh_alive := sh_alive s;
  sh_exited := sh_exited s; sh_marks := m; sh_owed := sh_owed s; sh_pushes := sh_pushes s |}.
Definition set_pushed o p s := {| sh_slot := sh_slot s; sh_stdin := sh_stdin s; sh_stdout := sh_stdout s; sh_alive := sh_alive s;
  sh_exited := sh_exited s; sh_marks := sh_marks s; sh_owed := o; sh_pushes := p |}.

(** ** An activation *)

(** Where its handler is: in [runHandler] up to the call of [Interact], in [Interact], after
    it.  An answer is [None] after [command exited], or for a killed step. *)
Inductive point :=
  | Checking                          (** [ap.theExecutor == nil] *)
  | Checked                           (** [ap.theExecutor.Exited()] *)
  | Entering                          (** [ap.theExecutor.Interact]: [proc.marks.reset()] *)
  | Writing                           (** [proc.input.Write(in)] *)
  | Ending                            (** [proc.input.Write("\n")] and the two [go] *)
  | Selecting                         (** the [select] on [chout] and [proc.exited] *)
  | Chosen (answer : option string)   (** [close(monitorStop)] *)
  | Joining (answer : option string)  (** [<-monitorFinished] *)
  | Settled (answer : option string)  (** [Interact] has returned *)
  | Measuring (answer : option string)
  | Tagging (answer : option string)  (** the pending [/init] entry is taken, under its mutex *)
  | Pushing (init : bool) (answer : option string)  (** [pushMetrics] of it, if any, then of the [/run] entry *)
  | Dropping                          (** [ap.theExecutor = nil] *)
  | Announcing
  | Answered (status : Z) (answer : option string)
  | Panicked.

Inductive reader := NoReader | Reading | Sending (line : string) | Sent.

(** What a monitor notes at once, of the result cell and of the marks. *)
Definition beat : Type := (energyMonitorResult → energyMonitorResult) * (list freezeMark → list freezeMark).

(** How a tick of its timer ends: it is back at its [select]; it has returned; or it polls
    the scheduler out of the pause of an UNKILLABLE step and is never resumed, with what
    each poll notes.  Posts and polls of the kernel have their timeouts, and a kill that
    waits for the reaping has it before [proc.exited] is closed. *)
Inductive tick_end := GoesOn | Returns | Repolls (b : beat).

(** What a tick notes, and how it ends. *)
Record tick := { tk_beats : list beat; tk_end : tick_end }.

(** The monitor of a managed step.  Its ticks are arbitrary, and there is no last one; it
    looks at [stop] between them only. *)
Record watch := {
  wt_started : bool;
  wt_plan : nat → tick;
  wt_next : nat;              (** the ticks so far *)
  wt_tick : option tick;      (** what is left of the one under way *)
  wt_told : bool;
  wt_finished : bool;
  wt_cell : energyMonitorResult
}.

Record activation := {
  av_name : string;
  av_input : string;
  av_point : point;
  av_reader : reader;
  av_monitor : option watch;
  av_seen : option energyMonitorResult;        (** what [Interact] read of the cell *)
  av_measured : option (list freezeMark)       (** the marks its measurement used *)
}.

Definition at_point p a := {| av_name := av_name a; av_input := av_input a; av_point := p; av_reader := av_reader a;
  av_monitor := av_monitor a; av_seen := av_seen a; av_measured := av_measured a |}.
Definition set_reader r a := {| av_name := av_name a; av_input := av_input a; av_point := av_point a; av_reader := r;
  av_monitor := av_monitor a; av_seen := av_seen a; av_measured := av_measured a |}.
Definition set_monitor m a := {| av_name := av_name a; av_input := av_input a; av_point := av_point a; av_reader := av_reader a;
  av_monitor := m; av_seen := av_seen a; av_measured := av_measured a |}.
Definition set_seen r a := {| av_name := av_name a; av_input := av_input a; av_point := av_point a; av_reader := av_reader a;
  av_monitor := av_monitor a; av_seen := r; av_measured := av_measured a |}.
Definition set_measured m a := {| av_name := av_name a; av_input := av_input a; av_point := av_point a; av_reader := av_reader a;
  av_monitor := av_monitor a; av_seen := av_seen a; av_measured := m |}.

Definition start_watch (w : watch) : watch := {| wt_started := true; wt_plan := wt_plan w; wt_next := wt_next w;
  wt_tick := wt_tick w; wt_told := wt_told w; wt_finished := wt_finished w; wt_cell := wt_cell w |}.
Definition tell (w : watch) : watch := {| wt_started := wt_started w; wt_plan := wt_plan w; wt_next := wt_next w;
  wt_tick := wt_tick w; wt_told := true; wt_finished := wt_finished w; wt_cell := wt_cell w |}.
Definition finish_watch (w : watch) : watch := {| wt_started := wt_started w; wt_plan := wt_plan w; wt_next := wt_next w;
  wt_tick := None; wt_told := wt_told w; wt_finished := true; wt_cell := wt_cell w |}.
Definition begin_tick (w : watch) : watch := {| wt_started := wt_started w; wt_plan := wt_plan w; wt_next := S (wt_next w);
  wt_tick := Some (wt_plan w (wt_next w)); wt_told := wt_told w; wt_finished := wt_finished w; wt_cell := wt_cell w |}.
Definition in_tick (t : option tick) (w : watch) : watch := {| wt_started := wt_started w; wt_plan := wt_plan w;
  wt_next := wt_next w; wt_tick := t; wt_told := wt_told w; wt_finished := wt_finished w; wt_cell := wt_cell w |}.
Definition note_cell (c : energyMonitorResult → energyMonitorResult) (w : watch) : watch := {| wt_started := wt_started w;
  wt_plan := wt_plan w; wt_next := wt_next w; wt_tick := wt_tick w; wt_told := wt_told w; wt_finished := wt_finished w;
  wt_cell := c (wt_cell w) |}.

(** [monitorResult.get] *)
Definition killed (a : activation) : bool := match av_seen a with Some r => res_killed r | None => false end.

Section overlap.

(** The action: what it writes for a line, and whether the proxy takes an answer for a
    dictionary or an array. *)
Context (reply : string → string) (is_result : string → bool).

(** ** The action's process *)

(** It answers the next line, or exits (by itself or killed); the reaper goroutine of
    [Start] then closes [proc.exited]. *)
Definition process (s : Shared) : list Shared :=
  if sh_alive s then
    match first_line (sh_stdin s) with
    | Some (l, rest) => [set_pipes rest (sh_stdout s ++ [reply l]) s; set_process false (sh_exited s) s]
    | None => [set_process false (sh_exited s) s]
    end
  else if sh_exited s then [] else [set_process false true s].

(** ** The handler *)

Definition handler_moves (s : Shared) (a : activation) : list (Shared * activation) :=
  match av_point a with
  | Checking => [(s, at_point (if sh_slot s then Checked else Answered 500 None) a)]
  | Checked =>
      [(s, at_point (if sh_slot s then if sh_exited s then Answered 500 None else Entering else Panicked) a)]
  | Entering => if sh_slot s then [(set_shared_marks [] s, at_point Writing a)] else [(s, at_point Panicked a)]
  | Writing => [(set_pipes (sh_stdin s +:+ av_input a) (sh_stdout s) s, at_point Ending a)]
  | Ending =>
      [(set_pipes (sh_stdin s +:+ String nl "") (sh_stdout s) s,
        at_point Selecting (set_reader Reading (set_monitor (start_watch <$> av_monitor a) a)))]
  | Selecting =>
      match av_reader a with
      | Sending l => [(s, at_point (Chosen (Some l)) (set_reader Sent a))]
      | _ => []
      end ++
      (if sh_exited s then [(s, at_point (Chosen None) a)] else [])
  | Chosen answer => [(s, at_point (Joining answer) (set_monitor (tell <$> av_monitor a) a))]
  | Joining answer =>
      match av_monitor a with
      | None => [(s, at_point (Settled answer) a)]
      | Some w => if wt_finished w then [(s, at_point (Settled answer) (set_seen (Some (wt_cell w)) a))] else []
      end
  | Settled answer =>
      [(s, at_point (if killed a then Measuring None
                     else match answer with
                          | None => Dropping
                          | Some l => if is_result l then Measuring (Some l) else Answered 502 None
                          end) a)]
  | Measuring answer => [(s, at_point (Tagging answer) (set_measured (Some (if sh_slot s then sh_marks s else [])) a))]
  | Tagging answer => [(set_pushed false (sh_pushes s) s, at_point (Pushing (sh_owed s) answer) a)]
  | Pushing true answer => [(set_pushed (sh_owed s) (PushInit (av_name a) :: sh_pushes s) s, at_point (Pushing false answer) a)]
  | Pushing false answer =>
      [(set_pushed (sh_owed s) (PushRun (av_name a) :: sh_pushes s) s,
        at_point (match answer with None => Dropping | Some l => Answered 200 (Some l) end) a)]
  | Dropping => [(set_slot false s, at_point Announcing a)]
  | Announcing => [(s, at_point (Answered 400 None) a)]
  | Answered _ _ | Panicked => []
  end.

(** ** The goroutines of [Interact] *)

Definition reader_moves (s : Shared) (a : activation) : list (Shared * activation) :=
  match av_reader a, sh_stdout s with
  | Reading, l :: rest => [(set_pipes (sh_stdin s) rest s, set_reader (Sending l) a)]
  | _, _ => []
  end.

(** [case <-ticker.C]: a tick begins, whether the monitor has been told to stop or not. *)
Definition tick_moves (s : Shared) (a : activation) : list (Shared * activation) :=
  match av_monitor a with
  | Some w =>
      if wt_started w && negb (wt_finished w) then
        match wt_tick w with
        | None => [(s, set_monitor (Some (begin_tick w)) a)]
        | Some _ => []
        end
      else []
  | None => []
  end.

(** [case <-stop] between two ticks, or the next thing of the tick under way: nothing in
    it looks at [stop]. *)
Definition watch_moves (s : Shared) (a : activation) : list (Shared * activation) :=
  match av_monitor a with
  | Some w =>
      if wt_started w && negb (wt_finished w) then
        match wt_tick w with
        | None => if wt_told w then [(s, set_monitor (Some (finish_watch w)) a)] else []
        | Some t =>
            match tk_beats t, tk_end t with
            | b :: bs, e =>
                [(set_shared_marks (b.2 (sh_marks s)) s,
                  set_monitor (Some (note_cell b.1 (in_tick (Some {| tk_beats := bs; tk_end := e |}) w))) a)]
            | [], GoesOn => [(s, set_monitor (Some (in_tick None w)) a)]
            | [], Returns => [(s, set_monitor (Some (finish_watch w)) a)]
            | [], Repolls b => [(set_shared_marks (b.2 (sh_marks s)) s, set_monitor (Some (note_cell b.1 w)) a)]
            end
        end
      else []
  | None => []
  end.

Definition monitor_moves (s : Shared) (a : activation) : list (Shared * activation) := watch_moves s a ++ tick_moves s a.

Definition moves (s : Shared) (a : activation) : list (Shared * activation) :=
  handler_moves s a ++ reader_moves s a ++ monitor_moves s a.

Abbreviation step := (pstep process moves).

(** A step that is not the beginning of a tick. *)
Definition other_moves (s : Shared) (a : activation) : list (Shared * activation) :=
  handler_moves s a ++ reader_moves s a ++ watch_moves s a.

Abbreviation other_step := (pstep process other_moves).

(** ** The beginning: an installed action, requests to come *)

Definition new_watch (plan : nat → tick) : watch := {| wt_started := false; wt_plan := plan; wt_next := 0; wt_tick := None;
  wt_told := false; wt_finished := false; wt_cell := new_result |}.

Definition request (name input : string) (plan : option (nat → tick)) : activation :=
  {| av_name := name; av_input := input; av_point := Checking; av_reader := NoReader;
     av_monitor := new_watch <$> plan; av_seen := None; av_measured := None |}.

Definition installed (owed : bool) : Shared :=
  {| sh_slot := true; sh_stdin := ""; sh_stdout := []; sh_alive := true; sh_exited := false; sh_marks := [];
     sh_owed := owed; sh_pushes := [] |}.

Definition arrives (a : activation) : Prop := ∃ name input plan, a = request name input plan.

Definition start (x : Shared * list activation) : Prop := (∃ owed, x.1 = installed owed) ∧ Forall arrives x.2.

(** ** Properties of every schedule *)

(** The cases of a move. *)
Ltac moves_cases H :=
  unfold moves, other_moves, handler_moves, reader_moves, monitor_moves, watch_moves, tick_moves in H;
  repeat first
    [ rewrite elem_of_app in H; destruct H as [H|H]
    | rewrite list_elem_of_singleton in H; simplify_eq/=
    | rewrite elem_of_nil in H; destruct H
    | case_match; simplify_eq/= ].

Lemma process_marks s s' : s' ∈ process s → sh_slot s' = sh_slot s ∧ sh_marks s' = sh_marks s ∧
  sh_owed s' = sh_owed s ∧ sh_pushes s' = sh_pushes s.
Proof. clear is_result. unfold process. intros H. repeat case_match; set_solver. Qed.

(** Not begun yet, and ended. *)
Definition waits (a : activation) : bool := match av_point a with Checking => true | _ => false end.
Definition finished (a : activation) : bool := match av_point a with Answered _ _ | Panicked => true | _ => false end.

(** A move leaves the handler where it is, begins the request, or carries it on. *)
Lemma move_shape s a s' a' :
  (s', a') ∈ moves s a →
  av_point a' = av_point a ∨
  (waits a = true ∧ s' = s ∧ av_point a' = if sh_slot s then Checked else Answered 500 None) ∨
  (waits a = false ∧ finished a = false ∧ waits a' = false).
Proof. unfold waits, finished. intros Hm. moves_cases Hm; auto. Qed.

Lemma slot_stays_dropped x y : step x y → sh_slot x.1 = false → sh_slot y.1 = false.
Proof.
  destruct 1 as [s s' l (Hs & _)%process_marks|s s' l i a a' Ha Hm]; simpl; [congruence|]. moves_cases Hm; congruence.
Qed.

(** The measurement of [/init]: still owed, in the hands of an activation, or pushed. *)
Definition inits (l : list push) : nat := sum_list_with (λ p, if p is PushInit _ then 1 else 0)%nat l.
Definition holds_init (a : activation) : nat := if av_point a is Pushing true _ then 1 else 0.
Definition one_init (x : Shared * list activation) : Prop :=
  ((if sh_owed x.1 then 1 else 0) + inits (sh_pushes x.1) + sum_list_with holds_init x.2 = 1)%nat.

Lemma holds_init_move s a s' a' :
  (s', a') ∈ moves s a →
  ((if sh_owed s' then 1 else 0) + inits (sh_pushes s') + holds_init a' =
   (if sh_owed s then 1 else 0) + inits (sh_pushes s) + holds_init a)%nat.
Proof.
  intros Hm. unfold holds_init. moves_cases Hm; try reflexivity; try lia; unfold inits; simpl; lia.
Qed.

Lemma one_init_step x y : one_init x → step x y → one_init y.
Proof.
  unfold one_init. intros Hx Hs. destruct Hs as [s s' l (_ & _ & Ho & Hp)%process_marks|s s' l i a a' Hi Hm]; simpl in *.
  - by rewrite Ho, Hp.
  - pose proof (sum_insert holds_init l i a a' Hi). pose proof (holds_init_move s a s' a' Hm). lia.
Qed.

(** Who records has taken what was owed. *)
Definition recorded (a : activation) : bool :=
  match av_point a with Pushing _ _ => true | Answered status _ => status =? 200 | _ => false end.

Definition push_name (p : push) : string := match p with PushInit name | PushRun name => name end.

Definition init_inv (x : Shared * list activation) : Prop :=
  one_init x ∧ Forall (λ a, recorded a = true → sh_owed x.1 = false) x.2 ∧
  Forall (λ p, push_name p ∈ av_name <$> x.2) (sh_pushes x.1).

Lemma recorded_move s a s' a' :
  (s', a') ∈ moves s a → (recorded a = true → sh_owed s = false) →
  (recorded a' = true → sh_owed s' = false) ∧ (sh_owed s = false → sh_owed s' = false).
Proof. unfold recorded. intros Hm. moves_cases Hm; tauto. Qed.

Lemma pushes_move s a s' a' :
  (s', a') ∈ moves s a →
  av_name a' = av_name a ∧ (sh_pushes s' = sh_pushes s ∨ ∃ p, push_name p = av_name a ∧ sh_pushes s' = p :: sh_pushes s).
Proof. intros Hm. moves_cases Hm; (split; [done|]); first [by left|right; eexists; by split; [|reflexivity]]. Qed.

Lemma init_inv_step x y : init_inv x → step x y → init_inv y.
Proof.
  intros (H1 & Hr & Hn) Hs. split; [by eapply one_init_step|].
  destruct Hs as [s s' l (_ & _ & Ho & Hp)%process_marks|s s' l i a a' Hi Hm]; simpl in *; [by rewrite Ho, Hp|].
  pose proof (recorded_move _ _ _ _ Hm (Forall_lookup_1 _ _ _ _ Hr Hi)) as [Ha Hkeep]. split.
  - apply Forall_insert; [|done]. eapply Forall_impl; [exact Hr|]. auto.
  - destruct (pushes_move _ _ _ _ Hm) as [Hname Hp].
    assert (av_name <$> <[i:=a']> l = av_name <$> l) as ->.
    { rewrite list_fmap_insert, Hname, list_insert_id; [done|]. by rewrite list_lookup_fmap, Hi. }
    destruct Hp as [->|(p & Hpn & ->)]; [done|]. constructor; [|done]. rewrite Hpn.
    apply list_elem_of_fmap_2. by eapply list_elem_of_lookup_2.
Qed.

(** C18: however the requests of a container overlap, the measurement of its
    [/init] is pushed at most once, by one of them and under its name; when one
    has recorded its own measurement, that of [/init] has been pushed or another
    one is about to. *)
Theorem init_is_pushed_once l y :
  Forall arrives l → rtc step (installed true, l) y →
  (inits (sh_pushes y.1) ≤ 1)%nat ∧
  ((∃ a, a ∈ y.2 ∧ recorded a = true) → inits (sh_pushes y.1) + sum_list_with holds_init y.2 = 1)%nat ∧
  ∀ name, PushInit name ∈ sh_pushes y.1 → name ∈ av_name <$> y.2.
Proof.
  intros Hl Hr. assert (Hy : init_inv y).
  { eapply (pool_invariant process moves init_inv); [apply init_inv_step|exact Hr|]. rewrite Forall_forall in Hl. split.
    - unfold one_init. simpl. replace (sum_list_with holds_init l) with 0%nat; [done|]. clear Hr.
      induction l as [|a l IH]; [done|]. simpl. destruct (Hl a) as (? & ? & ? & ->); [by left|].
      apply IH. intros b Hb. apply Hl. by right.
    - split; [|constructor]. apply Forall_forall. intros a (? & ? & ? & ->)%Hl. done. }
  destruct Hy as (H1 & Hrec & Hn). unfold one_init in H1. rewrite !Forall_forall in *. split; [lia|]. split.
  - intros (a & Ha & Hra). rewrite (Hrec a Ha Hra) in H1. lia.
  - intros name Hp. by apply (Hn _ Hp).
Qed.

(** *** What the proxy remembers of its requests *)

(** Who has dropped the executor, and who has taken what was owed. *)
Definition dropped (a : activation) : bool :=
  match av_point a with Announcing => true | Answered status _ => status =? 400 | _ => false end.

Definition took (a : activation) : bool :=
  match av_point a with
  | Pushing _ _ => true
  | Dropping | Announcing => killed a
  | Answered status _ => (status =? 200) || (status =? 400) && killed a
  | _ => false
  end.

(** Only a killed step records without an answer. *)
Definition in_order (a : activation) : Prop :=
  match av_point a with
  | Measuring None | Tagging None | Pushing _ None => killed a = true
  | Answered status _ => status ∈ [200; 400; 500; 502]
  | _ => True
  end.

Definition remembers (owed : bool) (x : Shared * list activation) : Prop :=
  sh_slot x.1 = negb (existsb dropped x.2) ∧ sh_owed x.1 = owed && negb (existsb took x.2) ∧ Forall in_order x.2.

(** A flag of a thread and the memory of the pool move together, and only one way. *)
Definition noted (f : activation → bool) (m m' : bool) (a a' : activation) : Prop :=
  f a' = f a ∧ m' = m ∨ f a' = true ∧ m' = false.

Lemma noted_insert f (b : bool) m m' l i a a' :
  l !! i = Some a → noted f m m' a a' → m = b && negb (existsb f l) → m' = b && negb (existsb f (<[i:=a']> l)).
Proof.
  intros Hi Hn ->. assert (Hb : existsb f (<[i:=a']> l) = if f a' then true else existsb f (<[i:=a']> l)).
  { destruct (f a') eqn:Hf; [|done]. apply existsb_exists. exists a'. split; [|done].
    apply list_elem_of_In, list_elem_of_lookup. exists i. apply list_lookup_insert_eq. by eapply lookup_lt_Some. }
  destruct Hn as [[Hf ->]|[Hf ->]]; [|by rewrite Hb, Hf, andb_false_r]. do 2 f_equal. clear Hb.
  revert i Hi. induction l as [|c l IH]; intros [|i] Hi; simpl in *; simplify_eq; [by rewrite Hf|]. by rewrite (IH i).
Qed.

Lemma move_noted s a s' a' :
  in_order a → (s', a') ∈ moves s a →
  noted dropped (sh_slot s) (sh_slot s') a a' ∧ noted took (sh_owed s) (sh_owed s') a a' ∧ in_order a'.
Proof.
  unfold noted, in_order, dropped, took. intros Hp Hm.
  moves_cases Hm; split_and!; try (by left); try (by right); try set_solver; try done; try (left; by rewrite Hp);
    try match goal with H : av_seen a = _, Hk : killed a = _ |- _ => unfold killed in Hk; rewrite H in Hk end;
    try done; left; by split.
Qed.

Lemma remembers_step owed x y : remembers owed x → step x y → remembers owed y.
Proof.
  intros (Hs & Ho & Hi) Hst. destruct Hst as [s s' l (Hs' & _ & Ho' & _)%process_marks|s s' l i a a' Ha Hm]; simpl in *.
  { split_and!; simpl; [congruence..|done]. }
  destruct (move_noted s a s' a' (Forall_lookup_1 _ _ _ _ Hi Ha) Hm) as (Hd & Ht & Hi'). split_and!; simpl.
  - by apply (noted_insert dropped true _ _ l i a a' Ha Hd).
  - by apply (noted_insert took owed _ _ l i a a' Ha Ht).
  - by apply Forall_insert.
Qed.

Lemma remembers_reachable owed l y :
  Forall arrives l → rtc step (installed owed, l) y → remembers owed y.
Proof.
  intros Hl Hr. eapply (pool_invariant process moves (remembers owed)); [apply remembers_step|exact Hr|].
  assert (Hno : ∀ f, (∀ a, arrives a → f a = false) → existsb f l = false).
  { intros f Hf. clear Hr. induction Hl as [|a l Ha _ IH]; [done|]. simpl. by rewrite Hf, IH. }
  split_and!; simpl.
  - rewrite Hno; [done|]. by intros a (? & ? & ? & ->).
  - rewrite Hno; [by rewrite andb_true_r|]. by intros a (? & ? & ? & ->).
  - eapply Forall_impl; [exact Hl|]. by intros a (? & ? & ? & ->).
Qed.

(** *** The monitor's result *)

(** [Interact] has returned, and the handler is still at work. *)
Definition returned (p : point) : bool :=
  match p with Settled _ | Measuring _ | Tagging _ | Pushing _ _ | Dropping | Announcing => true | _ => false end.

(** The monitor is told before it is waited for, and its cell is read when it has
    finished. *)
Definition heard (a : activation) : Prop :=
  match av_monitor a with
  | None => av_seen a = None
  | Some w =>
      match av_point a with
      | Answered _ _ | Panicked => True
      | Selecting | Chosen _ => av_seen a = None ∧ wt_started w = true
      | Joining _ => av_seen a = None ∧ wt_started w = true ∧ wt_told w = true
      | p => if returned p then wt_finished w = true ∧ av_seen a = Some (wt_cell w) else av_seen a = None
      end
  end.

Lemma heard_request a : arrives a → heard a.
Proof. intros (name & input & [plan|] & ->); done. Qed.

Lemma heard_move s a s' a' : heard a → (s', a') ∈ moves s a → heard a'.
Proof.
  unfold heard. intros Ha Hm. destruct (av_monitor a) as [w|] eqn:Hw.
  - moves_cases Hm; rewrite ?Hw in *; simplify_eq/=; try tauto;
      destruct Ha as [Hf _]; rewrite Hf, andb_false_r in *; done.
  - moves_cases Hm; rewrite ?Hw in *; simplify_eq/=; done.
Qed.

Lemma heard_reachable x y : start x → rtc step x y → Forall heard y.2.
Proof.
  intros [_ Hx] Hr. apply (pool_each process moves (λ _, True) (λ _, heard)) in Hr as [_ H]; [exact H|done| |done|].
  - intros s a s' a' _ Ha Hm. split; [done|]. split; [by eapply heard_move|done].
  - eapply Forall_impl; [exact Hx|]. apply heard_request.
Qed.

(** C17: when [Interact] returns, its monitor goroutine has ended, and what it
    reports (a kill, the lifecycle, the threshold) is the last thing the monitor
    wrote, however other requests interleave. *)
Theorem monitor_has_the_last_word x y a :
  start x → rtc step x y → a ∈ y.2 → returned (av_point a) = true →
  monitor_moves y.1 a = [] ∧ av_seen a = wt_cell <$> av_monitor a.
Proof.
  intros Hx Hr Ha Hp. pose proof (heard_reachable x y Hx Hr) as Hh. rewrite Forall_forall in Hh. specialize (Hh a Ha).
  unfold heard in Hh. unfold monitor_moves, watch_moves, tick_moves. destruct (av_monitor a) as [w|]; [|done].
  assert (wt_finished w = true ∧ av_seen a = Some (wt_cell w)) as [Hf ->] by (by destruct (av_point a)).
  by rewrite Hf, andb_false_r.
Qed.

(** *** After the process has exited *)

Definition rank_point (p : point) : nat :=
  match p with
  | Checking => 18 | Checked => 17 | Entering => 16 | Writing => 15 | Ending => 14 | Selecting => 11 | Chosen _ => 10
  | Joining _ => 9 | Settled _ => 8 | Measuring _ => 7 | Tagging _ => 6 | Pushing true _ => 5 | Pushing false _ => 4
  | Dropping => 3 | Announcing => 2
  | Answered _ _ | Panicked => 0
  end.

Definition rank_reader (r : reader) : nat := match r with Reading => 2 | Sending _ => 1 | _ => 0 end.

Definition rank_watch (w : watch) : nat :=
  if wt_finished w then 0 else match wt_tick w with None => 1 | Some t => 2 + length (tk_beats t) end.

Definition rank (a : activation) : nat :=
  (rank_point (av_point a) + rank_reader (av_reader a) + match av_monitor a with Some w => rank_watch w | None => 0 end)%nat.

(** Every tick of its monitor comes back to the [select] or returns: all those of an
    ordinary step do, and those of an UNKILLABLE one that is resumed in the end. *)
Definition not_endless (t : tick) : Prop := ∀ b, tk_end t ≠ Repolls b.
Definition comes_back (a : activation) : Prop :=
  match av_monitor a with
  | Some w => (∀ n, not_endless (wt_plan w n)) ∧ ∀ t, wt_tick w = Some t → not_endless t
  | None => True
  end.

Lemma comes_back_move s a s' a' : comes_back a → (s', a') ∈ moves s a → comes_back a'.
Proof.
  unfold comes_back. intros Ha Hm. destruct (av_monitor a) as [w|] eqn:Hw.
  - moves_cases Hm; rewrite ?Hw in *; simplify_eq/=; try done; destruct Ha as [Hp Ht]; (split; [done|]);
      intros u Hu; simplify_eq/=; first [done|by apply Hp|by apply Ht|exact (Ht _ eq_refl)].
  - moves_cases Hm; rewrite ?Hw in *; simplify_eq/=; done.
Qed.

Definition reaped (s : Shared) : Prop := sh_exited s = true ∧ sh_alive s = false.

Lemma other_moves_move s a r : r ∈ other_moves s a → r ∈ moves s a.
Proof. unfold other_moves, moves, monitor_moves. set_solver. Qed.

Lemma reaped_move s a s' a' : reaped s → (s', a') ∈ moves s a → reaped s'.
Proof. intros Hs Hm. by moves_cases Hm. Qed.

Lemma other_move_rank s a s' a' : comes_back a → (s', a') ∈ other_moves s a → (rank a' < rank a)%nat.
Proof.
  unfold comes_back, rank. intros Ha Hm.
  moves_cases Hm; simpl; try lia; unfold rank_watch, start_watch, tell, finish_watch, in_tick, note_cell; simpl;
    repeat match goal with
    | H : wt_started _ && negb (wt_finished ?w) = true |- _ => apply andb_true_iff in H as [_ H]; apply negb_true_iff in H; rewrite H
    | H : wt_tick _ = _ |- _ => rewrite H
    | H : tk_beats _ = _ |- _ => rewrite H
    end; simpl; try lia.
  destruct Ha as [_ Ht]. by destruct (Ht _ eq_refl b).
Qed.

Lemma process_reaped s s' : reaped s → s' ∈ process s → False.
Proof. intros [He Ha]. unfold process. rewrite Ha, He. apply not_elem_of_nil. Qed.

(** A process is reaped before [proc.exited] is closed. *)
Definition reaping (s : Shared) : Prop := sh_exited s = true → sh_alive s = false.

Lemma reaping_reachable x y : start x → rtc step x y → reaping y.1.
Proof.
  intros [[owed Hx] _] Hr. apply (pool_each process moves reaping (λ _ _, True)) in Hr as [H _]; [exact H| | |by rewrite Hx|by apply Forall_true].
  - intros s s' HJ Hs. split; [|done]. unfold process in Hs. unfold reaping in *. repeat case_match; set_solver.
  - intros s a s' a' HJ _ Hm. split; [|done]. moves_cases Hm; exact HJ.
Qed.

(** Nobody waits for another request, nor for a tick. *)
Lemma reaped_moves s a : reaped s → heard a → finished a = false → other_moves s a ≠ [].
Proof.
  intros [He _] Hh Hf Hm. unfold other_moves, heard, finished in *. apply app_eq_nil in Hm as [Hm [_ Ho]%app_eq_nil].
  unfold handler_moves, watch_moves in *. rewrite He in Hm.
  destruct (av_point a); try done.
  - by destruct (sh_slot s).
  - by apply app_eq_nil in Hm as [_ ?].
  - destruct (av_monitor a) as [w|]; [|done]. destruct Hh as (_ & Hst & Ht). rewrite Hst, Ht in Ho.
    destruct (wt_finished w); [done|]. simpl in Ho. destruct (wt_tick w) as [[[|] []]|]; done.
  - by destruct init.
Qed.

Lemma reaped_stays x y : rtc step x y → reaped x.1 → reaped y.1.
Proof.
  intros Hr Hx. apply (pool_each process moves reaped (λ _ _, True)) in Hr as [H _]; [exact H| | |done|by apply Forall_true].
  - intros s s' Hs Hp. by destruct (process_reaped s s').
  - intros s a s' a' Hs _ Hm. split; [by eapply reaped_move|done].
Qed.

Lemma comes_back_stays x y : rtc step x y → Forall comes_back x.2 → Forall comes_back y.2.
Proof.
  intros Hr Hx. apply (pool_each process moves (λ _, True) (λ _, comes_back)) in Hr as [_ H]; [exact H|done| |done|exact Hx].
  intros s a s' a' _ Ha Hm. split; [done|]. split; [by eapply comes_back_move|done].
Qed.

(** C6: when the process of a shared action has exited (or was killed) and was
    reaped, every request in flight gets its end, provided no monitor polls for
    ever out of a pause: no schedule goes on for ever unless monitors go on
    ticking for ever (told to stop, they take another tick instead), and none
    stops, or has only ticks left to take, before each request has been answered
    or has panicked. *)
Theorem exit_frees_every_activation x y :
  start x → Forall comes_back x.2 → rtc step x y → sh_exited y.1 = true →
  Acc (flip other_step) y ∧ ∀ z, rtc step y z → (∀ z', ¬ other_step z z') → Forall (λ a, finished a = true) z.2.
Proof.
  intros Hx Hcb Hr He. assert (Hreap : reaped y.1) by (split; [done|by apply (reaping_reachable x)]). split.
  - apply (pool_ends process other_moves reaped comes_back (λ _, 0%nat) rank); [| |done|by eapply comes_back_stays].
    + intros s s' Hs Hp. by destruct (process_reaped s s').
    + intros s t s' t' Hs Hc Hm. pose proof (other_moves_move s t _ Hm) as Hm'.
      split; [by eapply reaped_move|]. split; [by eapply comes_back_move|]. by apply (other_move_rank s t s' t').
  - intros z Hz Hstop. pose proof (reaped_stays y z Hz Hreap) as Hz'.
    pose proof (heard_reachable x z Hx ltac:(by etrans)) as Hh. apply Forall_lookup. intros i a Hi.
    destruct (finished a) eqn:Hf; [done|]. exfalso.
    destruct (other_moves z.1 a) as [|[s' a'] l] eqn:Hm.
    + revert Hm. apply reaped_moves; [done|by eapply Forall_lookup_1|done].
    + apply (Hstop (s', <[i := a']> z.2)). destruct z as [s zl]. eapply ps_thread; [exact Hi|].
      simpl in *. rewrite Hm. by left.
Qed.

(** *** A pause without an end *)

(** The handler waits for its answer, or for its monitor; has not come to [Interact]'s two
    [go]. *)
Definition awaiting (p : point) : bool := match p with Selecting | Chosen _ | Joining _ => true | _ => false end.
Definition early (p : point) : bool :=
  match p with Checking | Checked | Entering | Writing | Ending | Answered 500 None | Panicked => true | _ => false end.

(** The handler of a monitor at work waits for it. *)
Definition attended (a : activation) : Prop :=
  match av_monitor a with
  | Some w =>
      match wt_started w, wt_finished w with
      | true, false => awaiting (av_point a) = true
      | true, true => wt_tick w = None
      | false, _ => early (av_point a) = true ∧ wt_tick w = None
      end
  | None => True
  end.

Lemma attended_request a : arrives a → attended a.
Proof. intros (name & input & [plan|] & ->); done. Qed.

Lemma attended_move s a s' a' : attended a → (s', a') ∈ moves s a → attended a'.
Proof.
  unfold attended. intros Ha Hm. destruct (av_monitor a) as [w|] eqn:Hw.
  - unfold moves, monitor_moves in Hm. destruct (wt_started w) eqn:Hs, (wt_finished w) eqn:Hf;
      moves_cases Hm; rewrite ?Hw, ?Hs, ?Hf in *; simplify_eq/=; rewrite ?Hs, ?Hf in *; try done; try (by destruct Ha);
      try (by case_match).
  - moves_cases Hm; rewrite ?Hw in *; simplify_eq/=; done.
Qed.

Lemma attended_reachable x y : start x → rtc step x y → Forall attended y.2.
Proof.
  intros [_ Hx] Hr. apply (pool_each process moves (λ _, True) (λ _, attended)) in Hr as [_ H]; [exact H|done| |done|].
  - intros s a s' a' _ Ha Hm. split; [done|]. split; [by eapply attended_move|done].
  - eapply Forall_impl; [exact Hx|]. apply attended_request.
Qed.

(** In a tick that polls for ever. *)
Definition endless (a : activation) : Prop :=
  ∃ w t b, av_monitor a = Some w ∧ wt_tick w = Some t ∧ tk_end t = Repolls b.

Lemma endless_awaits a : attended a → endless a → awaiting (av_point a) = true.
Proof.
  intros Ha (w & t & b & Hw & Ht & _). unfold attended in Ha. rewrite Hw, Ht in Ha.
  destruct (wt_started w), (wt_finished w); try done; by destruct Ha.
Qed.

Lemma endless_move s a s' a' : attended a → endless a → (s', a') ∈ moves s a → endless a'.
Proof.
  intros Ha (w & t & b & Hw & Ht & Hb) Hm. unfold attended in Ha. rewrite Hw, Ht in Ha.
  destruct (wt_started w) eqn:Hs, (wt_finished w) eqn:Hf; try done; try (by destruct Ha).
  unfold endless. moves_cases Hm; rewrite ?Hw, ?Hs, ?Hf, ?Ht in *; simplify_eq/=; try done;
    (eexists _, _, _; repeat (split; [done|]); done).
Qed.

(** The monitor of an UNKILLABLE step that is never resumed keeps its request for
    ever: once it is in such a pause, its handler waits for it in every
    continuation, though it has its answer, has told it to stop, or the process has
    exited. *)
Theorem endless_pause_keeps_its_request x y i a z :
  start x → rtc step x y → y.2 !! i = Some a → endless a → rtc step y z →
  ∃ a', z.2 !! i = Some a' ∧ awaiting (av_point a') = true.
Proof.
  intros Hx Hr Hi He Hz. pose proof (attended_reachable x y Hx Hr) as Hat.
  assert (Hend : Forall attended z.2 ∧ ∃ a', z.2 !! i = Some a' ∧ endless a').
  { apply (pool_invariant process moves (λ z, Forall attended z.2 ∧ ∃ a', z.2 !! i = Some a' ∧ endless a') y z);
      [|done|split; [done|by exists a]]. clear -reply is_result. intros y z [Hat (a & Hi & He)] Hs.
    destruct Hs as [s s' l _|s s' l j b b' Hj Hm]; simpl in *; [split; [done|by exists a]|].
    pose proof (Forall_lookup_1 _ _ _ _ Hat Hj) as Hb. split; [apply Forall_insert; [done|by eapply attended_move]|].
    destruct (decide (j = i)) as [->|Hne]; [|exists a; by rewrite list_lookup_insert_ne].
    rewrite Hi in Hj. injection Hj as <-. exists b'. rewrite list_lookup_insert_eq by (by eapply lookup_lt_Some).
    split; [done|by eapply endless_move]. }
  destruct Hend as [Haz (a' & Hia' & Hea')]. exists a'. split; [done|]. apply endless_awaits; [by eapply Forall_lookup_1|done].
Qed.

(** *** One request at a time *)

(** A body without newlines, as [runHandler] leaves it. *)
Definition one_line (s : string) : bool := str_all (λ a, negb (a =? nl)%char) s.

Lemma first_line_app s t : one_line s = true → first_line (s +:+ String nl t) = Some (s, t).
Proof.
  induction s as [|a s IH]; [done|]. simpl. intros [Ha Hs]%andb_true_iff. apply negb_true_iff in Ha.
  rewrite Ha. by rewrite IH.
Qed.

Lemma first_line_none s : one_line s = true → first_line s = None.
Proof.
  induction s as [|a s IH]; [done|]. simpl. intros [Ha Hs]%andb_true_iff. apply negb_true_iff in Ha.
  by rewrite Ha, IH.
Qed.

Definition busy (a : activation) : bool := match av_point a with Checking | Answered _ _ | Panicked => false | _ => true end.

(** At most one activation is between its check and its end. *)
Definition solo (l : list activation) : Prop :=
  ∀ i j a b, l !! i = Some a → l !! j = Some b → busy a = true → busy b = true → i = j.

Definition solo_step (x y : Shared * list activation) : Prop := step x y ∧ solo y.2.

Definition at_rest (a : activation) : bool := match av_reader a with Reading | Sending _ => false | _ => true end.

Section invariant.
Context (i : nat).

Definition others_rest (l : list activation) : Prop := ∀ j b, j ≠ i → l !! j = Some b → at_rest b = true.

(** Nothing is in the pipes and no reader is left over. *)
Definition clean (s : Shared) (l : list activation) (a : activation) : Prop :=
  sh_stdin s = ""%string ∧ sh_stdout s = [] ∧ others_rest l ∧ at_rest a = true.

(** Where the line of [a] is: still to be read, answered, or with its reader. *)
Definition in_the_pipes (s : Shared) (a : activation) : Prop :=
  (sh_stdin s = (av_input a +:+ String nl "")%string ∧ sh_stdout s = [] ∧ av_reader a = Reading) ∨
  (sh_stdin s = ""%string ∧ sh_stdout s = [reply (av_input a)] ∧ av_reader a = Reading) ∨
  (sh_stdin s = ""%string ∧ sh_stdout s = [] ∧ av_reader a = Sending (reply (av_input a))).

(** What the activation that may be busy relies on. *)
Definition phase (s : Shared) (l : list activation) (a : activation) : Prop :=
  match av_point a with
  | Checking | Answered _ _ => sh_slot s = false ∨ sh_exited s = true ∨ clean s l a
  | Checked => sh_slot s = true ∧ (sh_exited s = true ∨ clean s l a)
  | Entering => sh_slot s = true ∧ clean s l a
  | Writing => clean s l a
  | Ending => sh_stdin s = av_input a ∧ sh_stdout s = [] ∧ others_rest l ∧ at_rest a = true
  | Selecting => others_rest l ∧ in_the_pipes s a
  | Chosen (Some r) | Joining (Some r) | Settled (Some r) | Measuring (Some r) | Tagging (Some r)
  | Pushing _ (Some r) =>
      r = reply (av_input a) ∧ clean s l a
  | Chosen None | Joining None | Settled None => sh_exited s = true
  | Measuring None | Tagging None | Pushing _ None | Dropping => True
  | Announcing => sh_slot s = false
  | Panicked => False
  end.

Lemma phase_mono s s' l l' a :
  sh_slot s' = sh_slot s → (sh_exited s = true → sh_exited s' = true) →
  sh_stdin s' = sh_stdin s → sh_stdout s' = sh_stdout s → (others_rest l → others_rest l') →
  phase s l a → phase s' l' a.
Proof.
  unfold phase, clean, in_the_pipes. intros -> He -> -> Hl. destruct (av_point a) as [| | | | | |[]|[]|[]|[]|[]|? []| | | |]; tauto.
Qed.

Lemma phase_process s s' l a :
  one_line (av_input a) = true → s' ∈ process s → phase s l a → phase s' l a.
Proof.
  intros Hone Hs Hp. unfold process in Hs. destruct (sh_alive s); [destruct (first_line (sh_stdin s)) as [[line rest]|] eqn:Hl|].
  - apply elem_of_cons in Hs as [->|Hs%list_elem_of_singleton]; [|subst s'; by apply (phase_mono s _ l)].
    unfold phase, clean, in_the_pipes in *. simpl.
    assert (Hempty : sh_stdin s ≠ ""%string) by (intros Hz; by rewrite Hz in Hl).
    pose proof (first_line_none _ Hone) as Hnone. pose proof (first_line_app _ "" Hone) as Happ.
    destruct (av_point a) as [| | | | | |[]|[]|[]|[]|[]|? []| | | |]; try tauto; try (destruct Hp as [Hi _]; congruence).
    destruct Hp as [Ho [(Hi & Hout & Hr)|[(Hi & _)|(Hi & _)]]]; [|done..].
    rewrite Hi, Happ in Hl. simplify_eq. split; [done|]. right; left. by rewrite Hout.
  - apply list_elem_of_singleton in Hs as ->. by apply (phase_mono s _ l).
  - destruct (sh_exited s); [by apply elem_of_nil in Hs|]. apply list_elem_of_singleton in Hs as ->. by apply (phase_mono s _ l).
Qed.

(** An end is the end of this very request. *)
Definition paired (a : activation) : Prop :=
  match av_point a with Answered _ (Some r) => r = reply (av_input a) | Panicked => False | _ => True end.

Lemma phase_handler s l a s' a' :
  phase s l a → (s', a') ∈ handler_moves s a → phase s' l a' ∧ paired a' ∧ av_input a' = av_input a.
Proof.
  unfold phase, paired, clean, in_the_pipes. intros Hp Hm. moves_cases Hm; try tauto; try (intuition congruence).
  destruct Hp as [Hi ?]. by rewrite Hi.
Qed.

Lemma phase_reader s l a s' a' :
  phase s l a → (s', a') ∈ reader_moves s a → phase s' l a' ∧ av_point a' = av_point a ∧ av_input a' = av_input a.
Proof.
  unfold phase, clean, in_the_pipes, at_rest. intros Hp Hm. unfold reader_moves in Hm.
  destruct (av_reader a) as [| | |]; try by apply elem_of_nil in Hm.
  destruct (sh_stdout s) as [|r rest] eqn:Ho; [by apply elem_of_nil in Hm|].
  apply list_elem_of_singleton in Hm as [= -> ->]. simpl. split; [|done].
  destruct (av_point a) as [| | | | | |[]|[]|[]|[]|[]|? []| | | |]; try (intuition congruence).
Qed.

Lemma phase_monitor s l a s' a' :
  phase s l a → (s', a') ∈ monitor_moves s a → phase s' l a' ∧ av_point a' = av_point a ∧ av_input a' = av_input a.
Proof. intros Hp Hm. moves_cases Hm; (split; [exact Hp|done]). Qed.

(** Another activation, which is not at work: it may be refused, its leftover reader may
    take a line, its monitor may end. *)
Lemma phase_other s l a j b s' b' :
  j ≠ i → l !! j = Some b → busy b = false → busy b' = false → phase s l a → (s', b') ∈ moves s b →
  phase s' (<[j := b']> l) a.
Proof.
  intros Hj Hb Hbusy Hbusy' Hp Hm.
  assert (Hrest : (at_rest b = true → at_rest b' = true) → others_rest l → others_rest (<[j := b']> l)).
  { intros Hr Ho k c Hk Hc. destruct (decide (k = j)) as [->|Hkj].
    - rewrite list_lookup_insert_eq in Hc by (by eapply lookup_lt_Some). simplify_eq. by apply Hr, (Ho j).
    - rewrite list_lookup_insert_ne in Hc by done. by apply (Ho k). }
  unfold moves in Hm. rewrite !elem_of_app in Hm. destruct Hm as [Hm|[Hm|Hm]].
  - assert (s' = s ∧ av_reader b' = av_reader b) as [-> Hr].
    { unfold busy in *. unfold handler_moves in Hm.
      destruct (av_point b); try done; [|by apply elem_of_nil in Hm..]. by apply list_elem_of_singleton in Hm as [= -> ->]. }
    eapply phase_mono, Hp; try done. apply Hrest. unfold at_rest. by rewrite Hr.
  - unfold reader_moves in Hm. destruct (av_reader b) as [| | |] eqn:Hr; try by apply elem_of_nil in Hm.
    assert (Ho : ¬ others_rest l) by (intros Ho; specialize (Ho j b Hj Hb); unfold at_rest in Ho; by rewrite Hr in Ho).
    destruct (sh_stdout s) as [|r rest] eqn:Hout; [by apply elem_of_nil in Hm|].
    apply list_elem_of_singleton in Hm as [= -> ->].
    unfold phase, clean, in_the_pipes in *. simpl.
    destruct (av_point a) as [| | | | | |[]|[]|[]|[]|[]|? []| | | |]; intuition congruence.
  - assert (sh_slot s' = sh_slot s ∧ sh_exited s' = sh_exited s ∧ sh_stdin s' = sh_stdin s ∧ sh_stdout s' = sh_stdout s
      ∧ av_reader b' = av_reader b) as (? & ? & ? & ? & Hr) by (moves_cases Hm; done).
    eapply phase_mono, Hp; try congruence. apply Hrest. unfold at_rest. by rewrite Hr.
Qed.
End invariant.

Definition solo_inv (x : Shared * list activation) : Prop :=
  Forall (λ a, one_line (av_input a) = true ∧ paired a) x.2 ∧
  ∃ i a, x.2 !! i = Some a ∧ (∀ j b, j ≠ i → x.2 !! j = Some b → busy b = false) ∧ phase i x.1 x.2 a.

(** The next request takes over from one that has ended. *)
Lemma phase_switch i j s l a b s' b' :
  j ≠ i → l !! i = Some a → l !! j = Some b → busy a = false → busy b = false → busy b' = true →
  phase i s l a → (s', b') ∈ moves s b → phase j s' (<[j := b']> l) b' ∧ paired b' ∧ av_input b' = av_input b.
Proof.
  intros Hj Ha Hb Hia Hib Hib' Hp Hm.
  assert (Hslot : sh_slot s = true ∧ s' = s ∧ b' = at_point Checked b).
  { unfold busy in *. unfold moves in Hm. rewrite !elem_of_app in Hm. destruct Hm as [Hm|[Hm|Hm]].
    - unfold handler_moves in Hm. destruct (av_point b); try done; [|by apply elem_of_nil in Hm..].
      apply list_elem_of_singleton in Hm as [= -> ->]. by destruct (sh_slot s).
    - moves_cases Hm; by destruct (av_point b).
    - moves_cases Hm; by destruct (av_point b). }
  destruct Hslot as (Hs & -> & ->). split; [|done]. unfold phase at 1. simpl. split; [done|].
  assert (Hrest : sh_exited s = true ∨ clean i s l a).
  { unfold phase, busy in *. destruct (av_point a); try done; destruct Hp as [?|?]; [congruence|done|congruence|done]. }
  destruct Hrest as [?|(Hin & Hout & Ho & Hr)]; [by left|right]. split; [done|]. split; [done|]. split; [|by apply (Ho j b)].
  intros k c Hk Hc. rewrite list_lookup_insert_ne in Hc by done.
  destruct (decide (k = i)) as [->|]; [by simplify_eq|by apply (Ho k)].
Qed.

Lemma paired_idle s b s' b' :
  busy b = false → paired b → (s', b') ∈ moves s b → paired b' ∧ av_input b' = av_input b.
Proof.
  unfold busy, paired. intros Hb Hp Hm. unfold moves in Hm. rewrite !elem_of_app in Hm. destruct Hm as [Hm|[Hm|Hm]].
  - unfold handler_moves in Hm. destruct (av_point b); try done; [|by apply elem_of_nil in Hm..].
    apply list_elem_of_singleton in Hm as [= -> ->]. by destruct (sh_slot s).
  - moves_cases Hm; done.
  - moves_cases Hm; done.
Qed.

(** The step of the activation in charge. *)
Lemma solo_own s l i a s' a' :
  l !! i = Some a → phase i s l a → paired a → (s', a') ∈ moves s a →
  phase i s' (<[i := a']> l) a' ∧ paired a' ∧ av_input a' = av_input a.
Proof.
  intros Ha Hp Hpair Hm. assert (phase i s' l a' ∧ paired a' ∧ av_input a' = av_input a) as (Hp' & ? & ?).
  { unfold moves in Hm. rewrite !elem_of_app in Hm. destruct Hm as [Hm|[Hm|Hm]]; [by eapply phase_handler| |].
    - destruct (phase_reader i s l a s' a' Hp Hm) as (? & Hpt & Hin). unfold paired in *. by rewrite Hpt, Hin.
    - destruct (phase_monitor i s l a s' a' Hp Hm) as (? & Hpt & Hin). unfold paired in *. by rewrite Hpt, Hin. }
  split; [|done]. eapply phase_mono, Hp'; try done. intros Ho j b Hj Hb.
  rewrite list_lookup_insert_ne in Hb by done. by apply (Ho j).
Qed.

Lemma solo_inv_step x y : solo_inv x → solo_step x y → solo_inv y.
Proof.
  intros (Hall & i & a & Ha & Hidle & Hp) [Hs Hsolo]. destruct Hs as [s s' l Hs|s s' l k t t' Hk Hm]; simpl in *.
  { split; [done|]. exists i, a. split; [done|]. split; [done|]. eapply phase_process; [|done..].
    by eapply (Forall_lookup_1 _ _ _ _ Hall Ha). }
  destruct (Forall_lookup_1 _ _ _ _ Hall Hk) as [Hone Hpair].
  assert (Hkl : (k < length l)%nat) by (by eapply lookup_lt_Some).
  destruct (decide (k = i)) as [->|Hki].
  - rewrite Ha in Hk. injection Hk as <-. destruct (solo_own s l i a s' t' Ha Hp Hpair Hm) as (Hp' & Hpt & Hin). split.
    { apply Forall_insert; [done|]. by rewrite Hin. }
    exists i, t'. split; [by apply list_lookup_insert_eq|]. split; [|done].
    intros j b Hj Hb. simpl in Hb. rewrite list_lookup_insert_ne in Hb by done. by eapply Hidle.
  - specialize (Hidle k t Hki Hk) as Ht. destruct (paired_idle s t s' t' Ht Hpair Hm) as [Hpt Hin]. split.
    { apply Forall_insert; [done|]. by rewrite Hin. }
    assert (Hai : <[k:=t']> l !! i = Some a) by (by rewrite list_lookup_insert_ne).
    assert (Hkk : <[k:=t']> l !! k = Some t') by (by apply list_lookup_insert_eq).
    destruct (busy t') eqn:Hbt.
    + assert (Hba : busy a = false).
      { destruct (busy a) eqn:Hba; [|done]. by destruct Hki; apply (Hsolo k i t' a). }
      exists k, t'. split; [done|]. split; [|by eapply (phase_switch i k)].
      intros j b Hj Hb. simpl in Hb. rewrite list_lookup_insert_ne in Hb by done.
      destruct (decide (j = i)) as [->|]; [by simplify_eq|by eapply Hidle].
    + exists i, a. split; [done|]. split; [|by eapply phase_other].
      intros j b Hj Hb. simpl in Hb. destruct (decide (j = k)) as [->|]; [by simplify_eq|].
      rewrite list_lookup_insert_ne in Hb by done. by eapply Hidle.
Qed.

Lemma solo_inv_start x :
  start x → Forall (λ a, one_line (av_input a) = true) x.2 → x.2 ≠ [] → solo_inv x.
Proof.
  destruct x as [s l]. unfold start. simpl. intros [[owed ->] Hl] Hone Hne. rewrite Forall_lookup in Hl. split.
  - apply Forall_lookup. intros i a Hi. split; [by eapply (Forall_lookup_1 _ _ _ _ Hone)|].
    destruct (Hl i a Hi) as (name & input & plan & ->). done.
  - destruct l as [|a l]; [done|]. exists 0%nat, a. split; [done|].
    assert (Hr : ∀ j b, (a :: l) !! j = Some b → busy b = false ∧ at_rest b = true ∧ av_point b = Checking).
    { intros j b Hb. destruct (Hl j b Hb) as (name & input & plan & ->). done. }
    split; [intros j b _ Hb; by apply (Hr j)|].
    destruct (Hr 0%nat a eq_refl) as (_ & Hra & Hpa). unfold phase. rewrite Hpa. right; right.
    split; [done|]. split; [done|]. split; [|done]. intros j b _ Hb. by apply (Hr j).
Qed.

(** C7: requests that come one at a time each get the answer to their own line: no
    other activation's answer, no panic, whatever the order of the goroutines and
    whenever the process exits or is killed. *)
Theorem one_at_a_time_is_paired x y :
  start x → Forall (λ a, one_line (av_input a) = true) x.2 → rtc solo_step x y →
  ∀ a, a ∈ y.2 → av_point a ≠ Panicked ∧ ∀ status r, av_point a = Answered status (Some r) → r = reply (av_input a).
Proof.
  intros Hx Hone Hr a Ha. assert (Hne : x.2 ≠ []).
  { intros He. assert (Hlen : length y.2 = length x.2); [|by rewrite He in Hlen; destruct (y.2); [set_solver|]].
    clear -Hr. induction Hr as [|x y z [Hs _] _ IH]; [done|]. by rewrite IH, (length_pstep _ _ _ _ Hs). }
  assert (Hi : solo_inv y) by (clear Ha; revert Hx Hone Hne Hr; intros; assert (H0 := solo_inv_start x Hx Hone Hne);
    clear -H0 Hr; induction Hr; [done|]; eauto using solo_inv_step).
  destruct Hi as [Hall _]. rewrite Forall_forall in Hall. destruct (Hall a Ha) as [_ Hp]. unfold paired in Hp.
  destruct (av_point a); try done. split; [done|]. intros status' r [= _ ->]. done.
Qed.
End overlap.

(** ** Sample schedules *)

Definition echo (line : string) : string := "re:" +:+ line.
Definition any_result (_ : string) : bool := true.
Definition two_requests : list activation := [request "A" "{1}" None; request "B" "{2}" None].

(** Both requests end, one after the other. *)
Definition in_turn : list choice :=
  replicate 5 (Thread 0 0) ++ [World 0] ++ replicate 9 (Thread 0 0) ++
  replicate 5 (Thread 1 0) ++ [World 0] ++ replicate 8 (Thread 1 0).

Definition run_echo (cs : list choice) (x : Shared * list activation) : Shared * list activation :=
  default x (runs (process echo) (moves any_result) cs x).

Definition ends (x : Shared * list activation) : list push * list point := (sh_pushes x.1, map av_point x.2).

Example in_turn_ends :
  ends (run_echo in_turn (installed true, two_requests)) =
  ([PushRun "B"; PushRun "A"; PushInit "A"]%string, [Answered 200 (Some "re:{1}"); Answered 200 (Some "re:{2}")]%string).
Proof. vm_compute. reflexivity. Qed.

Lemma run_echo_rtc cs x :
  is_Some (runs (process echo) (moves any_result) cs x) → rtc (pstep (process echo) (moves any_result)) x (run_echo cs x).
Proof. unfold run_echo. intros [y Hy]. rewrite Hy. by eapply runs_rtc. Qed.

Lemma init_is_pushed_once_witness :
  (inits (sh_pushes (run_echo in_turn (installed true, two_requests)).1) +
   sum_list_with holds_init (run_echo in_turn (installed true, two_requests)).2 = 1)%nat.
Proof.
  apply (init_is_pushed_once echo any_result two_requests).
  - repeat constructor; by eexists _, _, _.
  - apply run_echo_rtc. vm_compute. by eexists.
  - eexists. split; [vm_compute; left|reflexivity].
Defined.

(** A managed step that is frozen once, at its first tick, and resumed. *)
Definition frozen_once (e1 e2 : Z) (c1 c2 : CPUSnapshot) (n : nat) : tick :=
  match n with
  | O => {| tk_beats := [(id, noteFreeze e1 c1); (id, noteResume e2 c2)]; tk_end := GoesOn |}
  | S _ => {| tk_beats := []; tk_end := GoesOn |}
  end.

(** An UNKILLABLE one that is frozen and told to wait, for ever. *)
Definition frozen_for_ever (e : Z) (c : CPUSnapshot) (_ : nat) : tick :=
  {| tk_beats := [(id, noteFreeze e c)]; tk_end := Repolls (id, id) |}.

(** A managed step from its arrival to the return of its [Interact]. *)
Definition managed : Shared * list activation :=
  (installed true, [request "A" "{1}" (Some (frozen_once 5 9 zero_snapshot zero_snapshot))]).
Definition to_settled : list choice := replicate 9 (Thread 0 0) ++ [World 0] ++ replicate 5 (Thread 0 0).

Lemma managed_starts : start managed.
Proof. split; [by exists true|]. repeat constructor. by eexists _, _, _. Qed.

Lemma monitor_has_the_last_word_witness :
  ∃ a, (run_echo to_settled managed).2 = [a] ∧ av_point a = Settled (Some "re:{1}"%string) ∧
    monitor_moves (run_echo to_settled managed).1 a = [] ∧ av_seen a = wt_cell <$> av_monitor a.
Proof.
  eexists. split; [vm_compute; reflexivity|]. split; [reflexivity|].
  apply (monitor_has_the_last_word echo any_result managed); [exact managed_starts| | |reflexivity].
  - apply run_echo_rtc. vm_compute. by eexists.
  - vm_compute. left.
Defined.

(** The process exits while two requests wait for it. *)
Definition to_exit : list choice := replicate 5 (Thread 0 0) ++ replicate 5 (Thread 1 0) ++ [World 1; World 0].

Lemma two_start : start (installed true, two_requests).
Proof. split; [by exists true|]. repeat constructor; by eexists _, _, _. Qed.

Lemma exit_frees_every_activation_witness :
  ∃ y, y = run_echo to_exit (installed true, two_requests) ∧
  map av_point y.2 = [Selecting; Selecting] ∧
  Acc (flip (pstep (process echo) (other_moves any_result))) y ∧
  ∀ z, rtc (pstep (process echo) (moves any_result)) y z → (∀ z', ¬ pstep (process echo) (other_moves any_result) z z') →
    Forall (λ a, finished a = true) z.2.
Proof.
  eexists. split; [reflexivity|]. split; [vm_compute; reflexivity|].
  apply (exit_frees_every_activation echo any_result (installed true, two_requests) _ two_start).
  - repeat constructor.
  - apply run_echo_rtc. vm_compute. by eexists.
  - vm_compute. reflexivity.
Defined.

(** A frozen UNKILLABLE step whose process is killed from outside: its handler takes
    [command exited] and tells the monitor, which does not listen. *)
Definition waiting_for_ever : Shared * list activation :=
  (installed true, [request "A" "{1}" (Some (frozen_for_ever 5 zero_snapshot))]).
Definition to_waiting : list choice := replicate 7 (Thread 0 0) ++ [World 1; World 0] ++ replicate 2 (Thread 0 0).

Lemma endless_pause_keeps_its_request_witness :
  ∃ y, y = run_echo to_waiting waiting_for_ever ∧ sh_exited y.1 = true ∧ map av_point y.2 = [Joining None] ∧
    ∀ z, rtc (pstep (process echo) (moves any_result)) y z → ∃ a', z.2 !! 0%nat = Some a' ∧ awaiting (av_point a') = true.
Proof.
  eexists. split; [reflexivity|]. split; [vm_compute; reflexivity|]. split; [vm_compute; reflexivity|]. intros z Hz.
  assert (∃ a, (run_echo to_waiting waiting_for_ever).2 !! 0%nat = Some a ∧ endless a) as (a & Hi & He).
  { eexists. split; [vm_compute; reflexivity|]. eexists _, _, _. split; [reflexivity|]. split; reflexivity. }
  apply (endless_pause_keeps_its_request echo any_result waiting_for_ever (run_echo to_waiting waiting_for_ever) 0 a z); [| |exact Hi|exact He|exact Hz].
  - split; [by exists true|]. repeat constructor. by eexists _, _, _.
  - apply run_echo_rtc. vm_compute. by eexists.
Defined.

(** Schedules that keep requests apart. *)
Definition soloist (l : list activation) : bool := (length (List.filter busy l) <=? 1)%nat.

Lemma soloist_solo l : soloist l = true → solo l.
Proof.
  unfold soloist, solo. intros Hl%Nat.leb_le. intros i j a b. revert i j. induction l as [|c l IH]; intros i j Hi Hj Ha Hb; [done|].
  assert (Hin : ∀ k d, l !! k = Some d → busy d = true → (1 ≤ length (List.filter busy l))%nat).
  { intros k d Hk Hd. destruct (List.filter busy l) as [|e r] eqn:He; [|simpl; lia].
    assert (H : In d (List.filter busy l)) by (apply List.filter_In; split; [by apply list_elem_of_In; eapply list_elem_of_lookup_2|done]).
    by rewrite He in H. }
  simpl in Hl. destruct i as [|i], j as [|j]; simpl in Hi, Hj; simplify_eq; [done| | |].
  - rewrite Ha in Hl. simpl in Hl. specialize (Hin j b Hj Hb). lia.
  - rewrite Hb in Hl. simpl in Hl. specialize (Hin i a Hi Ha). lia.
  - f_equal. apply IH; [|done..]. destruct (busy c); simpl in Hl; lia.
Qed.

Fixpoint solo_runs (cs : list choice) (x : Shared * list activation) : bool :=
  match cs with
  | [] => true
  | c :: cs => match fire (process echo) (moves any_result) c x with
               | Some y => soloist y.2 && solo_runs cs y
               | None => false
               end
  end.

Lemma solo_runs_rtc cs x : solo_runs cs x = true → rtc (solo_step echo any_result) x (run_echo cs x).
Proof.
  intros Hx. assert (∃ y, runs (process echo) (moves any_result) cs x = Some y ∧ rtc (solo_step echo any_result) x y)
    as (y & Hy & Hr); [|unfold run_echo; by rewrite Hy].
  revert x Hx. induction cs as [|c cs IH]; intros x Hx; simpl in *; [by exists x|].
  destruct (fire _ _ c x) as [z|] eqn:Hf; [|done]. apply andb_true_iff in Hx as [Hs Hx].
  destruct (IH z Hx) as (y & Hy & Hr). exists y. split; [done|].
  eapply rtc_l; [split; [by eapply fire_pstep|by apply soloist_solo]|exact Hr].
Qed.

Lemma one_at_a_time_is_paired_witness :
  Forall (λ a, av_point a ≠ Panicked ∧ ∀ status r, av_point a = Answered status (Some r) → r = echo (av_input a))
    (run_echo in_turn (installed true, two_requests)).2.
Proof.
  apply Forall_forall. apply (one_at_a_time_is_paired echo any_result (installed true, two_requests)); [exact two_start|by repeat constructor|].
  apply solo_runs_rtc. vm_compute. reflexivity.
Defined.
