(* ===== verification/Serial.v ===== *)
(** * Overlapping requests obey the lifecycle

    [Container] shows that requests served one after the other obey the state machine
    [life].  The activations of [Overlap] refine the same machine: whatever the
    schedule, the statuses of the requests and the stage they leave are those of the
    requests served in some order, and the order keeps to real time: a request that
    ended before another began comes first.  (What they answer need not be that of any
    order: [Collisions].) *)

From S2P Require Import Prelude Interleave Effects Segments EnergyState Monitor Container Overlap.

Local Open Scope Z_scope.

(** ** The history of a run *)

(** A request begins, when it looks for the executor, and ends. *)
Inductive hevent := Begins (i : nat) (found : bool) | Ends (i : nat).

#[global] Instance hevent_dec : EqDecision hevent.
Proof. solve_decision. Defined.

Definition note (i : nat) (found : bool) (a a' : activation) : list hevent :=
  (if waits a && negb (waits a') then [Begins i found] else []) ++
  (if negb (finished a) && finished a' then [Ends i] else []).

Fixpoint notes (i : nat) (found : bool) (l l' : list activation) : list hevent :=
  match l, l' with
  | a :: l, a' :: l' => note i found a a' ++ notes (S i) found l l'
  | _, _ => []
  end.

Section observed.
Context (reply : string → string) (is_result : string → bool).

Abbreviation step := (pstep (process reply) (moves is_result)).

(** A run and what an observer notes of it. *)
Inductive observed (x : Shared * list activation) : list hevent → Shared * list activation → Prop :=
  | observed_start : observed x [] x
  | observed_step H y z : observed x H y → step y z → observed x (H ++ notes 0 (sh_slot y.1) y.2 z.2) z.

Lemma observed_rtc x H y : observed x H y → rtc step x y.
Proof. induction 1; [done|by eapply rtc_r]. Qed.

Lemma rtc_observed x y : rtc step x y → ∃ H, observed x H y.
Proof.
  revert y. apply (rtc_ind_r (λ y, ∃ H, observed x H y)); [by eexists; constructor|].
  intros y z _ Hs [H Ho]. eexists. by eapply observed_step.
Qed.
End observed.

(** [i] has ended when [j] begins. *)
Definition precedes (H : list hevent) (i j : nat) : Prop :=
  ∃ H1 H2 found, H = H1 ++ H2 ∧ Ends i ∈ H1 ∧ Begins j found ∈ H2.

Definition before {A} (l : list A) (x y : A) : Prop := ∃ l1 l2, l = l1 ++ l2 ∧ x ∈ l1 ∧ y ∈ l2.

Definition begun (H : list hevent) : list nat := omap (λ e, if e is Begins i _ then Some i else None) H.

(** ** Lemmas *)

Lemma before_filter {A} (P : A → Prop) `{!∀ x, Decision (P x)} l x y :
  before l x y → P x → P y → before (filter P l) x y.
Proof.
  intros (l1 & l2 & -> & Hx & Hy) Px Py. exists (filter P l1), (filter P l2). rewrite filter_app.
  split; [done|]. by split; apply list_elem_of_filter.
Qed.

Lemma before_l {A} (l k : list A) x y : before l x y → before (l ++ k) x y.
Proof. intros (l1 & l2 & -> & Hx & Hy). exists l1, (l2 ++ k). rewrite <-app_assoc. set_solver. Qed.
Lemma before_r {A} (l k : list A) x y : before l x y → before (k ++ l) x y.
Proof. intros (l1 & l2 & -> & Hx & Hy). exists (k ++ l1), l2. rewrite <-app_assoc. set_solver. Qed.
Lemma before_across {A} (l k : list A) x y : x ∈ l → y ∈ k → before (l ++ k) x y.
Proof. intros. by exists l, k. Qed.

Lemma begun_app H1 H2 : begun (H1 ++ H2) = begun H1 ++ begun H2.
Proof. apply omap_app. Qed.

Lemma elem_of_begun H i : i ∈ begun H ↔ ∃ found, Begins i found ∈ H.
Proof.
  unfold begun. rewrite list_elem_of_omap. split.
  - intros ([j found|j] & He & [= ->]). by exists found.
  - intros [found He]. by exists (Begins i found).
Qed.

Lemma note_same i found a a' : av_point a' = av_point a → note i found a a' = [].
Proof. unfold note, waits, finished. intros ->. by destruct (av_point a). Qed.

Lemma notes_same i found l : notes i found l l = [].
Proof. revert i. induction l as [|a l IH]; intros i; simpl; [done|]. by rewrite IH, note_same. Qed.

Lemma notes_insert i found l k a a' :
  l !! k = Some a → notes i found l (<[k := a']> l) = note (i + k) found a a'.
Proof.
  revert i k. induction l as [|b l IH]; intros i [|k] Hk; simpl in *; simplify_eq.
  - by rewrite notes_same, app_nil_r, Nat.add_0_r.
  - rewrite note_same, (IH (S i) k) by done. simpl. by rewrite Nat.add_succ_r.
Qed.

(** ** What the history says of the threads *)

(** While the executor is in place, nobody has been refused or has dropped it. *)
Definition before_drop (l : list activation) (e : hevent) : Prop :=
  match e with
  | Begins _ found => found = true
  | Ends i => ∃ a, l !! i = Some a ∧ finished a = true ∧ dropped a = false
  end.

Inductive sound (l : list activation) : list hevent → Prop :=
  | sound_nil : sound l []
  | sound_found H i : sound l H → i ∉ begun H → Forall (before_drop l) H → sound l (H ++ [Begins i true])
  | sound_refused H i a : sound l H → i ∉ begun H → l !! i = Some a → av_point a = Answered 500 None →
      sound l (H ++ [Begins i false])
  | sound_ends H i a : sound l H → i ∈ begun H → l !! i = Some a → finished a = true → sound l (H ++ [Ends i]).

(** Ended requests stay as they are. *)
Definition keeps_ended (l l' : list activation) : Prop :=
  ∀ i a, l !! i = Some a → finished a = true → ∃ a', l' !! i = Some a' ∧ av_point a' = av_point a.

Lemma before_drop_mono l l' e : keeps_ended l l' → before_drop l e → before_drop l' e.
Proof.
  intros Hk. destruct e as [i found|i]; [done|]. intros (a & Ha & Hf & Hd). destruct (Hk i a Ha Hf) as (a' & Ha' & Hp).
  exists a'. unfold finished, dropped in *. by rewrite Hp.
Qed.

Lemma sound_mono l l' H : keeps_ended l l' → sound l H → sound l' H.
Proof.
  intros Hk. induction 1 as [|H i _ IH Hi Hb|H i a _ IH Hi Ha Hp|H i a _ IH Hi Ha Hf]; [constructor|..].
  - apply sound_found; [done|done|]. eapply Forall_impl; [exact Hb|]. intros e. by apply before_drop_mono.
  - destruct (Hk i a Ha) as (a' & Ha' & Hp'); [unfold finished; by rewrite Hp|].
    eapply sound_refused; [done|done|exact Ha'|congruence].
  - destruct (Hk i a Ha Hf) as (a' & Ha' & Hp'). eapply sound_ends; [done|done|exact Ha'|].
    unfold finished in *. by rewrite Hp'.
Qed.

Lemma sound_nodup l H : sound l H → NoDup (begun H).
Proof.
  induction 1 as [|H i _ IH Hi _|H i a _ IH Hi _ _|H i a _ IH _ _ _]; [constructor|..]; rewrite begun_app; simpl;
    rewrite ?app_nil_r; [..|done]; (apply NoDup_app; split; [done|]; split; [set_solver|apply NoDup_singleton]).
Qed.

Lemma sound_ended l H i : sound l H → Ends i ∈ H → i ∈ begun H ∧ ∃ a, l !! i = Some a ∧ finished a = true.
Proof.
  induction 1 as [|H j _ IH Hi _|H j a _ IH Hi _ _|H j a _ IH Hj Ha Hf]; [set_solver|..];
    rewrite begun_app, !elem_of_app, list_elem_of_singleton; intros [He|He]; try done;
    try (destruct (IH He); auto); simplify_eq. split; [by left|by exists a].
Qed.

Lemma sound_refusal l H i : sound l H → Begins i false ∈ H → ∃ a, l !! i = Some a ∧ av_point a = Answered 500 None.
Proof.
  induction 1 as [|H j _ IH Hi _|H j a _ IH Hi Ha Hp|H j a _ IH Hj Ha Hf]; [set_solver|..];
    rewrite elem_of_app, list_elem_of_singleton; intros [He|He]; try done; try auto. simplify_eq. by exists a.
Qed.

(** Precedence: the order of the beginnings, and who begins with the executor in place
    comes after requests that found it and left it. *)
Lemma sound_precedes l H i j :
  sound l H → precedes H i j →
  before (begun H) i j ∧
  (Begins j false ∈ H ∨ (Begins i false ∉ H ∧ ∃ a, l !! i = Some a ∧ dropped a = false)).
Proof.
  assert (Hsplit : ∀ H e, precedes (H ++ [e]) i j → precedes H i j ∨ (Ends i ∈ H ∧ ∃ found, e = Begins j found)).
  { intros H0 e (H1 & H2 & found & Heq & Hi & Hj). destruct H2 as [|e' H2 _] using rev_ind; [set_solver|].
    rewrite app_assoc in Heq. apply app_inj_tail in Heq as [-> <-].
    rewrite elem_of_app, list_elem_of_singleton in Hj. destruct Hj as [Hj|<-].
    - left. by exists H1, H2, found.
    - right. split; [set_solver|by exists found]. }
  intros Hs. induction Hs as [|H k Hs IH Hk Hb|H k a Hs IH Hk Ha Hp|H k a Hs IH Hk Ha Hf]; intros Hpre.
  - destruct Hpre as (H1 & H2 & found & Heq & Hi & _). symmetry in Heq. apply app_eq_nil in Heq as [-> _]. set_solver.
  - rewrite begun_app. apply Hsplit in Hpre as [Hpre|(Hi & found & [= <- <-])].
    + destruct (IH Hpre) as [Hbe [Hj|[Hi Hd]]]; (split; [by apply before_l|]); [left; set_solver|right; set_solver].
    + destruct (sound_ended _ _ _ Hs Hi) as [Hbi _]. split; [by apply before_across; [|set_solver]|]. right. split.
      * rewrite elem_of_app, list_elem_of_singleton. intros [Hx|[=]]. rewrite Forall_forall in Hb. by specialize (Hb _ Hx).
      * rewrite Forall_forall in Hb. destruct (Hb _ Hi) as (b & Hb' & _ & Hd). by exists b.
  - rewrite begun_app. apply Hsplit in Hpre as [Hpre|(Hi & found & [= <- <-])].
    + destruct (IH Hpre) as [Hbe Hc]. split; [by apply before_l|]. destruct Hc as [Hj|[Hi Hd]]; [left; set_solver|].
      right. split; [|done]. rewrite elem_of_app, list_elem_of_singleton. intros [?|[= ->]]; [done|].
      apply Hk. destruct Hbe as (l1 & l2 & -> & ? & ?). set_solver.
    + destruct (sound_ended _ _ _ Hs Hi) as [Hbi _]. split; [by apply before_across; [|set_solver]|]. left. set_solver.
  - rewrite begun_app. apply Hsplit in Hpre as [Hpre|(Hi & found & [=])]. destruct (IH Hpre) as [Hbe Hc].
    split; [by apply before_l|]. destruct Hc as [Hj|[Hi Hd]]; [left; set_solver|right; set_solver].
Qed.

(** The history and the state of a run. *)
Definition consistent (H : list hevent) (y : Shared * list activation) : Prop :=
  sound y.2 H ∧ (∀ i a, y.2 !! i = Some a → (i ∈ begun H ↔ waits a = false)) ∧
  (∀ i, i ∈ begun H → is_Some (y.2 !! i)) ∧ (sh_slot y.1 = true → ∀ i, Begins i false ∉ H).

Lemma all_before_drop owed H y :
  consistent H y → remembers owed y → sh_slot y.1 = true → Forall (before_drop y.2) H.
Proof.
  intros (Hs & _ & _ & Hno) (Hd & _) Hslot. rewrite Hslot in Hd. symmetry in Hd. apply negb_true_iff in Hd.
  apply Forall_forall. intros [i [|]|i] He; [done|by destruct (Hno Hslot i)|].
  destruct (sound_ended _ _ _ Hs He) as [_ (a & Ha & Hf)]. exists a. split; [done|]. split; [done|].
  destruct (dropped a) eqn:Hda; [|done]. rewrite <-Hd. symmetry. apply existsb_exists. exists a.
  split; [|done]. apply list_elem_of_In. by eapply list_elem_of_lookup_2.
Qed.

Section steps.
Context (reply : string → string) (is_result : string → bool).

Abbreviation step := (pstep (process reply) (moves is_result)).

Lemma keeps_ended_insert s s' l k a a' :
  l !! k = Some a → (s', a') ∈ moves is_result s a → keeps_ended l (<[k := a']> l).
Proof.
  intros Hk Hm i b Hb Hf. destruct (decide (i = k)) as [->|Hik]; [|exists b; by rewrite list_lookup_insert_ne].
  rewrite Hk in Hb. injection Hb as <-. exists a'. split; [apply list_lookup_insert_eq; by eapply lookup_lt_Some|].
  destruct (move_shape _ _ _ _ _ Hm) as [?|[(Hw & _)|(_ & ? & _)]]; [done| |congruence].
  unfold waits, finished in *. by destruct (av_point a).
Qed.

Lemma consistent_step owed H y z :
  consistent H y → remembers owed y → step y z → consistent (H ++ notes 0 (sh_slot y.1) y.2 z.2) z.
Proof.
  intros Hc Hrem Hst. pose proof (all_before_drop owed H y Hc Hrem) as Hbd.
  pose proof (slot_stays_dropped reply is_result y z Hst) as Hmono. destruct Hc as (Hs & Hw & Hl & Hno).
  destruct Hst as [s s' l (Hs' & _)%process_marks|s s' l k a a' Hk Hm]; simpl in *.
  { rewrite notes_same, app_nil_r. split_and!; simpl; [done..|]. by rewrite Hs'. }
  rewrite (notes_insert _ _ _ _ _ _ Hk). simpl. pose proof (keeps_ended_insert _ _ _ _ _ _ Hk Hm) as Hkeep.
  set (l' := <[k := a']> l) in *. pose proof (sound_mono _ _ _ Hkeep Hs) as Hs'.
  assert (Hk' : l' !! k = Some a') by (apply list_lookup_insert_eq; by eapply lookup_lt_Some).
  assert (Hne : ∀ i, i ≠ k → l' !! i = l !! i) by (intros; by apply list_lookup_insert_ne).
  assert (Hno' : sh_slot s' = true → ∀ i, Begins i false ∉ H).
  { intros Ht. apply Hno. destruct (sh_slot s) eqn:He; [done|]. by rewrite Hmono in Ht. }
  assert (Hgo : ∀ new, sound l' (H ++ new) → (k ∈ begun (H ++ new) ↔ waits a' = false) →
    (∀ i, i ∈ begun new → i = k) → (sh_slot s' = true → Begins k false ∉ new) → consistent (H ++ new) (s', l')).
  { intros new H1 H2 H3 H4. split; [done|]. simpl. split_and!.
    - intros i b Hi. destruct (decide (i = k)) as [->|Hik]; [rewrite Hk' in Hi; by injection Hi as <-|].
      rewrite Hne in Hi by done. rewrite begun_app, elem_of_app, <-(Hw i b Hi). split; [|by left].
      intros [?|?%H3]; done.
    - intros i. destruct (decide (i = k)) as [->|Hik]; [by rewrite Hk'|]. rewrite begun_app, elem_of_app, Hne by done.
      intros [?|?%H3]; [by apply Hl|done].
    - intros Ht i. rewrite elem_of_app. intros [Hi|Hi]; [by eapply Hno'|].
      assert (i = k) as -> by (apply H3, elem_of_begun; by eexists). by apply H4 in Ht. }
  assert (Hquiet : (k ∈ begun H ↔ waits a' = false) → consistent (H ++ []) (s', l')).
  { intros Hq. apply Hgo; [by rewrite app_nil_r|by rewrite app_nil_r|by intros i ?%elem_of_nil|by intros _ ?%elem_of_nil]. }
  destruct (move_shape _ _ _ _ _ Hm) as [Hp|[(Hwa & -> & Hp)|(Hwa & Hfa & Hwa')]].
  - rewrite note_same by done. apply Hquiet. rewrite (Hw k a Hk). unfold waits. by rewrite Hp.
  - assert (Hfa : finished a = false) by (unfold waits, finished in *; by destruct (av_point a)).
    assert (Hnew : k ∉ begun H) by (rewrite (Hw k a Hk), Hwa; done).
    assert (Hone : ∀ b r, k ∈ begun (H ++ Begins k b :: r)).
    { intros b r. apply elem_of_begun. exists b. apply elem_of_app. right. by left. }
    unfold note. rewrite Hwa, Hfa. unfold waits, finished in *. destruct (sh_slot s) eqn:Hsl; rewrite Hp; simpl.
    + apply Hgo; [|by split; [rewrite Hp|intros _; apply Hone]|by intros i ->%list_elem_of_singleton|by intros _ [=]%list_elem_of_singleton].
      apply sound_found; [done|done|]. eapply Forall_impl; [by apply Hbd|]. intros e. by apply before_drop_mono.
    + apply Hgo; [|by split; [rewrite Hp|intros _; apply Hone]|by intros i ->%list_elem_of_singleton|done].
      change [Begins k false; Ends k] with ([Begins k false] ++ [Ends k]). rewrite app_assoc.
      eapply sound_ends; [by eapply sound_refused|apply Hone|exact Hk'|by unfold finished; rewrite Hp].
  - unfold note. rewrite Hwa, Hfa, Hwa'. simpl. assert (Hin : k ∈ begun H) by by apply (Hw k a Hk).
    destruct (finished a') eqn:Hf'; [|by apply Hquiet].
    apply Hgo; [by eapply sound_ends| |by intros i ?%elem_of_nil|by intros _ [=]%list_elem_of_singleton].
    rewrite begun_app, elem_of_app. split; [done|by left].
Qed.

Lemma observed_consistent owed l H y :
  Forall arrives l → observed reply is_result (installed owed, l) H y → consistent H y.
Proof.
  intros Hl. induction 1 as [|H y z Ho IH Hs].
  - split; [constructor|]. rewrite Forall_lookup in Hl. split_and!; simpl; [|set_solver..].
    intros i a (? & ? & ? & ->)%Hl. split; [set_solver|done].
  - eapply consistent_step; [done| |done]. eapply remembers_reachable; [exact Hl|]. by eapply observed_rtc.
Qed.
End steps.

(** ** The order *)

(** The stage of a container whose action was installed, and what the caller of a request
    was told. *)
Definition stage_of_shared (s : Shared) : stage := if sh_slot s then Alive (sh_owed s) else Dead (sh_owed s).

Definition outcome (a : activation) : string * option Z :=
  ("/run"%string, match av_point a with Answered status _ => Some status | _ => None end).

(** The requests in an order. *)
Definition threads (l : list activation) (order : list nat) : list activation := omap (λ i, l !! i) order.

(** Ended, with a status of [runHandler]. *)
Definition ended (a : activation) : Prop := finished a = true ∧ in_order a.

(** Requests that keep the executor. *)
Lemma keep_alive o l :
  Forall ended l → Forall (λ a, dropped a = false) l →
  lives (Alive o) (outcome <$> l) (Alive (o && negb (existsb took l))).
Proof.
  intros He Hd. revert o. induction l as [|a l IH]; intros o; [by rewrite andb_true_r; constructor|].
  apply Forall_cons in He as [[Hf Hi] He], Hd as [Ha Hd]. cbn [fmap list_fmap existsb].
  apply lives_cons. exists (Alive (o && negb (took a))). split; [|by rewrite negb_orb, andb_assoc; apply IH].
  unfold finished, in_order, dropped, took, outcome in *. destruct (av_point a) as [| | | | | | | | | | | | | |status r|]; try done.
  - simpl. rewrite Ha. destruct (Z.eqb_spec status 200) as [->|].
    + rewrite andb_false_r. apply life_served.
    + rewrite andb_true_r. apply life_bad. apply Z.eqb_neq in Ha. set_solver.
  - rewrite andb_true_r. apply life_waiting.
Qed.

(** Requests that find it dropped: they are refused, or drop it again. *)
Lemma stay_dead o l :
  Forall (λ a, ∃ status r, av_point a = Answered status r ∧ status ∈ [400; 500]) l →
  lives (Dead o) (outcome <$> l) (Dead o).
Proof.
  induction 1 as [|a l (status & r & Hp & Hs) _ IH]; [constructor|].
  apply lives_cons. exists (Dead o). split; [|done]. unfold outcome. rewrite Hp. by apply life_unserved.
Qed.

Lemma dropped_answer a : ended a → dropped a = true → (∃ r, av_point a = Answered 400 r) ∧ took a = killed a.
Proof.
  unfold ended, finished, dropped, took. intros [Hf _].
  destruct (av_point a) as [| | | | | | | | | | | | | |status r|]; try done. intros ->%Z.eqb_eq. split; [by exists r|done].
Qed.

Lemma dropped_answers l :
  Forall ended l → Forall (λ a, dropped a = true) l →
  Forall (λ a, ∃ status r, av_point a = Answered status r ∧ status ∈ [400; 500]) l.
Proof.
  intros He Hd. apply Forall_forall. intros a Ha. rewrite Forall_forall in He, Hd.
  destruct (dropped_answer a (He a Ha) (Hd a Ha)) as [[r Hr] _]. exists 400, r. split; [done|by left].
Qed.

Lemma existsb_all {A} (f : A → bool) b l : Forall (λ a, f a = b) l → existsb f l = b && negb (bool_decide (l = [])).
Proof. induction 1 as [|a l Ha _ IH]; simpl; [by rewrite andb_false_r|]. rewrite Ha, IH. by destruct b. Qed.

(** Requests that drop it: those whose step was killed first, then the others. *)
Lemma die o k e :
  Forall ended (k ++ e) → Forall (λ a, dropped a = true) (k ++ e) → k ++ e ≠ [] →
  Forall (λ a, took a = true) k → Forall (λ a, took a = false) e →
  lives (Alive o) (outcome <$> k ++ e) (Dead (o && negb (existsb took (k ++ e)))).
Proof.
  intros He Hd Hne Hk Hx. pose proof (dropped_answers _ He Hd) as Hall.
  rewrite existsb_app, (existsb_all _ _ _ Hk), (existsb_all _ _ _ Hx), orb_false_r. simpl.
  destruct k as [|a k]; [destruct e as [|a e]; [done|]|]; simpl in *; apply Forall_cons in He as [He _], Hd as [Hd _];
    destruct (dropped_answer a He Hd) as [[r Hr] Ht]; apply Forall_cons in Hall as [_ Hall];
    assert (outcome a = ("/run"%string, Some 400)) as Ho by (unfold outcome; by rewrite Hr);
    apply lives_cons; rewrite Ho; simpl.
  - exists (Dead o). split; [apply life_exited|]. rewrite andb_true_r. by apply stay_dead.
  - exists (Dead false). split; [apply life_killed|]. rewrite andb_false_r. by apply stay_dead.
Qed.

Lemma existsb_perm {A} (f : A → bool) l l' : l ≡ₚ l' → existsb f l = existsb f l'.
Proof. induction 1; simpl; [done|congruence|by destruct (f x), (f y)|congruence]. Qed.

Lemma threads_app l o1 o2 : threads l (o1 ++ o2) = threads l o1 ++ threads l o2.
Proof. apply omap_app. Qed.

Lemma threads_seq l : threads l (seq 0 (length l)) = l.
Proof.
  unfold threads. induction l as [|a l IH]; [done|]. simpl. f_equal. rewrite <-fmap_S_seq.
  etrans; [|exact IH]. generalize (seq 0 (length l)). intros q. induction q as [|i q IHq]; [done|].
  cbn. destruct (l !! i); [f_equal|]; exact IHq.
Qed.

Lemma threads_perm l o1 o2 : o1 ≡ₚ o2 → threads l o1 ≡ₚ threads l o2.
Proof. intros Hp. unfold threads. by rewrite Hp. Qed.

Lemma Forall_threads (P : activation → Prop) l order :
  (∀ i a, i ∈ order → l !! i = Some a → P a) → Forall P (threads l order).
Proof. intros Hp. apply Forall_forall. intros a (i & Hi & Ha)%list_elem_of_omap. by eapply Hp. Qed.

(** Four groups in turn. *)
Section groups.
Context (g : nat → nat) (l : list nat).

Definition group (n : nat) : list nat := filter (λ i, g i = n) l.
Definition in_groups : list nat := group 0 ++ (group 1 ++ group 2) ++ group 3.

Lemma elem_of_group i n : i ∈ group n ↔ g i = n ∧ i ∈ l.
Proof. unfold group. by rewrite list_elem_of_filter. Qed.

Lemma before_groups i j :
  (∀ k, g k ≤ 3)%nat → before l i j → (g i ≤ g j)%nat → g i = g j ∨ g i = 0%nat ∨ g j = 3%nat → before in_groups i j.
Proof.
  intros H3 Hb Hle Hg. assert (Hi : i ∈ l) by (destruct Hb as (? & ? & -> & ? & ?); set_solver).
  assert (Hj : j ∈ l) by (destruct Hb as (? & ? & -> & ? & ?); set_solver). unfold in_groups.
  assert (Hin : ∀ k n, g k = n → k ∈ l → k ∈ group n) by (intros; by apply elem_of_group).
  assert (Hsame : g i = g j → before (group (g i)) i j) by (intros; by apply before_filter).
  assert (Hmid : g j = 1%nat ∨ g j = 2%nat → j ∈ group 1 ++ group 2)
    by (intros [?|?]; apply elem_of_app; [left|right]; by apply Hin).
  assert (Hmid' : g i = 1%nat ∨ g i = 2%nat → i ∈ group 1 ++ group 2)
    by (intros [?|?]; apply elem_of_app; [left|right]; by apply Hin).
  pose proof (H3 i) as Hi3. pose proof (H3 j) as Hj3. destruct (decide (g i = g j)) as [He|He].
  - specialize (Hsame He). destruct (g i) as [|[|[|[|]]]] eqn:Hgi; [|..|lia].
    + by apply before_l.
    + by apply before_r, before_l, before_l.
    + by apply before_r, before_l, before_r.
    + by apply before_r, before_r.
  - destruct Hg as [?|[Hz|Ht]]; [done|..].
    + apply before_across; [by apply Hin|]. apply elem_of_app.
      destruct (decide (g j = 3%nat)); [right; by apply Hin|left; apply Hmid; lia].
    + destruct (decide (g i = 0%nat)).
      * apply before_across; [by apply Hin|]. apply elem_of_app. right. by apply Hin.
      * apply before_r, before_across; [apply Hmid'; lia|by apply Hin].
Qed.
End groups.

Lemma in_groups_perm g l : (∀ k, g k ≤ 3)%nat → in_groups g l ≡ₚ l.
Proof.
  intros H3. unfold in_groups, group. induction l as [|i l IH]; [done|]. rewrite !filter_cons. pose proof (H3 i).
  repeat case_decide; try lia; (etrans; [|apply Permutation_cons, IH]); try done; simpl.
  - done.
  - by rewrite <-Permutation_middle.
  - rewrite <-(Permutation_middle (filter _ l) (filter _ l)). simpl. by rewrite <-Permutation_middle.
  - rewrite <-(Permutation_middle (filter _ l ++ _) (filter _ l)). by rewrite <-Permutation_middle.
Qed.

(** ** The refinement *)

(** Requests that keep the executor; killed ones; others that drop it; refused ones. *)
Definition rank_of (H : list hevent) (l : list activation) (i : nat) : nat :=
  match l !! i with
  | Some a => if dropped a then if took a then 1 else 2 else if decide (Begins i false ∈ H) then 3 else 0
  | None => 0
  end.

Lemma rank_bound H l i : (rank_of H l i ≤ 3)%nat.
Proof. unfold rank_of. repeat case_match; lia. Qed.

Section serial.
Context (H : list hevent) (y : Shared * list activation) (Hc : consistent H y) (Hend : Forall ended y.2).

Abbreviation order := (in_groups (rank_of H y.2) (begun H)).
Abbreviation members n := (threads y.2 (group (rank_of H y.2) (begun H) n)).

Lemma order_perm : order ≡ₚ seq 0 (length y.2).
Proof.
  destruct Hc as (Hs & Hw & Hl & _). rewrite in_groups_perm by apply rank_bound.
  apply NoDup_Permutation; [by eapply sound_nodup|apply NoDup_seq|]. intros i. rewrite elem_of_seq. split.
  - intros [a Ha]%Hl. apply lookup_lt_Some in Ha. lia.
  - intros [_ Hi]. destruct (lookup_lt_is_Some_2 y.2 i) as [a Ha]; [lia|]. apply (Hw i a Ha).
    rewrite Forall_lookup in Hend. destruct (Hend i a Ha) as [Hf _]. unfold finished, waits in *. by destruct (av_point a).
Qed.

Lemma order_precedes i j : precedes H i j → before order i j.
Proof.
  destruct Hc as (Hs & _). intros Hp. destruct (sound_precedes _ _ _ _ Hs Hp) as [Hb Hj].
  assert (Hi3 := rank_bound H y.2 i). assert (Hrank : rank_of H y.2 j = 3%nat ∨ rank_of H y.2 i = 0%nat).
  { destruct Hj as [Hj|[Hi (a & Ha & Hd)]]; [left|right]; unfold rank_of.
    - destruct (sound_refusal _ _ _ Hs Hj) as (a & Ha & Hpt). rewrite Ha. unfold dropped. rewrite Hpt. by rewrite decide_True.
    - rewrite Ha, Hd. by rewrite decide_False. }
  apply before_groups; [by apply rank_bound|done| |tauto]. destruct Hrank as [->| ->]; lia.
Qed.

Lemma members_are n (P : activation → Prop) :
  (∀ i a, rank_of H y.2 i = n → y.2 !! i = Some a → P a) → Forall P (members n).
Proof. intros Hp. apply Forall_threads. intros i a [Hr _]%elem_of_group Ha. by eapply Hp. Qed.

Lemma members_keep : Forall (λ a, dropped a = false) (members 0).
Proof. apply members_are. intros i a Hr Ha. unfold rank_of in Hr. rewrite Ha in Hr. by destruct (dropped a), (took a). Qed.

Lemma members_drop : Forall (λ a, dropped a = true) (members 1 ++ members 2).
Proof.
  apply Forall_app. split; apply members_are; intros i a Hr Ha; unfold rank_of in Hr; rewrite Ha in Hr;
    (destruct (dropped a); [done|by case_decide]).
Qed.

Lemma members_killed : Forall (λ a, took a = true) (members 1) ∧ Forall (λ a, took a = false) (members 2).
Proof.
  split; apply members_are; intros i a Hr Ha; unfold rank_of in Hr; rewrite Ha in Hr;
    (destruct (dropped a), (took a); try done; by case_decide).
Qed.

Lemma members_refused : Forall (λ a, av_point a = Answered 500 None ∧ ∃ i, Begins i false ∈ H) (members 3).
Proof.
  apply members_are. intros i a Hr Ha. unfold rank_of in Hr. rewrite Ha in Hr.
  destruct (dropped a); [by destruct (took a)|]. case_decide as Hb; [|done]. destruct Hc as (Hs & _).
  destruct (sound_refusal _ _ _ Hs Hb) as (b & Hb' & Hp). rewrite Ha in Hb'. injection Hb' as <-. eauto.
Qed.

Lemma members_end n : Forall ended (members n).
Proof. apply members_are. intros i a _ Ha. by eapply Forall_lookup_1. Qed.

(** The requests in this order are a life that ends at the stage they leave. *)
Lemma order_lives owed :
  remembers owed y → lives (Alive owed) (outcome <$> threads y.2 order) (stage_of_shared y.1).
Proof.
  intros (Hs & Ho & _). assert (Hp : threads y.2 order ≡ₚ y.2) by (rewrite <-(threads_seq y.2) at 3; apply threads_perm, order_perm).
  rewrite <-(existsb_perm dropped _ _ Hp) in Hs. rewrite <-(existsb_perm took _ _ Hp) in Ho. clear Hp.
  unfold in_groups in *. rewrite !threads_app in *. pose proof members_refused as Href.
  assert (Hd3 : existsb dropped (members 3) = false ∧ existsb took (members 3) = false).
  { split; rewrite (existsb_all _ false); try done; (eapply Forall_impl; [exact Href|]); intros a [Hp _];
      unfold dropped, took; by rewrite Hp. }
  assert (Hd0 : existsb dropped (members 0) = false) by (by rewrite (existsb_all _ false); [|apply members_keep]).
  rewrite !existsb_app in Hs, Ho. destruct Hd3 as [Hd3 Ht3]. rewrite Hd3, Hd0 in Hs. rewrite Ht3 in Ho.
  rewrite orb_false_r in Hs, Ho. simpl in Hs. rewrite <-!existsb_app in Hs. rewrite <-existsb_app in Ho.
  pose proof members_drop as Hdrop. rewrite (existsb_all _ _ _ Hdrop) in Hs. simpl in Hs. rewrite negb_involutive in Hs.
  rewrite !fmap_app, <-fmap_app. apply lives_app. eexists. split; [apply keep_alive; [apply members_end|apply members_keep]|].
  unfold stage_of_shared. rewrite Ho. destruct (decide (members 1 ++ members 2 = [])) as [He|He].
  - rewrite He in *. assert (Hslot : sh_slot y.1 = true) by (rewrite Hs; by apply bool_decide_eq_true_2). rewrite Hslot.
    assert (members 3 = []) as ->.
    { destruct (members 3) as [|a r]; [done|]. apply Forall_cons in Href as [[_ [i Hi]] _].
      destruct Hc as (_ & _ & _ & Hno). by destruct (Hno Hslot i). }
    simpl. rewrite orb_false_r. apply lives_nil. done.
  - rewrite (bool_decide_eq_false_2 _ He) in Hs. rewrite Hs. apply lives_app. eexists. split.
    + apply die; [apply Forall_app; split; apply members_end|done|done|apply members_killed..].
    + rewrite negb_orb, andb_assoc. apply stay_dead. eapply Forall_impl; [exact Href|].
      intros a [Hp _]. exists 500, None. split; [done|]. right. by left.
Qed.
End serial.

(** C12: however the requests of a container overlap, when they have all ended
    there is an order of them, one that keeps to real time, in which the state
    machine of [Container] gives each the status it got (none to one that
    panicked) and ends at the stage they leave. *)
Theorem overlapping_requests_serialize reply is_result owed l H y :
  Forall arrives l → observed reply is_result (installed owed, l) H y → Forall (λ a, finished a = true) y.2 →
  ∃ order, order ≡ₚ seq 0 (length y.2) ∧ (∀ i j, precedes H i j → before order i j) ∧
    lives (Alive owed) (outcome <$> threads y.2 order) (stage_of_shared y.1).
Proof.
  intros Hl Ho Hf. pose proof (observed_consistent _ _ _ _ _ _ Hl Ho) as Hc.
  pose proof (remembers_reachable _ _ _ _ _ Hl (observed_rtc _ _ _ _ _ Ho)) as Hr.
  assert (Hend : Forall ended y.2) by (apply Forall_and; split; [done|apply Hr]).
  eexists. split; [by apply order_perm|]. split; [intros i j; by apply order_precedes|by apply order_lives].
Qed.

(** ** Sample history *)

(** Runs a schedule and notes its history. *)
Fixpoint watched (cs : list choice) (H : list hevent) (x : Shared * list activation) :
    option (list hevent * (Shared * list activation)) :=
  match cs with
  | [] => Some (H, x)
  | c :: cs => y ← fire (process echo) (moves any_result) c x;
               watched cs (H ++ notes 0 (sh_slot x.1) x.2 y.2) y
  end.

Lemma watched_observed cs x H y H' z :
  observed echo any_result x H y → watched cs H y = Some (H', z) → observed echo any_result x H' z.
Proof.
  revert H y. induction cs as [|c cs IH]; simpl; intros H y Ho; [by intros [= <- <-]|].
  intros (w & Hf & Hw)%bind_Some. eapply IH; [|exact Hw]. eapply observed_step; [exact Ho|]. by eapply fire_pstep.
Qed.

(** Two requests at a time: the process answers one of them and exits; a third comes
    when both have ended. *)
Definition three_requests : list activation := two_requests ++ [request "C" "{3}" None].

Definition one_each : list choice :=
  replicate 5 (Thread 0 0) ++ replicate 5 (Thread 1 0) ++ [World 0] ++ replicate 9 (Thread 0 0) ++
  [World 1; World 0] ++ replicate 6 (Thread 1 0) ++ [Thread 2 0].

Definition one_each_end : list hevent * (Shared * list activation) :=
  default ([], (installed true, [])) (watched one_each [] (installed true, three_requests)).

Example one_each_history :
  one_each_end.1 = [Begins 0 true; Begins 1 true; Ends 0; Ends 1; Begins 2 false; Ends 2].
Proof. vm_compute. reflexivity. Qed.

Lemma overlapping_requests_serialize_witness :
  ∃ order, order ≡ₚ [0; 1; 2]%nat ∧ (∀ i j, precedes one_each_end.1 i j → before order i j) ∧
    lives (Alive true) (outcome <$> threads one_each_end.2.2 order) (Dead false).
Proof.
  apply (overlapping_requests_serialize echo any_result true three_requests one_each_end.1 one_each_end.2).
  - repeat constructor; by eexists _, _, _.
  - apply (watched_observed one_each _ [] (installed true, three_requests)); [constructor|]. vm_compute. reflexivity.
  - apply (bool_decide_unpack _). vm_compute. reflexivity.
Defined.
