(* ===== verification/Collisions.v ===== *)
(** * Requests that collide

    Schedules of [Overlap] in which requests served at the same time disturb each
    other, and two monitors that drive one controller ([openwhisk/energyMonitor.go]). *)

From S2P Require Import Prelude Interleave Float64 GoStrings Json Effects Paths Rapl Instrumentation Segments.
From S2P Require Import Freezer EnergyState Channel Monitor Overlap.

Local Open Scope Z_scope.

Section collisions.
Context (reply : string → string) (is_result : string → bool).

Abbreviation step := (pstep (process reply) (moves is_result)).

(** ** What overlapping requests get *)

(** A request that has written its line and waits for its answer. *)
Definition selecting (name input : string) : activation :=
  at_point Selecting (set_reader Reading (request name input None)).

Lemma line_step s l line rest :
  sh_alive s = true → first_line (sh_stdin s) = Some (line, rest) →
  step (s, l) (set_pipes rest (sh_stdout s ++ [reply line]) s, l).
Proof. intros Ha Hl. apply ps_world. unfold process. rewrite Ha, Hl. by left. Qed.

(** The two waiting readers take the answers that are there, in either order. *)
Lemma readers_cross owed n1 i1 n2 i2 r1 r2 :
  rtc step (set_pipes "" [r1; r2] (installed owed), [selecting n1 i1; selecting n2 i2])
    (installed owed, [at_point (Chosen (Some r2)) (set_reader Sent (selecting n1 i1));
                      at_point (Chosen (Some r1)) (set_reader Sent (selecting n2 i2))]).
Proof. by apply (runs_rtc [Thread 1 0; Thread 0 0; Thread 0 0; Thread 1 0]). Qed.

Lemma both_written owed n1 i1 n2 i2 :
  rtc step (installed owed, [request n1 i1 None; request n2 i2 None])
    (set_pipes (((i1 +:+ String nl "") +:+ i2) +:+ String nl "") [] (installed owed), [selecting n1 i1; selecting n2 i2]).
Proof.
  by apply (runs_rtc [Thread 0 0; Thread 0 0; Thread 0 0; Thread 0 0; Thread 0 0;
    Thread 1 0; Thread 1 0; Thread 1 0; Thread 1 0; Thread 1 0]).
Qed.

Lemma both_answered owed line1 line2 l :
  one_line line1 = true → one_line line2 = true →
  rtc step (set_pipes (line1 +:+ String nl (line2 +:+ String nl "")) [] (installed owed), l)
    (set_pipes "" [reply line1; reply line2] (installed owed), l).
Proof.
  intros H1 H2. eapply rtc_l; [apply line_step; [done|by apply first_line_app]|].
  eapply rtc_l; [apply line_step; [done|by apply first_line_app]|]. apply rtc_refl.
Qed.

(** C22: two requests at a time can get each other's answers. *)
Theorem overlapping_requests_swap_answers owed a b :
  one_line a = true → one_line b = true →
  ∃ y, rtc step (installed owed, [request "A" a None; request "B" b None]) y ∧
    av_point <$> y.2 = [Chosen (Some (reply b)); Chosen (Some (reply a))].
Proof.
  intros Ha Hb. eexists. split; [|shelve]. etrans; [apply both_written|].
  rewrite <-!str_app_assoc. etrans; [by apply both_answered|]. apply readers_cross.
  Unshelve. done.
Qed.

Lemma one_line_app a b : one_line (a +:+ b) = one_line a && one_line b.
Proof. unfold one_line. induction a as [|x a IH]; [done|]. simpl. by rewrite IH, andb_assoc. Qed.

Lemma both_torn owed n1 i1 n2 i2 :
  rtc step (installed owed, [request n1 i1 None; request n2 i2 None])
    (set_pipes (((i1 +:+ i2) +:+ String nl "") +:+ String nl "") [] (installed owed), [selecting n1 i1; selecting n2 i2]).
Proof.
  by apply (runs_rtc [Thread 0 0; Thread 0 0; Thread 0 0; Thread 0 0; Thread 1 0; Thread 1 0; Thread 1 0; Thread 1 0;
    Thread 0 0; Thread 1 0]).
Qed.

(** The line and its end are two writes, so two requests at a time can tear each
    other: the action is asked both bodies as one line, and then the empty line.
    *)
Theorem overlapping_requests_tear_lines owed a b :
  one_line a = true → one_line b = true →
  ∃ y, rtc step (installed owed, [request "A" a None; request "B" b None]) y ∧
    av_point <$> y.2 = [Chosen (Some (reply "")); Chosen (Some (reply (a +:+ b)))].
Proof.
  intros Ha Hb. eexists. split; [|shelve]. etrans; [apply both_torn|].
  rewrite <-str_app_assoc. etrans; [apply (both_answered owed (a +:+ b) ""); [by rewrite one_line_app, Ha|done]|].
  apply readers_cross.
  Unshelve. done.
Qed.

(** A request that found the action in place can be left without an answer: the
    handler of another one drops the executor in between, and the call
    dereferences [nil]. *)
Theorem overlapping_request_can_crash owed a b :
  ∃ y, rtc step (installed owed, [request "A" a None; request "B" b None]) y ∧
    av_point <$> y.2 = [Answered 400 None; Panicked].
Proof.
  exists (set_slot false (set_process false true (set_pipes (a +:+ String nl "") [] (installed owed))),
    [at_point (Answered 400 None) (selecting "A" a); at_point Panicked (request "B" b None)]).
  split; [|done].
  by apply (runs_rtc [Thread 0 0; Thread 0 0; Thread 0 0; Thread 1 0; Thread 1 0; World 0; World 0;
    Thread 0 0; Thread 0 0; Thread 0 0; Thread 0 0; Thread 0 0; Thread 0 0; Thread 0 0; Thread 0 0; Thread 1 0]).
Qed.

(** The monitor of a managed step after its first tick; told to stop, and ended. *)
Definition watching (plan : nat → tick) : watch := start_watch {| wt_started := false; wt_plan := plan; wt_next := 1;
  wt_tick := None; wt_told := false; wt_finished := false; wt_cell := new_result |}.

(** The managed step at its [select], once its monitor has noted that. *)
Definition resumed (a : string) (plan : nat → tick) : activation :=
  at_point Selecting (set_reader Reading (set_monitor (Some (watching plan)) (request "A" a None))).

Definition settled (a : string) (plan : nat → tick) : activation :=
  at_point (Settled (Some (reply a))) (set_reader Sent (set_seen (Some new_result)
    (set_monitor (Some (finish_watch (tell (watching plan)))) (request "A" a None)))).

Definition measured (a : string) (plan : nat → tick) (marks : list freezeMark) : activation :=
  at_point (Answered 200 (Some (reply a))) (set_measured (Some marks) (settled a plan)).

(** From its [select] to its end, it measures with the marks that are there. *)
Lemma measures_the_marks a plan marks l :
  one_line a = true → is_result (reply a) = true →
  rtc step (set_shared_marks marks (set_pipes (a +:+ String nl "") [] (installed false)), resumed a plan :: l)
    (set_pushed false [PushRun "A"] (set_shared_marks marks (installed false)), measured a plan marks :: l).
Proof.
  intros Ha Hr. eapply rtc_l; [apply line_step; [done|by apply first_line_app]|].
  etrans; [apply (runs_rtc [Thread 0 0; Thread 0 0; Thread 0 0; Thread 0 0; Thread 0 0]
    _ (set_shared_marks marks (installed false), settled a plan :: l)); reflexivity|].
  eapply rtc_l; [apply (ps_thread _ _ _ (set_shared_marks marks (installed false)) _ 0 (settled a plan)
    (at_point (Measuring (Some (reply a))) (settled a plan))); [done|]|].
  { unfold moves, handler_moves. simpl. rewrite Hr. by left. }
  by apply (runs_rtc [Thread 0 0; Thread 0 0; Thread 0 0]).
Qed.

(** The arrival of another request wipes the marks of a step that was frozen:
    alone it is measured without the time it was frozen, overlapped it is measured
    without any mark, the frozen time included. *)
Theorem overlapping_request_wipes_the_marks a b e1 e2 c1 c2 :
  one_line a = true → is_result (reply a) = true →
  let plan := frozen_once e1 e2 c1 c2 in
  let x := (installed false, [request "A" a (Some plan); request "B" b None]) in
  (∃ y, rtc step x y ∧ y.2 !! 0%nat = Some (measured a plan (noteResume e2 c2 (noteFreeze e1 c1 [])))) ∧
  (∃ y, rtc step x y ∧ y.2 !! 0%nat = Some (measured a plan [])) ∧
  ∀ env eS eE sS sE, segmentedAttribution env eS eE sS sE [] = attributionDetail env eS eE sS sE.
Proof.
  intros Ha Hr plan x. assert (Hx : rtc step x
    (set_shared_marks (noteResume e2 c2 (noteFreeze e1 c1 [])) (set_pipes (a +:+ String nl "") [] (installed false)),
     [resumed a plan; request "B" b None]))
    by (by apply (runs_rtc (replicate 9 (Thread 0 0)))).
  split; [|split; [|done]].
  - eexists. split; [etrans; [exact Hx|]; by apply measures_the_marks|done].
  - eexists. split; [|shelve]. etrans; [exact Hx|].
    etrans; [apply (runs_rtc [Thread 1 0; Thread 1 0; Thread 1 0] _
      (set_shared_marks [] (set_pipes (a +:+ String nl "") [] (installed false)),
       [resumed a plan; at_point Writing (request "B" b None)])); reflexivity|].
    by apply measures_the_marks.
    Unshelve. done.
Qed.
End collisions.

(** ** Two monitors, one controller *)

(** C20: when an ordinary step reaches its threshold while another step of the
    same container is frozen, its freeze is refused and it kills the cgroup they
    share: the frozen step dies with it, UNKILLABLE or not. The kill is written
    whether or not the call then returns; as deployed, without a budget on the
    reaping, it may wait for ever after that, and then the mutex stays taken. *)
Theorem overlapping_pause_kills_a_frozen_step polls energy actionName stepJ pauseID env s w :
  isNonInterruptibleForThisStep (Some energy) = false →
  ac_state (mon_ctl s) = StateFrozen → ac_lastPauseID (mon_ctl s) ≠ pauseID →
  let o := pause_body polls energy actionName stepJ pauseID env s w in
  (∃ new, io_trace (out_io o) = new ++ EvWrite (kill_file (ac_path (mon_ctl s))) "1" :: io_trace w) ∧
  (out_val o = Some (f64_zero, true, pauseID) ∨
   (∃ s' w', o = Cut s' w') ∧ kill_budget env ≤ 0 ∧ ∃ i, env_reap env i = None).
Proof.
  intros Hu Hst Hq. unfold pause_body. rewrite Hu. unfold now, now_wall. run.
  match goal with |- context [(zoom ctl_lens _ ≫= _) env ?s0 ?w0] => set (w1 := w0) end.
  assert (Hfr : ∃ r, freezeExecution pauseID env (mon_ctl s) w1 = Done (Some r) (mon_ctl s) w1).
  { unfold freezeExecution. run. rewrite Hst, (proj2 (String.eqb_neq _ _) Hq). run. by eexists. }
  destruct Hfr as [r Hf]. rewrite (run_done _ _ _ _ _ _ _ _ (zoom_done env ctl_lens _ s w1 _ _ _ Hf)).
  unfold kill_step, now_wall. run.
  match goal with |- context [(zoom ctl_lens _ ≫= _) env ?s0 ?w0] => set (s2 := s0); set (w2 := w0) end.
  destruct (kill_acts pauseID env (view ctl_lens s2) w2) as
    [(r' & a' & w' & Hk & Ha)|(a' & w' & Hk & _ & Hle & _ & _ & Hnone & _ & new & Ht & _)]; [by right| |].
  - rewrite (run_done _ _ _ _ _ _ _ _ (zoom_done env ctl_lens _ s2 w2 _ _ _ Hk)). run.
    destruct Ha as (_ & _ & _ & (new & Ht & _) & _). split; [by exists new|by left].
  - assert (Hz : zoom ctl_lens (killExecution pauseID) env s2 w2 = Cut (put ctl_lens a' s2) w') by (unfold zoom; by rewrite Hk).
    rewrite (run_cut _ _ _ _ _ _ _ Hz). split; [by exists new|]. right. split; [by eexists _, _|done].
Qed.

(** ** Witnesses *)

Lemma overlapping_requests_swap_answers_witness :
  ∃ y, rtc (pstep (process echo) (moves any_result)) (installed true, [request "A" "{1}" None; request "B" "{2}" None]) y ∧
    av_point <$> y.2 = [Chosen (Some "re:{2}"%string); Chosen (Some "re:{1}"%string)].
Proof. by apply (overlapping_requests_swap_answers echo any_result true "{1}" "{2}"). Defined.

Lemma overlapping_requests_tear_lines_witness :
  ∃ y, rtc (pstep (process echo) (moves any_result)) (installed true, [request "A" "{1}" None; request "B" "{2}" None]) y ∧
    av_point <$> y.2 = [Chosen (Some "re:"%string); Chosen (Some "re:{1}{2}"%string)].
Proof. by apply (overlapping_requests_tear_lines echo any_result true "{1}" "{2}"). Defined.

Lemma overlapping_request_wipes_the_marks_witness :
  ∃ y, rtc (pstep (process echo) (moves any_result))
      (installed false, [request "A" "{1}" (Some (frozen_once 5 9 zero_snapshot zero_snapshot)); request "B" "{2}" None]) y ∧
    y.2 !! 0%nat = Some (measured echo "{1}" (frozen_once 5 9 zero_snapshot zero_snapshot) []).
Proof.
  exact (proj1 (proj2 (overlapping_request_wipes_the_marks echo any_result "{1}" "{2}" 5 9 zero_snapshot zero_snapshot
    eq_refl eq_refl))).
Defined.

(** A step frozen under [pause-a] by the monitor of another request. *)
Definition frozen_by_another : Mon :=
  set_ctl {| ac_path := "/c"; ac_cmd := Some 42; ac_state := StateFrozen; ac_reaped := false; ac_lastPauseID := "pause-a" |}
    sample_mon.

Lemma overlapping_pause_kills_a_frozen_step_witness :
  ∃ new, io_trace (out_io (pause_body 1 (spent "COMPENSATABLE") "pay" f64_zero "pause-b" (sample_site kill_answer)
      frozen_by_another io_start)) = new ++ [EvWrite (kill_file "/c") "1"].
Proof.
  apply (overlapping_pause_kills_a_frozen_step 1 (spent "COMPENSATABLE") "pay" f64_zero "pause-b" (sample_site kill_answer)
    frozen_by_another io_start); [reflexivity|reflexivity|discriminate].
Defined.
