(* ===== verification/Diagnostic.v ===== *)
(** * The cluster diagnostic ([cmd/verify_cgroup_pod/main.go])

    A program that drives an executor inside a pod against a scheduler of its own and
    prints a line per check.  Here: its two probes of the counters, the scheduler
    stand-in, and what its checks say.  The body of [main] takes three results from
    [Interact], which has four, so the program does not compile with this version and
    its script of calls is left out. *)

From S2P Require Import Prelude Float64 GoStrings Json Effects Paths Rapl Freezer EnergyState Channel Monitor Segments Executor Progress.

Local Open Scope Z_scope.
Local Open Scope go_scope.

(** ** The probes *)

Definition readEnergyProbe {S} : M S (Z + goerr) :=
  raplPath' ← getenv "RAPL_PATH";
  let path := if (raplPath' =? "")%string
              then "/sys/class/powercap/intel-rapl/intel-rapl:0/energy_uj"%string else raplPath' in
  dat ← read_file path;
  mret (match dat with
        | inl d => match parse_int (trim_space d) with
                   | Some z => inl z
                   | None => inr (EMsg "strconv.ParseInt")
                   end
        | inr e => inr e
        end).

(** The first line of two fields, the first of them [usage_usec], with a number. *)
Fixpoint probe_usec (lines : list string) : Z :=
  match lines with
  | [] => 0
  | line :: rest =>
      match fields line with
      | [k; v] => if (k =? "usage_usec")%string then default (probe_usec rest) (parse_int v) else probe_usec rest
      | _ => probe_usec rest
      end
  end.

Definition readUsageUsec {S} (cpuStatPath : string) : M S Z :=
  dat ← read_file cpuStatPath;
  mret (match dat with inl d => probe_usec (str_split newline d) | inr _ => 0 end).

(** ** The scheduler stand-in *)

(** [pausedEventReceived] and [killedEventReceived]. *)
Record probe := { pausedEventReceived : bool; killedEventReceived : bool }.

(** The error of [json.Unmarshal] is ignored: a member that does not fit is skipped. *)
Definition decode_ignoring {T} (fs : list (field T)) (j : json) (zero : T) : T :=
  match j with
  | JObj l => foldl (λ t kv, match find_field fs kv.1 with Some f => default t (fld_set f kv.2 t) | None => t end) zero l
  | _ => zero
  end.

(** The identifiers of an [ExecutionPausedEvent], all that is used of it. *)
Record paused_ids := { id_trace : string; id_reservation : string; id_pause : string }.

Definition paused_fields : list (field paused_ids) :=
  [str_field "event" (λ _ e, e);
   str_field "trace_id" (λ x e, {| id_trace := x; id_reservation := id_reservation e; id_pause := id_pause e |});
   str_field "reservation_id" (λ x e, {| id_trace := id_trace e; id_reservation := x; id_pause := id_pause e |});
   str_field "pause_id" (λ x e, {| id_trace := id_trace e; id_reservation := id_reservation e; id_pause := x |});
   str_field "action_name" (λ _ e, e); str_field "execution_phase" (λ _ e, e);
   f64_field "energy_consumed_j" (λ _ e, e); f64_field "pause_requested_at" (λ _ e, e);
   f64_field "pause_effective_at" (λ _ e, e); f64_field "freeze_latency_ms" (λ _ e, e)].

Definition no_ids : paused_ids := {| id_trace := ""; id_reservation := ""; id_pause := "" |}.

Definition generous : f64 := f64_of_Z 1000000000.

(** [json.Encoder] on the command: [reason] is empty, so omitted. *)
Definition resume_json (e : paused_ids) : json :=
  JObj [("command", JStr "RESUME_EXECUTION"); ("trace_id", JStr (id_trace e));
        ("reservation_id", JStr (id_reservation e)); ("pause_id", JStr (id_pause e));
        ("new_execution_threshold_j", JNum generous)]%string.

(** [generic["event"]] *)
Definition event_name (body : json) : option json :=
  match body with JObj l => members_map l !! "event"%string | _ => None end.

Definition stand_in (body : json) (p : probe) : probe * http_result :=
  match event_name body with
  | Some (JStr e) =>
      if (e =? "EXECUTION_PAUSED")%string then
        ({| pausedEventReceived := true; killedEventReceived := killedEventReceived p |},
         HttpResp 200 (BodyJson (resume_json (decode_ignoring paused_fields body no_ids))))
      else if (e =? "EXECUTION_KILLED")%string then
        ({| pausedEventReceived := pausedEventReceived p; killedEventReceived := true |},
         HttpResp 200 (BodyJson (JObj [("ack"%string, JBool true)])))
      else (p, HttpResp 400 (BodyInvalid (EMsg "EOF")))
  | _ => (p, HttpResp 400 (BodyInvalid (EMsg "EOF")))
  end.

(** ** The checks *)

(** [check]: the lines it prints, newest first, and [failed]. *)
Record report := { rp_lines : list (string * bool); failed : bool }.

Definition check (name : string) (ok : bool) (r : report) : report :=
  {| rp_lines := (name, ok) :: rp_lines r; failed := if ok then failed r else true |}.

(** The exit status of [main]. *)
Definition verdict (r : report) : Z := if failed r then 1 else 0.

(** Section 3.  The path the process was placed in against the one the measurement
    resolves. *)
Definition path_match (controllerPath : string) (resolved : string + goerr) : bool :=
  match resolved with
  | inl resolvedStatPath => (resolvedStatPath =? controllerPath +:+ "/cpu.stat")%string
  | inr _ => false
  end.

(** The loop of section 3 goes on to the last line, unlike [readUsageUsec]. *)
Definition sample_usec (lines : list string) : Z :=
  foldl (λ usec line, match fields line with
                      | [k; v] => if (k =? "usage_usec")%string then default usec (parse_int v) else usec
                      | _ => usec
                      end) 0 lines.

Fixpoint sample_loop {S} (n : nat) (resolvedStatPath : string) : M S (list Z) :=
  match n with
  | O => mret []
  | Datatypes.S n =>
      dat ← read_file resolvedStatPath;
      sleep (500 * 1000000);;
      samples ← sample_loop n resolvedStatPath;
      mret (match dat with inl d => sample_usec (str_split newline d) :: samples | inr _ => samples end)
  end.

(** The samples of [usage_usec] must grow from the first to the last. *)
Definition growing (samples : list Z) : bool :=
  (2 <=? Z.of_nat (length samples)) && (nth 0 samples 0 <? nth (length samples - 1) samples 0).

(** Section 3: the two checks. *)
Definition section_3 {S} (controllerPath : string) (pid : Z) (r : report) : M S report :=
  resolved ← ResolveCgroupCPUStatPath pid;
  let r := check "Path match: ActivationController.CgroupPath() vs readProcessTicks' own resolution"
             (path_match controllerPath resolved) r in
  sleep (100 * 1000000);;
  samples ← match resolved with
            | inl path => sample_loop 8 path
            | inr _ => sleep (8 * (500 * 1000000));; mret []
            end;
  mret (check "usage_usec actually grows over ~4s of real CPU work (not frozen)" (growing samples) r).

(** Section 2: the checks of the round trip, on what [Interact] returned and the
    stand-in saw. *)
Definition round_trip (p : probe) (out : string) (ierr : option goerr) (killInfo : option (f64 * string)) (r : report) : report :=
  check "Full round trip: action's real output received" (bool_decide (ierr = None) && (0 <? Z.of_nat (String.length out)))
  (check "Full round trip: process resumed and completed (killInfo nil)" (bool_decide (killInfo = None))
  (check "Full round trip: no EXECUTION_KILLED (resume was granted)" (negb (killedEventReceived p))
  (check "Full round trip: EXECUTION_PAUSED sent to embedded scheduler" (pausedEventReceived p) r))).

(** The energy state of section 2.  The check of section 4 is left out: its executor is
    never started, so its [Interact] waits for ever and the check is not reached. *)
Definition round_trip_energy : EnergyState :=
  {| TraceID := "verify-pod-trace"; ReservationID := "verify-pod-trace"; ExecutionPhase := "forward";
     ExecutionThresholdJ := f64_one; ConsumedBeforeJ := f64_one; PauseEnabled := true; PauseMode := "CGROUP_FREEZE";
     MaxPauseDurationMs := 2000; MaxPauseCount := 1; InterruptionClass := Some {["" := "KILL_SAFE"]};
     ResolvedActionName := "" |}%string.

(** ** Theorems *)

(** [cpu.stat] as the kernel writes it: a name, a blank and a number per line. *)
Definition word (s : string) : bool := negb (s =? "")%string && str_all (λ a, negb (is_space a)) s.

Definition kernel_line (line : string) : Prop :=
  line = ""%string ∨ ∃ k v, line = (k +:+ String " " v)%string ∧ word k = true ∧ word v = true ∧ is_Some (parse_int v).

Lemma split_word s : str_all (λ a, negb (is_space a)) s = true → split_space s = [s].
Proof.
  induction s as [|a s IH]; simpl; [done|]. intros [Ha Hs]%andb_true_iff. apply negb_true_iff in Ha.
  rewrite Ha. by rewrite IH.
Qed.

Lemma split_words k s : str_all (λ a, negb (is_space a)) k = true → split_space (k +:+ String " " s) = k :: split_space s.
Proof.
  induction k as [|a k IH]; [done|]. simpl. intros [Ha Hk]%andb_true_iff. apply negb_true_iff in Ha.
  rewrite Ha. by rewrite IH.
Qed.

Lemma fields_two k v : word k = true → word v = true → fields (k +:+ String " " v) = [k; v].
Proof.
  unfold word, fields. intros [Hk1 Hk]%andb_true_iff [Hv1 Hv]%andb_true_iff.
  rewrite split_words, split_word by done. simpl. by rewrite Hk1, Hv1.
Qed.

Lemma prefix_word p k v :
  word p = true → word k = true → has_prefix (k +:+ String " " v) (p +:+ " ") = (k =? p)%string.
Proof.
  unfold word, has_prefix. intros [_ Hp]%andb_true_iff [_ Hk]%andb_true_iff.
  revert k Hk. induction p as [|a p IH]; intros [|b k] Hk; [by destruct v| | |].
  - change (String.prefix (String " " "") (String b (k +:+ String " " v)) = false). cbn [String.prefix].
    simpl in Hk. apply andb_true_iff in Hk as [Hb _]. destruct (ascii_dec " " b) as [<-|]; [by vm_compute in Hb|done].
  - change (String.prefix (String a (p +:+ " ")) (String " " v) = false). cbn [String.prefix].
    simpl in Hp. apply andb_true_iff in Hp as [Ha _]. destruct (ascii_dec a " ") as [->|]; [by vm_compute in Ha|done].
  - change (String.prefix (String a (p +:+ " ")) (String b (k +:+ String " " v)) = (String b k =? String a p)%string).
    cbn [String.prefix String.eqb].
    simpl in Hp, Hk. apply andb_true_iff in Hk as [_ Hk], Hp as [_ Hp]. specialize (IH Hp k Hk).
    destruct (ascii_dec a b) as [->|Hab]; [by rewrite Ascii.eqb_refl|].
    destruct (Ascii.eqb_spec b a) as [->|]; done.
Qed.

Lemma probe_line path lines :
  Forall kernel_line lines →
  probe_usec lines = match usage_usec path lines with inl n => n | inr _ => 0 end.
Proof.
  induction 1 as [|line lines [->|(k & v & -> & Hk & Hv & [n Hn])] _ IH]; [done|done|]. cbn [probe_usec usage_usec].
  rewrite (fields_two k v Hk Hv), (prefix_word "usage_usec" k v eq_refl Hk : has_prefix _ "usage_usec " = _).
  destruct (k =? "usage_usec")%string; [|exact IH]. cbn. by rewrite Hn.
Qed.

(** On a [cpu.stat] as the kernel writes it the probe of the diagnostic reads the
    CPU time that the runtime measures, or 0 where the runtime has an error. *)
Theorem probe_agrees_with_runtime {S} path env (s : S) w :
  (∀ d, env_read env (io_step w) path = inl d → Forall kernel_line (str_split newline d)) →
  ∃ r w', readCgroupV2CPUUsec path env s w = Done r s w' ∧
    readUsageUsec path env s w = Done (match r with inl n => n | inr _ => 0 end) s w'.
Proof.
  intros Hd. unfold readCgroupV2CPUUsec, readUsageUsec, read_file. run.
  destruct (env_read env (io_step w) path) as [d|e]; [|by eexists _, _].
  eexists _, _. split; [done|]. by rewrite (probe_line path) by by apply Hd.
Qed.

(** On other files they part ways: a third field, a blank in front, a bad first number. *)
Example probe_drifts :
  (probe_usec ["usage_usec 5 6"], usage_usec "/c" ["usage_usec 5 6"]) = (0, inl 5) ∧
  (probe_usec [" usage_usec 5"], usage_usec "/c" [" usage_usec 5"]) = (5, inr (EMsg "usage_usec not found in /c")) ∧
  (probe_usec ["usage_usec x"; "usage_usec 5"], usage_usec "/c" ["usage_usec x"; "usage_usec 5"]) =
    (5, inr (EMsg "strconv.ParseInt")).
Proof. by split_and!. Qed.

(** Section 3's first check passes on cgroups v2 mounted where the measurement looks: the
    cgroup a process reports is the one whose CPU time is measured. *)
Lemma path_check_passes {S} rel pid d n env (s : S) w :
  0 < pid → trim_space rel = rel → str_all (λ a, negb (a =? newline)%char) rel = true →
  (∀ i, env_read env i ("/proc/" +:+ pretty pid +:+ "/cgroup") = inl ("0::/" +:+ rel +:+ String newline "")) →
  (∀ i, env_read env i ("/sys/fs/cgroup/" +:+ rel +:+ "/cpu.stat") = inl d) →
  usage_usec ("/sys/fs/cgroup/" +:+ rel +:+ "/cpu.stat") (str_split newline d) = inl n →
  ∃ r w', ResolveCgroupCPUStatPath pid env s w = Done r s w' ∧ path_match ("/sys/fs/cgroup/" +:+ rel) r = true.
Proof.
  intros Hp Ht Hl Hc Hs Hn. unfold ResolveCgroupCPUStatPath, read_file.
  destruct (Z.leb_spec pid 0); [lia|]. run. rewrite Hc.
  rewrite (str_app_assoc "0::/"), str_split_app, split_single by done. cbn [app path_v2].
  assert (has_prefix ("0::/" +:+ rel) "0::/" = true) as -> by (simpl; by destruct rel). cbn [negb].
  rewrite trim_app, Ht. unfold readCgroupV2CPUUsec, read_file. run. rewrite Hs, Hn. run.
  eexists _, _. split; [done|]. unfold path_match. rewrite <-str_app_assoc. apply String.eqb_refl.
Qed.

(** The step of section 2 is declared KILL_SAFE under the empty name, the name it has; but
    the monitor takes a step without a name for one of unknown class, whatever the map
    says, and does not monitor it. *)
Lemma diagnostic_step_is_unmonitored :
  (InterruptionClass round_trip_energy ≫= λ m, m !! ResolvedActionName round_trip_energy) = Some "KILL_SAFE"%string ∧
  isNonInterruptibleForThisStep (Some round_trip_energy) = true ∧ monitored (Some round_trip_energy) = false.
Proof. split; [reflexivity|]. split; [reflexivity|]. vm_compute. reflexivity. Qed.

(** The first reading would have reached its threshold, whatever energy it showed. *)
Example first_tick_would_reach_threshold :
  f64_ltb (ConsumedBeforeJ round_trip_energy ⊕ f64_zero) (ExecutionThresholdJ round_trip_energy) = false.
Proof. vm_compute. reflexivity. Qed.

(** What the stand-in has seen of a trace, newest first. *)
Definition heard (tr : list event) (p : probe) : probe :=
  foldr (λ e p, match e with EvPost _ body _ => (stand_in body p).1 | _ => p end) p tr.

Definition no_event : probe := {| pausedEventReceived := false; killedEventReceived := false |}.

Lemma heard_nothing tr p :
  Forall (λ e, match e with EvWrite _ _ | EvPost _ _ _ => False | _ => True end) tr → heard tr p = p.
Proof. induction 1 as [|e tr He _ IH]; [done|]. simpl. by destruct e. Qed.

(** [Interact] with the energy state of section 2 leaves the stand-in alone. *)
Lemma diagnostic_interact ticks polls input env q w i q' w' new :
  Interact ticks polls input (Some round_trip_energy) env q w = Done i q' w' → io_trace w' = new ++ io_trace w →
  heard new no_event = no_event ∧ in_killInfo i = None.
Proof.
  intros Hr Ht. destruct diagnostic_step_is_unmonitored as (_ & _ & Hm).
  destruct (unmonitored_action_is_untouched ticks polls input (Some round_trip_energy) env q w Hm)
    as (i' & w1 & n & Hr' & Ht' & Hf & Hk & _).
  rewrite Hr in Hr'. simplify_eq. rewrite Ht' in Ht. apply app_inv_tail in Ht as <-.
  by rewrite heard_nothing.
Qed.

(** Section 2 fails on a pod where everything works: its step is not monitored, so the
    stand-in never hears of a pause, and the check that it did fails whatever the
    action answers. *)
Theorem diagnostic_cannot_see_a_pause ticks polls input env q w i q' w' new :
  Interact ticks polls input (Some round_trip_energy) env q w = Done i q' w' → io_trace w' = new ++ io_trace w →
  ∀ out ierr r, verdict (round_trip (heard new no_event) out ierr
    ((λ k, (ki_EnergyConsumedJ k, ki_PauseID k)) <$> in_killInfo i) r) = 1.
Proof.
  intros Hr Ht out ierr r. destruct (diagnostic_interact _ _ _ _ _ _ _ _ _ _ Hr Ht) as [Hp Hk].
  rewrite Hp, Hk. unfold verdict, round_trip. by destruct (bool_decide (ierr = None)), (0 <? Z.of_nat (String.length out)).
Qed.

(** The exit status says whether a check failed. *)
Definition run_checks (l : list (string * bool)) : report :=
  foldl (λ r c, check c.1 c.2 r) {| rp_lines := []; failed := false |} l.

Lemma verdict_reflects_checks l : verdict (run_checks l) = 0 ↔ Forall (λ c, c.2 = true) l.
Proof.
  unfold run_checks. assert (Hr : ∀ r, failed (foldl (λ r c, check c.1 c.2 r) r l) = failed r || negb (forallb snd l)).
  { induction l as [|[n b] l IH]; intros r; simpl; [by rewrite orb_false_r|]. rewrite IH. simpl.
    by destruct b, (failed r). }
  unfold verdict. rewrite Hr, orb_false_l. rewrite Forall_forall.
  destruct (forallb snd l) eqn:Hl; simpl; (split; [intros H|intros H]); try done.
  - intros c Hc. rewrite forallb_forall in Hl. by apply Hl, list_elem_of_In.
  - assert (forallb snd l = true); [|congruence]. apply forallb_forall. intros c Hc. by apply H, list_elem_of_In.
Qed.

(** ** The round trip with the stand-in *)

(** What the stand-in makes of a paused event and the monitor of its answer. *)
Definition granted (event : ExecutionPausedEvent) : SchedulerCommand :=
  {| cmd_Command := "RESUME_EXECUTION"; cmd_TraceID := pe_TraceID event; cmd_ReservationID := pe_ReservationID event;
     cmd_PauseID := pe_PauseID event; cmd_NewExecutionThresholdJ := generous; cmd_Reason := "" |}.

Lemma stand_in_grants event p :
  ∃ j, stand_in (paused_json event) p =
    ({| pausedEventReceived := true; killedEventReceived := killedEventReceived p |}, HttpResp 200 (BodyJson j)) ∧
    decode_struct command_fields j zero_command = Some (granted event).
Proof. eexists. split; reflexivity. Qed.

(** The stand-in as the scheduler: reached over the loopback in time. *)
Definition served (env : Env) (timeout : Z) : Prop :=
  ∀ i, env_conn_reused env i = true ∧ 2 * Z.of_N (env_elapsed env i) ≤ timeout ∧
    ∀ url body, ∃ p, env_http env i url body = (stand_in body p).2.

Lemma served_grants env timeout event : served env timeout → grants_by env 0 timeout event.
Proof.
  intros Hs i _. destruct (Hs i) as (Hc & He & Hh). split; [done|]. split; [done|].
  destruct (Hh (events_url env) (paused_json event)) as (p & ->).
  destruct (stand_in_grants event p) as (j & -> & Hj). by eexists _, _, _.
Qed.

(** The round trip the diagnostic checks: a step frozen by its monitor, UNKILLABLE
    or not, whose pause goes to the stand-in, runs again under the stand-in's
    threshold after one poll, provided the kernel thaws. *)
Theorem stand_in_resumes polls energy unkillable event env s w :
  thaws env (ac_path (mon_ctl s)) → frozen_in (pe_PauseID event) s →
  served env (paused_timeout env (MaxPauseDurationMs energy)) →
  json_encodable (paused_json event) = true → env_url env (events_url env) = None →
  ∃ s' w', pause_loop (S polls) energy unkillable event env s w = Done (generous, false, pe_PauseID event) s' w' ∧
    ac_state (mon_ctl s') = StateRunning.
Proof.
  intros Ht Hf Hs He Hu.
  destruct (granted_answer env 0 event (MaxPauseDurationMs energy) (mon_chan s) w (served_grants _ _ _ Hs)
    ltac:(lia) He Hu) as (command & t & c & w1 & Hp & (i & status & j & Hh & Hj) & Hcmd & Hid).
  assert (Hthr : cmd_NewExecutionThresholdJ command = generous).
  { destruct (Hs i) as (_ & _ & Hb). destruct (Hb (events_url env) (paused_json event)) as (p & Hb').
    rewrite Hh in Hb'. destruct (stand_in_grants event p) as (j' & Hst & Hj'). rewrite Hst in Hb'. simpl in Hb'.
    by simplify_eq. }
  cbn [pause_loop]. run. rewrite (run_done _ _ _ _ _ _ _ _ (zoom_done env chan_lens _ s w _ _ _ Hp)). run.
  rewrite Hid, String.eqb_refl. cbn [negb]. rewrite Hcmd. simpl.
  match goal with |- context [(resume_step _ _ ≫= _) env ?s0 ?w0] =>
    destruct (resume_step_obeyed energy (pe_PauseID event) env s0 w0 Ht Hf) as (s2 & w3 & Hr & Hst);
    rewrite (run_done _ _ _ _ _ _ _ _ Hr) end.
  run. rewrite Hthr. by eexists _, _.
Qed.

(** ** Witnesses *)

Lemma diagnostic_cannot_see_a_pause_witness :
  ∃ i new, in_answer i = None ∧ ∀ r, verdict (round_trip (heard new no_event) "{}" None None r) = 1.
Proof.
  destruct (Interact 1 1 (BodyJson JNull) (Some round_trip_energy) (sample_site kill_answer) sample_proc io_start)
    as [i q' w'|q' w'|msg q' w'] eqn:Hr; [|vm_compute in Hr; discriminate Hr..].
  assert (Ha : in_answer i = None ∧ in_killInfo i = None) by (vm_compute in Hr; injection Hr as <- _ _; done).
  destruct Ha as [Ha Hk]. exists i, (io_trace w'). split; [exact Ha|]. intros r.
  pose proof (diagnostic_cannot_see_a_pause 1 1 (BodyJson JNull) (sample_site kill_answer) sample_proc
    io_start i q' w' (io_trace w') Hr) as H. rewrite Hk in H. apply H. by rewrite app_nil_r.
Defined.

Definition pod_stat : string := "usage_usec 4711" +:+ String newline ("user_usec 4000" +:+ String newline "").

Lemma probe_agrees_with_runtime_witness :
  let env := sample_env [] [("/c/cpu.stat"%string, pod_stat)] (λ _, None) (λ _, HttpErr EDeadline) true None in
  ∃ r w', readCgroupV2CPUUsec "/c/cpu.stat" env () io_start = Done r () w' ∧
    readUsageUsec "/c/cpu.stat" env () io_start = Done (match r with inl n => n | inr _ => 0 end) () w'.
Proof.
  intros env. apply (probe_agrees_with_runtime "/c/cpu.stat" env () io_start). intros d Hd.
  assert (d = pod_stat) as -> by (vm_compute in Hd; vm_compute; congruence).
  apply Forall_cons. split; [right; exists "usage_usec"%string, "4711"%string; repeat split; by eexists|].
  apply Forall_cons. split; [right; exists "user_usec"%string, "4000"%string; repeat split; by eexists|].
  repeat constructor.
Defined.

(** A pod whose kernel thaws and whose scheduler is the stand-in. *)
Definition pod : Env :=
  pooled (sample_env [] [(energy_file, "1000"); ("/c/cgroup.events", "populated 1" +:+ String newline "frozen 0")]%string
    (λ _, None) (λ body, (stand_in body {| pausedEventReceived := false; killedEventReceived := false |}).2) true None).

Lemma stand_in_resumes_witness :
  ∃ s' w', pause_loop 1 (spent "COMPENSATABLE") false frozen_event pod frozen_mon io_start =
      Done (generous, false, "pause-1"%string) s' w' ∧ ac_state (mon_ctl s') = StateRunning.
Proof.
  apply (stand_in_resumes 0 (spent "COMPENSATABLE") false frozen_event pod frozen_mon io_start).
  - split; [by intros i|]. intros i. eexists. split; vm_compute; reflexivity.
  - by split.
  - intros i. split; [done|]. split; [apply (bool_decide_unpack _); vm_compute; reflexivity|].
    intros url body. by eexists.
  - vm_compute. reflexivity.
  - reflexivity.
Defined.
